(* ===== verification/_CoqProject ===== *)
-Q . S2P
Prelude.v
GoStd.v
GoFmt.v
GoPath.v
GoFlag.v
Effects.v
Nic.v
Host.v
Manager.v
ManagerSpec.v
Rpc.v
Goroutines.v
PluginMain.v
Worker.v
WorkerSpec.v
ApiTypes.v
Client.v
OperatorMain.v
Labels.v
Modules.v
NodeLabels.v
DevicePluginDS.v
Upgrade.v
Reconcile.v
ApiServer.v
MemServer.v
Samples.v
ClusterSpec.v
RefineLabels.v
Refinement.v
NodeMachine.v
Progress.v
Convergence.v
StaleLabel.v
Heap.v
DeepCopy.v
Quiescence.v
UpgradeSafety.v
UpgradeOrder.v
NodeLabelsSpec.v
LabelSafety.v
Settled.v
ObjectsSpec.v
Crashes.v
System.v
