(* ===== verification/Prelude.v ===== *)
(** * The Onload Operator for Kubernetes: a verification development

    ** The program

    The repository holds three programs that put Onload, a kernel-bypass network
    stack, on the nodes of a Kubernetes cluster.

    - The operator (src/main.go, src/controllers/onload_controller.go,
      src/api/v1alpha1) reconciles custom resources of kind [Onload].  For each it
      labels the nodes that the resource selects, so that the Kernel Module
      Management operator (KMM) loads the [onload] and [sfc] modules there; keeps
      the two KMM [Module] objects; keeps a DaemonSet with the other two programs;
      and moves nodes to a new version, one at a time.
    - The device plugin (src/cmd/deviceplugin, src/pkg/deviceplugin) runs on each
      labelled node.  It finds the Solarflare interfaces, offers the resource
      amd.com/onload to the kubelet, and tells it what to mount into containers.
    - The worker (src/cmd/worker, src/pkg/client_helper, src/pkg/control_plane)
      runs beside it and tells the kernel module which container is to run the
      Onload control plane server.

    The operator and the other two programs share no state: they meet in the
    DaemonSet (arguments, environment, mounts), in node labels, and in the name of
    the resource.

    ** How the program is modelled

    A Go function that calls code outside of the repository is a tree of calls
    ([Effects.prog]), with one branch for each reply.  Nothing is assumed about
    the replies.  A theorem about a function is about all of its runs, given by a
    weakest precondition ([wp]), a safety property of the calls ([hsafe]), or the
    relation [runs] between a function, a trace of calls and replies, and an
    outcome; [exec] runs a function against one environment, and [denote] is the
    same without the trace, a function on states.  A panic and [glog.Fatal] are the outcome [Crashed].  A Go [(result, error)]
    is a sum or a pair, as the code uses it; what a phase of the reconciliation
    returns, a result that may be nil and an error, is [phase_result], a pair of
    options.  A pointer is an option; a map that may be nil is [gomap]; an [int] is a [Z] within the
    stated range where it matters; a string is a byte string.  Where a callee
    writes to a label map of its caller, it returns the map.

    Code outside of the repository that is a function of its arguments is a
    parameter, in a class: [ApiTypes.Apimachinery] (selectors, quantities, the
    classification of API errors, owner references), [Host.PluginApi] (the
    constants of the device plugin API), [Worker.BackOff] with
    [WorkerSpec.BackOffLaws] (the back-off of client-go: a delay is never less than
    the initial one), [DeepCopy.Metav1] with [DeepCopy.Metav1Copy] (the metadata
    types and their own deep copies).  [ApiServer.ApiErrors] adds to the first the
    error of an object that is not there, and [ClusterSpec.library_laws] what the
    refinement needs of it: that a label selector selects by labels.  [MemServer],
    [ManagerSpec], [WorkerSpec] and [DeepCopy] have an instance of each, for the
    witnesses.

    The operator is looked at twice.  The first group of its theorems is about all
    runs, whatever is replied.  The second is about runs against [ApiServer], a
    server that answers from its state: there [Reconcile] is a function on clusters,
    specified by [ClusterSpec] without calls, listings or errors, and it can be run
    again and again.

    ** The files

    Common parts:
    - [Prelude]: notations, and generic lemmas.
    - [GoStd], [GoFmt], [GoPath]: what the program uses of Go's standard library
      (package [strings], maps and slices; formatting and parsing of numbers and
      booleans; paths), with the facts the components need, among them that
      formatting is inverted by parsing and that joining inverts splitting.
    - [GoFlag]: the loop of package flag over the command line.
    - [Effects]: programs, runs, [wp], [hsafe], and the tactics [wp_go] and
      [hsafe_go] that compute them, with the hint databases [wp] and [hsafe] that
      hold the specifications of the named functions.

    The operator, in src/controllers/onload_controller.go if not said otherwise:
    - [ApiTypes]: the custom resource (src/api/v1alpha1/onload_types.go) and the
      fields of the Kubernetes and KMM objects that the program uses.
    - [Client]: the calls of the API client.
    - [Labels]: the names of labels and objects; [Labels.label_of_inj].
    - [Modules]: createModule, createAndAddModules, patchModule, handleModuleUpdate.
    - [NodeLabels]: deleteLabels, addKmmLabelsToNodes, addOnloadLabelsToNodes,
      removeStaleLabels.
    - [DevicePluginDS]: createDevicePluginDaemonSet, handleDevicePluginUpdate.
    - [Upgrade]: getNodesToUpgrade, evictOnloadedPods, handleNodeUpdate,
      handleUpdate.
    - [Reconcile]: Reconcile and nodeLabelWatchFunc.
    - [OperatorMain]: src/main.go and SetupWithManager.
    - [ApiServer], [MemServer], [Samples]: an API server, concrete Kubernetes
      libraries for it, and sample clusters.
    - [ClusterSpec]: what a reconciliation does to a cluster: [spec_reconcile], and
      under it one transformation for each phase; [wf], the well-formed clusters.
    - [NodeMachine]: a node as a state machine ([node_step]), with a measure.
    - [Heap], [DeepCopy]: zz_generated.deepcopy.go, on a heap of objects with
      pointers between them.

    The device plugin:
    - [Host]: the calls to the operating system, to gRPC and to the pod API.
    - [Nic]: nic.go, with a matcher for its regular expression.
    - [Manager]: manager.go and mounts.go; the record [NicManager] is the state.
    - [Rpc]: rpc.go and callbacks.go, and the main goroutine of NicManager.Run.
    - [Goroutines]: that goroutine and the one of Serve, in any order of steps, with
      the wait group that joins them.
    - [PluginMain]: src/cmd/deviceplugin/main.go.

    The worker:
    - [Worker]: client_helper.go, control_plane.go, kernel_parameters.go and
      src/cmd/worker/main.go.

    ** What the theorems show

    Of the operator, against a server that does not fail:
    - [RefineLabels], [Refinement]: [Reconcile] computes exactly [spec_reconcile],
      function by function, and keeps clusters well-formed.
    - [Progress]: every phase that changes something takes work off a measure of the
      cluster, none adds to it, and nodes move along [node_step] only.
    - [Convergence]: nothing is done exactly when the cluster is as the resource
      wants it; and repeated reconciliations get there and rest, with an environment
      that may be slow but does its part again and again (KMM unloads, the device
      plugin and evicted pods leave).  The resource must select by labels that are
      not the operator's own, have a version, and the labels of each node must agree
      on one version ([NodeMachine.coherent], which reconciliations preserve).
    - [StaleLabel]: without the last an upgrade may wait for ever, and how an
      administrator gets there, which is a defect.
    - [OperatorMain]: the operator starts its controllers after all that comes before
      has succeeded, with the addresses and the image it was given, for the objects
      that [Reconcile] depends on.

    Of the operator, whatever the API server answers:
    - [UpgradeSafety]: the labels that keep a kernel module loaded leave a node
      only if the resource does not select it, or if the operator's label was gone
      and the device plugin and the pods that use Onload were seen gone before, in
      the same reconciliation.
    - [Quiescence], [Settled]: a reconciliation that does not ask to be run again
      has changed nothing, and has seen every listed object in the state that the
      resource asks for.
    - [LabelSafety]: a reconciliation touches no label of another resource, adds a
      KMM label only under the conditions of the code, and acts on a resource only
      if all names and label keys derived from it are within their limits (the
      version, which becomes a label value, is not checked).
    - [UpgradeOrder]: one node at a time, the SFC module before the Onload module,
      and exactly the pods that use Onload are evicted; and a failed listing of the
      pods does not stop the upgrade, which is a defect.
    - [NodeLabelsSpec]: the exact patches of each labelling phase.
    - [ObjectsSpec]: each change of a Module or of the DaemonSet is justified by the
      read before it; an update in place gives the object of a fresh installation;
      the parts of the DaemonSet fit together; the kernel mappings and their builds
      are those asked for.
    - [Crashes]: the only panics, and the objects they need.

    Of the device plugin:
    - [Nic]: on a well-formed table [parseOutput] returns the device column of the
      Solarflare rows; it panics on short output, and it returns a piece of the
      path for a row without a device, which are defects.
    - [Manager], [ManagerSpec]: all runs of the start of the plugin, and the devices,
      mounts and environment that it prepares for containers; mounts do not collide,
      and the preloaded library is mounted.
    - [Rpc]: the orders of serving, waiting, registering and reporting.
    - [Goroutines]: the plugin registers only when its server listens, at most once,
      and the two goroutines do not block each other; [old_socket_registers_early]
      shows what the proviso is for, that nobody else listens on its socket.

    Of the generated code:
    - [Heap], [DeepCopy]: a deep copy is the same value in new objects only, so that
      no change to one is seen in the other.

    Of the worker:
    - [WorkerSpec]: which container is found, that polling ends, and the writes.

    Of the programs together:
    - [System]: the device plugin reads back the configuration of the resource from
      its arguments and registers the resource that the operator looks for, on the
      socket directory that is mounted; the worker configures the container and the
      parameters that the resource asks for.

    ** Fuel

    Loops over lists are structural.  [Split] has the length of its argument as
    fuel, and [GoStd.split_fuel_enough] shows that more makes no difference.  Three
    loops of the source have no bound of their own.  The polling of the worker ends
    by a deadline: with 52 iterations the fuel is never exhausted
    ([WorkerSpec.GetContainerID_fuel]).  [WaitUntilUp] ends when the server answers:
    it exhausts its fuel only if that many dials failed ([Rpc.Run_spec]).
    [ListAndWatch] is meant not to end: its theorem is about any number of rounds.

    ** What is not modelled

    Log messages are left out.  The registration of types with a scheme
    (src/api/v1alpha1/groupversion_info.go) is a call of the library, and the mock
    client is generated, for the tests.  The status of the custom resource is
    neither read nor written by the program, only copied.  [ApiServer] answers at
    once and with the current state: the cache of the client, and two controllers
    at work on different resources at the same time, are not in the runs of
    [Convergence]; the theorems about all runs cover them.  The fuel of
    [WaitUntilUp] bounds the dials in [Goroutines] as well.

    ** Plan

    Next: several resources at once against one server (their reconciliations
    interleaved, which [LabelSafety.reconcile_isolated] prepares); a client whose
    reads lag behind its writes; the sharing of objects with the client's cache, on
    the heap of [DeepCopy]; and the kubelet's side of the device plugin, from the
    registration to the allocation of a pod. *)

From stdpp Require Export base gmap strings list fin_maps.
From stdpp Require Import options.

#[global] Set Default Goal Selector "!".

(** ** Notations *)

Declare Scope onload_scope.
Delimit Scope onload_scope with onload.
#[global] Open Scope onload_scope.

(** Go's [x != nil] for pointers and interfaces, modelled by options. *)
Definition non_nil {A} (o : option A) : bool :=
  match o with Some _ => true | None => false end.

(** [+:+] reduces on a constructor, as [++] on lists does. *)
#[global] Arguments String.append !_ _ : simpl nomatch.

(** Splits a list at a position. *)
Lemma list_split_nth {A} (d : A) (n : nat) (l : list A) :
  n < length l → l = (take n l ++ nth n l d :: drop (S n) l)%list.
Proof.
  revert l. induction n as [|n IH]; intros [|a l] Hn; simpl in *; try lia; [by rewrite drop_0|].
  f_equal. apply IH. lia.
Qed.
