(* ===== verification/GoStd.v ===== *)
(** * The pieces of Go's standard library the program uses

    Go strings are byte strings; they are modelled by [string], whose characters
    are bytes, so [String.length] is Go's [len] and [String.compare] is Go's
    string order.  Each function here is named after the library function it
    models: [strings.Split], [strings.Join], [strings.HasPrefix],
    [strings.Contains], [slices.MinFunc], and maps that may be nil.  Numbers and
    booleans as text are in [GoFmt], paths in [GoPath]. *)

From S2P Require Import Prelude.
From Stdlib Require Import Ascii OrdersEx.
From stdpp Require Import options.

Local Open Scope list_scope.

(** ** Maps

    A Go map variable is nil or refers to a map.  Reading and deleting from a
    nil map are harmless; writing to one panics. *)

Definition gomap (V : Type) := option (gmap string V).

Definition gomap_get {V} (m : gomap V) (k : string) : option V :=
  match m with Some m => m !! k | None => None end.
Definition gomap_delete {V} (m : gomap V) (k : string) : gomap V :=
  match m with Some m => Some (delete k m) | None => None end.
(** [None]: the write panics. *)
Definition gomap_set {V} (m : gomap V) (k : string) (v : V) : option (gomap V) :=
  match m with
  | Some m => Some (Some (<[k := v]> m))
  | None => None
  end.
(** [m[k]] where a missing key reads as the zero value, for maps to strings. *)
Definition gomap_index (m : gomap string) (k : string) : string :=
  default "" (gomap_get m k).

Section gomap.
Context {V : Type}.
Implicit Types (m : gomap V) (k : string) (v : V).

Lemma gomap_get_delete_eq m k : gomap_get (gomap_delete m k) k = None.
Proof. destruct m; [apply lookup_delete_eq|done]. Qed.

Lemma gomap_get_delete_ne m k k' :
  k ≠ k' → gomap_get (gomap_delete m k) k' = gomap_get m k'.
Proof. intros. destruct m; [by apply lookup_delete_ne|done]. Qed.

Lemma gomap_get_set_eq m m' k v : gomap_set m k v = Some m' → gomap_get m' k = Some v.
Proof. destruct m; simpl; intros; simplify_eq. apply lookup_insert_eq. Qed.

Lemma gomap_get_set_ne m m' k k' v :
  k ≠ k' → gomap_set m k v = Some m' → gomap_get m' k' = gomap_get m k'.
Proof. destruct m; simpl; intros; simplify_eq. by apply lookup_insert_ne. Qed.

Lemma gomap_get_set_is_Some m m' k k' v :
  gomap_set m k v = Some m' → is_Some (gomap_get m k') → is_Some (gomap_get m' k').
Proof.
  intros Hs Hk. destruct (decide (k = k')) as [<-|Hne].
  - erewrite gomap_get_set_eq by done. eauto.
  - by erewrite gomap_get_set_ne.
Qed.

Lemma gomap_set_nil m k v : gomap_set m k v = None ↔ m = None.
Proof. by destruct m. Qed.
End gomap.

(** ** Strings *)

(** [strings.HasPrefix s p]. *)
Fixpoint HasPrefix (s p : string) : bool :=
  match p, s with
  | EmptyString, _ => true
  | String c p, String c' s => bool_decide (c = c') && HasPrefix s p
  | String _ _, EmptyString => false
  end.

(** What follows the prefix [p] of [s]. *)
Fixpoint drop_prefix (p s : string) : option string :=
  match p, s with
  | EmptyString, _ => Some s
  | String c p, String c' s => if bool_decide (c = c') then drop_prefix p s else None
  | String _ _, EmptyString => None
  end.

(** [strings.Join]. *)
Fixpoint Join (elems : list string) (sep : string) : string :=
  match elems with
  | [] => ""
  | [e] => e
  | e :: elems => e +:+ sep +:+ Join elems sep
  end.

(** [strings.Split s sep] for a non-empty separator: the pieces of [s] between
    the successive leftmost, non-overlapping occurrences of [sep].  The fuel
    bounds the number of characters read; [S (String.length s)] is enough, by
    [split_fuel_enough]. *)
Fixpoint split_fuel (n : nat) (s sep : string) : list string :=
  match n with
  | 0 => [s]
  | S n =>
      match drop_prefix sep s with
      | Some rest => "" :: split_fuel n rest sep
      | None =>
          match s with
          | EmptyString => [""]
          | String c s =>
              match split_fuel n s sep with
              | piece :: pieces => String c piece :: pieces
              | [] => [String c ""]
              end
          end
      end
  end.
Definition Split (s sep : string) : list string := split_fuel (S (String.length s)) s sep.

(** [strings.Contains]. *)
Fixpoint Contains (s sub : string) : bool :=
  HasPrefix s sub || match s with EmptyString => false | String _ s => Contains s sub end.

(** The line feed. *)
Definition newline : string := String "010" "".

Section strings.
Implicit Types s t p sep : string.

Lemma string_app_nil_r s : s +:+ "" = s.
Proof. induction s; [done|]. simpl. by f_equal. Qed.

Lemma string_app_assoc s t p : (s +:+ t) +:+ p = s +:+ t +:+ p.
Proof. induction s; [done|]. simpl. by f_equal. Qed.

Lemma string_app_cons c s t : String c s +:+ t = String c (s +:+ t).
Proof. done. Qed.

Lemma string_length_app s t :
  String.length (s +:+ t) = String.length s + String.length t.
Proof. induction s; [done|]. simpl. by f_equal. Qed.

Lemma string_app_inj_l s t t' : s +:+ t = s +:+ t' → t = t'.
Proof. induction s; [done|]. simpl. intros [=]. auto. Qed.

Lemma string_app_inj_r s s' t : s +:+ t = s' +:+ t → s = s'.
Proof.
  intros H. assert (String.length s = String.length s') as Hl.
  { apply (f_equal String.length) in H. rewrite !string_length_app in H. lia. }
  revert s' H Hl. induction s as [|c s IH]; intros [|c' s'] H Hl; try done.
  simpl in *. injection H as -> H. f_equal. apply IH; [done|lia].
Qed.

Lemma HasPrefix_drop s p : HasPrefix s p = true ↔ ∃ rest, drop_prefix p s = Some rest.
Proof.
  revert s. induction p as [|c p IH]; intros s; simpl.
  - split; [eauto|by destruct s].
  - destruct s as [|c' s]; simpl; [naive_solver|].
    case_bool_decide; simpl; [apply IH|naive_solver].
Qed.

Lemma drop_prefix_Some p s rest : drop_prefix p s = Some rest ↔ s = p +:+ rest.
Proof.
  revert s. induction p as [|c p IH]; intros s; simpl.
  - simpl. naive_solver.
  - destruct s as [|c' s]; [done|]. simpl. case_bool_decide; subst.
    + rewrite IH. split; [by intros ->|by intros [=]].
    + split; [done|by intros [=]].
Qed.

Lemma HasPrefix_spec s p : HasPrefix s p = true ↔ ∃ rest, s = p +:+ rest.
Proof. rewrite HasPrefix_drop. by setoid_rewrite drop_prefix_Some. Qed.

Lemma split_fuel_ne n s sep : split_fuel n s sep ≠ [].
Proof. destruct n; simpl; [done|]. by repeat case_match. Qed.

Lemma split_fuel_S n s sep :
  split_fuel (S n) s sep =
  match drop_prefix sep s with
  | Some rest => "" :: split_fuel n rest sep
  | None => match s with
            | EmptyString => [""]
            | String c s => match split_fuel n s sep with
                            | piece :: pieces => String c piece :: pieces
                            | [] => [String c ""]
                            end
            end
  end.
Proof. done. Qed.

(** Any two sufficient amounts of fuel agree. *)
Lemma split_fuel_enough n m s sep :
  sep ≠ "" → String.length s < n → String.length s < m →
  split_fuel n s sep = split_fuel m s sep.
Proof.
  intros Hsep. revert m s. induction n as [|n IH]; intros [|m] s Hn Hm; [lia..|].
  rewrite !split_fuel_S. destruct (drop_prefix sep s) as [rest|] eqn:Hd.
  - f_equal. apply drop_prefix_Some in Hd as ->.
    rewrite string_length_app in *. destruct sep; [done|]. simpl in *. apply IH; lia.
  - destruct s as [|c s]; [done|]. simpl in *. rewrite (IH m); [done|lia..].
Qed.
End strings.

(** [s] does not contain the byte [c]. *)
Fixpoint char_free (c : ascii) (s : string) : bool :=
  match s with
  | EmptyString => true
  | String c' s => bool_decide (c ≠ c') && char_free c s
  end.

(** The part before the first [c] is determined. *)
Lemma app_sep_inj c s s' t t' :
  char_free c s = true → char_free c s' = true →
  s +:+ String c t = s' +:+ String c t' → s = s' ∧ t = t'.
Proof.
  revert s'. induction s as [|a s IH]; intros [|a' s'] Hs Hs' Heq; simpl in *;
    repeat case_bool_decide; simplify_eq; try done.
  destruct (IH s') as [-> ->]; done.
Qed.

(** Two strings that end in different suffixes of the same length differ. *)
Lemma suffix_ne s s' t t' :
  String.length t = String.length t' → t ≠ t' → s +:+ t ≠ s' +:+ t'.
Proof.
  intros Hl Hne Heq.
  assert (String.length s = String.length s') as Hls.
  { apply (f_equal String.length) in Heq. rewrite !string_length_app in Heq. lia. }
  clear Hl. revert s' Heq Hls. induction s as [|a s IH]; intros [|a' s'] Heq Hls; try done.
  simpl in *. injection Heq as -> Heq. injection Hls as Hls. by apply (IH s').
Qed.

(** How two ways of cutting a string relate. *)
Lemma string_app_eq (a b c d : string) :
  a +:+ b = c +:+ d →
  (∃ m, c = a +:+ m ∧ b = m +:+ d) ∨ (∃ m, a = c +:+ m ∧ d = m +:+ b).
Proof.
  revert c. induction a as [|x a IH]; intros c Heq.
  - left. by exists c.
  - destruct c as [|y c]; [right; by exists (String x a)|].
    injection Heq as -> Heq. destruct (IH c Heq) as [(m & -> & ->)|(m & -> & ->)]; [left|right]; by exists m.
Qed.

Lemma Contains_spec (s sub : string) : Contains s sub = true ↔ ∃ a b, s = a +:+ sub +:+ b.
Proof.
  induction s as [|x s IH].
  - change (Contains "" sub) with (HasPrefix "" sub || false). rewrite orb_true_iff, HasPrefix_spec.
    split; [intros [[b Hb]|]; [by exists "", b|done]|].
    intros ([|] & b & Hb); [left; by exists b|done].
  - change (Contains (String x s) sub) with (HasPrefix (String x s) sub || Contains s sub).
    rewrite orb_true_iff, HasPrefix_spec, IH. split.
    + intros [[b Hb]|(a & b & ->)]; [by exists "", b|by exists (String x a), b].
    + intros ([|y a] & b & Hb); [left; by exists b|right]. injection Hb as -> ->. by exists a, b.
Qed.

Lemma char_free_app c (s t : string) : char_free c (s +:+ t) = char_free c s && char_free c t.
Proof. induction s as [|a s IH]; [done|]. simpl. by rewrite IH, andb_assoc. Qed.

(** Joining undoes splitting. *)
Lemma Join_split_fuel n s sep :
  sep ≠ "" → String.length s < n → Join (split_fuel n s sep) sep = s.
Proof.
  intros Hsep. revert s. induction n as [|n IH]; intros s Hn; [lia|].
  rewrite split_fuel_S. destruct (drop_prefix sep s) as [rest|] eqn:Hd.
  - apply drop_prefix_Some in Hd as ->. rewrite string_length_app in Hn.
    assert (String.length rest < n) as Hr by (destruct sep; [done|]; simpl in *; lia).
    specialize (IH rest Hr). pose proof (split_fuel_ne n rest sep) as Hne.
    destruct (split_fuel n rest sep) as [|p ps]; [done|]. by simpl in *; rewrite IH.
  - destruct s as [|c s]; [done|]. simpl in Hn. specialize (IH s ltac:(lia)).
    destruct (split_fuel n s sep) as [|p [|p' ps]]; simpl in *; by rewrite <-IH.
Qed.

Lemma Join_Split s sep : sep ≠ "" → Join (Split s sep) sep = s.
Proof. intros Hsep. apply Join_split_fuel; [done|lia]. Qed.

(** One byte of a split. *)
Lemma Split_unfold s sep :
  sep ≠ "" →
  Split s sep =
  match drop_prefix sep s with
  | Some rest => "" :: Split rest sep
  | None => match s with
            | EmptyString => [""]
            | String c s => match Split s sep with
                            | piece :: pieces => String c piece :: pieces
                            | [] => [String c ""]
                            end
            end
  end.
Proof.
  intros Hsep. unfold Split at 1. rewrite split_fuel_S.
  destruct (drop_prefix sep s) as [rest|] eqn:Hd; [|by destruct s].
  unfold Split. f_equal. apply drop_prefix_Some in Hd as ->. rewrite string_length_app.
  apply split_fuel_enough; [done| |lia]. destruct sep; [done|]. simpl. lia.
Qed.

Lemma Split_not_contains s sep : sep ≠ "" → Contains s sep = false → Split s sep = [s].
Proof.
  intros Hsep. induction s as [|c s IH]; intros Hc; rewrite Split_unfold by done.
  - destruct (drop_prefix sep "") eqn:Hd; [|done].
    apply drop_prefix_Some in Hd. by destruct sep.
  - change (Contains (String c s) sep) with (HasPrefix (String c s) sep || Contains s sep) in Hc.
    apply orb_false_iff in Hc as [Hp Hc].
    destruct (drop_prefix sep (String c s)) eqn:Hd.
    + by rewrite (proj2 (HasPrefix_drop _ _)) in Hp by eauto.
    + by rewrite IH.
Qed.

(** The first piece ends where the first byte of the separator first occurs. *)
Lemma Split_first c sep' s t :
  char_free c s = true →
  Split (s +:+ String c sep' +:+ t) (String c sep') = s :: Split t (String c sep').
Proof.
  induction s as [|a s IH]; intros Hs.
  - rewrite Split_unfold by done. change ("" +:+ ?x) with x.
    by rewrite (proj2 (drop_prefix_Some (String c sep') _ t)).
  - apply andb_true_iff in Hs as [Ha%bool_decide_eq_true Hs].
    rewrite Split_unfold by done. rewrite string_app_cons. simpl drop_prefix.
    rewrite bool_decide_eq_false_2 by done. by rewrite IH.
Qed.

(** ** Slices *)

(** [cmp.Compare] on strings is the byte order, [String.compare].
    [slices.MinFunc] keeps the first minimal element; on an empty slice it
    panics ([None]). *)
Definition MinFunc {A} (cmp : A → A → comparison) (l : list A) : option A :=
  match l with
  | [] => None
  | x :: l =>
      Some (fold_left (λ m y, match cmp y m with Lt => y | _ => m end) l x)
  end.

(** The byte order of strings is a strict total order. *)
Lemma string_lt_irrefl (s : string) : String.compare s s ≠ Lt.
Proof.
  pose proof (String.compare_antisym s s) as H. intros Hlt. by rewrite Hlt in H.
Qed.

Lemma string_lt_trans (s t u : string) :
  String.compare s t = Lt → String.compare t u = Lt → String.compare s u = Lt.
Proof. exact (StrictOrder_Transitive (R:=String_as_OT.lt) s t u). Qed.

Lemma string_lt_split (s t u : string) :
  String.compare s u = Lt → String.compare s t = Lt ∨ String.compare t u = Lt.
Proof.
  intros Hlt. destruct (String.compare s t) eqn:Hst; [|by left|]; right.
  - by apply String.compare_eq_iff in Hst as ->.
  - rewrite String.compare_antisym in Hst. destruct (String.compare t s) eqn:Hts; [done| |done].
    by eapply string_lt_trans.
Qed.

Section min_func.
Context {A : Type} (key : A → string).
#[local] Notation cmp := (λ a b, String.compare (key a) (key b)).

Lemma min_fold_spec l m0 :
  let m := fold_left (λ m y, match String.compare (key y) (key m) with Lt => y | _ => m end) l m0 in
  (m = m0 ∨ In m l) ∧ String.compare (key m0) (key m) ≠ Lt ∧
  ∀ x, In x l → String.compare (key x) (key m) ≠ Lt.
Proof.
  revert m0. induction l as [|b l IH]; intros m0; simpl.
  { split_and!; [by left|apply string_lt_irrefl|done]. }
  destruct (String.compare (key b) (key m0)) eqn:Hb.
  2: { destruct (IH b) as (H1 & H2 & H3). split_and!.
       - destruct H1 as [->|H1]; auto.
       - intros H4. by destruct H2; eapply string_lt_trans.
       - by intros x [<-|Hx]; auto. }
  all: destruct (IH m0) as (H1 & H2 & H3); split_and!; [destruct H1; auto|done|].
  all: intros x [<-|Hx]; [|by auto]; intros [H4|H4]%(string_lt_split _ (key m0)); congruence.
Qed.

(** The result is an element of the slice, and no element's key is below its key. *)
Lemma MinFunc_spec l m :
  MinFunc cmp l = Some m → In m l ∧ ∀ x, In x l → String.compare (key x) (key m) ≠ Lt.
Proof.
  destruct l as [|a l]; [done|]. intros [= <-]. destruct (min_fold_spec l a) as (H1 & H2 & H3).
  split; [destruct H1 as [->|]; [by left|by right]|]. intros x [<-|Hx]; auto.
Qed.

Lemma MinFunc_nonempty l : l ≠ [] → is_Some (MinFunc cmp l).
Proof. destruct l; [done|by eexists]. Qed.
End min_func.
