(* ===== verification/GoFmt.v ===== *)
(** * Formatting and parsing of numbers and booleans

    The [%d] and [%t] verbs of [fmt.Sprintf], and the [strconv] parsers that the
    [flag] package uses to read such values back. *)

From S2P Require Import Prelude GoStd.
From Stdlib Require Import Ascii.
From stdpp Require Import pretty numbers.
From stdpp Require Import options.

Local Open Scope list_scope.

(** [fmt.Sprintf("%d", z)] *)
Definition Itoa (z : Z) : string := pretty z.

Lemma Itoa_inj z z' : Itoa z = Itoa z' → z = z'.
Proof. apply (inj pretty). Qed.

(** [fmt.Sprintf("%t", b)] *)
Definition FormatBool (b : bool) : string := if b then "true" else "false".

(** [strconv.ParseBool] *)
Definition ParseBool (s : string) : option bool :=
  if existsb (String.eqb s) ["1"; "t"; "T"; "TRUE"; "true"; "True"] then Some true
  else if existsb (String.eqb s) ["0"; "f"; "F"; "FALSE"; "false"; "False"] then Some false
  else None.

(** The value of a digit in bases up to 36. *)
Definition digit_value (c : ascii) : option Z :=
  let n := Z.of_nat (nat_of_ascii c) in
  if bool_decide (48 ≤ n ≤ 57)%Z then Some (n - 48)%Z
  else if bool_decide (97 ≤ n ≤ 122)%Z then Some (n - 97 + 10)%Z
  else if bool_decide (65 ≤ n ≤ 90)%Z then Some (n - 65 + 10)%Z
  else None.

(** The loop of [strconv.ParseUint]; underscores are skipped. *)
Fixpoint parse_digits (base : Z) (s : string) (acc : Z) : option Z :=
  match s with
  | EmptyString => Some acc
  | String c s =>
      if bool_decide (c = "_"%char) then parse_digits base s acc else
      match digit_value c with
      | Some d => if bool_decide (d < base)%Z then parse_digits base s (acc * base + d)%Z else None
      | None => None
      end
  end.

Definition lower (c : ascii) : ascii :=
  let n := nat_of_ascii c in
  if bool_decide (65 ≤ n ≤ 90) then ascii_of_nat (n + 32) else c.

(** [strconv.underscoreOK]: an underscore stands between digits, or after the
    base prefix.  [prev] is the class of the last byte: a digit or prefix
    (["0"]), an underscore, or something else. *)
Inductive us_class := UsStart | UsDigit | UsUnder | UsOther.

Fixpoint underscore_loop (hex : bool) (s : string) (prev : us_class) : bool :=
  match s with
  | EmptyString => match prev with UsUnder => false | _ => true end
  | String c s =>
      let n := nat_of_ascii c in
      let l := nat_of_ascii (lower c) in
      if bool_decide (48 ≤ n ≤ 57) || hex && bool_decide (97 ≤ l ≤ 102)
      then underscore_loop hex s UsDigit
      else if bool_decide (c = "_"%char) then
        match prev with UsDigit => underscore_loop hex s UsUnder | _ => false end
      else
        match prev with UsUnder => false | _ => underscore_loop hex s UsOther end
  end.

(** The base and the digits of a literal without its sign, and whether it has a
    base prefix. *)
Definition base_prefix (s : string) : Z * string * bool :=
  match s with
  | String "0" (String c (String _ _ as digits)) =>
      if bool_decide (lower c = "b"%char) then (2%Z, digits, true)
      else if bool_decide (lower c = "o"%char) then (8%Z, digits, true)
      else if bool_decide (lower c = "x"%char) then (16%Z, digits, true)
      else (8%Z, String c digits, false)
  | String "0" digits => (8%Z, digits, false)
  | _ => (10%Z, s, false)
  end.

Definition underscoreOK (s : string) : bool :=
  let '(base, digits, prefixed) := base_prefix s in
  if prefixed then underscore_loop (bool_decide (base = 16%Z)) digits UsDigit
  else underscore_loop false s UsStart.

(** The sign of a literal, and what follows it. *)
Definition split_sign (s : string) : bool * string :=
  match s with
  | String "+" rest => (false, rest)
  | String "-" rest => (true, rest)
  | _ => (false, s)
  end.

Definition parse_unsigned (body : string) : option Z :=
  match body with
  | EmptyString => None
  | _ =>
      let '(base, digits, _) := base_prefix body in
      match parse_digits base digits 0 with
      | None => None
      | Some un => if underscoreOK body then Some un else None
      end
  end.

(** [strconv.ParseInt(s, 0, 64)], as used for the flags of type [int]; [None] is
    an error. *)
Definition ParseInt (s : string) : option Z :=
  let '(neg, body) := split_sign s in
  match parse_unsigned body with
  | None => None
  | Some un =>
      if (neg : bool) then if bool_decide (un ≤ 2 ^ 63)%Z then Some (- un)%Z else None
      else if bool_decide (un < 2 ^ 63)%Z then Some un else None
  end.

(** ** Reading back what was written *)

Lemma pretty_N_go_pos x s :
  (0 < x)%N → pretty_N_go x s = pretty_N_go (x `div` 10) (String (pretty_N_char (x `mod` 10)) s).
Proof. apply pretty_N_go_step. Qed.

Definition is_digit (c : ascii) : bool := bool_decide (48 ≤ nat_of_ascii c ≤ 57).

Lemma digit_cases d : (d < 10)%N → In d [0; 1; 2; 3; 4; 5; 6; 7; 8; 9]%N.
Proof. intros Hd. simpl. lia. Qed.

Lemma pretty_N_char_value d : (d < 10)%N → digit_value (pretty_N_char d) = Some (Z.of_N d).
Proof. intros Hd%digit_cases. simpl in Hd. by repeat destruct Hd as [<-|Hd]. Qed.

Lemma pretty_N_char_digit d : (d < 10)%N → is_digit (pretty_N_char d) = true.
Proof. intros Hd%digit_cases. simpl in Hd. by repeat destruct Hd as [<-|Hd]. Qed.

Lemma pretty_N_char_not_underscore d : (d < 10)%N → pretty_N_char d ≠ "_"%char.
Proof. intros Hd%digit_cases. simpl in Hd. by repeat destruct Hd as [<-|Hd]. Qed.

Lemma mod_10_lt x : (x `mod` 10 < 10)%N.
Proof. by apply N.mod_lt. Qed.

Lemma parse_digits_pretty x s :
  parse_digits 10 (pretty_N_go x s) 0 = parse_digits 10 s (Z.of_N x).
Proof.
  revert s. induction (N.lt_wf_0 x) as [x _ IH]. intros s.
  destruct (decide (x = 0)%N) as [->|Hx]; [by rewrite pretty_N_go_0|].
  rewrite pretty_N_go_pos by lia.
  rewrite IH by (apply N.div_lt; lia). simpl.
  rewrite bool_decide_eq_false_2 by apply pretty_N_char_not_underscore, mod_10_lt.
  rewrite pretty_N_char_value by apply mod_10_lt.
  rewrite bool_decide_eq_true_2 by (pose proof (mod_10_lt x); lia). f_equal.
  rewrite (N.div_mod x 10) at 3 by done. lia.
Qed.

(** The first digit of a positive number is not zero. *)
Lemma pretty_N_go_head x s :
  (0 < x)%N → ∃ d rest, (0 < d < 10)%N ∧ pretty_N_go x s = String (pretty_N_char d) rest.
Proof.
  revert s. induction (N.lt_wf_0 x) as [x _ IH]. intros s Hx. rewrite pretty_N_go_pos by done.
  destruct (decide (x < 10)%N) as [Hs|Hs].
  - rewrite (N.div_small x 10), pretty_N_go_0, (N.mod_small x 10) by done. by exists x, s.
  - apply IH; [apply N.div_lt; lia|]. apply N.div_str_pos. lia.
Qed.

Fixpoint all_digits (s : string) : bool :=
  match s with EmptyString => true | String c s => is_digit c && all_digits s end.

Lemma pretty_N_go_digits x s : all_digits s = true → all_digits (pretty_N_go x s) = true.
Proof.
  revert s. induction (N.lt_wf_0 x) as [x _ IH]. intros s Hs.
  destruct (decide (x = 0)%N) as [->|Hx]; [by rewrite pretty_N_go_0|].
  rewrite pretty_N_go_pos by lia. apply IH; [apply N.div_lt; lia|]. simpl.
  by rewrite pretty_N_char_digit by apply mod_10_lt.
Qed.

Lemma underscore_loop_digits s prev :
  all_digits s = true → prev ≠ UsUnder → underscore_loop false s prev = true.
Proof.
  revert prev. induction s as [|c s IH]; intros prev Hs Hp; [by destruct prev|].
  simpl in *. apply andb_true_iff in Hs as [Hc Hs]. unfold is_digit in Hc. rewrite Hc. simpl.
  by apply IH.
Qed.

(** A positive number without its sign. *)
Lemma pretty_pos_parse n :
  (0 < n)%N →
  ∃ c rest, pretty n = String c rest ∧ is_digit c = true ∧
    base_prefix (pretty n) = (10%Z, pretty n, false) ∧
    parse_digits 10 (pretty n) 0 = Some (Z.of_N n) ∧ underscoreOK (pretty n) = true.
Proof.
  intros Hn. assert (pretty n = pretty_N_go n "") as Hgo.
  { unfold pretty, pretty_N. by rewrite decide_False by lia. }
  rewrite Hgo. destruct (pretty_N_go_head n "" Hn) as (d & rest & Hd & Hh).
  assert (base_prefix (pretty_N_go n "") = (10%Z, pretty_N_go n "", false)) as Hb.
  { rewrite Hh. pose proof (digit_cases d ltac:(lia)) as Hin. simpl in Hin.
    repeat destruct Hin as [<-|Hin]; try done. lia. }
  exists (pretty_N_char d), rest. split_and!; [done|apply pretty_N_char_digit; lia|done| |].
  - rewrite parse_digits_pretty. done.
  - unfold underscoreOK. rewrite Hb. apply underscore_loop_digits; [|done]. by apply pretty_N_go_digits.
Qed.

Lemma split_sign_digit c rest : is_digit c = true → split_sign (String c rest) = (false, String c rest).
Proof. by destruct c as [[] [] [] [] [] [] [] []]. Qed.

Lemma parse_unsigned_pretty n : (0 < n)%N → parse_unsigned (pretty n) = Some (Z.of_N n).
Proof.
  intros Hn. destruct (pretty_pos_parse n Hn) as (c & rest & Hs & _ & Hb & Hp & Hu).
  unfold parse_unsigned. rewrite Hb, Hp, Hu. by rewrite Hs.
Qed.

(** [strconv.ParseInt] reads back what [%d] printed, for a 64-bit integer. *)
Lemma ParseInt_Itoa z : (- 2 ^ 63 ≤ z < 2 ^ 63)%Z → ParseInt (Itoa z) = Some z.
Proof.
  intros Hz. destruct z as [|p|p]; [done|..]; unfold Itoa, ParseInt.
  - change (pretty (Zpos p)) with (pretty (Npos p)).
    destruct (pretty_pos_parse (Npos p)) as (c & rest & Hs & Hc & _); [done|].
    rewrite Hs, (split_sign_digit _ _ Hc). cbv beta iota. rewrite <-Hs, parse_unsigned_pretty by done.
    by rewrite bool_decide_eq_true_2 by lia.
  - change (pretty (Zneg p)) with ("-" +:+ pretty (Npos p)).
    change (split_sign ("-" +:+ pretty (Npos p))) with (true, pretty (Npos p)).
    cbv beta iota. rewrite parse_unsigned_pretty by done. by rewrite bool_decide_eq_true_2 by lia.
Qed.

Lemma ParseBool_FormatBool b : ParseBool (FormatBool b) = Some b.
Proof. by destruct b. Qed.
