(* ===== verification/GoPath.v ===== *)
(** * Slash-separated paths

    [path.Clean], [path.Join], [filepath.Base] and [filepath.Dir] of Go, on
    slash-separated paths.  [Clean] keeps the components of a path that remain
    after dropping empty and dot components and resolving double dots, on a stack
    whose head is the last component. *)

From S2P Require Import Prelude GoStd.
From Stdlib Require Import Ascii.
From stdpp Require Import options.

Local Open Scope list_scope.

Definition clean_step (rooted : bool) (stack : list string) (c : string) : list string :=
  if bool_decide (c = "") || bool_decide (c = ".") then stack
  else if bool_decide (c = "..") then
    match stack with
    | [] => if rooted then [] else [".."]
    | top :: rest => if bool_decide (top = "..") then ".." :: stack else rest
    end
  else c :: stack.

Definition is_rooted (p : string) : bool := HasPrefix p "/".

Definition clean_stack (p : string) : list string :=
  fold_left (clean_step (is_rooted p)) (Split p "/") [].

Definition clean_print (rooted : bool) (stack : list string) : string :=
  let out := Join (rev stack) "/" in
  if rooted then "/" +:+ out else if bool_decide (out = "") then "." else out.

Definition path_Clean (p : string) : string := clean_print (is_rooted p) (clean_stack p).

(** Leading empty elements are dropped; the rest is joined and cleaned. *)
Fixpoint join_raw (elems : list string) : string :=
  match elems with
  | [] => ""
  | e :: elems => if bool_decide (e = "") then join_raw elems else Join (e :: elems) "/"
  end.
Definition path_Join (elems : list string) : string :=
  match join_raw elems with
  | EmptyString => ""
  | p => path_Clean p
  end.

(** The last component, after trailing slashes are dropped. *)
Definition path_Base (p : string) : string :=
  if bool_decide (p = "") then "." else
  match filter (λ c, c ≠ "") (Split p "/") with
  | [] => "/"
  | cs => List.last cs ""
  end.

(** What comes before the last slash, cleaned. *)
Definition path_Dir (p : string) : string :=
  path_Clean (match Split p "/" with
              | [_] => ""
              | cs => Join (removelast cs) "/" +:+ "/"
              end).

Example clean_ex1 : path_Clean "/opt/onload//usr/../lib/./x" = "/opt/onload/lib/x".
Proof. reflexivity. Qed.
Example clean_ex2 : path_Clean "../a/../../b" = "../../b".
Proof. reflexivity. Qed.
Example join_ex : path_Join ["/opt/onload/"; "/usr/lib64"; "libonload.so"]
                  = "/opt/onload/usr/lib64/libonload.so".
Proof. reflexivity. Qed.
Example base_ex : path_Base "/var/lib/kubelet/device-plugins/sfc-deviceplugin.sock" = "sfc-deviceplugin.sock".
Proof. reflexivity. Qed.
Example dir_ex : path_Dir "/var/lib/kubelet/device-plugins/sfc-deviceplugin.sock"
                 = "/var/lib/kubelet/device-plugins".
Proof. reflexivity. Qed.

(** ** Splitting at a single byte *)

Lemma Split_cons (a c : ascii) (s : string) :
  Split (String a s) (String c "") =
  if bool_decide (a = c) then "" :: Split s (String c "")
  else match Split s (String c "") with
       | piece :: pieces => String a piece :: pieces
       | [] => [String a ""]
       end.
Proof.
  unfold Split. rewrite split_fuel_S. simpl drop_prefix.
  destruct (decide (a = c)) as [->|Hne].
  - rewrite !bool_decide_eq_true_2 by done. by simpl.
  - rewrite !bool_decide_eq_false_2 by done. done.
Qed.

Lemma Split_free (c : ascii) (s : string) :
  char_free c s = true → Split s (String c "") = [s].
Proof.
  induction s as [|a s IH]; [done|]. intros [Ha%bool_decide_eq_true Hs]%andb_true_iff.
  by rewrite Split_cons, bool_decide_eq_false_2, (IH Hs).
Qed.

Lemma Split_app (c : ascii) (s t : string) :
  Split (s +:+ String c t) (String c "") = Split s (String c "") ++ Split t (String c "").
Proof.
  induction s as [|a s IH].
  - simpl. by rewrite Split_cons, bool_decide_eq_true_2.
  - rewrite string_app_cons, !Split_cons, IH. case_bool_decide; [done|].
    destruct (Split s (String c "")) eqn:Hs; [|done].
    by destruct (split_fuel_ne (S (String.length s)) s (String c "")).
Qed.

(** ** Names of files *)

(** What a directory entry can be called. *)
Definition simple_name (f : string) : bool :=
  negb (bool_decide (f = "")) && negb (bool_decide (f = ".")) && negb (bool_decide (f = ".."))
  && char_free "/"%char f.

Lemma clean_step_simple rooted stack f :
  simple_name f = true → clean_step rooted stack f = f :: stack.
Proof.
  unfold simple_name, clean_step. rewrite !andb_true_iff, !negb_true_iff. intros [[[-> ->] ->] _].
  done.
Qed.

Lemma Join_snoc l f : l ≠ [] → Join (l ++ [f]) "/" = Join l "/" +:+ "/" +:+ f.
Proof.
  induction l as [|e l IH]; [done|]. intros _. destruct l as [|e' l]; [done|].
  change (Join ((e :: e' :: l) ++ [f]) "/") with (e +:+ "/" +:+ Join ((e' :: l) ++ [f]) "/").
  rewrite IH by done. change (Join (e :: e' :: l) "/") with (e +:+ "/" +:+ Join (e' :: l) "/").
  by rewrite !string_app_assoc.
Qed.

(** The directory part that cleaning gives to any file of a directory. *)
Definition file_prefix (rooted : bool) (stack : list string) : string :=
  (if rooted then "/" else "") +:+
  match stack with [] => "" | _ => Join (rev stack) "/" +:+ "/" end.

Lemma clean_print_file rooted stack f :
  simple_name f = true → clean_print rooted (f :: stack) = file_prefix rooted stack +:+ f.
Proof.
  intros Hf. unfold clean_print, file_prefix. simpl rev.
  assert (Join (rev stack ++ [f]) "/" =
          match stack with [] => "" | _ => Join (rev stack) "/" +:+ "/" end +:+ f) as ->.
  { destruct stack as [|c stack]; [done|]. rewrite Join_snoc; [by rewrite string_app_assoc|].
    simpl. by destruct (rev stack). }
  destruct rooted; [done|]. rewrite bool_decide_eq_false_2; [done|].
  intros He. unfold simple_name in Hf. apply (f_equal String.length) in He.
  rewrite string_length_app in He. destruct f; [done|]. simpl in He. lia.
Qed.

Lemma is_rooted_app p q : p ≠ "" → is_rooted (p +:+ q) = is_rooted p.
Proof.
  destruct p as [|a p]; [done|]. intros _. unfold is_rooted. simpl. f_equal.
  by destruct (p +:+ q), p.
Qed.

(** [path.Join(elems..., f)] for a file name [f]: a prefix that does not depend on
    [f], then [f]. *)
Definition join_prefix (elems : list string) : string :=
  match join_raw elems with
  | EmptyString => ""
  | p => file_prefix (is_rooted p) (clean_stack p)
  end.

Lemma path_Clean_file p f :
  p ≠ "" → simple_name f = true →
  path_Clean (p +:+ "/" +:+ f) = file_prefix (is_rooted p) (clean_stack p) +:+ f.
Proof.
  intros Hp Hf. unfold path_Clean, clean_stack.
  rewrite is_rooted_app by done. change ("/" +:+ f) with (String "/" f). rewrite Split_app.
  rewrite fold_left_app. rewrite (Split_free _ f).
  - simpl fold_left at 1. rewrite clean_step_simple by done. by apply clean_print_file.
  - unfold simple_name in Hf. by apply andb_true_iff in Hf as [_ Hf].
Qed.

Lemma path_Clean_simple f : simple_name f = true → path_Clean f = f.
Proof.
  intros Hf. unfold path_Clean, clean_stack.
  pose proof Hf as [_ Hc]%andb_true_iff. rewrite (Split_free _ _ Hc). simpl fold_left.
  rewrite clean_step_simple, clean_print_file by done.
  assert (is_rooted f = false) as ->; [|done].
  destruct f as [|a f]; [done|]. unfold is_rooted. simpl in *.
  apply andb_true_iff in Hc as [Ha%bool_decide_eq_true _].
  rewrite bool_decide_eq_false_2; [done|congruence].
Qed.

Lemma Join_app_file e elems f : Join (e :: elems ++ [f]) "/" = Join (e :: elems) "/" +:+ "/" +:+ f.
Proof. by rewrite app_comm_cons, Join_snoc. Qed.

Lemma join_raw_nonempty e elems : e ≠ "" → Join (e :: elems) "/" ≠ "".
Proof. intros He. destruct elems; [done|]. simpl. by destruct e. Qed.

Lemma path_Join_file elems f :
  simple_name f = true → path_Join (elems ++ [f]) = join_prefix elems +:+ f.
Proof.
  intros Hf. unfold path_Join, join_prefix.
  assert (f ≠ "") as Hne by (intros ->; by vm_compute in Hf).
  induction elems as [|e elems IH].
  - simpl. rewrite bool_decide_eq_false_2 by done. destruct f as [|a f]; [done|].
    by apply path_Clean_simple.
  - change (join_raw ((e :: elems) ++ [f])) with
      (if bool_decide (e = "") then join_raw (elems ++ [f]) else Join (e :: elems ++ [f]) "/").
    change (join_raw (e :: elems)) with
      (if bool_decide (e = "") then join_raw elems else Join (e :: elems) "/").
    case_bool_decide as He; [exact IH|].
    rewrite Join_app_file. pose proof (join_raw_nonempty e elems He) as Hj.
    destruct (Join (e :: elems) "/") as [|a s] eqn:Hs; [done|]. simpl String.append at 1.
    by rewrite <-(path_Clean_file (String a s) f).
Qed.

(** Two files of directories have the same path only if they have the same name. *)
Lemma file_prefix_end rooted stack :
  file_prefix rooted stack = "" ∨ ∃ q, file_prefix rooted stack = q +:+ "/".
Proof.
  unfold file_prefix. destruct stack as [|c stack].
  - destruct rooted; [right; by exists ""|by left].
  - right. destruct rooted; eexists; [rewrite <-string_app_assoc|]; done.
Qed.

Lemma join_prefix_end elems : join_prefix elems = "" ∨ ∃ q, join_prefix elems = q +:+ "/".
Proof. unfold join_prefix. destruct (join_raw elems); [by left|]. apply file_prefix_end. Qed.

Lemma simple_name_free f : simple_name f = true → char_free "/"%char f = true.
Proof. unfold simple_name. by intros [_ ?]%andb_true_iff. Qed.

Lemma dir_file_inj p q f g :
  (p = "" ∨ ∃ r, p = r +:+ "/") → (q = "" ∨ ∃ r, q = r +:+ "/") →
  char_free "/"%char f = true → char_free "/"%char g = true →
  p +:+ f = q +:+ g → f = g.
Proof.
  assert (∀ p q f g, (q = "" ∨ ∃ r, q = r +:+ "/") → char_free "/"%char f = true →
            (∃ m, q = p +:+ m ∧ f = m +:+ g) → f = g) as Hone.
  { intros p' q' f' g' Hq Hf (m & Hm & ->). destruct m as [|c m]; [done|exfalso].
    rewrite char_free_app in Hf. apply andb_true_iff in Hf as [Hf _].
    destruct Hq as [->|[r ->]]; [by destruct p'|].
    assert (∃ m', String c m = m' +:+ "/") as [m' Hm'].
    { apply string_app_eq in Hm as [(d & -> & Hd)|(d & -> & ->)]; [|by exists d].
      destruct d as [|x d]; [by exists ""|]. injection Hd as <- Hd. by destruct d. }
    rewrite Hm', char_free_app in Hf. simpl in Hf. by rewrite andb_false_r in Hf. }
  intros Hp Hq Hf Hg Heq. destruct (string_app_eq _ _ _ _ Heq) as [Hm|Hm].
  - by apply (Hone p q f g).
  - symmetry. by apply (Hone q p g f).
Qed.

Lemma path_Join_file_inj elems elems' f g :
  simple_name f = true → simple_name g = true →
  path_Join (elems ++ [f]) = path_Join (elems' ++ [g]) → f = g.
Proof.
  intros Hf Hg. rewrite !path_Join_file by done.
  apply dir_file_inj; auto using join_prefix_end, simple_name_free.
Qed.
