(* ===== verification/GoFlag.v ===== *)
(** * Go's package flag

    The loop of the package over the arguments, for a program that defines the
    flags of a table, each of which changes a configuration.  Flags that a library
    defines for itself are a parameter, which says for a name whether there is such
    a flag, whether it is boolean, and which values it takes; they do not change
    the configuration. *)

From S2P Require Import Prelude GoStd GoFmt.
From Stdlib Require Import Ascii.
From stdpp Require Import options.

Local Open Scope list_scope.

Section flags.
Context {C : Type}.

(** How a value changes the configuration; [None] is an invalid value. *)
Definition setter := string → C → option C.

Record flag := MkFlag { flag_IsBool : bool; flag_Set : setter }.

Definition IntVar (set : Z → C → C) : flag :=
  MkFlag false (λ s c, z ← ParseInt s; mret (set z c)).
Definition BoolVar (set : bool → C → C) : flag :=
  MkFlag true (λ s c, b ← ParseBool s; mret (set b c)).
Definition StringVar (set : string → C → C) : flag :=
  MkFlag false (λ s c, Some (set s c)).

Variable flags : list (string * flag).
Variable library_flag : string → option (bool * (string → bool)).

Definition lookup_flag (name : string) : option flag :=
  match List.find (λ '(n, _), String.eqb n name) flags with
  | Some (_, f) => Some f
  | None =>
      match library_flag name with
      | Some (is_bool, accepts) => Some (MkFlag is_bool (λ s c, if accepts s then Some c else None))
      | None => None
      end
  end.

(** The name and the value of an argument, at the first equals sign after the
    first byte. *)
Fixpoint split_eq (s : string) : string * option string :=
  match s with
  | EmptyString => ("", None)
  | String c s' =>
      if bool_decide (c = "="%char) then ("", Some s')
      else let '(name, v) := split_eq s' in (String c name, v)
  end.
Definition split_name (s : string) : option (string * option string) :=
  match s with
  | EmptyString => None
  | String c s' =>
      if bool_decide (c = "-"%char) || bool_decide (c = "="%char) then None
      else let '(name, v) := split_eq s' in Some (String c name, v)
  end.

(** What one argument is: the end of the flags, or a flag. *)
Inductive arg_kind :=
  | ArgStop
  | ArgBad
  | ArgFlag (name : string) (value : option string).
Definition classify_arg (s : string) : arg_kind :=
  match s with
  | String "-" (String c rest as name) =>
      let name := if bool_decide (c = "-"%char) then rest else name in
      if bool_decide (c = "-"%char) && bool_decide (rest = "") then ArgStop else
      match split_name name with
      | None => ArgBad
      | Some (name, v) => ArgFlag name v
      end
  | _ => ArgStop
  end.

(** [FlagSet.Parse]: [None] is an error, after which [flag.Parse] ends the
    process. *)
Fixpoint parse_flags (args : list string) (c : C) : option C :=
  match args with
  | [] => Some c
  | arg :: args =>
      match classify_arg arg with
      | ArgStop => Some c
      | ArgBad => None
      | ArgFlag name v =>
          match lookup_flag name with
          | None => None
          | Some f =>
              match v with
              | Some v => c ← flag_Set f v c; parse_flags args c
              | None =>
                  if flag_IsBool f then c ← flag_Set f "true" c; parse_flags args c
                  else match args with
                       | [] => None
                       | v :: args => c ← flag_Set f v c; parse_flags args c
                       end
              end
          end
      end
  end.
End flags.
#[global] Arguments flag : clear implicits.
#[global] Arguments setter : clear implicits.
