(* ===== verification/Effects.v ===== *)
(** * Effectful Go code

    Go functions of the repository call code that is not theirs: the Kubernetes
    API client, the operating system, gRPC.  A component describes the calls it
    makes by a signature [sig] (an operation and the type of the reply to it);
    its functions are then trees of type [prog], whose nodes are the calls, and
    whose branches are indexed by every reply the callee may give.  Nothing is
    assumed about the callee: [runs p tr out] relates a function to each trace
    of calls and replies it can have against some environment.  [wp] is the
    corresponding weakest precondition, [hsafe] the safety property "every call
    the function issues is allowed by the calls and replies before it", and
    [exec] runs a tree against one concrete environment. *)

From S2P Require Import Prelude.
From stdpp Require Import options.

(** ** Signatures, programs *)

Record sig := Sig { op : Type; reply : op → Type }.
Arguments reply {s} o : rename.

(** How a Go function stops without returning. *)
Inductive crash :=
  | Panic (msg : string)      (** a Go run-time panic *)
  | Fatal (msg : string).     (** [glog.Fatal] or [os.Exit]: the process ends *)

Inductive prog (S : sig) (A : Type) : Type :=
  | Ret (a : A)
  | Halt (c : crash)
  | Vis (o : op S) (k : reply o → prog S A).
Arguments Ret {S A} a.
Arguments Halt {S A} c.
Arguments Vis {S A} o k.

(** One call. *)
Definition call {S : sig} (o : op S) : prog S (reply o) := Vis o Ret.

Fixpoint prog_then {S A B} (f : A → prog S B) (p : prog S A) : prog S B :=
  match p with
  | Ret a => f a
  | Halt c => Halt c
  | Vis o k => Vis o (λ r, prog_then f (k r))
  end.

#[export] Instance prog_ret S : MRet (prog S) := λ A a, Ret a.
#[export] Instance prog_bind S : MBind (prog S) := λ A B f, prog_then f.
#[global] Arguments prog_ret _ _ _ /.
#[global] Arguments prog_bind _ _ _ _ _ /.

(** Programs are compared up to pointwise equal continuations. *)
Inductive prog_eq {S A} : Equiv (prog S A) :=
  | prog_eq_ret a : Ret a ≡ Ret a
  | prog_eq_halt c : Halt c ≡ Halt c
  | prog_eq_vis o k k' : (∀ r, k r ≡ k' r) → Vis o k ≡ Vis o k'.
#[export] Existing Instance prog_eq.

Lemma prog_eq_vis_inv {S A} o (k : reply o → prog S A) q :
  Vis o k ≡ q → ∃ k', q = Vis o k' ∧ ∀ r, k r ≡ k' r.
Proof.
  intros H.
  refine (match H in prog_eq p q return
            match p with
            | Vis o k => ∃ k', q = Vis o k' ∧ ∀ r, k r ≡ k' r
            | _ => True
            end with
          | prog_eq_vis o k k' Hk => _
          | _ => Logic.I
          end). eauto.
Qed.

#[export] Instance prog_eq_equivalence S A : Equivalence (≡@{prog S A}).
Proof.
  split.
  - intros p. induction p; by constructor.
  - intros p q H. induction H; by constructor.
  - intros p q r H. revert r. induction H as [| |o k k' Hk IH]; intros r Hr; [done..|].
    apply prog_eq_vis_inv in Hr as (k'' & -> & Hk'). constructor; eauto.
Qed.

Section monad_laws.
Context {S : sig} {A B C : Type}.
Implicit Types (p : prog S A) (f : A → prog S B) (g : B → prog S C).

Lemma bind_ret_l a f : Ret a ≫= f = f a.
Proof. done. Qed.

Lemma bind_ret_r p : p ≫= Ret ≡ p.
Proof. induction p; by constructor. Qed.

Lemma bind_assoc p f g : (p ≫= f) ≫= g ≡ p ≫= (λ a, f a ≫= g).
Proof. induction p; [done|by constructor..]. Qed.

#[export] Instance bind_proper :
  Proper (pointwise_relation A (≡) ==> (≡) ==> (≡)) (mbind (M:=prog S) (A:=A) (B:=B)).
Proof. intros f f' Hf p p' Hp. induction Hp; [apply Hf|by constructor..]. Qed.
End monad_laws.

(** ** Traces *)

Inductive event (S : sig) := Ev (o : op S) (r : reply o).
Arguments Ev {S} o r.
Definition ev_op {S} (e : event S) : op S := match e with Ev o _ => o end.

Inductive outcome (A : Type) := Done (a : A) | Crashed (c : crash).
Arguments Done {A} a.
Arguments Crashed {A} c.

(** [runs p tr out]: against some environment, [p] makes the calls of [tr], gets
    the replies of [tr], and ends with [out]. *)
Inductive runs {S A} : prog S A → list (event S) → outcome A → Prop :=
  | runs_ret a : runs (Ret a) [] (Done a)
  | runs_halt c : runs (Halt c) [] (Crashed c)
  | runs_vis o k r tr out : runs (k r) tr out → runs (Vis o k) (Ev o r :: tr) out.

(** [wp p Q]: every run of [p] ends in a trace and an outcome that satisfy [Q]. *)
Fixpoint wp {S A} (p : prog S A) (Q : list (event S) → outcome A → Prop) : Prop :=
  match p with
  | Ret a => Q [] (Done a)
  | Halt c => Q [] (Crashed c)
  | Vis o k => ∀ r, wp (k r) (λ tr out, Q (Ev o r :: tr) out)
  end.

#[global] Arguments wp : simpl never.

(** [hsafe I h p]: started after the history [h], [p] only issues calls that [I]
    allows after the history at that point. *)
Fixpoint hsafe {S A} (I : list (event S) → op S → Prop) (h : list (event S))
    (p : prog S A) : Prop :=
  match p with
  | Ret _ | Halt _ => True
  | Vis o k => I h o ∧ ∀ r, hsafe I (h ++ [Ev o r]) (k r)
  end.

(** Every call in [tr] satisfies [P]. *)
Definition calls_all {S} (P : op S → Prop) (tr : list (event S)) : Prop :=
  Forall (λ e, P (ev_op e)) tr.

Section traces.
Context {S : sig}.
Implicit Types (I : list (event S) → op S → Prop) (h tr : list (event S)).

Lemma runs_vis_inv {A} o (k : reply o → prog S A) tr out :
  runs (Vis o k) tr out → ∃ r tr', tr = Ev o r :: tr' ∧ runs (k r) tr' out.
Proof.
  intros H.
  refine (match H in runs p tr out return
            match p with
            | Vis o k => ∃ r tr', tr = Ev o r :: tr' ∧ runs (k r) tr' out
            | _ => True
            end with
          | runs_vis o k r tr out Hk => _
          | _ => Logic.I
          end). eauto.
Qed.

Lemma wp_runs {A} (p : prog S A) Q :
  wp p Q ↔ ∀ tr out, runs p tr out → Q tr out.
Proof.
  revert Q. induction p as [a|c|o k IH]; intros Q; unfold wp; fold @wp.
  - split; [intros HQ tr out H; by inversion H|intros H; apply H; constructor].
  - split; [intros HQ tr out H; by inversion H|intros H; apply H; constructor].
  - split.
    + intros H tr out (r & tr' & -> & Hr)%runs_vis_inv. exact (proj1 (IH r _) (H r) _ _ Hr).
    + intros H r. apply IH. intros tr out Hr. apply H. by constructor.
Qed.

Lemma wp_mono {A} (p : prog S A) (Q Q' : list (event S) → outcome A → Prop) :
  (∀ tr out, Q tr out → Q' tr out) → wp p Q → wp p Q'.
Proof. rewrite !wp_runs. naive_solver. Qed.

Lemma wp_and {A} (p : prog S A) Q Q' :
  wp p Q → wp p Q' → wp p (λ tr out, Q tr out ∧ Q' tr out).
Proof. rewrite !wp_runs. naive_solver. Qed.

Lemma wp_bind {A B} (p : prog S A) (f : A → prog S B) Q :
  wp (p ≫= f) Q ↔
  wp p (λ tr out, match out with
                  | Done a => wp (f a) (λ tr' out', Q (tr ++ tr') out')
                  | Crashed c => Q tr (Crashed c)
                  end).
Proof.
  revert Q. induction p as [a|c|o k IH]; intros Q; [done..|].
  split; intros H r.
  - apply (proj1 (IH r (λ tr out, Q (Ev o r :: tr) out))). apply H.
  - apply (proj2 (IH r (λ tr out, Q (Ev o r :: tr) out))). apply H.
Qed.

Lemma runs_bind {A B} (p : prog S A) (f : A → prog S B) tr out :
  runs (p ≫= f) tr out →
  (∃ tr1 tr2 a, tr = tr1 ++ tr2 ∧ runs p tr1 (Done a) ∧ runs (f a) tr2 out) ∨
  (∃ c, out = Crashed c ∧ runs p tr (Crashed c)).
Proof.
  revert tr. induction p as [a|c|o k IH]; intros tr H.
  - left. exists [], tr, a. repeat split; [constructor|done].
  - right. inversion H; subst. eexists; split; [done|constructor].
  - apply runs_vis_inv in H as (r & tr' & -> & Hr).
    destruct (IH r tr' Hr) as [(tr1 & tr2 & a & -> & H1 & H2)|(c & -> & H1)].
    + left. exists (Ev o r :: tr1), tr2, a. repeat split; [by constructor|done].
    + right. exists c. split; [done|by constructor].
Qed.

Lemma runs_bind_intro {A B} (p : prog S A) (f : A → prog S B) tr1 tr2 a out :
  runs p tr1 (Done a) → runs (f a) tr2 out → runs (p ≫= f) (tr1 ++ tr2) out.
Proof.
  revert tr1. induction p as [b|c|o k IH]; intros tr1 H1 H2.
  - by inversion H1; subst.
  - inversion H1.
  - apply runs_vis_inv in H1 as (r & tr' & -> & Hr). constructor. by apply IH.
Qed.

Lemma hsafe_mono {A} (I I' : list (event S) → op S → Prop) h (p : prog S A) :
  (∀ h' o, I h' o → I' h' o) → hsafe I h p → hsafe I' h p.
Proof. intros HI. revert h. induction p; intros h'; simpl; [done..|].
  intros [Ho Hk]. eauto.
Qed.

Lemma hsafe_bind {A B} I h (p : prog S A) (f : A → prog S B) :
  hsafe I h p →
  (∀ tr a, runs p tr (Done a) → hsafe I (h ++ tr) (f a)) →
  hsafe I h (p ≫= f).
Proof.
  revert h. induction p as [a|c|o k IH]; intros h Hp Hf; simpl in *.
  - specialize (Hf [] a (runs_ret a)). by rewrite app_nil_r in Hf.
  - done.
  - destruct Hp as [Ho Hk]. split; [done|]. intros r. apply IH; [done|].
    intros tr a Hr. rewrite <-app_assoc. apply Hf. by constructor.
Qed.

Lemma hsafe_runs {A} I h (p : prog S A) tr out tr1 e tr2 :
  hsafe I h p → runs p tr out → tr = tr1 ++ e :: tr2 → I (h ++ tr1) (ev_op e).
Proof.
  intros Hp Hr. revert h tr1 Hp. induction Hr as [| |o' k r' tr out Hr IH];
    intros h tr1 Hp Heq; [by destruct tr1..|].
  destruct Hp as [Ho Hk].
  destruct tr1 as [|e' tr1]; simpl in Heq; injection Heq as <- Heq.
  - by rewrite app_nil_r.
  - specialize (IH (h ++ [Ev o' r']) tr1 (Hk r') Heq). by rewrite <-app_assoc in IH.
Qed.
End traces.

(** Computes a [wp] goal: calls are replaced by their replies, matches are
    destructed, and a named function before a bind is replaced by its
    specification, found in the hint database [wp] by the head of the goal. *)
Lemma wp_then {S A B} (p : prog S A) (f : A → prog S B) Q P :
  wp p P →
  (∀ tr out, P tr out →
     match out with
     | Done a => wp (f a) (λ tr' out', Q (tr ++ tr') out')
     | Crashed c => Q tr (Crashed c)
     end) →
  wp (prog_then f p) Q.
Proof. intros Hp Hf. apply (wp_bind p f Q). by eapply wp_mono; [exact Hf|]. Qed.

Lemma wp_equiv {S A} (p p' : prog S A) Q : p ≡ p' → wp p Q → wp p' Q.
Proof.
  intros Heq. revert Q. induction Heq as [| |o k k' Hk IH]; intros Q; [done..|].
  intros HQ r. apply IH, HQ.
Qed.

Lemma wp_then_assoc {S A B C} (p : prog S A) (f : A → prog S B) (g : B → prog S C) Q :
  wp (prog_then (λ a, prog_then g (f a)) p) Q → wp (prog_then g (prog_then f p)) Q.
Proof. apply wp_equiv. symmetry. apply (bind_assoc p f g). Qed.

Create HintDb wp.

Ltac wp_step :=
  match goal with
  | |- ∀ _, _ => intro
  | |- match ?o with Done _ => _ | Crashed _ => _ end => destruct o
  | |- wp (Ret ?a) ?Q => change (Q [] (Done a)); cbv beta iota
  | |- wp (mret ?a) ?Q => change (Q [] (Done a)); cbv beta iota
  | |- wp (Halt ?c) ?Q => change (Q [] (Crashed c)); cbv beta iota
  | |- @wp ?S _ (Vis ?o ?k) ?Q =>
      change (∀ r, wp (k r) (λ tr out, Q (@Ev S o r :: tr) out)); cbv beta iota
  | |- wp (match ?x with _ => _ end) _ => destruct x eqn:?
  | |- wp (mbind ?f ?p) ?Q => change (wp (prog_then f p) Q)
  | |- wp (prog_then ?f (Ret ?a)) ?Q => change (wp (f a) Q); cbv beta iota
  | |- wp (prog_then ?f (mret ?a)) ?Q => change (wp (f a) Q); cbv beta iota
  | |- wp (prog_then ?g (mbind ?f ?p)) ?Q =>
      apply (wp_then_assoc p f g Q); cbv beta iota
  | |- wp (prog_then ?g (prog_bind _ _ _ ?f ?p)) ?Q =>
      apply (wp_then_assoc p f g Q); cbv beta iota
  | |- wp (prog_then _ (match ?x with _ => _ end)) _ => destruct x eqn:?
  | |- wp (prog_then _ _) _ => eapply wp_then; [solve [eauto with wp nocore]|cbv beta]
  | |- wp _ _ => eapply wp_mono; [cbv beta|solve [eauto with wp nocore]]
  | |- wp ?p ?Q => let p' := eval hnf in p in progress change (wp p' Q)
  end.
Ltac wp_go := repeat wp_step.

Lemma wp_True {S A} (p : prog S A) : wp p (λ _ _, True).
Proof. by apply wp_runs. Qed.

(** The same for [hsafe] goals.  A named function before a bind is replaced by
    its safety lemma, in the database [hsafe], and its specification in [wp], if
    it has one.  What is left is that each call is allowed. *)
#[global] Arguments hsafe : simpl never.

Lemma hsafe_then {S A B} I h (p : prog S A) (f : A → prog S B) P :
  hsafe I h p → wp p P → (∀ tr a, P tr (Done a) → hsafe I (h ++ tr) (f a)) →
  hsafe I h (prog_then f p).
Proof.
  intros Hp Hw Hf. apply (hsafe_bind I h p f); [done|].
  intros tr a Hr. apply Hf. rewrite wp_runs in Hw. auto.
Qed.

Lemma hsafe_equiv {S A} I h (p p' : prog S A) : p ≡ p' → hsafe I h p → hsafe I h p'.
Proof.
  intros Heq. revert h. induction Heq as [| |o k k' Hk IH]; intros h; [done..|].
  intros [Ho HQ]. split; [done|]. intros r. apply IH, HQ.
Qed.

Lemma hsafe_then_assoc {S A B C} I h (p : prog S A) (f : A → prog S B) (g : B → prog S C) :
  hsafe I h (prog_then (λ a, prog_then g (f a)) p) → hsafe I h (prog_then g (prog_then f p)).
Proof. apply hsafe_equiv. symmetry. apply (bind_assoc p f g). Qed.

Create HintDb hsafe.

Ltac hsafe_step :=
  match goal with
  | |- ∀ _, _ => intro
  | |- hsafe _ _ (Ret _) => exact Logic.I
  | |- hsafe _ _ (mret _) => exact Logic.I
  | |- hsafe _ _ (Halt _) => exact Logic.I
  | |- @hsafe ?S _ ?I ?h (Vis ?o ?k) =>
      change (I h o ∧ ∀ r, hsafe I (h ++ [@Ev S o r]) (k r)); cbv beta iota; split
  | |- hsafe _ _ (match ?x with _ => _ end) => destruct x eqn:?
  | |- hsafe ?I ?h (mbind ?f ?p) => change (hsafe I h (prog_then f p))
  | |- hsafe ?I ?h (prog_then ?f (Ret ?a)) => change (hsafe I h (f a)); cbv beta iota
  | |- hsafe ?I ?h (prog_then ?f (mret ?a)) => change (hsafe I h (f a)); cbv beta iota
  | |- hsafe ?I ?h (prog_then ?g (mbind ?f ?p)) =>
      apply (hsafe_then_assoc I h p f g); cbv beta iota
  | |- hsafe ?I ?h (prog_then ?g (prog_bind _ _ _ ?f ?p)) =>
      apply (hsafe_then_assoc I h p f g); cbv beta iota
  | |- hsafe _ _ (prog_then _ (match ?x with _ => _ end)) => destruct x eqn:?
  | |- hsafe _ _ (prog_then _ _) =>
      eapply hsafe_then;
        [solve [eauto with hsafe nocore]|first [solve [eauto with wp nocore]|apply wp_True]|cbv beta]
  | |- hsafe _ _ _ => solve [eauto with hsafe nocore]
  | |- hsafe ?I ?h ?p => let p' := eval hnf in p in progress change (hsafe I h p')
  end.
Ltac hsafe_go := repeat hsafe_step.

(** Inverts the hypotheses about runs of programs whose head is known. *)
Lemma runs_ret_inv {S A} (a : A) (tr : list (event S)) out :
  runs (mret a) tr out → tr = [] ∧ out = Done a.
Proof. intros H. by inversion H. Qed.

Lemma runs_halt_inv {S A} c (tr : list (event S)) (out : outcome A) :
  runs (Halt c) tr out → tr = [] ∧ out = Crashed c.
Proof. intros H. by inversion H. Qed.

Lemma runs_call_inv {S : sig} (o : op S) tr out :
  runs (call o) tr out → ∃ r, tr = [Ev o r] ∧ out = Done r.
Proof.
  intros (r & tr' & -> & H)%runs_vis_inv. inversion H; subst. eauto.
Qed.

Ltac runs_step H :=
  lazymatch type of H with
  | runs (mbind _ _) _ _ =>
      let tr1 := fresh "tr" in let tr2 := fresh "tr" in let a := fresh "a" in
      let H1 := fresh H in let H2 := fresh H in let c := fresh "c" in
      apply runs_bind in H as [(tr1 & tr2 & a & ? & H1 & H2)|(c & ? & H1)];
      subst; runs_step H1; try runs_step H2
  | runs (mret _) _ _ => apply runs_ret_inv in H as [? ?]; simplify_eq
  | runs (Ret _) _ _ => apply runs_ret_inv in H as [? ?]; simplify_eq
  | runs (Halt _) _ _ => apply runs_halt_inv in H as [? ?]; simplify_eq
  | runs (call _) _ _ =>
      let r := fresh "r" in
      apply runs_call_inv in H as (r & ? & ?); simplify_eq
  | runs (match ?x with _ => _ end) _ _ => destruct x eqn:?; runs_step H
  | runs _ _ _ => idtac
  end.

(** ** Running against one environment

    A handler answers each call and changes the state [W] of the environment. *)

Section exec.
Context {S : sig} {W : Type} (h : ∀ o : op S, W → reply o * W).

Fixpoint exec {A} (p : prog S A) (w : W) : outcome A * list (event S) * W :=
  match p with
  | Ret a => (Done a, [], w)
  | Halt c => (Crashed c, [], w)
  | Vis o k =>
      let '(r, w') := h o w in
      let '(out, tr, w'') := exec (k r) w' in
      (out, Ev o r :: tr, w'')
  end.

Lemma exec_runs {A} (p : prog S A) w :
  runs p (exec p w).1.2 (exec p w).1.1.
Proof.
  revert w. induction p as [a|c|o k IH]; intros w; simpl; [constructor..|].
  destruct (h o w) as [r w']. specialize (IH r w').
  destruct (exec (k r) w') as [[out tr] w'']. by constructor.
Qed.

Lemma exec_bind {A B} (p : prog S A) (f : A → prog S B) w :
  exec (p ≫= f) w =
  match exec p w with
  | (Done a, tr, w') => let '(out, tr', w'') := exec (f a) w' in (out, tr ++ tr', w'')
  | (Crashed c, tr, w') => (Crashed c, tr, w')
  end.
Proof.
  revert w. induction p as [a|c|o k IH]; intros w.
  - simpl. by destruct (exec (f a) w) as [[??]?].
  - done.
  - simpl. destruct (h o w) as [r w']. specialize (IH r w').
    unfold mbind, prog_bind in *. rewrite IH.
    destruct (exec (k r) w') as [[[a|c] tr] w'']; [|done].
    by destruct (exec (f a) w'') as [[??]?].
Qed.

(** The same without the trace: the program as a function on states. *)
Fixpoint denote {A} (p : prog S A) (w : W) : outcome A * W :=
  match p with
  | Ret a => (Done a, w)
  | Halt c => (Crashed c, w)
  | Vis o k => let '(r, w') := h o w in denote (k r) w'
  end.

Lemma denote_exec {A} (p : prog S A) w : denote p w = ((exec p w).1.1, (exec p w).2).
Proof.
  revert w. induction p as [a|c|o k IH]; intros w; [done..|]. simpl.
  destruct (h o w) as [r w']. rewrite IH. by destruct (exec (k r) w') as [[??]?].
Qed.

Lemma denote_bind {A B} (p : prog S A) (f : A → prog S B) w :
  denote (p ≫= f) w =
  match denote p w with
  | (Done a, w') => denote (f a) w'
  | (Crashed c, w') => (Crashed c, w')
  end.
Proof.
  revert w. induction p as [a|c|o k IH]; intros w; [done..|]. simpl.
  destruct (h o w) as [r w']. apply IH.
Qed.

Lemma denote_call (o : op S) w : denote (call o) w = (Done (h o w).1, (h o w).2).
Proof. unfold call. simpl. by destruct (h o w). Qed.
End exec.
