(* ===== verification/Nic.v ===== *)
(** * Finding Solarflare interfaces (src/pkg/deviceplugin/nic.go)

    [parseOutput] reads the output of [lshw -short -class network] with a regular
    expression.  The matcher below is the leftmost-first matcher of [regexp] for
    the patterns that are sequences of bytes, starred byte classes and one
    captured class with a plus; the pattern of the source is a value of it. *)

From S2P Require Import Prelude GoStd GoPath Effects.
From Stdlib Require Import Ascii.
From stdpp Require Import options.

Local Open Scope list_scope.

(** ** Regular expressions *)

Inductive re_item :=
  | Lit (c : ascii)
  | Star (p : ascii → bool)        (** [class*], greedy *)
  | GroupPlus (p : ascii → bool).  (** [(class+)], greedy, captured *)

(** The rest of the pattern, as a function from the rest of the text to the
    capture, is tried after each number of repetitions, the largest first. *)
Fixpoint star_match (p : ascii → bool) (k : string → option string) (s : string) : option string :=
  match s with
  | EmptyString => k s
  | String c s' =>
      if p c then match star_match p k s' with Some g => Some g | None => k s end else k s
  end.

(** The same with the bytes passed so far, of which at least one is needed;
    their string is the capture. *)
Fixpoint plus_match (p : ascii → bool) (k : string → option string) (acc s : string) : option string :=
  let stop := if bool_decide (acc = "") then None else
              match k s with Some _ => Some acc | None => None end in
  match s with
  | EmptyString => stop
  | String c s' =>
      if p c then match plus_match p k (acc +:+ String c "") s' with
                  | Some g => Some g
                  | None => stop
                  end
      else stop
  end.

(** Matching at the start of the text. *)
Fixpoint match_here (re : list re_item) (s : string) : option string :=
  match re with
  | [] => Some ""
  | Lit c :: re =>
      match s with
      | String c' s' => if bool_decide (c = c') then match_here re s' else None
      | EmptyString => None
      end
  | Star p :: re => star_match p (match_here re) s
  | GroupPlus p :: re => plus_match p (match_here re) "" s
  end.

(** [FindStringSubmatch(s)[1]]: the capture of the leftmost match. *)
Fixpoint FindSubmatch (re : list re_item) (s : string) : option string :=
  match match_here re s with
  | Some g => Some g
  | None =>
      match s with
      | EmptyString => None
      | String _ s' => FindSubmatch re s'
      end
  end.

Definition lits (s : string) : list re_item := map Lit (String.list_ascii_of_string s).

Definition is_space (c : ascii) : bool := bool_decide (c = " "%char).
Definition is_ifname_char (c : ascii) : bool :=
  let n := nat_of_ascii c in
  bool_decide (97 ≤ n ≤ 122) || bool_decide (48 ≤ n ≤ 57).
(** The dot matches any byte but a newline. *)
Definition not_newline (c : ascii) : bool := bool_decide (c ≠ "010"%char).

(** [([a-z0-9]+) *network *.*SFC] *)
Definition nic_regexp : list re_item :=
  [GroupPlus is_ifname_char; Star is_space] ++ lits "network" ++
  [Star is_space; Star not_newline] ++ lits "SFC".

(** ** parseOutput *)


(** The loop over the lines. *)
Fixpoint parse_lines (lines : list string) : list string :=
  match lines with
  | [] => []
  | line :: lines =>
      match FindSubmatch nic_regexp line with
      | Some name => name :: parse_lines lines
      | None => parse_lines lines
      end
  end.

(** [lines[skip_lines : len(lines)-end_lines]] panics when the bounds are out of
    order. *)
Definition parseOutput (euid : Z) (output : string) : crash + list string :=
  let lines := Split output newline in
  let '(skip_lines, end_lines) := if bool_decide (euid ≠ 0)%Z then (3, 2) else (2, 1) in
  if bool_decide (skip_lines + end_lines ≤ length lines)
  then inr (parse_lines (take (length lines - end_lines - skip_lines) (drop skip_lines lines)))
  else inl (Panic "slice bounds out of range").

Example nic_sample_line :
  FindSubmatch nic_regexp
    "/0/100/1b/0         enp2s0f0   network        XtremeScale SFC9250 10/25/40/50/100G Ethernet Controller"
  = Some "enp2s0f0".
Proof. vm_compute. reflexivity. Qed.
Example nic_other_line :
  FindSubmatch nic_regexp
    "/0/100/1c.1/0       eno1       network        NetXtreme BCM5720 Gigabit Ethernet PCIe" = None.
Proof. vm_compute. reflexivity. Qed.

(** ** The matcher *)

Section matcher.
Implicit Types (p : ascii → bool) (k : string → option string) (s g : string).

Definition all_chars p s : bool := forallb p (String.list_ascii_of_string s).

(** A star matches when some split of the text does. *)
Lemma star_match_Some p k s :
  is_Some (star_match p k s) ↔ ∃ a b, s = a +:+ b ∧ all_chars p a = true ∧ is_Some (k b).
Proof.
  induction s as [|c s IH]; simpl.
  - split; [intros Hk; by exists "", ""|]. intros ([|] & [|] & Heq & _ & Hk); done.
  - split.
    + intros Hm. destruct (p c) eqn:Hc; [|by exists "", (String c s)].
      destruct (star_match p k s) as [g|] eqn:Hs; [|by exists "", (String c s)].
      destruct (proj1 IH) as (a & b & -> & Ha & Hb); [by eexists|].
      exists (String c a), b. split; [done|]. unfold all_chars in *. simpl. by rewrite Hc.
    + intros (a & b & Heq & Ha & Hb). destruct a as [|c' a]; simpl in Heq.
      * subst b. destruct (p c); [|done]. by destruct (star_match p k s).
      * injection Heq as -> ->. unfold all_chars in Ha. simpl in Ha.
        apply andb_true_iff in Ha as [-> Ha].
        destruct (star_match p k (a +:+ b)) eqn:Hs; [done|].
        destruct (proj2 IH); [by exists a, b|done].
Qed.

(** The group captures its longest run of bytes after which the rest matches. *)
Lemma plus_match_longest p k acc g t :
  all_chars p g = true → g ≠ "" → is_Some (k t) →
  (match t with String c _ => p c = false | EmptyString => True end) →
  plus_match p k acc (g +:+ t) = Some (acc +:+ g).
Proof.
  intros Hg Hne Hk Ht. revert acc Hg Hne. induction g as [|c g IH]; intros acc Hg Hne; [done|].
  unfold all_chars in Hg. simpl in Hg. apply andb_true_iff in Hg as [Hc Hg]. simpl. rewrite Hc.
  destruct g as [|c' g].
  - simpl. destruct Hk as [x Hx].
    assert (acc +:+ String c "" ≠ "") as Hacc by (by destruct acc).
    destruct t as [|c' t]; simpl; [|rewrite Ht]; rewrite bool_decide_eq_false_2 by done; by rewrite Hx.
  - rewrite (IH (acc +:+ String c "")); [|done..]. by rewrite string_app_assoc.
Qed.

Lemma plus_match_None p k acc s :
  (∀ a b, s = a +:+ b → all_chars p a = true → acc +:+ a ≠ "" → k b = None) →
  plus_match p k acc s = None.
Proof.
  revert acc. induction s as [|c s IH]; intros acc Hk; simpl.
  - case_bool_decide; [done|]. rewrite (Hk "" ""); [done..|]. by rewrite string_app_nil_r.
  - assert ((if bool_decide (acc = "") then None
             else match k (String c s) with Some _ => Some acc | None => None end) = None) as Hstop.
    { case_bool_decide; [done|]. rewrite (Hk "" (String c s)); [done..|]. by rewrite string_app_nil_r. }
    destruct (p c) eqn:Hc; [|exact Hstop]. rewrite IH; [exact Hstop|].
    intros a b -> Ha Hne. apply (Hk (String c a) b); [done| |by rewrite string_app_assoc in Hne].
    unfold all_chars in *. simpl. by rewrite Hc.
Qed.

End matcher.

(** ** Lines of lshw *)

Lemma match_lits l re t : match_here (lits l ++ re) (l +:+ t) = match_here re t.
Proof. induction l as [|c l IH]; [done|]. simpl. by rewrite bool_decide_eq_true_2. Qed.

Lemma match_lits_Some l re t :
  is_Some (match_here (lits l ++ re) t) → ∃ t', t = l +:+ t' ∧ is_Some (match_here re t').
Proof.
  revert t. induction l as [|c l IH]; intros t Hm; [by exists t|]. simpl in Hm.
  destruct t as [|c' t]; [by destruct Hm|]. case_bool_decide; [|by destruct Hm]. subst.
  destruct (IH t Hm) as (t' & -> & Ht). by exists t'.
Qed.

(** What follows the device column, and the class column. *)
Definition after_class : list re_item := Star is_space :: Star not_newline :: lits "SFC" ++ [].
Definition after_name : list re_item := Star is_space :: lits "network" ++ after_class.

Lemma nic_regexp_split : nic_regexp = GroupPlus is_ifname_char :: after_name.
Proof. done. Qed.

Lemma after_name_Some t :
  is_Some (match_here after_name t) →
  ∃ sp rest, t = sp +:+ "network" +:+ rest ∧ all_chars is_space sp = true.
Proof.
  intros (sp & t' & -> & Hsp & Ht')%star_match_Some.
  apply match_lits_Some in Ht' as (rest & -> & _). by exists sp, rest.
Qed.

Lemma after_name_match sp mid x :
  all_chars is_space sp = true → all_chars not_newline mid = true →
  is_Some (match_here after_name (sp +:+ "network" +:+ mid +:+ "SFC" +:+ x)).
Proof.
  intros Hsp Hmid. apply star_match_Some.
  exists sp, ("network" +:+ mid +:+ "SFC" +:+ x). split_and!; [done|done|].
  rewrite match_lits. apply star_match_Some. exists "", (mid +:+ "SFC" +:+ x).
  split_and!; [done..|]. apply star_match_Some. exists mid, ("SFC" +:+ x). split_and!; [done..|].
  by rewrite match_lits.
Qed.

Lemma FindSubmatch_cons re c s :
  FindSubmatch re (String c s) =
  match match_here re (String c s) with Some g => Some g | None => FindSubmatch re s end.
Proof. done. Qed.

Lemma FindSubmatch_skip re pre s :
  (∀ a, a ≠ "" → (∃ a', pre = a' +:+ a) → match_here re (a +:+ s) = None) →
  FindSubmatch re (pre +:+ s) = FindSubmatch re s.
Proof.
  induction pre as [|c pre IH]; intros Hnone; [done|].
  rewrite string_app_cons, FindSubmatch_cons, <-string_app_cons.
  rewrite (Hnone (String c pre)); [|done|by exists ""].
  apply IH. intros a Ha (a' & ->). apply Hnone; [done|]. by exists (String c a').
Qed.

Lemma all_chars_app p a b : all_chars p (a +:+ b) = all_chars p a && all_chars p b.
Proof. unfold all_chars. induction a as [|c a IH]; [done|]. simpl. by rewrite IH, andb_assoc. Qed.

(** A row of the table: the path column and the spaces after it ([pre]), the
    device name, and the columns after it. *)
Definition lshw_row (pre dev sp rest : string) : string :=
  pre +:+ " " +:+ dev +:+ " " +:+ sp +:+ "network" +:+ rest.

(** The same with another byte [z] before the name. *)
Definition named_row (pre : string) (z : ascii) (name sp rest : string) : string :=
  pre +:+ String z "" +:+ name +:+ " " +:+ sp +:+ "network" +:+ rest.

Lemma ends_in z a0 g m : a0 +:+ String z "" = g +:+ m → m = "" ∨ ∃ m0, m = m0 +:+ String z "".
Proof.
  intros [(d & -> & Hm)|(d & -> & ->)]%string_app_eq; [|right; by exists d].
  destruct d as [|c d]; [right; by exists ""|]. injection Hm as <- Hm.
  left. by destruct d, m.
Qed.

Lemma all_chars_one p z : all_chars p (String z "") = p z.
Proof. unfold all_chars. simpl. apply andb_true_r. Qed.

Lemma char_free_last z s : char_free z (s +:+ String z "") = false.
Proof. rewrite char_free_app. simpl. by rewrite bool_decide_eq_false_2, andb_false_r by auto. Qed.

Lemma network_free z : is_ifname_char z = false → char_free z "network" = true.
Proof.
  intros Hz. destruct (char_free z "network") eqn:Hf; [done|]. simpl in Hf.
  repeat (case_bool_decide; [simpl in Hf|subst z; done]). done.
Qed.

Lemma no_name_before z pre s a :
  is_ifname_char z = false →
  Contains pre "network" = false → HasPrefix s "network" = false →
  (∃ c s', s = String c s' ∧ is_space c = false) →
  (∃ a', pre +:+ String z "" = a' +:+ a) → a ≠ "" →
  match_here nic_regexp (a +:+ s) = None.
Proof.
  intros Hz Hpre Hs (c & s' & -> & Hc) [a' Ha'] Hne.
  rewrite nic_regexp_split. apply plus_match_None. intros g b Heq Hg Hgne.
  destruct (match_here after_name b) eqn:Hm; [|done]. exfalso.
  destruct (after_name_Some b) as (sp & rest & -> & Hsp); [by eexists|].
  destruct (ends_in _ _ _ _ Ha') as [->|[a0 ->]]; [done|].
  (* the name is inside the path column *)
  destruct (string_app_eq _ _ _ _ Heq) as [(m & -> & _)|(m & Ham & Hb)].
  { by rewrite !all_chars_app, all_chars_one, Hz, andb_false_r in Hg. }
  destruct (ends_in _ _ _ _ Ham) as [->|[m0 ->]].
  { rewrite string_app_nil_r in Ham. subst g. by rewrite all_chars_app, all_chars_one, Hz, andb_false_r in Hg. }
  destruct (string_app_eq _ _ _ _ Hb) as [(d & Hd & Hr)|(d & -> & Hr)].
  - (* the class starts in the path column *)
    destruct (ends_in _ _ _ _ Hd) as [->|[d0 ->]].
    { simpl in Hr. apply not_true_iff_false in Hs. apply Hs, HasPrefix_spec. by exists rest. }
    destruct (string_app_eq _ _ _ _ Hr) as [(e & He & _)|(e & He & _)].
    + destruct (ends_in _ _ _ _ He) as [->|[e0 ->]].
      * rewrite string_app_nil_r in He. pose proof (network_free z Hz) as Hf.
        by rewrite <-He, char_free_last in Hf.
      * apply not_true_iff_false in Hpre. apply Hpre, Contains_spec.
        exists (a' +:+ g +:+ sp), e0. apply (string_app_inj_r _ _ (String z "")).
        rewrite Ha', Ham, Hd, He. by rewrite !string_app_assoc.
    + pose proof (network_free z Hz) as Hf.
      by rewrite He, char_free_app, char_free_last in Hf.
  - (* the spaces go on into [s] *)
    destruct d as [|c' d].
    + simpl in Hr. apply not_true_iff_false in Hs. apply Hs, HasPrefix_spec. by exists rest.
    + injection Hr as <- Hr. rewrite all_chars_app in Hsp. unfold all_chars in Hsp.
      simpl in Hsp. by rewrite Hc, andb_false_r in Hsp.
Qed.

Lemma row_rest_no_prefix dev t :
  HasPrefix dev "network" = false → HasPrefix (dev +:+ " " +:+ t) "network" = false.
Proof.
  intros Hd. apply not_true_iff_false. intros (rest & Heq)%HasPrefix_spec.
  destruct (string_app_eq _ _ _ _ Heq) as [(m & Hm & Ht)|(m & -> & _)].
  - destruct m as [|c m].
    + rewrite string_app_nil_r in Hm. subst dev. by rewrite (proj2 (HasPrefix_spec _ _)) in Hd by (by exists "").
    + injection Ht as <- _. apply (f_equal (char_free " "%char)) in Hm.
      rewrite char_free_app in Hm. simpl in Hm. by rewrite andb_false_r in Hm.
  - by rewrite (proj2 (HasPrefix_spec _ _)) in Hd by (by exists m).
Qed.

Lemma ifname_not_space c : is_ifname_char c = true → is_space c = false.
Proof. intros Hc. apply bool_decide_eq_false. by intros ->. Qed.

(** A well-formed row of an SFC adapter. *)
Record sfc_row := SfcRow {
  row_path : string;
  row_device : string;
  row_gap : string;      (** further spaces before the class column *)
  row_vendor : string;   (** between the class and the letters SFC *)
  row_model : string;    (** after them *)
}.
Definition row_text (r : sfc_row) : string :=
  lshw_row (row_path r) (row_device r) (row_gap r) (row_vendor r +:+ "SFC" +:+ row_model r).
Definition row_ok (r : sfc_row) : bool :=
  negb (Contains (row_path r) "network") && all_chars is_ifname_char (row_device r) &&
  negb (bool_decide (row_device r = "")) && negb (HasPrefix (row_device r) "network") &&
  all_chars is_space (row_gap r) && all_chars not_newline (row_vendor r).

(** The name before the class column is found, after any byte that is not part of
    a name. *)
Lemma FindSubmatch_named pre z name sp mid x :
  is_ifname_char z = false → Contains pre "network" = false →
  all_chars is_ifname_char name = true → name ≠ "" → HasPrefix name "network" = false →
  all_chars is_space sp = true → all_chars not_newline mid = true →
  FindSubmatch nic_regexp (named_row pre z name sp (mid +:+ "SFC" +:+ x)) = Some name.
Proof.
  intros Hz Hpre Hdev Hne Hnet Hsp Hmid. unfold named_row.
  rewrite <-(string_app_assoc pre), FindSubmatch_skip.
  - assert (match_here nic_regexp (name +:+ " " +:+ sp +:+ "network" +:+ mid +:+ "SFC" +:+ x)
            = Some name) as Hm.
    { rewrite nic_regexp_split. apply (plus_match_longest _ _ "" name); [done..| |done].
      rewrite <-string_app_assoc. by apply after_name_match. }
    destruct (name +:+ " " +:+ sp +:+ "network" +:+ mid +:+ "SFC" +:+ x) as [|c s] eqn:Hs.
    { by destruct name. }
    by rewrite FindSubmatch_cons, Hm.
  - intros a Ha Hin. apply (no_name_before z pre); [done|done| | |done|done].
    + by apply row_rest_no_prefix.
    + destruct name as [|c name]; [done|]. exists c. eexists. split; [done|].
      unfold all_chars in Hdev. simpl in Hdev. apply andb_true_iff in Hdev as [Hc _].
      by apply ifname_not_space.
Qed.

Lemma FindSubmatch_row r : row_ok r = true → FindSubmatch nic_regexp (row_text r) = Some (row_device r).
Proof.
  unfold row_ok. rewrite !andb_true_iff, !negb_true_iff, bool_decide_eq_false.
  intros [[[[[Hpre Hdev] Hne] Hnet] Hsp] Hmid]. by apply (FindSubmatch_named _ " "%char).
Qed.

(** A line without the letters SFC names no interface. *)
Lemma plus_match_Some p k acc s : is_Some (plus_match p k acc s) → ∃ a b, s = a +:+ b ∧ is_Some (k b).
Proof.
  revert acc. induction s as [|c s IH]; intros acc; simpl.
  - case_bool_decide; [by intros []|]. destruct (k "") eqn:Hk; [|by intros []].
    intros _. exists "", "". split; [done|]. by eexists.
  - assert (is_Some (if bool_decide (acc = "") then None
              else match k (String c s) with Some _ => Some acc | None => None end) →
            ∃ a b, String c s = a +:+ b ∧ is_Some (k b)) as Hstop.
    { case_bool_decide; [by intros []|]. destruct (k (String c s)) eqn:Hk; [|by intros []].
      intros _. exists "", (String c s). split; [done|]. by eexists. }
    destruct (p c); [|exact Hstop]. destruct (plus_match p k _ s) eqn:Hm; [|exact Hstop].
    intros _. destruct (IH (acc +:+ String c "")) as (a & b & -> & Hb); [by eexists|].
    by exists (String c a), b.
Qed.

Lemma match_here_contains s : is_Some (match_here nic_regexp s) → Contains s "SFC" = true.
Proof.
  rewrite nic_regexp_split. intros (a & b & -> & Hb)%plus_match_Some.
  apply star_match_Some in Hb as (sp & t & -> & _ & Ht). apply match_lits_Some in Ht as (u & -> & Hu).
  apply star_match_Some in Hu as (sp' & v & -> & _ & Hv). apply star_match_Some in Hv as (m & w & -> & _ & Hw).
  apply match_lits_Some in Hw as (x & -> & _). apply Contains_spec.
  exists (a +:+ sp +:+ "network" +:+ sp' +:+ m), x. by rewrite !string_app_assoc.
Qed.

Lemma FindSubmatch_contains s : is_Some (FindSubmatch nic_regexp s) → Contains s "SFC" = true.
Proof.
  induction s as [|c s IH].
  - intros Hm. apply match_here_contains. simpl in *. by destruct Hm.
  - rewrite FindSubmatch_cons. destruct (match_here _ _) eqn:Hm.
    + intros _. apply match_here_contains. by eexists.
    + intros Hs. apply IH, Contains_spec in Hs as (a & b & ->). apply Contains_spec. by exists (String c a), b.
Qed.

(** ** The table *)

(** A line of the table: an SFC adapter, or a line without the letters SFC. *)
Inductive lshw_line :=
  | SfcLine (r : sfc_row)
  | OtherLine (s : string).
Definition line_text (l : lshw_line) : string :=
  match l with SfcLine r => row_text r | OtherLine s => s end.
Definition line_ok (l : lshw_line) : bool :=
  char_free "010"%char (line_text l) &&
  match l with SfcLine r => row_ok r | OtherLine s => negb (Contains s "SFC") end.
Definition line_device (l : lshw_line) : option string :=
  match l with SfcLine r => Some (row_device r) | OtherLine _ => None end.

(** The output of lshw for root: two header lines, the rows, a final newline. *)
Definition lshw_output (h1 h2 : string) (lines : list lshw_line) : string :=
  Join ([h1; h2] ++ map line_text lines ++ [""]) newline.

Lemma parse_lines_ok lines :
  forallb line_ok lines = true → parse_lines (map line_text lines) = omap line_device lines.
Proof.
  induction lines as [|l lines IH]; [done|]. simpl. intros [Hl Hls]%andb_true_iff.
  unfold line_ok in Hl. apply andb_true_iff in Hl as [_ Hl]. rewrite (IH Hls). destruct l as [r|s]; simpl in *.
  - by rewrite FindSubmatch_row.
  - destruct (FindSubmatch nic_regexp s) eqn:Hm; [|done].
    apply negb_true_iff in Hl. by rewrite FindSubmatch_contains in Hl.
Qed.

Lemma Split_Join c l :
  l ≠ [] → forallb (char_free c) l = true → Split (Join l (String c "")) (String c "") = l.
Proof.
  induction l as [|s l IH]; [done|]. simpl. intros _ [Hs Hl]%andb_true_iff.
  destruct l as [|t l]; [by apply Split_free|].
  change (String c "" +:+ Join (t :: l) (String c "")) with (String c (Join (t :: l) (String c ""))).
  by rewrite Split_app, (Split_free _ _ Hs), IH.
Qed.

(** C22. On the table that lshw prints for root, [parseOutput] returns the device
    names of the SFC adapters, in order, and nothing else.  A row is read
    correctly if its device name is made of lowercase letters and digits and does
    not start like the class column, and its path does not contain the word
    network. *)
Theorem parseOutput_table h1 h2 lines :
  char_free "010"%char h1 = true → char_free "010"%char h2 = true →
  forallb line_ok lines = true →
  parseOutput 0 (lshw_output h1 h2 lines) = inr (omap line_device lines).
Proof.
  intros H1 H2 Hl. unfold parseOutput, lshw_output, newline. rewrite Split_Join; [|done|].
  - simpl. rewrite length_app, length_map. simpl.
    rewrite bool_decide_eq_true_2 by lia. f_equal.
    replace (length lines + 1 - 1) with (length (map line_text lines))
      by (rewrite length_map; lia).
    rewrite drop_0, take_app_length. by apply parse_lines_ok.
  - simpl. rewrite H1, H2, forallb_app. simpl. rewrite andb_true_r.
    clear H1 H2. induction lines as [|l lines IH]; [done|]. simpl in *.
    apply andb_true_iff in Hl as [Hl Hls]. unfold line_ok in Hl. apply andb_true_iff in Hl as [-> _]. auto.
Qed.

Definition sample_row : sfc_row :=
  SfcRow "/0/100/1b/0        " "enp2s0f0" "  " "        XtremeScale " "9250 Ethernet Controller".
Definition sample_table : list lshw_line :=
  [SfcLine sample_row;
   OtherLine "/0/100/1c.1/0       eno1       network        NetXtreme BCM5720 Gigabit Ethernet PCIe"].

Lemma parseOutput_table_witness :
  forallb line_ok sample_table = true ∧
  parseOutput 0 (lshw_output "H/W path   Device   Class   Description" "=======" sample_table)
  = inr ["enp2s0f0"].
Proof.
  split; [vm_compute; reflexivity|].
  apply (parseOutput_table "H/W path   Device   Class   Description" "=======" sample_table);
    vm_compute; reflexivity.
Defined.

Fixpoint count_newlines (s : string) : nat :=
  match s with
  | EmptyString => 0
  | String c s => (if bool_decide (c = "010"%char) then 1 else 0) + count_newlines s
  end.

Lemma length_Split_newline s : length (Split s newline) = S (count_newlines s).
Proof.
  induction s as [|c s IH]; [done|]. unfold newline in *. rewrite Split_cons. simpl count_newlines.
  case_bool_decide; simpl; [by rewrite IH|].
  destruct (Split s (String "010" "")); simpl in *; lia.
Qed.

(** C39. [parseOutput] does not check that the output has the header lines it
    skips: it panics exactly when the output has fewer newlines than it expects,
    two for root and four otherwise; the empty output is one. *)
Theorem parseOutput_panics euid output :
  (∃ c, parseOutput euid output = inl c) ↔
  count_newlines output < if bool_decide (euid = 0)%Z then 2 else 4.
Proof.
  unfold parseOutput. rewrite length_Split_newline. destruct (decide (euid = 0)%Z).
  - rewrite (bool_decide_eq_false_2 (euid ≠ 0)%Z), (bool_decide_eq_true_2 (euid = 0)%Z) by lia.
    case_bool_decide; split; [by intros []|lia|lia|eauto].
  - rewrite (bool_decide_eq_true_2 (euid ≠ 0)%Z), (bool_decide_eq_false_2 (euid = 0)%Z) by lia.
    case_bool_decide; split; [by intros []|lia|lia|eauto].
Qed.

(** C40. A row whose device column is empty, as lshw prints it for an adapter
    without a network interface, is not skipped: the end of the path column, after
    its last byte that is not a lowercase letter or a digit, is taken for the device
    name. *)
Theorem parseOutput_empty_device h1 h2 path z tail gap vendor model :
  let row := named_row path z tail gap (vendor +:+ "SFC" +:+ model) in
  forallb (char_free "010"%char) [h1; h2; row] = true →
  is_ifname_char z = false → Contains path "network" = false →
  all_chars is_ifname_char tail = true → tail ≠ "" → HasPrefix tail "network" = false →
  all_chars is_space gap = true → all_chars not_newline vendor = true →
  parseOutput 0 (Join [h1; h2; row; ""] newline) = inr [tail].
Proof.
  intros row Hfree Hz Hpath Htail Hne Hnet Hgap Hvendor.
  unfold parseOutput, newline. rewrite Split_Join; [|done|].
  - change (inr (parse_lines [row]) = inr [tail] :> crash + list string). unfold parse_lines, row.
    by rewrite FindSubmatch_named.
  - change (forallb (char_free "010"%char) ([h1; h2; row] ++ [""]) = true).
    by rewrite forallb_app, Hfree.
Qed.

Lemma parseOutput_empty_device_witness :
  parseOutput 0 (Join ["H/W path        Device  Class    Description"; "=====";
                       "/0/100/1b/0.1           network  XtremeScale SFC9250"; ""] newline) = inr ["1"].
Proof.
  apply (parseOutput_empty_device "H/W path        Device  Class    Description" "====="
           "/0/100/1b/0" "."%char "1" "          " "  XtremeScale " "9250"); vm_compute; done.
Defined.
