(* ===== verification/Host.v ===== *)
(** * The host, as the device plugin and the worker see it

    The operating system, gRPC, and the pod API that the worker uses are not code
    of this repository; a call to them is an operation, and the reply is theirs to
    choose.  [glog.Fatal] is a [Fatal] crash: the process ends. *)

From S2P Require Import Prelude GoStd Effects.
From stdpp Require Import options.

Local Open Scope list_scope.

(** An error value of the operating system, gRPC or the API client. *)
Definition os_error := string.

Record DirEntry := MkDirEntry { de_Name : string; de_IsDir : bool }.

(** ** Messages of the device plugin API *)

Record Device := MkDevice { device_ID : string; device_Health : string }.
Record DeviceSpec := MkDeviceSpec {
  dspec_HostPath : string; dspec_ContainerPath : string; dspec_Permissions : string }.
Record Mount := MkMount {
  mount_HostPath : string; mount_ContainerPath : string; mount_ReadOnly : bool }.
Record DevicePluginOptions := MkDevicePluginOptions {
  PreStartRequired : bool; GetPreferredAllocationAvailable : bool }.
Record RegisterRequest := MkRegisterRequest {
  rr_Version : string; rr_Endpoint : string; rr_ResourceName : string;
  rr_Options : option DevicePluginOptions }.

(** The constants of the device plugin API, which is not code of this repository. *)
Class PluginApi := {
  Healthy : string;
  DevicePluginPath : string;
  KubeletSocket : string;
  pluginapi_Version : string;
}.

(** ** The status of a pod, as the worker reads it *)

Record ContainerStatus := MkContainerStatus {
  cs_Name : string;
  cs_Ready : bool;
  cs_Started : option bool;       (** [*bool] *)
  cs_Running : bool;              (** [State.Running != nil] *)
  cs_ContainerID : string }.
Definition PodStatus := list ContainerStatus.

(** ** The calls *)

Inductive host_op :=
  | Geteuid
  | Lshw                                   (** [exec.Command("lshw", ...).CombinedOutput()] *)
  | ReadDir (dir : string)
  | RemoveAll (path : string)
  | MkdirAll (path : string)
  | Listen (path : string)
  | GrpcServe (path : string)              (** serves until the server stops *)
  | Dial (path : string) (timeout : Z)     (** a blocking [grpc.DialContext], in nanoseconds *)
  | Register (req : RegisterRequest)
  | Send (devices : list Device)
  | Sleep (duration : Z)
  | Now                                    (** [time.Now()], in nanoseconds *)
  | Getenv (key : string)
  | Stat (path : string)
  | WriteFile (path content : string)
  | InClusterConfig
  | NewForConfig
  | GetPod (namespace name : string)
  (** [select] between a timer and the deadline of the context: whether the timer won *)
  | WaitTimer (duration : Z).

Definition host_reply (o : host_op) : Type :=
  match o with
  | Geteuid => Z
  | Lshw => string * option os_error
  | ReadDir _ => os_error + list DirEntry
  | RemoveAll _ | MkdirAll _ | Listen _ | GrpcServe _ | Dial _ _ | Register _ | Send _
  | Stat _ | WriteFile _ _ | InClusterConfig | NewForConfig => option os_error
  | Sleep _ => unit
  | Now => Z
  | Getenv _ => string
  | GetPod _ _ => os_error + PodStatus
  | WaitTimer _ => bool
  end.

Definition hostS : sig := Sig host_op host_reply.

Definition geteuid : prog hostS Z := call (S:=hostS) Geteuid.
Definition lshw : prog hostS (string * option os_error) := call (S:=hostS) Lshw.
Definition read_dir d : prog hostS (os_error + list DirEntry) := call (S:=hostS) (ReadDir d).
Definition remove_all p : prog hostS (option os_error) := call (S:=hostS) (RemoveAll p).
Definition mkdir_all p : prog hostS (option os_error) := call (S:=hostS) (MkdirAll p).
Definition net_listen p : prog hostS (option os_error) := call (S:=hostS) (Listen p).
Definition grpc_serve p : prog hostS (option os_error) := call (S:=hostS) (GrpcServe p).
Definition dial p t : prog hostS (option os_error) := call (S:=hostS) (Dial p t).
Definition register r : prog hostS (option os_error) := call (S:=hostS) (Register r).
Definition send d : prog hostS (option os_error) := call (S:=hostS) (Send d).
Definition sleep d : prog hostS unit := call (S:=hostS) (Sleep d).
Definition time_now : prog hostS Z := call (S:=hostS) Now.
Definition getenv k : prog hostS string := call (S:=hostS) (Getenv k).
Definition stat p : prog hostS (option os_error) := call (S:=hostS) (Stat p).
Definition write_file p c : prog hostS (option os_error) := call (S:=hostS) (WriteFile p c).
Definition in_cluster_config : prog hostS (option os_error) := call (S:=hostS) InClusterConfig.
Definition new_for_config : prog hostS (option os_error) := call (S:=hostS) NewForConfig.
Definition get_pod ns n : prog hostS (os_error + PodStatus) := call (S:=hostS) (GetPod ns n).
Definition wait_timer d : prog hostS bool := call (S:=hostS) (WaitTimer d).

Definition second : Z := 1000000000.
Definition millisecond : Z := 1000000.
