(* ===== verification/Manager.v ===== *)
(** * The state of the device plugin (src/pkg/deviceplugin/manager.go and mounts.go) *)

From S2P Require Import Prelude GoStd GoFmt GoPath Effects Nic Host.
From stdpp Require Import options.

Local Open Scope list_scope.

Definition resourceName : string := "amd.com/onload".

Record NicManagerConfig := MkNicManagerConfig {
  MaxPodsPerNode : Z;
  SetPreload : bool;
  MountOnload : bool;
  HostPathPrefix : string;
  BaseMountPath : string;
  BinMountPath : string;
  LibMountPath : string;
  NeedNic : bool;
}.

Definition DefaultConfig : NicManagerConfig := {|
  MaxPodsPerNode := 100;
  SetPreload := true;
  MountOnload := false;
  HostPathPrefix := "/opt/onload";
  BaseMountPath := "/opt/onload";
  BinMountPath := "/usr/bin";
  LibMountPath := "/usr/lib64";
  NeedNic := true |}.

(** The wait group and the RPC server, which holds a pointer back, are in [Rpc]. *)
Record NicManager := MkNicManager {
  nm_interfaces : list string;
  nm_deviceFiles : list DeviceSpec;
  nm_mounts : list Mount;
  nm_devices : list Device;
  nm_envs : gmap string string;
  nm_config : NicManagerConfig;
}.

Definition with_deviceFiles (m : NicManager) (d : list DeviceSpec) : NicManager :=
  MkNicManager (nm_interfaces m) d (nm_mounts m) (nm_devices m) (nm_envs m) (nm_config m).
Definition with_mounts (m : NicManager) (l : list Mount) : NicManager :=
  MkNicManager (nm_interfaces m) (nm_deviceFiles m) l (nm_devices m) (nm_envs m) (nm_config m).
Definition with_devices (m : NicManager) (d : list Device) : NicManager :=
  MkNicManager (nm_interfaces m) (nm_deviceFiles m) (nm_mounts m) d (nm_envs m) (nm_config m).
Definition with_envs (m : NicManager) (e : gmap string string) : NicManager :=
  MkNicManager (nm_interfaces m) (nm_deviceFiles m) (nm_mounts m) (nm_devices m) e (nm_config m).

Section manager.
Context {PA : PluginApi}.

(** ** Devices *)

(** The loop from [i] to the limit. *)
Fixpoint initDevices_loop (n : nat) (i : Z) (devices : list Device) : list Device :=
  match n with
  | 0 => devices
  | S n => initDevices_loop n (i + 1) (devices ++ [MkDevice ("sfc-" +:+ Itoa i) Healthy])
  end.
Definition initDevices (m : NicManager) : NicManager :=
  with_devices m (initDevices_loop (Z.to_nat (MaxPodsPerNode (nm_config m))) 0 []).

(** ** Mounts *)

Definition hostLib64path : string := "/usr/lib64".
Definition hostUsrBinPath : string := "/usr/bin".
Definition deviceMounts : list string := ["/dev/onload"; "/dev/onload_epoll"; "/dev/sfc_char"].
Definition libraryMounts : list string := ["libonload.so"; "libonload_ext.so"].
Definition fileMounts : list string := ["onload"].

Definition addDeviceMount (m : NicManager) (path : string) : NicManager :=
  with_deviceFiles m (nm_deviceFiles m ++ [MkDeviceSpec path path "mrw"]).

Definition addFileMount (m : NicManager) (hostPath containerPath : string) : NicManager :=
  with_mounts m (nm_mounts m ++ [MkMount hostPath containerPath true]).

(** The loop over the directory entries. *)
Fixpoint library_versions (filename : string) (infos : list DirEntry) : list string :=
  match infos with
  | [] => []
  | info :: infos =>
      if de_IsDir info then library_versions filename infos
      else if HasPrefix (de_Name info) filename
           then de_Name info :: library_versions filename infos
           else library_versions filename infos
  end.

Definition findLibraryVersions (filename hostPathPrefix : string)
    : prog hostS (os_error + list string) :=
  got ← read_dir (path_Join [hostPathPrefix; hostLib64path]);
  match got with
  | inl err => mret (inl err)
  | inr infos => mret (inr (library_versions filename infos))
  end.

Definition addLibraryFile (m : NicManager) (filename : string) : NicManager :=
  addFileMount m
    (path_Join [HostPathPrefix (nm_config m); hostLib64path; filename])
    (path_Join [BaseMountPath (nm_config m); LibMountPath (nm_config m); filename]).

Definition addLibraryMounts (m : NicManager) (baseFilename : string)
    : prog hostS (option os_error * NicManager) :=
  got ← findLibraryVersions baseFilename (HostPathPrefix (nm_config m));
  match got with
  | inl err => mret (Some err, m)
  | inr filenames => mret (None, fold_left addLibraryFile filenames m)
  end.

(** The loop over [libraryMounts]: an error is a warning. *)
Fixpoint addLibraries (m : NicManager) (libs : list string) : prog hostS NicManager :=
  match libs with
  | [] => mret m
  | lib :: libs => '(_, m) ← addLibraryMounts m lib; addLibraries m libs
  end.

Definition addOnloadFile (m : NicManager) (file : string) : NicManager :=
  addFileMount m
    (path_Join [HostPathPrefix (nm_config m); hostUsrBinPath; file])
    (path_Join [BaseMountPath (nm_config m); BinMountPath (nm_config m); file]).

Definition preloadPath (config : NicManagerConfig) : string :=
  path_Join [BaseMountPath config; LibMountPath config; "libonload.so"].

Definition initMounts (m : NicManager) : prog hostS NicManager :=
  let m := fold_left addDeviceMount deviceMounts (with_deviceFiles m []) in
  m ← addLibraries m libraryMounts;
  let m := if MountOnload (nm_config m) then fold_left addOnloadFile fileMounts m else m in
  mret (if SetPreload (nm_config m)
        then with_envs m (<["LD_PRELOAD" := preloadPath (nm_config m)]> (nm_envs m))
        else m).

(** ** Interfaces *)

Definition queryNics : prog hostS (os_error + list string) :=
  '(output, err) ← lshw;
  match err with
  | Some err => mret (inl err)
  | None =>
      euid ← geteuid;
      match parseOutput euid output with
      | inl c => Halt c
      | inr interfaces => mret (inr interfaces)
      end
  end.

Definition NewNicManager (config : NicManagerConfig) : prog hostS (string + NicManager) :=
  got ← queryNics;
  match got with
  | inl err => mret (inl err)
  | inr nics =>
      if bool_decide (length nics = 0) && NeedNic config
      then mret (inl "no sfc devices found")
      else
        let manager := initDevices (MkNicManager nics [] [] [] ∅ config) in
        if SetPreload config && MountOnload config
        then mret (inl "setting both usePreload and mountOnload is not supported")
        else m ← initMounts manager; mret (inr m)
  end.

Definition CheckNics (m : NicManager) : prog hostS unit :=
  got ← queryNics;
  match got with
  | inl err => Halt (Fatal "Failed to query nics")
  | inr interfaces =>
      if bool_decide (interfaces = nm_interfaces m) then mret ()
      else Halt (Fatal "SFC interfaces on host have changed")
  end.

(** ** Devices: as many as configured, with different identifiers *)

Lemma initDevices_loop_spec n i devices :
  initDevices_loop n i devices =
  devices ++ map (λ k, MkDevice ("sfc-" +:+ Itoa (i + Z.of_nat k)) Healthy) (seq 0 n).
Proof.
  revert i devices. induction n as [|n IH]; intros i devices; simpl.
  - by rewrite app_nil_r.
  - rewrite IH, <-(assoc_L app). f_equal. simpl. rewrite Z.add_0_r. f_equal.
    rewrite <-seq_shift, map_map. apply map_ext. intros k. by replace (i + 1 + Z.of_nat k)%Z with (i + Z.of_nat (S k))%Z by lia.
Qed.

Lemma initDevices_length m :
  Z.of_nat (length (nm_devices (initDevices m))) = Z.max 0 (MaxPodsPerNode (nm_config m)).
Proof. simpl. rewrite initDevices_loop_spec. simpl. rewrite length_map, length_seq. lia. Qed.

(** The device plugin advertises as many devices as configured (none for a
    negative number), all healthy, with different identifiers. *)
Theorem initDevices_spec m :
  let devices := nm_devices (initDevices m) in
  Z.of_nat (length devices) = Z.max 0 (MaxPodsPerNode (nm_config m)) ∧
  NoDup (map device_ID devices) ∧
  Forall (λ d, device_Health d = Healthy) devices.
Proof.
  intros devices. split; [apply initDevices_length|]. subst devices.
  simpl. rewrite initDevices_loop_spec. simpl. split.
  - rewrite map_map. simpl. apply NoDup_fmap_2_strong; [|apply NoDup_ListNoDup, seq_NoDup].
    intros a b _ _ [= Heq]. apply Itoa_inj in Heq. lia.
  - apply Forall_forall. intros d Hd. apply list_elem_of_fmap in Hd as (k & -> & _). done.
Qed.
End manager.
