(* ===== verification/ManagerSpec.v ===== *)
(** * What the device plugin gives to a container

    What is expected of a start of the plugin is written out without the code of
    [Manager]; the theorems compare the runs of [NewNicManager] with it. *)

From S2P Require Import Prelude GoStd GoFmt GoPath Effects Nic Host Manager.
From stdpp Require Import options.

Local Open Scope list_scope.

Section spec.
Context {PA : PluginApi}.
Implicit Types (config : NicManagerConfig) (m : NicManager).

(** ** What is expected of a manager

    The paths, the names of the libraries and the permissions are written out
    here: nothing of this part is a definition of [Manager]. *)

(** The mount of a library and of the script. *)
Definition library_mount config (f : string) : Mount :=
  MkMount (path_Join [HostPathPrefix config; "/usr/lib64"; f])
    (path_Join [BaseMountPath config; LibMountPath config; f]) true.
Definition script_mount config (f : string) : Mount :=
  MkMount (path_Join [HostPathPrefix config; "/usr/bin"; f])
    (path_Join [BaseMountPath config; BinMountPath config; f]) true.

Definition library_dir config : string := path_Join [HostPathPrefix config; "/usr/lib64"].
Definition listing (r : os_error + list DirEntry) : list DirEntry :=
  match r with inl _ => [] | inr infos => infos end.

(** The files of a listing whose names start with [lib]. *)
Definition versions (lib : string) (infos : list DirEntry) : list string :=
  map de_Name (List.filter (λ i, negb (de_IsDir i) && HasPrefix (de_Name i) lib) infos).

(** The mounts that two listings of the library directory give. *)
Definition expected_mounts config (infos1 infos2 : list DirEntry) : list Mount :=
  map (library_mount config) (versions "libonload.so" infos1) ++
  map (library_mount config) (versions "libonload_ext.so" infos2) ++
  (if MountOnload config then [script_mount config "onload"] else []).

Definition device_spec (path : string) : DeviceSpec := MkDeviceSpec path path "mrw".
Definition expected_devices : list string := ["/dev/onload"; "/dev/onload_epoll"; "/dev/sfc_char"].

Definition expected_preload config : string :=
  path_Join [BaseMountPath config; LibMountPath config; "libonload.so"].

(** The manager of a successful start. *)
Definition expected_manager config (nics : list string) (infos1 infos2 : list DirEntry) : NicManager := {|
  nm_interfaces := nics;
  nm_deviceFiles := map device_spec expected_devices;
  nm_mounts := expected_mounts config infos1 infos2;
  nm_devices := map (λ i, MkDevice ("sfc-" +:+ Itoa (Z.of_nat i)) Healthy)
                    (seq 0 (Z.to_nat (MaxPodsPerNode config)));
  nm_envs := if SetPreload config then {[ "LD_PRELOAD" := expected_preload config ]} else ∅;
  nm_config := config |}.

(** The replies to the calls that list a directory, in order; a failed one has no
    entries. *)
Fixpoint listings (tr : list (event hostS)) : list (list DirEntry) :=
  match tr with
  | [] => []
  | Ev o r :: tr =>
      match o return host_reply o → list (list DirEntry) with
      | ReadDir _ => λ r, listing r :: listings tr
      | _ => λ _, listings tr
      end r
  end.

(** The runs of a start: its calls, with their replies, and its result. *)
Inductive start_run config : list (event hostS) → outcome (string + NicManager) → Prop :=
  | start_lshw_failed output err :
      start_run config [Ev (S:=hostS) Lshw (output, Some err)] (Done (inl err))
  | start_crashed output euid c :
      parseOutput euid output = inl c →
      start_run config [Ev (S:=hostS) Lshw (output, None); Ev (S:=hostS) Geteuid euid] (Crashed c)
  | start_no_nic output euid :
      parseOutput euid output = inr [] → NeedNic config = true →
      start_run config [Ev (S:=hostS) Lshw (output, None); Ev (S:=hostS) Geteuid euid]
        (Done (inl "no sfc devices found"))
  | start_both output euid nics :
      parseOutput euid output = inr nics → (nics ≠ [] ∨ NeedNic config = false) →
      SetPreload config = true → MountOnload config = true →
      start_run config [Ev (S:=hostS) Lshw (output, None); Ev (S:=hostS) Geteuid euid]
        (Done (inl "setting both usePreload and mountOnload is not supported"))
  | start_ok output euid nics r1 r2 :
      parseOutput euid output = inr nics → (nics ≠ [] ∨ NeedNic config = false) →
      (SetPreload config = false ∨ MountOnload config = false) →
      start_run config
        [Ev (S:=hostS) Lshw (output, None); Ev (S:=hostS) Geteuid euid;
         Ev (S:=hostS) (ReadDir (library_dir config)) r1;
         Ev (S:=hostS) (ReadDir (library_dir config)) r2]
        (Done (inr (expected_manager config nics (listing r1) (listing r2)))).

(** The calls of a successful start. *)
Definition start_calls config : list (op hostS) :=
  [Lshw; Geteuid; ReadDir (library_dir config); ReadDir (library_dir config)].

(** The manager that the calls of a successful start describe. *)
Definition started config (tr : list (event hostS)) m : Prop :=
  SetPreload config && MountOnload config = false ∧
  (NeedNic config = true → nm_interfaces m ≠ []) ∧
  ∃ output euid r1 r2,
    tr = [Ev (S:=hostS) Lshw (output, None); Ev (S:=hostS) Geteuid euid;
          Ev (S:=hostS) (ReadDir (library_dir config)) r1;
          Ev (S:=hostS) (ReadDir (library_dir config)) r2] ∧
    parseOutput euid output = inr (nm_interfaces m) ∧
    m = expected_manager config (nm_interfaces m) (listing r1) (listing r2).

(** ** The code does what is expected *)

Lemma library_versions_filter lib infos : library_versions lib infos = versions lib infos.
Proof.
  unfold versions. induction infos as [|i infos IH]; [done|]. simpl. rewrite IH.
  destruct (de_IsDir i); [done|]. by destruct (HasPrefix _ _).
Qed.

Lemma fold_addLibraryFile l m :
  fold_left addLibraryFile l m = with_mounts m (nm_mounts m ++ map (library_mount (nm_config m)) l).
Proof.
  revert m. induction l as [|f l IH]; intros m; simpl.
  - rewrite app_nil_r. by destruct m.
  - rewrite IH. unfold addLibraryFile, addFileMount, with_mounts. simpl. by rewrite <-(assoc_L app).
Qed.

Lemma addLibraryMounts_spec m lib :
  wp (addLibraryMounts m lib) (λ tr out, ∃ r e,
    tr = [Ev (S:=hostS) (ReadDir (library_dir (nm_config m))) r] ∧
    out = Done (e, with_mounts m (nm_mounts m ++
                     map (library_mount (nm_config m)) (versions lib (listing r))))).
Proof.
  unfold addLibraryMounts, findLibraryVersions. wp_go; simplify_eq.
  - exists (inl o), (Some o). split; [done|]. simpl. rewrite app_nil_r. by destruct m.
  - exists (inr l), None. split; [done|]. by rewrite fold_addLibraryFile, library_versions_filter.
Qed.
Local Hint Resolve addLibraryMounts_spec : wp.

(** A manager after [initMounts]. *)
Definition with_expected m (infos1 infos2 : list DirEntry) : NicManager :=
  MkNicManager (nm_interfaces m) (map device_spec expected_devices)
    (nm_mounts m ++ expected_mounts (nm_config m) infos1 infos2) (nm_devices m)
    (if SetPreload (nm_config m)
     then <["LD_PRELOAD" := expected_preload (nm_config m)]> (nm_envs m) else nm_envs m)
    (nm_config m).

Lemma initMounts_spec m :
  wp (initMounts m) (λ tr out, ∃ r1 r2,
    tr = [Ev (S:=hostS) (ReadDir (library_dir (nm_config m))) r1;
          Ev (S:=hostS) (ReadDir (library_dir (nm_config m))) r2] ∧
    out = Done (with_expected m (listing r1) (listing r2))).
Proof.
  unfold initMounts, libraryMounts, addLibraries. wp_go; cbv beta in *.
  2: by destruct H0 as (? & ? & _ & ?).
  2: by destruct H as (? & ? & _ & ?).
  destruct H as (r1 & e1 & -> & [= -> ->]), H0 as (r2 & e2 & -> & [= -> ->]).
  exists r1, r2. split; [done|]. f_equal. unfold with_expected, expected_mounts. simpl.
  destruct (MountOnload (nm_config m));
    unfold with_mounts, with_envs, addOnloadFile, addFileMount; simpl;
    rewrite <-?(assoc_L app), ?app_nil_r; by destruct (SetPreload (nm_config m)).
Qed.
Local Hint Resolve initMounts_spec : wp.

Lemma expected_devices_spec config nics infos1 infos2 :
  with_expected (initDevices (MkNicManager nics [] [] [] ∅ config)) infos1 infos2 =
  expected_manager config nics infos1 infos2.
Proof.
  unfold with_expected, expected_manager, initDevices, with_devices. rewrite initDevices_loop_spec.
  by destruct config as [? [] ? ? ? ? ? ?].
Qed.

Lemma NewNicManager_runs config : wp (NewNicManager config) (start_run config).
Proof.
  unfold NewNicManager, queryNics. wp_go; simplify_eq.
  - constructor.
  - by constructor.
  - apply andb_true_iff in Heqb as [Hl Hn]. apply bool_decide_eq_true in Hl.
    destruct l; [|done]. by constructor.
  - apply andb_true_iff in Heqb0 as [Hp Hm]. apply (start_both _ _ _ l); [done| |done..].
    apply andb_false_iff in Heqb as [Hl|Hn]; [left; by intros ->|by right].
  - destruct H as (r1 & r2 & -> & ?). simplify_eq. rewrite expected_devices_spec. constructor; [done| |].
    + apply andb_false_iff in Heqb as [Hl|Hn]; [left; by intros ->|by right].
    + by apply andb_false_iff.
  - by destruct H as (? & ? & _ & ?).
Qed.

Lemma runs_Done {A} (a : A) out : out = Done a → runs (S:=hostS) (Ret a) [] out.
Proof. intros ->. constructor. Qed.

Lemma nic_check (nics : list string) (need : bool) :
  nics ≠ [] ∨ need = false → bool_decide (length nics = 0) && need = false.
Proof. intros [Hn| ->]; [by destruct nics|apply andb_false_r]. Qed.

Lemma initMounts_run m r1 r2 :
  runs (initMounts m)
    [Ev (S:=hostS) (ReadDir (library_dir (nm_config m))) r1;
     Ev (S:=hostS) (ReadDir (library_dir (nm_config m))) r2]
    (Done (with_expected m (listing r1) (listing r2))).
Proof.
  assert (∃ a, runs (initMounts m)
    [Ev (S:=hostS) (ReadDir (library_dir (nm_config m))) r1;
     Ev (S:=hostS) (ReadDir (library_dir (nm_config m))) r2] (Done a)) as [a Hr].
  { destruct r1, r2; eexists; apply runs_vis; simpl; rewrite ?fold_addLibraryFile; apply runs_vis; simpl; constructor. }
  pose proof (proj1 (wp_runs _ _) (initMounts_spec m) _ _ Hr) as (r1' & r2' & Heq & Ha).
  apply (f_equal listings) in Heq. injection Heq as -> ->. by rewrite <-Ha.
Qed.

Lemma start_run_runs config tr out : start_run config tr out → runs (NewNicManager config) tr out.
Proof.
  intros H. unfold NewNicManager, queryNics.
  destruct H as [|? ? ? H|? ? H Hn|? ? nics H Hn Hp Hm|? ? nics r1 r2 H Hn Hb];
    [by repeat constructor|..]; do 2 apply runs_vis; simpl; rewrite H; simpl.
  - constructor.
  - rewrite Hn. constructor.
  - rewrite (nic_check _ _ Hn), Hp, Hm. constructor.
  - rewrite (nic_check _ _ Hn), (proj2 (andb_false_iff _ _) Hb).
    rewrite <-expected_devices_spec.
    exact (runs_bind_intro (initMounts _) (λ m, mret (inr m)) _ [] _ _
             (initMounts_run (initDevices (MkNicManager nics [] [] [] ∅ config)) r1 r2)
             (runs_ret _)).
Qed.

(** The call sends nothing to the kubelet. *)
Definition not_register (e : event hostS) : Prop := ∀ req, ev_op e ≠ Register req.

Lemma NewNicManager_started config :
  wp (NewNicManager config) (λ tr out,
    Forall not_register tr ∧ ∀ m, out = Done (inr m) → started config tr m).
Proof.
  eapply wp_mono; [|apply NewNicManager_runs]. intros tr out H.
  destruct H as [| | | |output euid nics r1 r2 H Hn Hb]; (split; [by repeat constructor|]); try done.
  intros m [= <-]. split; [by apply andb_false_iff|]. split; [intros Hneed; destruct Hn; [done|congruence]|].
  by exists output, euid, r1, r2.
Qed.

Lemma run_started config tr m : runs (NewNicManager config) tr (Done (inr m)) → started config tr m.
Proof. intros H. by apply (proj1 (wp_runs _ _) (NewNicManager_started config) _ _ H). Qed.

(** A successful start makes the four calls, and its manager is the expected one
    for what two of them listed. *)
Lemma started_listings config tr m :
  started config tr m →
  map (λ e : event hostS, ev_op e) tr = start_calls config ∧
  ∃ infos1 infos2, listings tr = [infos1; infos2] ∧
    m = expected_manager config (nm_interfaces m) infos1 infos2.
Proof.
  intros (_ & _ & output & euid & r1 & r2 & -> & _ & Hm). split; [done|]. by exists (listing r1), (listing r2).
Qed.

(** C33. What [NewNicManager] does, in all cases and no other: it asks lshw, and
    fails with its error; it ends the process when the output cannot be read; it
    refuses to start when there is no interface and one is needed, and when the
    preload and the script are both asked for; and in all remaining cases it
    starts.  The manager then has the interfaces found, as many devices as
    configured, the three device files, the versions of the two libraries that the
    two listings of the library directory showed (none for a failed listing), the
    script when it is asked for, LD_PRELOAD when the preload is, and no other
    variable. *)
Theorem NewNicManager_spec config tr out :
  runs (NewNicManager config) tr out ↔ start_run config tr out.
Proof.
  split; [|apply start_run_runs]. apply (proj1 (wp_runs _ _) (NewNicManager_runs config)).
Qed.

(** ** The preloaded library is mounted *)

Lemma in_versions lib infos info :
  In info infos → de_IsDir info = false → HasPrefix (de_Name info) lib = true →
  In (de_Name info) (versions lib infos).
Proof. intros Hi Hd Hp. apply in_map, filter_In. split; [done|]. by rewrite Hd, Hp. Qed.

(** C32. When the preload is asked for and the first listing of the library
    directory in the start has the file libonload.so, the path in LD_PRELOAD is
    where that file of the host is mounted, read-only, in the container. *)
Theorem preload_is_mounted config tr m infos rest info :
  runs (NewNicManager config) tr (Done (inr m)) →
  SetPreload config = true →
  listings tr = infos :: rest →
  In info infos → de_IsDir info = false → de_Name info = "libonload.so" →
  ∃ mount, In mount (nm_mounts m) ∧
    nm_envs m !! "LD_PRELOAD" = Some (mount_ContainerPath mount) ∧
    mount_HostPath mount = path_Join [HostPathPrefix config; "/usr/lib64"; "libonload.so"] ∧
    mount_ReadOnly mount = true.
Proof.
  intros Hr%run_started%started_listings Hp Hl Hi Hd Hn.
  destruct Hr as (_ & infos1 & infos2 & Hl' & ->). rewrite Hl in Hl'. injection Hl' as -> _.
  exists (library_mount config "libonload.so"). simpl. rewrite Hp. split_and!; [|done..].
  apply in_app_iff. left. apply in_map. rewrite <-Hn. apply in_versions; [done..|by rewrite Hn].
Qed.

(** ** Mounts do not collide *)

(** A directory listing: the names are names of files, and no two are the same. *)
Definition listing_ok (infos : list DirEntry) : Prop :=
  Forall (λ i, simple_name (de_Name i) = true) infos ∧ NoDup (map de_Name infos).

Lemma versions_sublist lib infos : versions lib infos `sublist_of` map de_Name infos.
Proof.
  unfold versions. induction infos as [|i infos IH]; [constructor|]. simpl.
  destruct (_ && _); by constructor.
Qed.

Lemma versions_ok lib infos :
  listing_ok infos →
  NoDup (versions lib infos) ∧
  ∀ f, f ∈ versions lib infos → simple_name f = true ∧ HasPrefix f lib = true.
Proof.
  intros [Hs Hn]. split; [by eapply sublist_NoDup, versions_sublist|].
  intros f Hf. apply list_elem_of_In, in_map_iff in Hf as (i & <- & Hi%filter_In).
  destruct Hi as [Hi [_ Hp]%andb_true_iff]. split; [|done].
  rewrite Forall_forall in Hs. by apply Hs, list_elem_of_In.
Qed.

Lemma library_path_inj config f g :
  simple_name f = true → simple_name g = true →
  mount_ContainerPath (library_mount config f) = mount_ContainerPath (library_mount config g) → f = g.
Proof.
  intros Hf Hg. apply (path_Join_file_inj [BaseMountPath config; LibMountPath config]
                         [BaseMountPath config; LibMountPath config] f g Hf Hg).
Qed.

Lemma library_names_ok infos1 infos2 :
  listing_ok infos1 → listing_ok infos2 →
  let names := versions "libonload.so" infos1 ++ versions "libonload_ext.so" infos2 in
  NoDup names ∧ ∀ f, f ∈ names → simple_name f = true ∧ HasPrefix f "lib" = true.
Proof.
  intros H1%(versions_ok "libonload.so") H2%(versions_ok "libonload_ext.so").
  destruct H1 as [Hn1 Hf1], H2 as [Hn2 Hf2]. split.
  - apply NoDup_app. split_and!; [done| |done]. intros f Hx Hy.
    destruct (Hf1 f Hx) as [_ (a & ->)%HasPrefix_spec], (Hf2 _ Hy) as [_ (b & Hb)%HasPrefix_spec].
    done.
  - intros f [Hf|Hf]%elem_of_app; [destruct (Hf1 f Hf) as [? Hp]|destruct (Hf2 f Hf) as [? Hp]];
      (split; [done|]); apply HasPrefix_spec in Hp as (a & ->); apply HasPrefix_spec; by eexists.
Qed.

Lemma expected_mounts_NoDup config infos1 infos2 :
  listing_ok infos1 → listing_ok infos2 →
  NoDup (map mount_ContainerPath (expected_mounts config infos1 infos2)).
Proof.
  intros H1 H2. destruct (library_names_ok infos1 infos2 H1 H2) as [Hn Hf]. unfold expected_mounts.
  rewrite (assoc_L app), <-map_app, map_app. apply NoDup_app. split_and!.
  - rewrite map_map. apply NoDup_fmap_2_strong; [|done]. intros f g Hx Hy.
    apply library_path_inj; by apply Hf.
  - intros p Hp Hq. rewrite map_map in Hp. apply list_elem_of_fmap in Hp as (f & -> & Hx).
    destruct (MountOnload config); [|by apply not_elem_of_nil in Hq].
    apply list_elem_of_singleton in Hq. destruct (Hf f Hx) as [Hs Hl].
    apply (path_Join_file_inj [BaseMountPath config; LibMountPath config]
             [BaseMountPath config; BinMountPath config] f "onload" Hs eq_refl) in Hq as ->. done.
  - destruct (MountOnload config); [apply NoDup_singleton|constructor].
Qed.

(** C31. No two mounts that a started manager gives to a container have the same
    path, as long as the listings it got give file names without repetition, as a
    directory listing does: the prefixes of the two libraries exclude each other,
    the script's name is no library's, and no file is mounted twice. *)
Theorem mounts_NoDup config tr m :
  runs (NewNicManager config) tr (Done (inr m)) →
  Forall listing_ok (listings tr) →
  NoDup (map mount_ContainerPath (nm_mounts m)).
Proof.
  intros Hr%run_started%started_listings. destruct Hr as (_ & infos1 & infos2 & -> & ->).
  rewrite !Forall_cons. intros (H1 & H2 & _). by apply expected_mounts_NoDup.
Qed.

(** ** Watching the interfaces *)

(** The check of the interfaces ends the process exactly when lshw fails, its
    output cannot be read, or the interfaces differ from those found at the
    start. *)
Theorem CheckNics_spec m :
  wp (CheckNics m) (λ tr out,
    (∃ output euid,
       tr = [Ev (S:=hostS) Lshw (output, None); Ev (S:=hostS) Geteuid euid] ∧
       (out = Done () ↔ parseOutput euid output = inr (nm_interfaces m))) ∨
    (∃ output err, tr = [Ev (S:=hostS) Lshw (output, Some err)] ∧
       out = Crashed (Fatal "Failed to query nics"))).
Proof.
  unfold CheckNics, queryNics. wp_go; simplify_eq; [by right; eauto|left; exists s, r0..].
  all: split; [done|]; rewrite Heqs0.
  - split; congruence.
  - by apply bool_decide_eq_true in Heqb as ->.
  - apply bool_decide_eq_false in Heqb. split; congruence.
Qed.

End spec.

(** ** Samples *)

#[export] Instance sample_plugin_api : PluginApi := {|
  Healthy := "Healthy";
  DevicePluginPath := "/var/lib/kubelet/device-plugins/";
  KubeletSocket := "/var/lib/kubelet/device-plugins/kubelet.sock";
  pluginapi_Version := "v1beta1" |}.

Definition sample_config : NicManagerConfig := DefaultConfig.
Definition sample_infos : list DirEntry :=
  [MkDirEntry "libonload.so" false; MkDirEntry "libonload.so.1" false;
   MkDirEntry "libonload_ext.so" false; MkDirEntry "libonload.d" true; MkDirEntry "other" false].

(** A start on a host with one interface; the second listing fails. *)
Definition sample_lshw : string :=
  "H/W path   Device   Class   Description" +:+ newline +:+ "=======" +:+ newline +:+
  "/0/100/1b/0  enp2s0f0  network  XtremeScale SFC9250" +:+ newline.
Definition sample_start : list (event hostS) :=
  [Ev (S:=hostS) Lshw (sample_lshw, None); Ev (S:=hostS) Geteuid 0%Z;
   Ev (S:=hostS) (ReadDir "/opt/onload/usr/lib64") (inr sample_infos);
   Ev (S:=hostS) (ReadDir "/opt/onload/usr/lib64") (inl "no such directory")].
Definition sample_manager : NicManager := expected_manager sample_config ["enp2s0f0"] sample_infos [].

Lemma sample_run : runs (NewNicManager sample_config) sample_start (Done (inr sample_manager)).
Proof.
  apply start_run_runs.
  apply (start_ok sample_config sample_lshw 0%Z ["enp2s0f0"] (inr sample_infos) (inl "no such directory")).
  - vm_compute. reflexivity.
  - by left.
  - by right.
Qed.

(** Without an interface it starts only when none is needed. *)
Definition empty_lshw : string := "header" +:+ newline +:+ "=======" +:+ newline.
Definition nicless_config : NicManagerConfig :=
  MkNicManagerConfig 1 false true "/opt/onload" "/opt/onload" "/usr/bin" "/usr/lib64" false.

Lemma NewNicManager_spec_witness :
  runs (NewNicManager nicless_config)
    [Ev (S:=hostS) Lshw (empty_lshw, None); Ev (S:=hostS) Geteuid 0%Z;
     Ev (S:=hostS) (ReadDir "/opt/onload/usr/lib64") (inl "no such directory");
     Ev (S:=hostS) (ReadDir "/opt/onload/usr/lib64") (inl "no such directory")]
    (Done (inr (expected_manager nicless_config [] [] []))) ∧
  runs (NewNicManager sample_config)
    [Ev (S:=hostS) Lshw (empty_lshw, None); Ev (S:=hostS) Geteuid 0%Z]
    (Done (inl "no sfc devices found")).
Proof.
  split; apply NewNicManager_spec.
  - apply (start_ok nicless_config empty_lshw 0%Z [] (inl "no such directory") (inl "no such directory")).
    + vm_compute. reflexivity.
    + by right.
    + by left.
  - apply start_no_nic.
    + vm_compute. reflexivity.
    + reflexivity.
Defined.

Lemma sample_listing_ok : listing_ok sample_infos.
Proof. split; [repeat constructor|]. vm_compute. repeat constructor; set_solver. Qed.

(** The sample mounts both files of the library, and preloads the first. *)
Lemma preload_is_mounted_witness :
  map mount_ContainerPath (nm_mounts sample_manager) =
    ["/opt/onload/usr/lib64/libonload.so"; "/opt/onload/usr/lib64/libonload.so.1"] ∧
  ∃ mount, In mount (nm_mounts sample_manager) ∧
    nm_envs sample_manager !! "LD_PRELOAD" = Some (mount_ContainerPath mount) ∧
    mount_HostPath mount = "/opt/onload/usr/lib64/libonload.so" ∧
    mount_ReadOnly mount = true.
Proof.
  split; [vm_compute; reflexivity|].
  apply (preload_is_mounted sample_config sample_start sample_manager sample_infos [[]]
           (MkDirEntry "libonload.so" false)).
  - exact sample_run.
  - reflexivity.
  - reflexivity.
  - by left.
  - reflexivity.
  - reflexivity.
Defined.

Lemma mounts_NoDup_witness :
  listings sample_start = [sample_infos; []] ∧
  NoDup (map mount_ContainerPath (nm_mounts sample_manager)).
Proof.
  split; [reflexivity|].
  apply (mounts_NoDup sample_config sample_start sample_manager sample_run).
  apply Forall_cons. split; [exact sample_listing_ok|].
  apply Forall_cons. split; [|constructor]. split; constructor.
Defined.
