(* ===== verification/Rpc.v ===== *)
(** * The gRPC server of the device plugin (src/pkg/deviceplugin/rpc.go and callbacks.go)

    [WaitUntilUp] and [ListAndWatch] loop without a bound in the source.  Their
    models take the number of iterations: [WaitUntilUp] returns [None] when it
    runs out of it, and [ListAndWatch n] is the first [n] iterations.  [Serve]
    runs in a goroutine of its own and is a program of its own here; [Run] is the
    program of the main goroutine up to the wait for [Serve]. *)

From S2P Require Import Prelude GoStd GoFmt GoPath Effects Nic Host Manager ManagerSpec.
From stdpp Require Import options.

Local Open Scope list_scope.

Section rpc.
Context {PA : PluginApi}.

(** [grpcDial] is [dial]: a blocking connection to a Unix socket, with a timeout. *)
Definition getRPCSockPath : string := path_Join [DevicePluginPath; "sfc-deviceplugin.sock"].

Record RPCServer := MkRPCServer { rpc_manager : NicManager; rpc_listenSockPath : string }.

Definition NewRPCServer (m : NicManager) : RPCServer := MkRPCServer m getRPCSockPath.

(** [glog.Fatalf] on an error. *)
Definition or_fatal (msg : string) (err : option os_error) : prog hostS unit :=
  match err with Some _ => Halt (Fatal msg) | None => mret () end.

Definition Serve (rpc : RPCServer) : prog hostS unit :=
  err ← remove_all (rpc_listenSockPath rpc);
  _ ← or_fatal "Failed to delete old socket" err;
  err ← mkdir_all (path_Dir (rpc_listenSockPath rpc));
  _ ← or_fatal "Failed to create directory for socket" err;
  err ← net_listen (rpc_listenSockPath rpc);
  _ ← or_fatal "Failed to listen" err;
  err ← grpc_serve (rpc_listenSockPath rpc);
  or_fatal "grpcServer.Serve failed" err.

Definition isUp (rpc : RPCServer) : prog hostS bool :=
  err ← dial (rpc_listenSockPath rpc) (100 * millisecond);
  mret (negb (non_nil err)).

Fixpoint WaitUntilUp (fuel : nat) (rpc : RPCServer) : prog hostS (option unit) :=
  match fuel with
  | 0 => mret None
  | S fuel =>
      up ← isUp rpc;
      if (up : bool) then mret (Some ()) else
      _ ← sleep (1 * second);
      WaitUntilUp fuel rpc
  end.

Definition GetDevicePluginOptions (rpc : RPCServer) : DevicePluginOptions :=
  MkDevicePluginOptions false false.

(** [RPCServer.Register] *)
Definition RegisterPlugin (rpc : RPCServer) : prog hostS unit :=
  err ← dial KubeletSocket (5 * second);
  _ ← or_fatal "Failed to connect to kubelet socket" err;
  err ← register {| rr_Version := pluginapi_Version;
                    rr_Endpoint := path_Base (rpc_listenSockPath rpc);
                    rr_ResourceName := resourceName;
                    rr_Options := Some (GetDevicePluginOptions rpc) |};
  or_fatal "Failed to register device plugin" err.

(** One iteration of [ListAndWatch]; a failed send is logged. *)
Definition ListAndWatch_round (rpc : RPCServer) : prog hostS unit :=
  _ ← CheckNics (rpc_manager rpc);
  _ ← send (nm_devices (rpc_manager rpc));
  sleep (60 * second).

Fixpoint ListAndWatch (n : nat) (rpc : RPCServer) : prog hostS unit :=
  match n with
  | 0 => mret ()
  | S n => _ ← ListAndWatch_round rpc; ListAndWatch n rpc
  end.

Record ContainerAllocateResponse := MkContainerAllocateResponse {
  car_Envs : gmap string string;
  car_Devices : list DeviceSpec;
  car_Mounts : list Mount;
}.

(** The device identifiers of the requests are only logged. *)
Fixpoint Allocate (rpc : RPCServer) (reqs : list (list string)) : list ContainerAllocateResponse :=
  match reqs with
  | [] => []
  | req :: reqs =>
      MkContainerAllocateResponse (nm_envs (rpc_manager rpc)) (nm_deviceFiles (rpc_manager rpc))
        (nm_mounts (rpc_manager rpc)) :: Allocate rpc reqs
  end.

Definition PreStartContainer (rpc : RPCServer) : unit := ().
Definition GetPreferredAllocation (rpc : RPCServer) : unit := ().

(** The main goroutine of [NicManager.Run], until it waits for [Serve]. *)
Definition Run (fuel : nat) (rpc : RPCServer) : prog hostS (option unit) :=
  up ← WaitUntilUp fuel rpc;
  match up with
  | None => mret None
  | Some () => _ ← RegisterPlugin rpc; mret (Some ())
  end.

(** ** Registration *)

(** [n] dials to the own socket, a second apart, that fail. *)
Inductive unanswered (path : string) : nat → list (event hostS) → Prop :=
  | unanswered_0 : unanswered path 0 []
  | unanswered_S n err tr :
      unanswered path n tr →
      unanswered path (S n) (Ev (S:=hostS) (Dial path (100 * millisecond)) (Some err)
                             :: Ev (S:=hostS) (Sleep (1 * second)) () :: tr).

Lemma WaitUntilUp_spec fuel rpc :
  wp (WaitUntilUp fuel rpc) (λ tr out,
    (∃ n tr', n < fuel ∧ unanswered (rpc_listenSockPath rpc) n tr' ∧ out = Done (Some ()) ∧
       tr = tr' ++ [Ev (S:=hostS) (Dial (rpc_listenSockPath rpc) (100 * millisecond)) None]) ∨
    unanswered (rpc_listenSockPath rpc) fuel tr ∧ out = Done None).
Proof.
  induction fuel as [|fuel IH]; [wp_go; right; split; [constructor|done]|].
  unfold WaitUntilUp, isUp; fold WaitUntilUp. wp_go; destruct r; try done.
  - left. exists 0, []. split_and!; [lia|constructor|done|done].
  - destruct r0. destruct H as [(n & tr' & Hn & Hu & -> & ->)|[Hu ->]].
    + left. exists (S n), (Ev (S:=hostS) (Dial (rpc_listenSockPath rpc) (100 * millisecond)) (Some o)
                             :: Ev (S:=hostS) (Sleep (1 * second)) () :: tr').
      split_and!; [lia|by constructor|done|done].
    + right. split; [by constructor|done].
Qed.
Local Hint Resolve WaitUntilUp_spec : wp.

(** The request the kubelet gets. *)
Definition expected_request (rpc : RPCServer) : RegisterRequest :=
  MkRegisterRequest pluginapi_Version (path_Base (rpc_listenSockPath rpc)) resourceName
    (Some (GetDevicePluginOptions rpc)).

(** C34. [Run] does nothing but dial its own socket, once a second, until a dial
    succeeds; only then it connects to the kubelet and registers, once, the
    resource under the name of its socket; it goes on to wait only if both
    succeeded, and ends the process if one failed.  If one of the first [fuel]
    dials succeeds, the fuel is not exhausted. *)
Theorem Run_spec fuel rpc :
  wp (Run fuel rpc) (λ tr out,
    (unanswered (rpc_listenSockPath rpc) fuel tr ∧ out = Done None) ∨
    ∃ n before kubelet after,
      n < fuel ∧ unanswered (rpc_listenSockPath rpc) n before ∧
      tr = before ++ [Ev (S:=hostS) (Dial (rpc_listenSockPath rpc) (100 * millisecond)) None;
                      Ev (S:=hostS) (Dial KubeletSocket (5 * second)) kubelet] ++ after ∧
      match kubelet with
      | Some _ => after = [] ∧ out = Crashed (Fatal "Failed to connect to kubelet socket")
      | None => ∃ r, after = [Ev (S:=hostS) (Register (expected_request rpc)) r] ∧
                     out = match r with
                           | None => Done (Some ())
                           | Some _ => Crashed (Fatal "Failed to register device plugin")
                           end
      end).
Proof.
  unfold Run. eapply wp_then; [apply WaitUntilUp_spec|]. intros tr out Hw.
  destruct Hw as [(n & tr' & Hn & Hu & -> & ->)|[Hu ->]].
  2: { wp_go. left. by rewrite app_nil_r. }
  unfold RegisterPlugin, or_fatal. wp_go; right; exists n, tr'; eexists; eexists; split_and!;
    [done|done|by rewrite <-(assoc_L app)| |done|done|by rewrite <-(assoc_L app)|
     |done|done|by rewrite <-(assoc_L app)|].
  - done.
  - by exists (Some o).
  - by exists None.
Qed.

(** ** The health reports *)

(** Full rounds of [ListAndWatch]: the interfaces are those of the start, the
    devices are sent, whether that works or not, and a minute passes. *)
Inductive watch_rounds (m : NicManager) : nat → list (event hostS) → Prop :=
  | watch_none : watch_rounds m 0 []
  | watch_round n output euid sent tr :
      parseOutput euid output = inr (nm_interfaces m) →
      watch_rounds m n tr →
      watch_rounds m (S n)
        ([Ev (S:=hostS) Lshw (output, None); Ev (S:=hostS) Geteuid euid;
          Ev (S:=hostS) (Send (nm_devices m)) sent; Ev (S:=hostS) (Sleep (60 * second)) ()] ++ tr).

(** The calls of a round that ends the process. *)
Definition failed_check (m : NicManager) (tr : list (event hostS)) : Prop :=
  (∃ output err, tr = [Ev (S:=hostS) Lshw (output, Some err)]) ∨
  (∃ output euid, tr = [Ev (S:=hostS) Lshw (output, None); Ev (S:=hostS) Geteuid euid] ∧
     parseOutput euid output ≠ inr (nm_interfaces m)).

(** C35. [ListAndWatch] sends the same devices once a minute as long as the
    interfaces found by lshw are those of the start, whether or not the kubelet
    can be reached; it ends the process, without another report, at the first
    round where they are not or lshw fails; it never returns. *)
Theorem ListAndWatch_spec n rpc :
  wp (ListAndWatch n rpc) (λ tr out,
    (watch_rounds (rpc_manager rpc) n tr ∧ out = Done ()) ∨
    ∃ k tr1 tr2 c, k < n ∧ tr = tr1 ++ tr2 ∧ watch_rounds (rpc_manager rpc) k tr1 ∧
      failed_check (rpc_manager rpc) tr2 ∧ out = Crashed c).
Proof.
  induction n as [|n IH]; [wp_go; left; split; [constructor|done]|].
  unfold ListAndWatch, ListAndWatch_round, CheckNics, queryNics; fold ListAndWatch.
  wp_go; simplify_eq.
  all: try (right; exists 0, []; eexists _, _; split_and!; [lia|done|constructor| |done]).
  - left. by eexists _, _.
  - right. eexists _, _. split; [done|]. congruence.
  - apply bool_decide_eq_true in Heqb. subst. destruct r2.
    destruct H as [[Hw ->]|(k & tr1 & tr2 & c & Hk & -> & Hw & Hf & ->)].
    + left. split; [|done]. by apply watch_round.
    + right. exists (S k). eexists. exists tr2, c. split_and!; [lia| |by apply watch_round|done|done].
      done.
  - right. eexists _, _. split; [done|]. apply bool_decide_eq_false in Heqb. congruence.
Qed.

Lemma Allocate_unfold rpc reqs :
  Allocate rpc reqs =
  replicate (length reqs)
    (MkContainerAllocateResponse (nm_envs (rpc_manager rpc)) (nm_deviceFiles (rpc_manager rpc))
       (nm_mounts (rpc_manager rpc))).
Proof. induction reqs as [|r reqs IH]; [done|]. simpl. by rewrite IH. Qed.

(** C37. The server of a manager that [NewNicManager] gave answers a request with
    one response per container, whichever devices the containers were given.  Each
    gets the three device files under their own paths with all permissions; the
    versions of the two libraries that the two listings in the start showed, and
    the script when it is asked for, at their places; and LD_PRELOAD, set to the
    place of the library, exactly when the preload is asked for, and no other
    variable. *)
Theorem Allocate_started config tr m reqs :
  runs (NewNicManager config) tr (Done (inr m)) →
  length (Allocate (NewRPCServer m) reqs) = length reqs ∧
  map (λ e : event hostS, ev_op e) tr = start_calls config ∧
  ∃ infos1 infos2, listings tr = [infos1; infos2] ∧ Forall (λ response,
    map dspec_HostPath (car_Devices response) = expected_devices ∧
    map dspec_ContainerPath (car_Devices response) = expected_devices ∧
    map dspec_Permissions (car_Devices response) = ["mrw"; "mrw"; "mrw"] ∧
    car_Mounts response = expected_mounts config infos1 infos2 ∧
    map_to_list (car_Envs response) =
      if SetPreload config then [("LD_PRELOAD", expected_preload config)] else [])
  (Allocate (NewRPCServer m) reqs).
Proof.
  intros Hr%run_started%started_listings. destruct Hr as (Hc & infos1 & infos2 & Hl & ->).
  rewrite Allocate_unfold. split; [apply length_replicate|]. split; [done|].
  exists infos1, infos2. split; [done|]. apply Forall_replicate. simpl. split_and!; try done.
  destruct (SetPreload config); [|done]. by rewrite map_to_list_singleton.
Qed.

(** The error that a call of [Serve] returned. *)
Definition reply_error (e : event hostS) : option os_error :=
  match e with
  | Ev o r =>
      match o return host_reply o → option os_error with
      | RemoveAll _ | MkdirAll _ | Listen _ | GrpcServe _ => λ r, r
      | _ => λ _, None
      end r
  end.

(** C36. [Serve] listens on its socket only after an old socket was removed and
    the directory of the socket was made, and serves only after it listens; it
    makes a call only if all before succeeded, and a failure ends the process. *)
Theorem Serve_spec rpc :
  let path := rpc_listenSockPath rpc in
  wp (Serve rpc) (λ tr out, ∃ k errs,
    map (λ e : event hostS, ev_op e) tr =
      take (S k) [RemoveAll path; MkdirAll (path_Dir path); Listen path; GrpcServe path] ∧
    k < 4 ∧ map reply_error tr = replicate k None ++ [errs] ∧
    match errs with
    | Some _ => ∃ msg, out = Crashed (Fatal msg)
    | None => k = 3 ∧ out = Done ()
    end).
Proof.
  intros path. unfold Serve, or_fatal. wp_go; simpl.
  - exists 0, (Some o). split_and!; [done|lia|done|eauto].
  - exists 1, (Some o). split_and!; [done|lia|done|eauto].
  - exists 2, (Some o). split_and!; [done|lia|done|eauto].
  - exists 3, (Some o). split_and!; [done|lia|done|eauto].
  - exists 3, None. split_and!; [done|lia|done..].
Qed.
End rpc.

(** ** Samples *)

Lemma Allocate_started_witness :
  let responses := Allocate (NewRPCServer sample_manager) [["0"]; ["1"; "2"]] in
  runs (NewNicManager sample_config) sample_start (Done (inr sample_manager)) ∧
  length responses = 2 ∧
  Forall (λ response,
    map dspec_ContainerPath (car_Devices response) = ["/dev/onload"; "/dev/onload_epoll"; "/dev/sfc_char"] ∧
    car_Mounts response =
      [MkMount "/opt/onload/usr/lib64/libonload.so" "/opt/onload/usr/lib64/libonload.so" true;
       MkMount "/opt/onload/usr/lib64/libonload.so.1" "/opt/onload/usr/lib64/libonload.so.1" true] ∧
    map_to_list (car_Envs response) = [("LD_PRELOAD", "/opt/onload/usr/lib64/libonload.so")])
  responses.
Proof.
  destruct (Allocate_started sample_config sample_start sample_manager [["0"]; ["1"; "2"]] sample_run)
    as (Hlen & _ & infos1 & infos2 & [= <- <-] & Hr).
  split; [exact sample_run|]. split; [exact Hlen|].
  eapply Forall_impl; [exact Hr|]. intros response (_ & Hc & _ & Hm & He).
  split; [exact Hc|]. split; [rewrite Hm; vm_compute; reflexivity|exact He].
Defined.
