(* ===== verification/Goroutines.v ===== *)
(** * The two goroutines of the device plugin (NicManager.Run in manager.go, Serve in rpc.go)

    [Run] starts [Serve] in a goroutine of its own and goes on beside it.  A state
    of the process is what is left of the two programs, the counter of the wait
    group, and the sockets of the host; the two take steps in any order.  The host
    is free in its replies, but keeps to what sockets are: one is connected to only
    while something listens on it. *)

From S2P Require Import Prelude GoStd GoFmt GoPath Effects Nic Host Manager ManagerSpec Rpc.
From stdpp Require Import gmap relations.
From stdpp Require Import options.

Local Open Scope list_scope.

Section goroutines.
Context {PA : PluginApi}.

(** ** The host *)

(** The paths on which something listens, and what the kubelet was asked. *)
Record host := MkHost { host_listening : gset string; host_registered : list RegisterRequest }.

(** [answers o w r w']: the reply [r] to the call [o], and the host after it. *)
Definition answers (o : op hostS) (w : host) : reply o → host → Prop :=
  match o return host_reply o → host → Prop with
  | RemoveAll path => λ r w',
      w' = match r with
           | None => MkHost (host_listening w ∖ {[ path ]}) (host_registered w)
           | Some _ => w
           end
  | Listen path => λ r w',
      w' = match r with
           | None => MkHost (host_listening w ∪ {[ path ]}) (host_registered w)
           | Some _ => w
           end
  | GrpcServe path => λ _ w', w' = MkHost (host_listening w ∖ {[ path ]}) (host_registered w)
  | Dial path _ => λ r w', w' = w ∧ (r = None → path ∈ host_listening w)
  | Register req => λ r w',
      w' = match r with
           | None => MkHost (host_listening w) (host_registered w ++ [req])
           | Some _ => w
           end
  | _ => λ _ w', w' = w
  end.

(** ** The process *)

Record process := MkProcess {
  p_serve : option (prog hostS unit);      (** [None] once the goroutine has ended *)
  p_main : prog hostS (option unit);
  p_wg : nat;
  p_host : host;
}.

(** The process runs, or it has ended. *)
Inductive status :=
  | Running (p : process)
  | Ended (out : outcome unit) (w : host).

(** A goroutine makes its next call. *)
Definition calls {A} (p : prog hostS A) (w : host) (p' : prog hostS A) (w' : host) : Prop :=
  match p with
  | Vis o k => ∃ r, answers o w r w' ∧ p' = k r
  | _ => False
  end.

Inductive step : status → status → Prop :=
  | serve_calls p p' m n w w' :
      calls p w p' w' →
      step (Running (MkProcess (Some p) m n w)) (Running (MkProcess (Some p') m n w'))
  (** the deferred [wg.Done()] *)
  | serve_returns u m n w :
      step (Running (MkProcess (Some (Ret u)) m (S n) w)) (Running (MkProcess None m n w))
  | serve_dies c m n w :
      step (Running (MkProcess (Some (Halt c)) m n w)) (Ended (Crashed c) w)
  | main_calls s m m' n w w' :
      calls m w m' w' →
      step (Running (MkProcess s m n w)) (Running (MkProcess s m' n w'))
  | main_dies s c n w :
      step (Running (MkProcess s (Halt c) n w)) (Ended (Crashed c) w)
  (** [wg.Wait()] *)
  | main_returns s w :
      step (Running (MkProcess s (Ret (Some ())) 0 w)) (Ended (Done ()) w).

(** [NewRPCServer] has counted the goroutine. *)
Definition start (fuel : nat) (rpc : RPCServer) (w : host) : status :=
  Running (MkProcess (Some (Serve rpc)) (Run fuel rpc) 1 w).

Definition reachable (fuel : nat) (rpc : RPCServer) (w : host) : status → Prop :=
  rtc step (start fuel rpc w).

(** ** Where the goroutines are *)

Section invariant.
Context (rpc : RPCServer).
Notation path := (rpc_listenSockPath rpc).

(** What is left of [Serve] before each of its calls. *)
Definition serve_serving : prog hostS unit :=
  err ← grpc_serve path; or_fatal "grpcServer.Serve failed" err.
Definition serve_listen : prog hostS unit :=
  err ← net_listen path; _ ← or_fatal "Failed to listen" err; serve_serving.
Definition serve_mkdir : prog hostS unit :=
  err ← mkdir_all (path_Dir path);
  _ ← or_fatal "Failed to create directory for socket" err; serve_listen.

(** [Serve] does not listen yet, or has failed before it did. *)
Inductive not_listening : option (prog hostS unit) → Prop :=
  | before_remove : not_listening (Some (Serve rpc))
  | before_mkdir : not_listening (Some serve_mkdir)
  | before_listen : not_listening (Some serve_listen)
  | failed_early msg : not_listening (Some (Halt (Fatal msg))).

(** [Serve] listened: it serves, or the server has stopped. *)
Inductive listened : option (prog hostS unit) → host → Prop :=
  | serving w : path ∈ host_listening w → listened (Some serve_serving) w
  | failed_late w : listened (Some (Halt (Fatal "grpcServer.Serve failed"))) w
  | returning w : listened (Some (Ret ())) w
  | returned_ w : listened None w.

(** [Run] waits for the server. *)
Inductive waiting : prog hostS (option unit) → Prop :=
  | dialling fuel : waiting (Run fuel rpc)
  | sleeping fuel : waiting (_ ← sleep (1 * second); Run fuel rpc).

Definition registering : prog hostS (option unit) :=
  err ← register (expected_request rpc);
  _ ← or_fatal "Failed to register device plugin" err; mret (Some ()).

(** It has dialled, and what it has asked of the kubelet. *)
Inductive dialled : prog hostS (option unit) → list RegisterRequest → Prop :=
  | to_kubelet : dialled (_ ← RegisterPlugin rpc; mret (Some ())) []
  | no_kubelet : dialled (Halt (Fatal "Failed to connect to kubelet socket")) []
  | to_register : dialled registering []
  | not_registered : dialled (Halt (Fatal "Failed to register device plugin")) []
  | registered : dialled (Ret (Some ())) [expected_request rpc].

Definition counted (s : option (prog hostS unit)) (n : nat) : Prop :=
  n = match s with Some _ => 1 | None => 0 end.

Inductive invariant : status → Prop :=
  | inv_waiting s m n w :
      not_listening s → waiting m → counted s n →
      path ∉ host_listening w → host_registered w = [] →
      invariant (Running (MkProcess s m n w))
  | inv_up s m n w :
      listened s w → waiting m → counted s n → host_registered w = [] →
      invariant (Running (MkProcess s m n w))
  | inv_dialled s m n w :
      listened s w → dialled m (host_registered w) → counted s n →
      invariant (Running (MkProcess s m n w))
  | inv_crashed c w : invariant (Ended (Crashed c) w)
  | inv_done w : host_registered w = [expected_request rpc] → invariant (Ended (Done ()) w).

(** *** The steps of [Serve] *)

Lemma not_listening_calls p w p' w' :
  not_listening (Some p) → calls p w p' w' → path ∉ host_listening w →
  host_registered w' = host_registered w ∧
  (not_listening (Some p') ∧ path ∉ host_listening w' ∨ listened (Some p') w').
Proof.
  intros Hn. inversion Hn; subst; clear Hn; simpl; [..|done].
  - intros ([err|] & -> & ->) Hp; simpl; (split; [done|left]); split; try constructor; set_solver.
  - intros ([err|] & -> & ->) Hp; simpl; (split; [done|left]); split; try constructor; set_solver.
  - intros ([err|] & -> & ->) Hp; simpl; (split; [done|]).
    + left. split; [constructor|done].
    + right. constructor. simpl. set_solver.
Qed.

Lemma listened_calls p w p' w' :
  listened (Some p) w → calls p w p' w' → host_registered w' = host_registered w ∧ listened (Some p') w'.
Proof.
  intros Hl. inversion Hl; subst; clear Hl; simpl; [|done|done].
  intros ([err|] & -> & ->); simpl; split; try done; constructor.
Qed.

Lemma listened_host s w w' : host_listening w' = host_listening w → listened s w → listened s w'.
Proof. intros Hw. destruct 1; constructor. by rewrite Hw. Qed.

(** *** The steps of [Run] *)

Lemma waiting_calls m w m' w' :
  waiting m → calls m w m' w' →
  w' = w ∧ (waiting m' ∨ path ∈ host_listening w ∧ dialled m' []).
Proof.
  destruct 1 as [[|fuel]|fuel]; simpl; [done| |].
  - intros ([err|] & [-> Hup] & ->); simpl; (split; [done|]).
    + left. apply (sleeping fuel).
    + right. split; [by apply Hup|]. apply to_kubelet.
  - intros ([] & -> & ->). split; [done|]. left. apply (dialling fuel).
Qed.

Lemma dialled_calls m w m' w' :
  dialled m (host_registered w) → calls m w m' w' →
  host_listening w' = host_listening w ∧ dialled m' (host_registered w').
Proof.
  intros Hd. remember (host_registered w) as reg eqn:Hreg. destruct Hd; simpl; try done.
  - intros ([err|] & [-> _] & ->); simpl; (split; [done|]); rewrite <-Hreg; [apply no_kubelet|apply to_register].
  - intros ([err|] & -> & ->); simpl; (split; [done|]); rewrite <-Hreg; [apply not_registered|apply registered].
Qed.

Lemma invariant_step st st' : step st st' → invariant st → invariant st'.
Proof.
  destruct 1 as [p p' m n w w' Hc|u m n w|c m n w|s m m' n w w' Hc|s c n w|s w]; inversion 1; subst.
  - destruct (not_listening_calls p w p' w') as [Hr [[Hn Hl]|Hl]]; [done..| |].
    + apply inv_waiting; [done|done|done|done|congruence].
    + apply inv_up; [done|done|done|congruence].
  - destruct (listened_calls p w p' w') as [Hr Hl]; [done..|]. apply inv_up; [done|done|done|congruence].
  - destruct (listened_calls p w p' w') as [Hr Hl]; [done..|]. apply inv_dialled; [done|congruence|done].
  - match goal with Hn : not_listening _ |- _ => inversion Hn end.
  - unfold counted in *. apply inv_up; [constructor|done|unfold counted; lia|done].
  - unfold counted in *. apply inv_dialled; [constructor|done|unfold counted; lia].
  - constructor.
  - constructor.
  - constructor.
  - destruct (waiting_calls m w m' w') as [-> [Hm|[Hl _]]]; [done..| |done].
    by apply inv_waiting.
  - destruct (waiting_calls m w m' w') as [-> [Hm|[Hl Hd]]]; [done..|by apply inv_up|].
    apply inv_dialled; [done|congruence|done].
  - destruct (dialled_calls m w m' w') as [Hl Hd]; [done..|].
    apply inv_dialled; [by eapply listened_host|done|done].
  - constructor.
  - constructor.
  - constructor.
  - match goal with Hm : waiting _ |- _ => inversion Hm as [[|fuel]|fuel] end.
  - match goal with Hm : waiting _ |- _ => inversion Hm as [[|fuel]|fuel] end.
  - constructor. match goal with Hd : dialled _ _ |- _ => by inversion Hd end.
Qed.

Lemma invariant_reachable fuel w st :
  path ∉ host_listening w → host_registered w = [] → reachable fuel rpc w st → invariant st.
Proof.
  intros Hp Hr Hst. assert (invariant (start fuel rpc w)) as Hinv.
  { apply inv_waiting; [constructor|constructor|done|done|done]. }
  unfold reachable in Hst. induction Hst as [|st1 st2 st3 Hs _ IH]; [done|].
  apply IH. by eapply invariant_step.
Qed.

(** *** No deadlock *)

Lemma waiting_progress s m n w :
  waiting m → m = Ret None ∨ ∃ st, step (Running (MkProcess s m n w)) st.
Proof.
  destruct 1 as [[|fuel]|fuel]; [by left|right|right]; eexists; apply main_calls with (w' := w).
  - by exists (Some "").
  - by exists ().
Qed.

Lemma dialled_progress s m n w :
  listened s w → dialled m (host_registered w) → counted s n →
  ∃ st, step (Running (MkProcess s m n w)) st.
Proof.
  intros Hl Hd Hn. unfold counted in Hn. inversion Hd; subst m.
  - eexists. apply main_calls. by exists (Some "").
  - eexists. apply main_dies.
  - eexists. apply main_calls. by exists (Some "").
  - eexists. apply main_dies.
  - destruct Hl; subst n.
    + eexists. apply serve_calls. by exists (Some "").
    + eexists. apply serve_dies.
    + eexists. apply serve_returns.
    + eexists. apply main_returns.
Qed.
End invariant.

(** C18. However the two goroutines interleave and whatever the host replies, the
    plugin asks the kubelet to call it only once its own server listens (or has
    stopped again), provided that nobody listened on its socket before; it asks at
    most once, and with the right request.  [Run] returns only after the server
    has stopped and the kubelet has accepted the registration; and until the
    process has ended it never blocks for good: one of the goroutines can go on,
    up to the bound on the number of dials. *)
Theorem Run_registers_after_listening fuel rpc w st :
  rpc_listenSockPath rpc ∉ host_listening w → host_registered w = [] → reachable fuel rpc w st →
  match st with
  | Running p =>
      (∀ req k, p_main p = Vis (S:=hostS) (Register req) k →
         req = expected_request rpc ∧ listened rpc (p_serve p) (p_host p)) ∧
      (host_registered (p_host p) = [] ∨
       host_registered (p_host p) = [expected_request rpc] ∧ listened rpc (p_serve p) (p_host p)) ∧
      (p_main p = Ret None ∨ ∃ st', step st st')
  | Ended (Done ()) w' => host_registered w' = [expected_request rpc]
  | Ended (Crashed _) _ => True
  end.
Proof.
  intros Hp Hr Hst. pose proof (invariant_reachable rpc fuel w st Hp Hr Hst) as Hinv.
  destruct Hinv as [s m n w1 Hs Hm Hn Hl Hreg|s m n w1 Hs Hm Hn Hreg|s m n w1 Hs Hm Hn|c w1|w1 Hreg]; [| | |done|done];
    simpl; split_and!.
  - intros req k ->. inversion Hm as [[|f]|f].
  - by left.
  - by apply (waiting_progress rpc).
  - intros req k ->. inversion Hm as [[|f]|f].
  - by left.
  - by apply (waiting_progress rpc).
  - intros req k ->. by inversion Hm.
  - inversion Hm; auto.
  - right. by apply (dialled_progress rpc).
Qed.

(** What the proviso is for: a plugin whose socket an old one still listens on
    registers before it has even removed the old socket. *)
Lemma old_socket_registers_early rpc w :
  rpc_listenSockPath rpc ∈ host_listening w → KubeletSocket ∈ host_listening w → host_registered w = [] →
  reachable 1 rpc w
    (Running (MkProcess (Some (Serve rpc)) (Ret (Some ())) 1
       (MkHost (host_listening w) [expected_request rpc]))).
Proof.
  intros Hl Hk Hr. unfold reachable, start.
  eapply rtc_l; [apply main_calls; by exists None|].
  eapply rtc_l; [apply main_calls; by exists None|].
  eapply rtc_l; [|apply rtc_refl].
  apply main_calls. exists None. simpl. by rewrite Hr.
Qed.
End goroutines.

(** ** A run *)

Definition sample_rpc : RPCServer := NewRPCServer sample_manager.
Definition sample_host : host := MkHost {[ KubeletSocket ]} [].

(** The server listens, and [Run] has connected to the kubelet. *)
Definition sample_registering : status :=
  Running (MkProcess (Some (serve_serving sample_rpc)) (registering sample_rpc) 1
    (MkHost ({[ KubeletSocket ]} ∖ {[ getRPCSockPath ]} ∪ {[ getRPCSockPath ]}) [])).

Lemma sample_reachable : reachable 3 sample_rpc sample_host sample_registering.
Proof.
  unfold reachable, start.
  eapply rtc_l; [apply serve_calls; by exists None|].
  eapply rtc_l; [apply serve_calls; by exists None|].
  eapply rtc_l; [apply serve_calls; by exists None|].
  eapply rtc_l; [apply main_calls; exists None; split; [split; [done|intros _; simpl; set_solver]|done]|].
  eapply rtc_l; [apply main_calls; exists None; split; [split; [done|intros _]|done]|].
  - change (KubeletSocket ∈ ({[ KubeletSocket ]} ∖ {[ getRPCSockPath ]} ∪ {[ getRPCSockPath ]} : gset string)).
    apply elem_of_union_l, elem_of_difference. split; [by apply elem_of_singleton|].
    intros Heq%elem_of_singleton. by vm_compute in Heq.
  - apply rtc_refl.
Qed.

Lemma Run_registers_after_listening_witness :
  (rpc_listenSockPath sample_rpc ∈ host_listening sample_host → False) ∧
  listened sample_rpc (Some (serve_serving sample_rpc))
    (MkHost ({[ KubeletSocket ]} ∖ {[ getRPCSockPath ]} ∪ {[ getRPCSockPath ]}) []).
Proof.
  assert (rpc_listenSockPath sample_rpc ∉ host_listening sample_host) as Hp.
  { unfold sample_host. cbn [host_listening]. intros Heq%elem_of_singleton. by vm_compute in Heq. }
  split; [exact Hp|].
  destruct (Run_registers_after_listening 3 sample_rpc sample_host sample_registering
    Hp eq_refl sample_reachable) as (Hr & _).
  exact (proj2 (Hr _ _ eq_refl)).
Defined.
