(* ===== verification/PluginMain.v ===== *)
(** * The device plugin's command line (src/cmd/deviceplugin/main.go)

    The flags that the program defines, and the program up to the wait for the
    server.  The flags of [glog] are the library's. *)

From S2P Require Import Prelude GoStd GoFmt GoPath GoFlag Effects Nic Host Manager ManagerSpec Rpc.
From stdpp Require Import options.

Local Open Scope list_scope.

(** ** Flags *)

Definition set_MaxPodsPerNode (z : Z) (c : NicManagerConfig) : NicManagerConfig :=
  MkNicManagerConfig z (SetPreload c) (MountOnload c) (HostPathPrefix c) (BaseMountPath c)
    (BinMountPath c) (LibMountPath c) (NeedNic c).
Definition set_SetPreload (b : bool) (c : NicManagerConfig) : NicManagerConfig :=
  MkNicManagerConfig (MaxPodsPerNode c) b (MountOnload c) (HostPathPrefix c) (BaseMountPath c)
    (BinMountPath c) (LibMountPath c) (NeedNic c).
Definition set_MountOnload (b : bool) (c : NicManagerConfig) : NicManagerConfig :=
  MkNicManagerConfig (MaxPodsPerNode c) (SetPreload c) b (HostPathPrefix c) (BaseMountPath c)
    (BinMountPath c) (LibMountPath c) (NeedNic c).
Definition set_HostPathPrefix (s : string) (c : NicManagerConfig) : NicManagerConfig :=
  MkNicManagerConfig (MaxPodsPerNode c) (SetPreload c) (MountOnload c) s (BaseMountPath c)
    (BinMountPath c) (LibMountPath c) (NeedNic c).
Definition set_BaseMountPath (s : string) (c : NicManagerConfig) : NicManagerConfig :=
  MkNicManagerConfig (MaxPodsPerNode c) (SetPreload c) (MountOnload c) (HostPathPrefix c) s
    (BinMountPath c) (LibMountPath c) (NeedNic c).
Definition set_BinMountPath (s : string) (c : NicManagerConfig) : NicManagerConfig :=
  MkNicManagerConfig (MaxPodsPerNode c) (SetPreload c) (MountOnload c) (HostPathPrefix c)
    (BaseMountPath c) s (LibMountPath c) (NeedNic c).
Definition set_LibMountPath (s : string) (c : NicManagerConfig) : NicManagerConfig :=
  MkNicManagerConfig (MaxPodsPerNode c) (SetPreload c) (MountOnload c) (HostPathPrefix c)
    (BaseMountPath c) (BinMountPath c) s (NeedNic c).
Definition set_NeedNic (b : bool) (c : NicManagerConfig) : NicManagerConfig :=
  MkNicManagerConfig (MaxPodsPerNode c) (SetPreload c) (MountOnload c) (HostPathPrefix c)
    (BaseMountPath c) (BinMountPath c) (LibMountPath c) b.

(** The flags that [main] defines. *)
Definition plugin_flags : list (string * flag NicManagerConfig) := [
  ("maxPods", IntVar set_MaxPodsPerNode);
  ("needNic", BoolVar set_NeedNic);
  ("setPreload", BoolVar set_SetPreload);
  ("mountOnload", BoolVar set_MountOnload);
  ("hostOnloadPath", StringVar set_HostPathPrefix);
  ("baseMountPath", StringVar set_BaseMountPath);
  ("binMountPath", StringVar set_BinMountPath);
  ("libMountPath", StringVar set_LibMountPath)].

Section main.
Variable library_flag : string → option (bool * (string → bool)).

(** [main]: [logtostderr] is the reply of glog to being set. *)
Definition deviceplugin_main `{PluginApi} (fuel : nat) (args : list string)
    (logtostderr : option os_error) : prog hostS (option unit) :=
  match parse_flags plugin_flags library_flag args DefaultConfig with
  | None => Halt (Fatal "flag.Parse")
  | Some config =>
      _ ← or_fatal "Failed to initialise device plugin" logtostderr;
      got ← NewNicManager config;
      match got with
      | inl err => Halt (Fatal "Failed to initialise device plugin")
      | inr manager => Run fuel (NewRPCServer manager)
      end
  end.
End main.

Example parse_ex :
  parse_flags plugin_flags (λ _, None) ["-maxPods=12"; "--setPreload=false"; "-mountOnload"; "-baseMountPath"; "/x=y"]
    DefaultConfig =
  Some (MkNicManagerConfig 12 false true "/opt/onload" "/x=y" "/usr/bin" "/usr/lib64" true).
Proof. vm_compute. reflexivity. Qed.
