(* ===== verification/Worker.v ===== *)
(** * The worker (src/cmd/worker, src/pkg/client_helper, src/pkg/control_plane)

    The worker waits until its own container is running, and then tells the Onload
    kernel module to start the control plane server inside that container.

    The back-off of client-go is a parameter: a state, [Next] and [Get].  The loop
    that polls the pod has fuel and returns [None] when it runs out of it;
    [WorkerSpec] shows how much is enough under the deadline of the
    context.  [main] returns when it has reached its final [select {}]; it
    is run without arguments, so [flag.Parse] does nothing. *)

From S2P Require Import Prelude GoStd GoFmt GoPath Effects Host.
From Stdlib Require Import Ascii.
From stdpp Require Import options.

Local Open Scope list_scope.

(** ** The control plane (control_plane.go, kernel_parameters.go) *)

Record KernelParametersWriter := MkKernelParametersWriter {
  SetControlPlaneServerPath : string → prog hostS (option os_error);
  SetControlPlaneServerParams : string → prog hostS (option os_error);
}.

Definition writeOnloadParameterFile (wher what : string) : prog hostS (option os_error) :=
  write_file (path_Join ["/sys/module/onload/parameters"; wher]) what.

Definition kernelParametersWriter : KernelParametersWriter := {|
  SetControlPlaneServerPath := writeOnloadParameterFile "cplane_server_path";
  SetControlPlaneServerParams := writeOnloadParameterFile "cplane_server_params" |}.

Definition crictlPath : string := "/usr/bin/crictl".

(** The check against [knownGoodContainerRuntimes] only logs. *)
Definition Configure (onloadCPServerPath onloadCPServerParams containerID : string)
    (kpw : KernelParametersWriter) : prog hostS (option os_error) :=
  match Split containerID "://" with
  | [_; containerID'] =>
      err ← SetControlPlaneServerPath kpw crictlPath;
      match err with
      | Some err => mret (Some err)
      | None =>
          let onloadCPServerParams :=
            if bool_decide (onloadCPServerParams ≠ "") then " " +:+ onloadCPServerParams
            else onloadCPServerParams in
          let params := "exec " +:+ containerID' +:+ " " +:+ onloadCPServerPath +:+
                        onloadCPServerParams in
          err ← SetControlPlaneServerParams kpw params;
          match err with
          | Some err => mret (Some err)
          | None => mret None
          end
      end
  | _ => mret (Some ("unexpected format of containerID " +:+ containerID))
  end.

(** ** The container identifier (client_helper.go) *)

(** [DefaultContainerHelper.GetContainerID]; dereferencing a nil [Started] panics. *)
Fixpoint status_ContainerID (containerName : string) (statuses : PodStatus) : crash + option string :=
  match statuses with
  | [] => inr None
  | status :: statuses =>
      if bool_decide (cs_Name status ≠ containerName) then status_ContainerID containerName statuses
      else if cs_Ready status then
        match cs_Started status with
        | None => inl (Panic "nil pointer dereference")
        | Some started =>
            if started && cs_Running status then inr (Some (cs_ContainerID status)) else inr None
        end
      else inr None
  end.

(** [flowcontrol.Backoff] of client-go, for one identifier. *)
Class BackOff := {
  backoff_state : Type;
  NewBackOff : Z → Z → backoff_state;
  backoff_Next : backoff_state → Z → backoff_state;
  backoff_Get : backoff_state → Z;
}.

Definition backOffInitial : Z := 100 * millisecond.
Definition backOffMax : Z := 1 * second.

Section client_helper.
Context {BO : BackOff}.

(** [inl] is an error, [inr] the identifier; [None]: the fuel ran out. *)
Fixpoint GetContainerID_loop (fuel : nat) (backOff : backoff_state)
    (podNamespace podName containerName : string) : prog hostS (option (os_error + string)) :=
  match fuel with
  | 0 => mret None
  | S fuel =>
      got ← get_pod podNamespace podName;
      match got with
      | inl err => mret (Some (inl err))
      | inr pod =>
          match status_ContainerID containerName pod with
          | inl c => Halt c
          | inr (Some containerID) => mret (Some (inr containerID))
          | inr None =>
              now ← time_now;
              let backOff := backoff_Next backOff now in
              timer ← wait_timer (backoff_Get backOff);
              if (timer : bool)
              then GetContainerID_loop fuel backOff podNamespace podName containerName
              else mret (Some (inl "context deadline exceeded"))
          end
      end
  end.

Definition GetContainerID (fuel : nat) (podNamespace podName containerName : string)
    : prog hostS (option (os_error + string)) :=
  err ← new_for_config;
  match err with
  | Some err => mret (Some (inl err))
  | None => GetContainerID_loop fuel (NewBackOff backOffInitial backOffMax)
              podNamespace podName containerName
  end.

(** ** main (cmd/worker/main.go) *)

Definition fatal_if (msg : string) (err : option os_error) : prog hostS unit :=
  match err with Some _ => Halt (Fatal msg) | None => mret () end.

Definition worker_main (fuel : nat) (logtostderr : option os_error) : prog hostS (option unit) :=
  _ ← fatal_if "Failed to initialise Onload worker" logtostderr;
  podNamespace ← getenv "POD_NAMESPACE";
  podName ← getenv "POD_NAME";
  containerName ← getenv "CONTAINER_NAME";
  onloadCPServerPath ← getenv "ONLOAD_CP_SERVER_PATH";
  onloadCPServerParams ← getenv "ONLOAD_CP_SERVER_PARAMS";
  err ← stat "/dev/onload";
  _ ← fatal_if "/dev/onload is not available" err;
  err ← in_cluster_config;
  _ ← fatal_if "Failed to create K8s helper" err;
  got ← GetContainerID fuel podNamespace podName containerName;
  match got with
  | None => mret None
  | Some (inl err) => Halt (Fatal "Failed to get container ID")
  | Some (inr containerID) =>
      err ← Configure onloadCPServerPath onloadCPServerParams containerID kernelParametersWriter;
      _ ← fatal_if "Failed to configure Onload control plane" err;
      mret (Some ())
  end.
End client_helper.
