(* ===== verification/WorkerSpec.v ===== *)
(** * What the worker does

    The container identifier is that of a container seen running; the polling ends
    before the deadline of the context; the two kernel parameters are written only
    then, in order, and with the values of [Configure]. *)

From S2P Require Import Prelude GoStd GoFmt GoPath Effects Host Worker.
From Stdlib Require Import Ascii.
From stdpp Require Import options.

Local Open Scope list_scope.

(** ** Configure *)

(** The file of a parameter of the Onload kernel module. *)
Definition onload_parameter (name : string) : string :=
  "/sys/module/onload/parameters/" +:+ name.

Lemma onload_parameter_path name :
  In name ["cplane_server_path"; "cplane_server_params"] →
  path_Join ["/sys/module/onload/parameters"; name] = onload_parameter name.
Proof. intros [<-|[<-|[]]]; reflexivity. Qed.

(** The command that the kernel module is to run in container [id]. *)
Definition exec_params (id path params : string) : string :=
  "exec " +:+ id +:+ " " +:+ path +:+ (if bool_decide (params = "") then "" else " " +:+ params).

(** The writes of [Configure]: the second only if the first succeeded. *)
Definition configured (id path params : string) (tr : list (event hostS))
    (result : option os_error) : Prop :=
  (∃ err, tr = [Ev (S:=hostS) (WriteFile (onload_parameter "cplane_server_path") crictlPath)
                  (Some err)] ∧ result = Some err) ∨
  tr = [Ev (S:=hostS) (WriteFile (onload_parameter "cplane_server_path") crictlPath) None;
        Ev (S:=hostS) (WriteFile (onload_parameter "cplane_server_params")
                         (exec_params id path params)) result].

(** [Configure] writes the path of crictl and then the command line, which
    names the container without its runtime prefix, and has no blank after the path
    when there are no parameters; a failed write is returned and ends it.  An identifier that is not of the form
    <type>://<id>, with one separator, is refused before any write. *)
Theorem Configure_spec path params containerID :
  wp (Configure path params containerID kernelParametersWriter) (λ tr out,
    (∃ runtime id result, Split containerID "://" = [runtime; id] ∧
       containerID = runtime +:+ "://" +:+ id ∧
       configured id path params tr result ∧ out = Done result) ∨
    (∀ runtime id, Split containerID "://" ≠ [runtime; id]) ∧ tr = [] ∧
       ∃ err, out = Done (Some err)).
Proof.
  pose proof (Join_Split containerID "://" ltac:(done)) as Hj.
  unfold Configure. destruct (Split containerID "://") as [|runtime [|id [|x l]]] eqn:Hs;
    [wp_go; right; split_and!; eauto; congruence..| |wp_go; right; split_and!; eauto; congruence].
  unfold kernelParametersWriter, writeOnloadParameterFile. simpl SetControlPlaneServerPath.
  simpl SetControlPlaneServerParams. rewrite !onload_parameter_path by (simpl; auto).
  unfold configured, exec_params.
  wp_go; left; exists runtime, id; eexists; (split_and!; [done|by rewrite <-Hj| |done]).
  - left. eauto.
  - right. case_bool_decide; [rewrite (bool_decide_eq_false_2 (params = "")) by done; done|].
    destruct (decide (params = "")) as [->|]; [done|naive_solver].
  - right. case_bool_decide; [rewrite (bool_decide_eq_false_2 (params = "")) by done; done|].
    destruct (decide (params = "")) as [->|]; [done|naive_solver].
Qed.

(** The identifiers that are accepted. *)
Lemma Split_containerID runtime id :
  char_free ":"%char runtime = true → Contains id "://" = false →
  Split (runtime +:+ "://" +:+ id) "://" = [runtime; id].
Proof.
  intros Hr Hi. by rewrite (Split_first ":"%char "//" runtime id Hr), (Split_not_contains id).
Qed.

#[local] Hint Resolve Configure_spec : wp.

(** ** The status of the container *)

(** The status of the container [name]: the first of that name. *)
Definition container_status (name : string) (pod : PodStatus) : option ContainerStatus :=
  List.find (λ s, String.eqb (cs_Name s) name) pod.

Definition is_up (s : ContainerStatus) : bool :=
  cs_Ready s && bool_decide (cs_Started s = Some true) && cs_Running s.

(** C38. The worker finds an identifier exactly when the first container status of
    its name is ready, started and running, and then it is that container's; it
    goes on waiting when there is no such status, or when it is not ready, not
    started or not running; and it panics exactly when the status is ready but does
    not say whether the container has started. *)
Theorem status_ContainerID_spec name pod :
  match container_status name pod with
  | None => status_ContainerID name pod = inr None
  | Some s =>
      status_ContainerID name pod =
      if cs_Ready s && bool_decide (cs_Started s = None)
      then inl (Panic "nil pointer dereference")
      else inr (if is_up s then Some (cs_ContainerID s) else None)
  end.
Proof.
  induction pod as [|s pod IH]; [done|]. unfold container_status, is_up in *. simpl.
  destruct (String.eqb_spec (cs_Name s) name) as [Hn|Hn].
  - rewrite bool_decide_eq_false_2 by auto.
    destruct (cs_Ready s), (cs_Started s) as [[]|], (cs_Running s); reflexivity.
  - rewrite bool_decide_eq_true_2 by done. exact IH.
Qed.

(** ** Polling *)

Section client_helper.
Context {BO : BackOff}.

(** [n] polls that found the container not up, with a wait after each that the
    deadline did not cut short; [b] is the back-off before them, [b'] after. *)
Inductive polled (ns pod_name name : string) :
    backoff_state → nat → list (event hostS) → Prop :=
  | polled_0 b : polled ns pod_name name b 0 []
  | polled_S b n pod now tr :
      status_ContainerID name pod = inr None →
      polled ns pod_name name (backoff_Next b now) n tr →
      polled ns pod_name name b (S n)
        (Ev (S:=hostS) (GetPod ns pod_name) (inr pod) :: Ev (S:=hostS) Now now ::
         Ev (S:=hostS) (WaitTimer (backoff_Get (backoff_Next b now))) true :: tr).

(** The calls after the complete rounds of polling, for each way to end. *)
Definition last_poll (ns pod_name name : string) (tr : list (event hostS))
    (out : outcome (option (os_error + string))) : Prop :=
  match out with
  | Done None => tr = []
  | Done (Some (inr id)) =>
      ∃ pod, tr = [Ev (S:=hostS) (GetPod ns pod_name) (inr pod)] ∧
             status_ContainerID name pod = inr (Some id)
  | Done (Some (inl err)) =>
      tr = [Ev (S:=hostS) (GetPod ns pod_name) (inl err)] ∨
      ∃ pod now d, status_ContainerID name pod = inr None ∧
        err = "context deadline exceeded" ∧
        tr = [Ev (S:=hostS) (GetPod ns pod_name) (inr pod); Ev (S:=hostS) Now now;
              Ev (S:=hostS) (WaitTimer d) false]
  | Crashed c =>
      ∃ pod, tr = [Ev (S:=hostS) (GetPod ns pod_name) (inr pod)] ∧
             status_ContainerID name pod = inl c
  end.

Lemma GetContainerID_loop_spec fuel b ns pod_name name :
  wp (GetContainerID_loop fuel b ns pod_name name) (λ tr out, ∃ n tr1 tr2,
    n ≤ fuel ∧ (out = Done None → n = fuel) ∧ tr = tr1 ++ tr2 ∧
    polled ns pod_name name b n tr1 ∧ last_poll ns pod_name name tr2 out).
Proof.
  revert b. induction fuel as [|fuel IH]; intros b.
  { wp_go. exists 0, [], []. split_and!; [lia|done|done|constructor|done]. }
  unfold GetContainerID_loop; fold GetContainerID_loop. wp_go.
  all: try (exists 0, []; eexists; split_and!; [lia|done|reflexivity|constructor|]; simpl; eauto 10).
  destruct H as (n & tr1 & tr2 & Hn & Hf & -> & Hp & Hl).
  eexists (S n), _, tr2.
  split_and!; [lia|by intros ->%Hf| |exact (polled_S _ _ _ b n p r0 tr1 Heqs Hp)|exact Hl].
  subst. done.
Qed.
Local Hint Resolve GetContainerID_loop_spec : wp.

(** ** The deadline *)

(** The time that the waits of a trace took. *)
Definition waited (e : event hostS) : Z :=
  match e with
  | Ev o r =>
      match o return host_reply o → Z with
      | WaitTimer d => λ r : bool, if r then d else 0%Z
      | _ => λ _, 0%Z
      end r
  end.
Fixpoint elapsed (tr : list (event hostS)) : Z :=
  match tr with
  | [] => 0%Z
  | e :: tr => (waited e + elapsed tr)%Z
  end.

Lemma elapsed_app tr tr' : elapsed (tr ++ tr') = (elapsed tr + elapsed tr')%Z.
Proof. induction tr as [|e tr IH]; simpl; lia. Qed.

(** The context of the calls: a request for the pod only succeeds before its
    deadline. *)
Definition within_context (deadline : Z) (tr : list (event hostS)) : Prop :=
  ∀ tr1 ns pod_name pod tr2,
    tr = tr1 ++ Ev (S:=hostS) (GetPod ns pod_name) (inr pod) :: tr2 → (elapsed tr1 ≤ deadline)%Z.

Lemma polled_snoc ns pod_name name b n tr :
  polled ns pod_name name b (S n) tr →
  ∃ tr0 pod now d, polled ns pod_name name b n tr0 ∧
    tr = tr0 ++ [Ev (S:=hostS) (GetPod ns pod_name) (inr pod); Ev (S:=hostS) Now now;
                 Ev (S:=hostS) (WaitTimer d) true].
Proof.
  revert b tr. induction n as [|n IH]; intros b tr Hp;
    inversion Hp as [|b' n' pod now tr' Hs Hp' Hb Hn Htr]; subst.
  - inversion Hp'; subst. exists [], pod, now. eexists. split; [constructor|done].
  - apply IH in Hp' as (tr0 & pod' & now' & d & Hp0 & ->).
    eexists (_ :: _ :: _ :: tr0), pod', now', d.
    split; [exact (polled_S _ _ _ b n pod now tr0 Hs Hp0)|done].
Qed.

(** A delay is never less than the initial one. *)
Class BackOffLaws := backoff_at_least : ∀ now times,
  (backOffInitial ≤
   backoff_Get (fold_left backoff_Next (now :: times) (NewBackOff backOffInitial backOffMax)))%Z.

Lemma polled_elapsed `{BackOffLaws} ns pod_name name times n tr :
  polled ns pod_name name
    (fold_left backoff_Next times (NewBackOff backOffInitial backOffMax)) n tr →
  (Z.of_nat n * backOffInitial ≤ elapsed tr)%Z.
Proof.
  revert times tr. induction n as [|n IH]; intros times tr Hp;
    inversion Hp as [|b' n' pod now tr' Hs Hp' Hb Hn Htr]; subst; [done|].
  assert (∀ b, backoff_Next (fold_left backoff_Next times b) now =
               fold_left backoff_Next (times ++ [now]) b) as Hsnoc
    by (intros; by rewrite fold_left_app).
  rewrite !Hsnoc in *. apply IH in Hp'. simpl.
  assert (backOffInitial ≤ backoff_Get (fold_left backoff_Next (times ++ [now])
            (NewBackOff backOffInitial backOffMax)))%Z by (destruct times; apply backoff_at_least).
  lia.
Qed.

(** The deadline that [main] sets. *)
Definition main_deadline : Z := 5 * second.

(** C21. Polling ends: with the deadline of [main] and the back-off from 100ms,
    52 iterations are never exhausted. *)
Theorem GetContainerID_fuel `{BackOffLaws} fuel ns pod_name name :
  51 < fuel →
  wp (GetContainerID fuel ns pod_name name) (λ tr out,
    within_context main_deadline tr → out ≠ Done None).
Proof.
  intros Hf. unfold GetContainerID. wp_go; [done|]. intros ->.
  destruct H0 as (n & tr1 & tr2 & Hn & Hfu & -> & Hp & Hl). simpl in Hl. subst tr2.
  rewrite Hfu in Hp by done. destruct fuel as [|fuel]; [lia|].
  apply polled_snoc in Hp as (tr0 & pod & now & d & Hp & ->).
  apply (polled_elapsed _ _ _ []) in Hp.
  specialize (H1 (Ev (S:=hostS) NewForConfig None :: tr0) ns pod_name pod
    [Ev (S:=hostS) Now now; Ev (S:=hostS) (WaitTimer d) true]).
  rewrite app_nil_r in H1. specialize (H1 eq_refl). simpl in H1.
  change (main_deadline) with (50 * backOffInitial)%Z in H1. change backOffInitial with 100000000%Z in *. lia.
Qed.

(** ** The whole worker *)

Definition writes_nothing (tr : list (event hostS)) : Prop :=
  Forall (λ e : event hostS, ∀ path content, ev_op e ≠ WriteFile path content) tr.

(** The calls up to the polling: the environment, the device file, the client. *)
Definition worker_start (ns pod_name name path params : string) : list (event hostS) :=
  [Ev (S:=hostS) (Getenv "POD_NAMESPACE") ns; Ev (S:=hostS) (Getenv "POD_NAME") pod_name;
   Ev (S:=hostS) (Getenv "CONTAINER_NAME") name;
   Ev (S:=hostS) (Getenv "ONLOAD_CP_SERVER_PATH") path;
   Ev (S:=hostS) (Getenv "ONLOAD_CP_SERVER_PARAMS") params;
   Ev (S:=hostS) (Stat "/dev/onload") None; Ev (S:=hostS) InClusterConfig None;
   Ev (S:=hostS) NewForConfig None].

Lemma polled_writes ns pod_name name b n tr : polled ns pod_name name b n tr → writes_nothing tr.
Proof. intros Hp. induction Hp; [constructor|]. by repeat constructor. Qed.

Lemma last_poll_writes ns pod_name name tr out :
  last_poll ns pod_name name tr out → writes_nothing tr.
Proof.
  unfold writes_nothing. destruct out as [[[err|id]|]|c]; simpl.
  - intros [->|(pod & now & d & _ & _ & ->)]; by repeat constructor.
  - intros (pod & -> & _). by repeat constructor.
  - intros ->. constructor.
  - intros (pod & -> & _). by repeat constructor.
Qed.

Lemma GetContainerID_writes fuel ns pod_name name :
  wp (GetContainerID fuel ns pod_name name) (λ tr out,
    writes_nothing tr ∧
    ∀ id, out = Done (Some (inr id)) →
      ∃ n polls pod, tr = Ev (S:=hostS) NewForConfig None :: polls ++
                          [Ev (S:=hostS) (GetPod ns pod_name) (inr pod)] ∧
        polled ns pod_name name (NewBackOff backOffInitial backOffMax) n polls ∧
        status_ContainerID name pod = inr (Some id)).
Proof.
  unfold GetContainerID. wp_go.
  - split; [by repeat constructor|]. congruence.
  - destruct H as (n & tr1 & tr2 & _ & _ & -> & Hp & Hl). split.
    + constructor; [done|]. apply Forall_app. split; [by eapply polled_writes|by eapply last_poll_writes].
    + intros id ->. destruct Hl as (pod & -> & Hs). by exists n, tr1, pod.
Qed.
Local Hint Resolve GetContainerID_writes : wp.

Ltac solve_writes :=
  repeat match goal with H : writes_nothing _ ∧ _ |- _ => destruct H end; subst;
  unfold writes_nothing in *;
  repeat first [assumption | apply Forall_nil_2 | apply Forall_cons_2; [by intros ? ?|]
               | apply Forall_app_2].

(** The kernel parameters are written only after /dev/onload was found and a poll
    found the container up. *)
Lemma worker_main_run fuel logtostderr :
  wp (worker_main fuel logtostderr) (λ tr out,
    (writes_nothing tr ∧ out ≠ Done (Some ())) ∨
    ∃ ns pod_name name path params n polls pod runtime id writes result,
      tr = worker_start ns pod_name name path params ++ polls ++
           [Ev (S:=hostS) (GetPod ns pod_name) (inr pod)] ++ writes ∧
      polled ns pod_name name (NewBackOff backOffInitial backOffMax) n polls ∧
      status_ContainerID name pod = inr (Some (runtime +:+ "://" +:+ id)) ∧
      configured id path params writes result ∧
      out = match result with
            | None => Done (Some ())
            | Some _ => Crashed (Fatal "Failed to configure Onload control plane")
            end).
Proof.
  unfold worker_main, fatal_if. wp_go.
  all: try solve [left; split; [solve_writes|done]].
  3: by destruct H0 as [(? & ? & ? & _ & _ & _ & [=])|(_ & _ & ? & [=])].
  all: destruct H as [Hw H]; destruct (H _ eq_refl) as (n & polls & pod & -> & Hp & Hs);
    rewrite app_nil_r;
    destruct H0 as [(runtime & id & result & _ & -> & Hc & [= <-])|(_ & -> & err & [=])].
  - right. exists r, r0, r1, r2, r3, n, polls, pod, runtime, id, tr0, (Some o).
    split_and!; [|done..]. simpl. by rewrite <-(assoc_L app).
  - left. apply polled_writes in Hp. split; [solve_writes|done].
  - right. exists r, r0, r1, r2, r3, n, polls, pod, runtime, id, tr0, None.
    split_and!; [|done..]. simpl. by rewrite <-(assoc_L app).
Qed.
End client_helper.

(** ** Samples *)

(** A back-off that doubles its delay, up to a largest one. *)
Record doubling := MkDoubling { db_initial : Z; db_max : Z; db_delay : Z }.
Definition doubling_next (b : doubling) (now : Z) : doubling :=
  MkDoubling (db_initial b) (db_max b)
    (if bool_decide (db_delay b = 0)%Z then db_initial b
     else Z.min (2 * db_delay b) (db_max b))%Z.

#[export] Instance sample_backoff : BackOff := {|
  backoff_state := doubling;
  NewBackOff initial max := MkDoubling initial max 0;
  backoff_Next := doubling_next;
  backoff_Get := db_delay |}.

Lemma doubling_delay times d :
  (d = 0 ∧ times ≠ [] ∨ backOffInitial ≤ d)%Z →
  (backOffInitial ≤ db_delay (fold_left doubling_next times
                                 (MkDoubling backOffInitial backOffMax d)))%Z.
Proof.
  revert d. induction times as [|now times IH]; intros d Hd.
  - by destruct Hd as [[_ []]|].
  - simpl. unfold doubling_next at 2. simpl. apply IH. right.
    change backOffInitial with 100000000%Z in *. change backOffMax with 1000000000%Z.
    case_bool_decide; lia.
Qed.

#[export] Instance sample_backoff_laws : BackOffLaws.
Proof. intros now times. apply doubling_delay. by left. Qed.

Lemma GetContainerID_fuel_witness :
  51 < 52 ∧
  wp (GetContainerID 52 "ns" "pod" "worker") (λ tr out,
    within_context main_deadline tr → out ≠ Done None).
Proof. split; [lia|]. apply (GetContainerID_fuel 52 "ns" "pod" "worker"). lia. Defined.

(** A host where the container is up at the third poll. *)
Definition sample_container (ready : bool) : PodStatus :=
  [MkContainerStatus "device-plugin" true (Some true) true "cri-o://other";
   MkContainerStatus "worker" ready (Some true) true "cri-o://0123"].
Definition sample_env (key : string) : string :=
  match List.find (λ '(k, _), String.eqb k key)
    [("POD_NAMESPACE", "ns"); ("POD_NAME", "pod"); ("CONTAINER_NAME", "worker");
     ("ONLOAD_CP_SERVER_PATH", "/sbin/onload_cp_server")] with
  | Some (_, v) => v
  | None => ""
  end.
Definition sample_host (o : op hostS) (now : Z) : reply o * Z :=
  match o return host_reply o * Z with
  | Geteuid => (0%Z, now)
  | Lshw => (("", None), now)
  | ReadDir _ => (inr [], now)
  | RemoveAll _ | MkdirAll _ | Listen _ | GrpcServe _ | Dial _ _ | Register _ | Send _
  | Stat _ | WriteFile _ _ | InClusterConfig | NewForConfig => (None, now)
  | Sleep d => ((), (now + d)%Z)
  | Now => (now, now)
  | Getenv key => (sample_env key, now)
  | GetPod _ _ => (inr (sample_container (bool_decide (now = 300 * millisecond)%Z)), now)
  | WaitTimer d => (true, (now + d)%Z)
  end.

Example worker_main_ex :
  let '(out, tr, now) := exec sample_host (worker_main 10 None) 0%Z in
  out = Done (Some ()) ∧ now = (300 * millisecond)%Z ∧
  drop 15 tr =
    [Ev (S:=hostS) (WriteFile "/sys/module/onload/parameters/cplane_server_path"
                      "/usr/bin/crictl") None;
     Ev (S:=hostS) (WriteFile "/sys/module/onload/parameters/cplane_server_params"
                      "exec 0123 /sbin/onload_cp_server") None].
Proof. vm_compute. auto. Qed.
