(* ===== verification/ApiTypes.v ===== *)
(** * The data: the [Onload] custom resource and the Kubernetes objects

    The records of src/api/v1alpha1/onload_types.go, field by field, and of the
    Kubernetes and KMM objects the fields the program reads or writes.  A
    pointer field is an [option]; a slice whose nil-ness is observed is an
    [option] of a list; an [int] is a [Z].  Types of other projects that the
    program only passes along or queries through their methods ([Quantity],
    [labels.Selector], API errors) are abstract: they are fields of the class
    [Apimachinery], which also holds the library functions the program calls on
    them. *)

From S2P Require Import Prelude GoStd.
From stdpp Require Import options.

(** ** api/v1alpha1 *)

Record SFCSpec := MkSFCSpec {}.

Record BuildArg := MkBuildArg {
  BuildArg_Name : string;
  BuildArg_Value : string;
}.

Record LocalObjectReference := MkLocalObjectReference { lor_Name : string }.

Record OnloadKernelBuild := MkOnloadKernelBuild {
  okb_BuildArgs : list BuildArg;
  okb_DockerfileConfigMap : option LocalObjectReference;
}.

Record OnloadKernelMapping := MkOnloadKernelMapping {
  okm_Regexp : string;
  okm_KernelModuleImage : string;
  okm_SFC : option SFCSpec;
  okm_Build : option OnloadKernelBuild;
}.

Record ControlPlaneSpec := MkControlPlaneSpec {
  cps_Parameters : option (list string);
}.

Record OnloadSpec := MkOnloadSpec {
  os_KernelMappings : list OnloadKernelMapping;
  os_UserImage : string;
  os_Version : string;
  os_ImagePullPolicy : string;
  os_ControlPlane : option ControlPlaneSpec;
}.

Record DevicePluginSpec := MkDevicePluginSpec {
  dps_ImagePullPolicy : string;
  dps_MaxPodsPerNode : option Z;
  dps_SetPreload : option bool;
  dps_MountOnload : option bool;
  dps_HostOnloadPath : option string;
  dps_BaseMountPath : option string;
  dps_BinMountPath : option string;
  dps_LibMountPath : option string;
}.

Record Spec := MkSpec {
  spec_Onload : OnloadSpec;
  spec_DevicePlugin : DevicePluginSpec;
  spec_Selector : gmap string string;
  spec_ServiceAccountName : string;
}.

(** ** Kubernetes metadata *)

Record OwnerReference := MkOwnerReference {
  owner_Name : string;
  owner_UID : string;
  owner_Controller : bool;
}.

Record ObjectMeta := MkObjectMeta {
  meta_Name : string;
  meta_Namespace : string;
  meta_UID : string;
  meta_Labels : gomap string;
  meta_OwnerReferences : list OwnerReference;
  meta_DeletionTimestamp : option Z;
}.

Definition with_Labels (m : ObjectMeta) (l : gomap string) : ObjectMeta :=
  MkObjectMeta (meta_Name m) (meta_Namespace m) (meta_UID m) l
    (meta_OwnerReferences m) (meta_DeletionTimestamp m).

Record NamespacedName := MkNamespacedName { nn_Name : string; nn_Namespace : string }.

Record Onload := MkOnload { onload_meta : ObjectMeta; onload_Spec : Spec }.

Definition onload_Name (o : Onload) : string := meta_Name (onload_meta o).
Definition onload_Namespace (o : Onload) : string := meta_Namespace (onload_meta o).
Definition onload_Version (o : Onload) : string := os_Version (spec_Onload (onload_Spec o)).
Definition onload_Mappings (o : Onload) : list OnloadKernelMapping :=
  os_KernelMappings (spec_Onload (onload_Spec o)).
Definition onload_Selector (o : Onload) : gmap string string := spec_Selector (onload_Spec o).

Record Node := MkNode { node_meta : ObjectMeta }.
Definition node_Name (n : Node) : string := meta_Name (node_meta n).
Definition node_Labels (n : Node) : gomap string := meta_Labels (node_meta n).
Definition node_with_Labels (n : Node) (l : gomap string) : Node :=
  MkNode (with_Labels (node_meta n) l).

(** ** Types and functions of the Kubernetes libraries *)

Class Apimachinery := {
  (** Errors of the API client, of [labels.Parse] and of [SetControllerReference]. *)
  ext_error : Type;
  (** [apierrors.IsNotFound] *)
  IsNotFound : ext_error → bool;
  (** [labels.Selector], [labels.FormatLabels], [labels.Parse], [Selector.Matches] *)
  Selector : Type;
  FormatLabels : gmap string string → string;
  labels_Parse : string → ext_error + Selector;
  Matches : Selector → gomap string → bool;
  (** [corev1.ResourceList] and its method [Name]; [resource.Quantity] and [CmpInt64] *)
  ResourceList : Type;
  Quantity : Type;
  ResourceList_Name : ResourceList → string → option Quantity;
  CmpInt64 : Quantity → Z → Z;
  (** [controllerutil.SetControllerReference]: the metadata of the controlled
      object once the reference to the owner is added *)
  SetControllerReference : Onload → ObjectMeta → ext_error + ObjectMeta;
}.

(** Go's [error] values in the controller: made by [fmt.Errorf] here, or by a library. *)
Inductive error `{Apimachinery} :=
  | FmtError (msg : string)
  | ExtError (e : ext_error).

(** ** Pods *)

Section pods.
Context `{Apimachinery}.

(** A container of a pod, as far as the operator reads it. *)
Record PodContainer := MkPodContainer { pc_Requests : ResourceList }.

Record Pod := MkPod {
  pod_meta : ObjectMeta;
  pod_NodeName : string;
  pod_Containers : list PodContainer;
}.
End pods.

(** ** KMM's Module *)

Record kmm_BuildArg := MkKmmBuildArg { kba_Name : string; kba_Value : string }.

Record kmm_Build := MkKmmBuild {
  kb_BuildArgs : list kmm_BuildArg;
  kb_DockerfileConfigMap : option LocalObjectReference;
}.

Record kmm_KernelMapping := MkKmmKernelMapping {
  km_Regexp : string;
  km_ContainerImage : string;
  km_Build : option kmm_Build;
}.

(** [Spec.ModuleLoader.Container] of a Module. *)
Record ModuleLoaderContainer := MkModuleLoaderContainer {
  mlc_ModprobeModuleName : string;
  mlc_ModprobeParameters : list string;
  mlc_InTreeModuleToRemove : string;
  mlc_KernelMappings : list kmm_KernelMapping;
  mlc_ImagePullPolicy : string;
  mlc_Version : string;
}.

Record kmm_Module := MkKmmModule {
  module_meta : ObjectMeta;
  module_ServiceAccountName : string;
  module_Container : ModuleLoaderContainer;
  module_Selector : gmap string string;
}.

(** ** DaemonSets *)

Record VolumeMount := MkVolumeMount { vm_MountPath : string; vm_Name : string }.

(** [EnvVar] with its two sources used here: a value, or a field reference. *)
Inductive EnvSource :=
  | EnvValue (value : string)
  | EnvFieldPath (path : string).
Record EnvVar := MkEnvVar { env_Name : string; env_Source : EnvSource }.

Record Container := MkContainer {
  c_Name : string;
  c_Image : string;
  c_ImagePullPolicy : string;
  c_Command : list string;
  c_Args : list string;
  c_Privileged : option bool;
  c_PostStart : option (list string);   (** [Lifecycle.PostStart.Exec.Command] *)
  c_PreStop : option (list string);     (** [Lifecycle.PreStop.Exec.Command] *)
  c_VolumeMounts : list VolumeMount;
  c_Env : list EnvVar;
}.

Inductive VolumeSource :=
  | HostPath (path : string) (type : string)
  | EmptyDir (sizeLimitBytes : Z).
Record Volume := MkVolume { v_Name : string; v_Source : VolumeSource }.

Record NodeSelectorRequirement := MkNodeSelectorRequirement {
  nsr_Key : string;
  nsr_Operator : string;
  nsr_Values : list string;
}.

Record PodSpec := MkPodSpec {
  ps_ServiceAccountName : string;
  ps_InitContainers : list Container;
  ps_Containers : list Container;
  ps_Volumes : list Volume;
  ps_NodeSelector : gmap string string;
  (** the match expressions of the one required node-affinity term *)
  ps_NodeAffinity : list NodeSelectorRequirement;
  ps_HostNetwork : bool;
  ps_HostPID : bool;
  ps_HostIPC : bool;
}.

Record DaemonSet := MkDaemonSet {
  ds_meta : ObjectMeta;
  ds_UpdateStrategy : string;
  ds_MatchLabels : gomap string;
  ds_TemplateLabels : gomap string;
  ds_PodSpec : PodSpec;
}.
