(* ===== verification/Client.v ===== *)
(** * The controller's calls

    The API client ([client.Client] of controller-runtime) is not code of this
    repository.  Its calls are the operations of a signature; the reply to a call
    is whatever the API server, or the client's cache, answers. *)

From S2P Require Import Prelude GoStd Effects ApiTypes.
From stdpp Require Import options.

Section client.
Context `{Apimachinery}.

Inductive client_op :=
  | GetOnload (key : NamespacedName)
  | GetModule (key : NamespacedName)
  | GetDaemonSet (key : NamespacedName)
  | ListNodes (sel : Selector)
  (** a label selector made by [labels.SelectorFromSet], and the field selector
      [spec.nodeName=nodeName] *)
  | ListPods (set : gmap string string) (nodeName : string)
  | ListOnloads
  (** [Patch(obj, client.MergeFrom(old))]: the client sends the difference *)
  | PatchNode (old new : Node)
  | PatchModule (old new : kmm_Module)
  | PatchDaemonSet (old new : DaemonSet)
  | CreateModule (m : kmm_Module)
  | CreateDaemonSet (d : DaemonSet)
  | DeleteModule (m : kmm_Module)
  (** [SubResource("eviction").Create(&pod, &policyv1.Eviction{})] *)
  | CreateEviction (p : Pod).

(** A reading call returns an error or the object.  A successful [PatchNode]
    decodes the server's answer into the node it was given; the reply carries
    what the label map, which the caller shares, holds afterwards. *)
Definition client_reply (o : client_op) : Type :=
  match o with
  | GetOnload _ => ext_error + Onload
  | GetModule _ => ext_error + kmm_Module
  | GetDaemonSet _ => ext_error + DaemonSet
  | ListNodes _ => ext_error + list Node
  | ListPods _ _ => ext_error + list Pod
  | ListOnloads => ext_error + list Onload
  | PatchNode _ _ => ext_error + gomap string
  | PatchModule _ _ | PatchDaemonSet _ _ | CreateModule _ | CreateDaemonSet _
  | DeleteModule _ | CreateEviction _ => option ext_error
  end.

Definition clientS : sig := Sig client_op client_reply.

(** The calls that ask for a change of the cluster. *)
Definition is_write (o : client_op) : bool :=
  match o with
  | PatchNode _ _ | PatchModule _ _ | PatchDaemonSet _ _ | CreateModule _
  | CreateDaemonSet _ | DeleteModule _ | CreateEviction _ => true
  | _ => false
  end.

Definition get_onload key : prog clientS (ext_error + Onload) := call (S:=clientS) (GetOnload key).
Definition get_module key : prog clientS (ext_error + kmm_Module) := call (S:=clientS) (GetModule key).
Definition get_daemonset key : prog clientS (ext_error + DaemonSet) :=
  call (S:=clientS) (GetDaemonSet key).
Definition list_nodes sel : prog clientS (ext_error + list Node) := call (S:=clientS) (ListNodes sel).
Definition list_pods set node : prog clientS (ext_error + list Pod) :=
  call (S:=clientS) (ListPods set node).
Definition list_onloads : prog clientS (ext_error + list Onload) := call (S:=clientS) ListOnloads.
Definition patch_node old new : prog clientS (ext_error + gomap string) :=
  call (S:=clientS) (PatchNode old new).
Definition patch_module old new : prog clientS (option ext_error) :=
  call (S:=clientS) (PatchModule old new).
Definition patch_daemonset old new : prog clientS (option ext_error) :=
  call (S:=clientS) (PatchDaemonSet old new).
Definition create_module m : prog clientS (option ext_error) := call (S:=clientS) (CreateModule m).
Definition create_daemonset d : prog clientS (option ext_error) :=
  call (S:=clientS) (CreateDaemonSet d).
Definition delete_module m : prog clientS (option ext_error) := call (S:=clientS) (DeleteModule m).
Definition create_eviction p : prog clientS (option ext_error) :=
  call (S:=clientS) (CreateEviction p).

(** Every call of a trace satisfies [P]. *)
Definition calls (P : client_op → Prop) (tr : list (event clientS)) : Prop :=
  Forall (λ e : event clientS, P (ev_op e)) tr.

Lemma calls_app P tr tr' : calls P (tr ++ tr')%list ↔ calls P tr ∧ calls P tr'.
Proof. apply Forall_app. Qed.

Lemma calls_cons P (o : op clientS) r tr : calls P (Ev (S:=clientS) o r :: tr) ↔ P o ∧ calls P tr.
Proof. exact (Forall_cons (λ e : event clientS, P (ev_op e)) (Ev (S:=clientS) o r) tr). Qed.

Lemma calls_nil P : calls P [].
Proof. constructor. Qed.

Lemma calls_impl (P Q : client_op → Prop) tr : (∀ o, P o → Q o) → calls P tr → calls Q tr.
Proof. intros HPQ Hc. eapply Forall_impl; [exact Hc|]. intros e. apply HPQ. Qed.

(** The trace of a loop that makes one call per element and stops at the first
    error: the calls in order, and the error. *)
Inductive in_turn {A} (o : A → client_op) (err : ∀ a, client_reply (o a) → option ext_error)
    : list A → list (event clientS) → option ext_error → Prop :=
  | in_turn_nil : in_turn o err [] [] None
  | in_turn_ok a l r tr e :
      err a r = None → in_turn o err l tr e →
      in_turn o err (a :: l) (Ev (S:=clientS) (o a) r :: tr) e
  | in_turn_fail a l r e :
      err a r = Some e → in_turn o err (a :: l) [Ev (S:=clientS) (o a) r] (Some e).

(** The calls of such a loop are a prefix of those for the whole list, and all of
    them when nothing failed. *)
Lemma in_turn_calls {A} (o : A → client_op) err l tr e :
  in_turn o err l tr e →
  (λ ev : event clientS, ev_op ev) <$> tr = o <$> take (length tr) l ∧
  (e = None → length tr = length l).
Proof.
  induction 1 as [|a l r tr e _ _ [IH1 IH2]|a l r e]; simpl.
  - done.
  - split; [by f_equal|]. intros ->. by rewrite IH2.
  - done.
Qed.

(** The loops over pods and nodes of the controller. *)
Definition eviction_error (p : Pod) : client_reply (CreateEviction p) → option ext_error := id.
Definition patched (f : Node → Node) : list Node → list (event clientS) → option ext_error → Prop :=
  in_turn (λ n, PatchNode n (f n)) (λ n r, match r with inl err => Some err | inr _ => None end).

End client.

(** Proves [calls P tr] for a trace made of known calls and of assumed parts. *)
Ltac solve_calls :=
  repeat first [apply calls_nil | assumption | apply calls_cons; split | apply calls_app; split].

(** ** Results of the controller's functions

    [ctrl.Result], and the pair of a pointer to one and an error that the phases return. *)

Record Result := MkResult { Requeue : bool; RequeueAfter : Z }.

#[export] Instance Result_eq_dec : EqDecision Result.
Proof. solve_decision. Defined.

Definition no_result : Result := MkResult false 0.
Definition requeue : Result := MkResult true 0.

(** [const defaultRequeueTime = 5 * time.Second], in nanoseconds. *)
Definition defaultRequeueTime : Z := 5 * 1000000000.
Definition requeue_after_default : Result := MkResult false defaultRequeueTime.

Section results.
Context `{Apimachinery}.

Definition phase_result : Type := option Result * option error.
Definition phase_nothing : phase_result := (None, None).
Definition phase_stop (r : Result) : phase_result := (Some r, None).
Definition phase_error (e : error) : phase_result := (None, Some e).

(** [res != nil || err != nil] *)
Definition returns_early (r : phase_result) : bool := non_nil r.1 || non_nil r.2.

Lemma returns_early_false (r : phase_result) : returns_early r = false → r = phase_nothing.
Proof. by destruct r as [[] []]. Qed.
End results.
