(* ===== verification/OperatorMain.v ===== *)
(** * The operator's program (src/main.go, SetupWithManager in onload_controller.go)

    The package's [init], the command line, and the calls to controller-runtime up
    to [Start], which runs the controllers until the process is told to stop.  The
    library is not code of this repository: its calls are operations.  What the
    program passes to them, and in which order, is. *)

From S2P Require Import Prelude GoStd GoFmt GoPath GoFlag Effects ApiTypes Client.
From stdpp Require Import options.

Local Open Scope list_scope.

(** ** The calls *)

Inductive scheme := ClientGoScheme | OnloadScheme | KmmScheme.
Inductive kind := OnloadKind | ModuleKind | DaemonSetKind | NodeKind | PodKind.

(** The options of [ctrl.NewManager] that the program sets. *)
Record ManagerOptions := MkManagerOptions {
  mo_MetricsBindAddress : string;
  mo_WebhookPort : Z;
  mo_HealthProbeBindAddress : string;
  mo_LeaderElection : bool;
  mo_LeaderElectionID : string;
}.

(** The reconciler that [main] builds; its client and scheme are the manager's. *)
Record OnloadReconciler := MkOnloadReconciler { rc_DevicePluginImage : string }.

(** What the builder of the controller was told. *)
Record Builder := MkBuilder {
  bld_For : kind;
  bld_Owns : list kind;
  bld_Watches : list kind;
}.

Inductive main_op :=
  | AddToScheme (s : scheme)
  | MainGetenv (key : string)
  | GetConfig                                   (** [ctrl.GetConfigOrDie] *)
  | NewManager (opts : ManagerOptions)
  | IndexField (k : kind) (field : string)
  | Complete (b : Builder) (r : OnloadReconciler)
  | AddHealthzCheck (name : string)
  | AddReadyzCheck (name : string)
  | Start.

Definition main_reply (o : main_op) : Type :=
  match o with
  | MainGetenv _ => string
  | _ => option string
  end.
Definition mainS : sig := Sig main_op main_reply.

(** [err != nil]: the error is logged, and the process exits. *)
Definition or_exit (msg : string) (err : option string) : prog mainS unit :=
  match err with Some _ => Halt (Fatal msg) | None => mret () end.

(** [utilruntime.Must] *)
Definition must (err : option string) : prog mainS unit :=
  match err with Some err => Halt (Panic err) | None => mret () end.

Definition init : prog mainS unit :=
  err ← call (S:=mainS) (AddToScheme ClientGoScheme); _ ← must err;
  err ← call (S:=mainS) (AddToScheme OnloadScheme); _ ← must err;
  err ← call (S:=mainS) (AddToScheme KmmScheme); must err.

(** ** The command line *)

Record MainFlags := MkMainFlags {
  mf_metricsAddr : string; mf_probeAddr : string; mf_enableLeaderElection : bool }.

Definition main_flags : list (string * flag MainFlags) := [
  ("metrics-bind-address",
     StringVar (λ s c, MkMainFlags s (mf_probeAddr c) (mf_enableLeaderElection c)));
  ("health-probe-bind-address",
     StringVar (λ s c, MkMainFlags (mf_metricsAddr c) s (mf_enableLeaderElection c)));
  ("leader-elect",
     BoolVar (λ b c, MkMainFlags (mf_metricsAddr c) (mf_probeAddr c) b))].
Definition main_defaults : MainFlags := MkMainFlags ":8080" ":8081" false.

(** ** SetupWithManager *)

Definition podNodeNameField : string := "spec.nodeName".
(** The values of the index for a pod. *)
Definition podNodeNameIndex `{Apimachinery} (p : Pod) : list string := [pod_NodeName p].

Definition controller_builder : Builder :=
  {| bld_For := OnloadKind; bld_Owns := [ModuleKind; DaemonSetKind]; bld_Watches := [NodeKind] |}.

Definition SetupWithManager (r : OnloadReconciler) : prog mainS (option string) :=
  err ← call (S:=mainS) (IndexField PodKind podNodeNameField);
  match err with
  | Some err => mret (Some err)
  | None => call (S:=mainS) (Complete controller_builder r)
  end.

(** ** main *)

Definition manager_options (f : MainFlags) : ManagerOptions := {|
  mo_MetricsBindAddress := mf_metricsAddr f;
  mo_WebhookPort := 9443;
  mo_HealthProbeBindAddress := mf_probeAddr f;
  mo_LeaderElection := mf_enableLeaderElection f;
  mo_LeaderElectionID := "daabde26.amd.com" |}.

Section main.
(** The flags of the logger. *)
Variable library_flag : string → option (bool * (string → bool)).

Definition main (args : list string) : prog mainS unit :=
  match parse_flags main_flags library_flag args main_defaults with
  | None => Halt (Fatal "flag.Parse")
  | Some f =>
      devicePluginImage ← call (S:=mainS) (MainGetenv "DEVICE_PLUGIN_IMG");
      if bool_decide (devicePluginImage = "") then Halt (Fatal "Unable to create device plugin") else
      err ← call (S:=mainS) GetConfig;
      _ ← or_exit "unable to get kubeconfig" err;
      err ← call (S:=mainS) (NewManager (manager_options f));
      _ ← or_exit "unable to start manager" err;
      err ← SetupWithManager (MkOnloadReconciler devicePluginImage);
      _ ← or_exit "unable to create controller" err;
      err ← call (S:=mainS) (AddHealthzCheck "healthz");
      _ ← or_exit "unable to set up health check" err;
      err ← call (S:=mainS) (AddReadyzCheck "readyz");
      _ ← or_exit "unable to set up ready check" err;
      err ← call (S:=mainS) Start;
      or_exit "problem running manager" err
  end.

Definition operator (args : list string) : prog mainS unit :=
  _ ← init; main args.

(** ** The start of the operator *)

Definition init_calls : list main_op :=
  [AddToScheme ClientGoScheme; AddToScheme OnloadScheme; AddToScheme KmmScheme].

(** The settings of the command line: the addresses that metrics and health probes
    are served at, and whether a leader is elected; and the argument for each. *)
Inductive setting :=
  | SetMetrics (address : string)
  | SetProbe (address : string)
  | SetElect (value : bool)
  | Elect.                                      (** the flag without a value *)

Definition setting_arg (s : setting) : string :=
  match s with
  | SetMetrics address => "--metrics-bind-address=" +:+ address
  | SetProbe address => "--health-probe-bind-address=" +:+ address
  | SetElect true => "--leader-elect=true"
  | SetElect false => "--leader-elect=false"
  | Elect => "--leader-elect"
  end.

(** The last setting counts. *)
Fixpoint metrics_of (settings : list setting) (d : string) : string :=
  match settings with
  | [] => d
  | SetMetrics address :: l => metrics_of l address
  | _ :: l => metrics_of l d
  end.
Fixpoint probe_of (settings : list setting) (d : string) : string :=
  match settings with
  | [] => d
  | SetProbe address :: l => probe_of l address
  | _ :: l => probe_of l d
  end.
Fixpoint elect_of (settings : list setting) (d : bool) : bool :=
  match settings with
  | [] => d
  | SetElect b :: l => elect_of l b
  | Elect :: l => elect_of l true
  | _ :: l => elect_of l d
  end.

(** All calls, in order, when nothing fails, for the addresses of the metrics and of
    the probes, the leader election, and the image of the environment. *)
Definition main_calls (metrics probe : string) (elect : bool) (image : string) : list main_op :=
  [MainGetenv "DEVICE_PLUGIN_IMG"; GetConfig;
   NewManager {| mo_MetricsBindAddress := metrics; mo_WebhookPort := 9443;
                 mo_HealthProbeBindAddress := probe; mo_LeaderElection := elect;
                 mo_LeaderElectionID := "daabde26.amd.com" |};
   IndexField PodKind "spec.nodeName";
   Complete {| bld_For := OnloadKind; bld_Owns := [ModuleKind; DaemonSetKind];
               bld_Watches := [NodeKind] |} {| rc_DevicePluginImage := image |};
   AddHealthzCheck "healthz"; AddReadyzCheck "readyz"; Start].

(** The call succeeded. *)
Definition succeeded (e : event mainS) : bool :=
  match e with
  | Ev o r =>
      match o return main_reply o → bool with
      | MainGetenv _ => λ s, negb (bool_decide (s = ""))
      | _ => λ r, negb (non_nil r)
      end r
  end.

(** The image that the environment named. *)
Fixpoint image_of (tr : list (event mainS)) : string :=
  match tr with
  | [] => ""
  | Ev o r :: tr =>
      match o return main_reply o → string with
      | MainGetenv _ => λ s, s
      | _ => λ _, image_of tr
      end r
  end.

(** The calls of a run are the first of [calls].  If it got to the end all have
    succeeded, and else exactly the last has not. *)
Definition stops_at_failure (calls : list main_op) (tr : list (event mainS)) (finished : bool) : Prop :=
  map (λ e : event mainS, ev_op e) tr = take (length tr) calls ∧
  if finished then length tr = length calls ∧ forallb succeeded tr = true
  else forallb succeeded (removelast tr) = true ∧ option_map succeeded (last tr) = Some false.

(** A run of the operator with these settings. *)
Definition operator_run (metrics probe : string) (elect : bool)
    (tr : list (event mainS)) (out : outcome unit) : Prop :=
  ∃ finished : bool,
    stops_at_failure (init_calls ++ main_calls metrics probe elect (image_of tr)) tr finished ∧
    if finished then out = Done () else ∃ c, out = Crashed c.

Lemma operator_runs args :
  wp (operator args) (λ tr out,
    match parse_flags main_flags library_flag args main_defaults with
    | None => (∃ finished, stops_at_failure init_calls tr finished) ∧ ∃ c, out = Crashed c
    | Some f => operator_run (mf_metricsAddr f) (mf_probeAddr f) (mf_enableLeaderElection f) tr out
    end).
Proof.
  unfold operator, init, main, must, or_exit, SetupWithManager.
  destruct (parse_flags main_flags library_flag args main_defaults) as [f|]; wp_go.
  all: first
    [solve [exists true; split; [split; [done|split; [done|simpl; by rewrite ?Heqb]]|done]]
    |solve [exists false; split; [split; [done|split; simpl; by rewrite ?Heqb]|by eexists]]
    |split; [|by eexists]].
  all: first [solve [by exists true]|exists false; split; [done|split; simpl; by rewrite ?Heqb]].
Qed.

Lemma parse_settings settings c :
  parse_flags main_flags library_flag (map setting_arg settings) c =
  Some (MkMainFlags (metrics_of settings (mf_metricsAddr c)) (probe_of settings (mf_probeAddr c))
          (elect_of settings (mf_enableLeaderElection c))).
Proof.
  revert c. induction settings as [|s l IH]; intros c; [by destruct c|].
  destruct c as [metrics probe elect], s as [address|address|[]|].
  - exact (IH (MkMainFlags address probe elect)).
  - exact (IH (MkMainFlags metrics address elect)).
  - exact (IH (MkMainFlags metrics probe true)).
  - exact (IH (MkMainFlags metrics probe false)).
  - exact (IH (MkMainFlags metrics probe true)).
Qed.

(** C20. The operator starts its controllers last: only when every earlier call has
    succeeded, in the order of the source: the schemes; the image of the device
    plugin from the environment, which is not empty; the configuration; the manager,
    which serves metrics, and health probes, each at the address that the command
    line sets for it, or at ports 8080 and 8081, and elects a leader if that is
    asked for; the index of pods by node; the controller for Onload resources, with
    that image, which owns Modules and DaemonSets and watches nodes; and the two
    checks.  At the first failure the process ends with no other call, and without a
    failure it ends only when [Start] has returned.  A command line that cannot be
    parsed ends it before any of this but the schemes. *)
Theorem operator_spec :
  (∀ settings,
     wp (operator (map setting_arg settings))
       (operator_run (metrics_of settings ":8080") (probe_of settings ":8081")
          (elect_of settings false))) ∧
  (∀ args, wp (operator args) (λ tr out,
     match parse_flags main_flags library_flag args main_defaults with
     | None => (∃ finished, stops_at_failure init_calls tr finished) ∧ ∃ c, out = Crashed c
     | Some f => operator_run (mf_metricsAddr f) (mf_probeAddr f) (mf_enableLeaderElection f) tr out
     end)).
Proof.
  split; [intros settings|exact operator_runs].
  eapply wp_mono; [|apply operator_runs]. intros tr out. by rewrite parse_settings.
Qed.
End main.
