(* ===== verification/Labels.v ===== *)
(** * Names of labels and objects (src/controllers/onload_controller.go, 155-180)

    The operator marks a node with up to three labels per Onload resource: the
    KMM version labels of its two modules, and its own label, which schedules
    the device plugin.  Different resources must not touch each other's labels,
    and the keys must stay within the limits Kubernetes sets. *)

From S2P Require Import Prelude GoStd.
From Stdlib Require Import Ascii.
From stdpp Require Import options.

Definition kmmModuleLabelPrefix : string := "kmm.node.kubernetes.io/version-module".
Definition onloadModuleNameSuffix : string := "-module".
Definition sfcModuleNameSuffix : string := "-sfcmod".

Definition baseLabels (name namespace component : string) : gmap string string :=
  {[ "app.kubernetes.io/managed-by" := "onload-operator";
     "app.kubernetes.io/part-of" := "onload";
     "app.kubernetes.io/instance" := "onload-" +:+ namespace +:+ "-" +:+ name;
     "app.kubernetes.io/component" := component ]}.

Definition kmmOnloadLabelName (name namespace : string) : string :=
  kmmModuleLabelPrefix +:+ "." +:+ namespace +:+ "." +:+ name +:+ onloadModuleNameSuffix.

Definition kmmSFCLabelName (name namespace : string) : string :=
  kmmModuleLabelPrefix +:+ "." +:+ namespace +:+ "." +:+ name +:+ sfcModuleNameSuffix.

Definition onloadLabelPrefix : string := "onload.amd.com/".

Definition onloadLabelName (name namespace : string) : string :=
  onloadLabelPrefix +:+ namespace +:+ "." +:+ name.

Definition devicePluginNameSuffix : string := "-onload-device-plugin-ds".
Definition onloadVersionLabel : string := onloadLabelPrefix +:+ "version".

(** ** The keys of one resource *)

Lemma kmm_labels_ne n ns n' ns' : kmmOnloadLabelName n ns ≠ kmmSFCLabelName n' ns'.
Proof.
  unfold kmmOnloadLabelName, kmmSFCLabelName. rewrite <-!string_app_assoc.
  by apply suffix_ne.
Qed.

Lemma kmm_onload_label_ne n ns n' ns' : kmmOnloadLabelName n ns ≠ onloadLabelName n' ns'.
Proof. done. Qed.

Lemma kmm_sfc_label_ne n ns n' ns' : kmmSFCLabelName n ns ≠ onloadLabelName n' ns'.
Proof. done. Qed.

Lemma kmm_labels_ne' n ns n' ns' : kmmSFCLabelName n' ns' ≠ kmmOnloadLabelName n ns.
Proof. apply not_eq_sym, kmm_labels_ne. Qed.

Create HintDb labels.
#[export] Hint Resolve kmm_labels_ne kmm_labels_ne' kmm_onload_label_ne kmm_sfc_label_ne : labels.

(** [namespace.name] is read back from a key: a namespace has no dot. *)
Lemma dotted_inj ns ns' (n n' : string) :
  char_free "."%char ns = true → char_free "."%char ns' = true →
  ns +:+ "." +:+ n = ns' +:+ "." +:+ n' → ns = ns' ∧ n = n'.
Proof. intros Hns Hns' Heq. by apply (app_sep_inj "."%char). Qed.

(** The three labels of a resource. *)
Inductive label_kind := KmmOnload | KmmSFC | Operator.
#[export] Instance label_kind_eq_dec : EqDecision label_kind.
Proof. solve_decision. Defined.

Definition label_of (k : label_kind) (name namespace : string) : string :=
  match k with
  | KmmOnload => kmmOnloadLabelName name namespace
  | KmmSFC => kmmSFCLabelName name namespace
  | Operator => onloadLabelName name namespace
  end.

Lemma label_of_kind_inj k k' n n' ns ns' : label_of k n ns = label_of k' n' ns' → k = k'.
Proof.
  destruct k, k'; try done; intros Heq; exfalso;
    [by apply (kmm_labels_ne n ns n' ns')|by apply (kmm_labels_ne n' ns' n ns)].
Qed.

(** The node labels of different resources, and of the different modules of
    one resource, have different keys: a key determines which of the three labels
    it is, the name and the namespace (which, as a Kubernetes namespace, has no
    dot). *)
Theorem label_of_inj k k' n n' ns ns' :
  char_free "."%char ns = true → char_free "."%char ns' = true →
  label_of k n ns = label_of k' n' ns' → k = k' ∧ n = n' ∧ ns = ns'.
Proof.
  intros Hns Hns' Heq. pose proof (label_of_kind_inj _ _ _ _ _ _ Heq) as <-. split; [done|].
  destruct k; simpl in Heq; unfold kmmOnloadLabelName, kmmSFCLabelName, onloadLabelName in Heq.
  - do 2 apply string_app_inj_l in Heq. apply dotted_inj in Heq as [-> Heq]; [|done..].
    by apply string_app_inj_r in Heq.
  - do 2 apply string_app_inj_l in Heq. apply dotted_inj in Heq as [-> Heq]; [|done..].
    by apply string_app_inj_r in Heq.
  - apply string_app_inj_l in Heq. by apply dotted_inj in Heq as [-> ->].
Qed.

(** Names with dots are allowed for resources: [a.b] in [x] and [b] in [x.a]
    would clash if a namespace could have a dot; [b] in [x] and [a.b] in [x] do not. *)
Lemma label_of_inj_witness :
  char_free "."%char "x" = true ∧ label_of Operator "a.b" "x" ≠ label_of Operator "b" "x".
Proof.
  assert (char_free "."%char "x" = true) as Hx by reflexivity. split; [exact Hx|].
  intros Heq. by destruct (label_of_inj _ _ _ _ _ _ Hx Hx Heq) as (_ & Hn & _).
Defined.
