(* ===== verification/Modules.v ===== *)
(** * KMM Modules (src/controllers/onload_controller.go, 461-543 and 722-877)

    The operator keeps one KMM [Module] for the [onload] kernel module and, when
    a kernel mapping asks for it, one for [sfc]. *)

From S2P Require Import Prelude GoStd Effects ApiTypes Client Labels.
From stdpp Require Import options.

Local Open Scope list_scope.

(** ** Kernel mappings *)

Definition onloadKernelMapper (spec : OnloadKernelMapping) : option kmm_KernelMapping :=
  let buildSpec :=
    match okm_Build spec with
    | Some b => Some {|
        kb_BuildArgs := map (λ a, MkKmmBuildArg (BuildArg_Name a) (BuildArg_Value a))
                          (okb_BuildArgs b);
        kb_DockerfileConfigMap := okb_DockerfileConfigMap b |}
    | None => None
    end in
  Some {| km_Regexp := okm_Regexp spec;
          km_ContainerImage := okm_KernelModuleImage spec;
          km_Build := buildSpec |}.

Definition sfcKernelMapper (spec : OnloadKernelMapping) : option kmm_KernelMapping :=
  match okm_SFC spec with
  | None => None
  | Some _ =>
      match onloadKernelMapper spec with
      | Some kmap => Some {| km_Regexp := km_Regexp kmap;
                             km_ContainerImage := km_ContainerImage kmap;
                             km_Build := None |}
      | None => None
      end
  end.

Definition onloadUsesSFC (onload : Onload) : bool :=
  existsb (λ kmap, non_nil (okm_SFC kmap)) (onload_Mappings onload).

(** The loop that collects the non-nil mappings, in [createModule] and [patchModule]. *)
Fixpoint kernelMappings (getKernelMap : OnloadKernelMapping → option kmm_KernelMapping)
    (specs : list OnloadKernelMapping) : list kmm_KernelMapping :=
  match specs with
  | [] => []
  | kmapSpec :: specs =>
      match getKernelMap kmapSpec with
      | None => kernelMappings getKernelMap specs
      | Some kmap => kmap :: kernelMappings getKernelMap specs
      end
  end.

(** [createModule] never fails: its error result is always nil. *)
Definition createModule (onload : Onload) (moduleName modprobeArg inTreeModuleToRemove : string)
    (getKernelMap : OnloadKernelMapping → option kmm_KernelMapping) : kmm_Module :=
  {| module_meta := {|
       meta_Name := moduleName;
       meta_Namespace := onload_Namespace onload;
       meta_UID := "";
       meta_Labels := Some (baseLabels (onload_Name onload) (onload_Namespace onload) "module");
       meta_OwnerReferences := [];
       meta_DeletionTimestamp := None |};
     module_ServiceAccountName := spec_ServiceAccountName (onload_Spec onload);
     module_Container := {|
       mlc_ModprobeModuleName := modprobeArg;
       mlc_ModprobeParameters := ["--first-time"];
       mlc_InTreeModuleToRemove := inTreeModuleToRemove;
       mlc_KernelMappings := kernelMappings getKernelMap (onload_Mappings onload);
       mlc_ImagePullPolicy := os_ImagePullPolicy (spec_Onload (onload_Spec onload));
       mlc_Version := onload_Version onload |};
     module_Selector := onload_Selector onload |}.

(** The two assignments of [patchModule] to the module it got. *)
Definition module_upgraded (onload : Onload)
    (getKernelMap : OnloadKernelMapping → option kmm_KernelMapping) (m : kmm_Module) : kmm_Module :=
  {| module_meta := module_meta m;
     module_ServiceAccountName := module_ServiceAccountName m;
     module_Container := {|
       mlc_ModprobeModuleName := mlc_ModprobeModuleName (module_Container m);
       mlc_ModprobeParameters := mlc_ModprobeParameters (module_Container m);
       mlc_InTreeModuleToRemove := mlc_InTreeModuleToRemove (module_Container m);
       mlc_KernelMappings := kernelMappings getKernelMap (onload_Mappings onload);
       mlc_ImagePullPolicy := mlc_ImagePullPolicy (module_Container m);
       mlc_Version := onload_Version onload |};
     module_Selector := module_Selector m |}.

Definition module_with_meta (m : kmm_Module) (meta : ObjectMeta) : kmm_Module :=
  {| module_meta := meta;
     module_ServiceAccountName := module_ServiceAccountName m;
     module_Container := module_Container m;
     module_Selector := module_Selector m |}.

(** ** The phases *)

Section phases.
Context `{Apimachinery}.
Implicit Types (onload : Onload).

(** The closure [createAndAddModule]. *)
Definition createAndAddModule onload (moduleName modprobeArg inTreeModuleToRemove : string)
    (getKernelMap : OnloadKernelMapping → option kmm_KernelMapping)
    : prog clientS phase_result :=
  got ← get_module (MkNamespacedName moduleName (onload_Namespace onload));
  match got with
  | inr _ => mret phase_nothing
  | inl err =>
      if negb (IsNotFound err) then mret (phase_error (ExtError err)) else
      let module := createModule onload moduleName modprobeArg inTreeModuleToRemove getKernelMap in
      match SetControllerReference onload (module_meta module) with
      | inl err => mret (phase_error (ExtError err))
      | inr meta =>
          err ← create_module (module_with_meta module meta);
          match err with
          | Some err => mret (phase_error (ExtError err))
          | None => mret (phase_stop requeue)
          end
      end
  end.

Definition createAndAddModules onload : prog clientS phase_result :=
  res ← createAndAddModule onload (onload_Name onload +:+ onloadModuleNameSuffix)
          "onload" "" onloadKernelMapper;
  if returns_early res then mret res else
  if onloadUsesSFC onload then
    createAndAddModule onload (onload_Name onload +:+ sfcModuleNameSuffix)
      "sfc" "sfc" sfcKernelMapper
  else mret phase_nothing.

Definition patchModule (module : kmm_Module) onload
    (getKernelMap : OnloadKernelMapping → option kmm_KernelMapping)
    : prog clientS phase_result :=
  if bool_decide (mlc_Version (module_Container module) = onload_Version onload)
  then mret phase_nothing else
  err ← patch_module module (module_upgraded onload getKernelMap module);
  match err with
  | Some err => mret (phase_error (ExtError err))
  | None => mret (phase_stop requeue)
  end.

(** The closure [patchOrDeleteModule].  Deleting returns a result and, when the
    call fails, an error as well. *)
Definition patchOrDeleteModule onload (isUsed : bool) (moduleName : string)
    (getKernelMap : OnloadKernelMapping → option kmm_KernelMapping)
    : prog clientS phase_result :=
  got ← get_module (MkNamespacedName moduleName (onload_Namespace onload));
  match got with
  | inr module =>
      if isUsed then patchModule module onload getKernelMap
      else
        err ← delete_module module;
        mret (Some requeue, ExtError <$> err)
  | inl err =>
      if IsNotFound err then
        if isUsed
        then mret (phase_error (FmtError ("module " +:+ moduleName +:+ " should exist")))
        else mret phase_nothing
      else mret (phase_error (ExtError err))
  end.

Definition handleModuleUpdate onload : prog clientS phase_result :=
  res ← patchOrDeleteModule onload true (onload_Name onload +:+ onloadModuleNameSuffix)
          onloadKernelMapper;
  if returns_early res then mret res else
  patchOrDeleteModule onload (onloadUsesSFC onload) (onload_Name onload +:+ sfcModuleNameSuffix)
    sfcKernelMapper.
End phases.
