(* ===== verification/NodeLabels.v ===== *)
(** * Labelling nodes (src/controllers/onload_controller.go, 182-402)

    A [corev1.Node] is passed by value, but its label map is a reference: what a
    callee writes to [node.Labels] the caller sees.  A function that writes to
    the map of a node it is given therefore also returns the map. *)

From S2P Require Import Prelude GoStd Effects ApiTypes Client Labels Modules.
From stdpp Require Import options.

Local Open Scope list_scope.

Definition nil_map_panic : crash := Panic "assignment to entry in nil map".
Definition kmmModuleNameLabel : string := "kmm.node.kubernetes.io/module.name".

Section node_labels.
Context `{Apimachinery}.
Implicit Types (onload : Onload) (node : Node).

Definition listNodesWithLabels (labelString : string) : prog clientS (error + list Node) :=
  match labels_Parse labelString with
  | inl err => mret (inl (ExtError err))
  | inr selector =>
      got ← list_nodes selector;
      match got with
      | inl err => mret (inl (ExtError err))
      | inr nodes => mret (inr nodes)
      end
  end.

Definition getPodsOnNode (labelSelector : gmap string string) (nodeName : string)
    : prog clientS (error + list Pod) :=
  got ← list_pods labelSelector nodeName;
  match got with
  | inl err => mret (inl (ExtError err))
  | inr pods => mret (inr pods)
  end.

(** The error, and the node's label map afterwards. *)
Definition deleteLabelFromNode node (label : string) : prog clientS (option error * gomap string) :=
  let labels := gomap_delete (node_Labels node) label in
  got ← patch_node node (node_with_Labels node labels);
  match got with
  | inl err => mret (Some (ExtError err), labels)
  | inr labels => mret (None, labels)
  end.

(** ** deleteLabels *)

(** The loop of the closure [deleteLabel]: an error is logged and the loop goes on. *)
Fixpoint deleteLabel_loop (nodes : list Node) (label : string) : prog clientS unit :=
  match nodes with
  | [] => mret ()
  | node :: nodes =>
      _ ← deleteLabelFromNode node label;
      deleteLabel_loop nodes label
  end.

Definition deleteLabel (label : string) : prog clientS (option error) :=
  got ← listNodesWithLabels label;
  match got with
  | inl err => mret (Some err)
  | inr nodes => _ ← deleteLabel_loop nodes label; mret None
  end.

Definition deleteLabels (name : NamespacedName) : prog clientS (option error) :=
  err ← deleteLabel (kmmOnloadLabelName (nn_Name name) (nn_Namespace name));
  match err with
  | Some err => mret (Some err)
  | None =>
      err ← deleteLabel (kmmSFCLabelName (nn_Name name) (nn_Namespace name));
      match err with
      | Some err => mret (Some err)
      | None =>
          err ← deleteLabel (onloadLabelName (nn_Name name) (nn_Namespace name));
          match err with
          | Some err => mret (Some err)
          | None => mret None
          end
      end
  end.

(** ** removeStaleLabels *)

(** [inl]: the loop returns from the function; [inr]: the final [changesMade]. *)
Fixpoint removeStaleLabels_loop (onloadSelector : Selector) (labelKey : string)
    (nodes : list Node) (changesMade : bool) : prog clientS (phase_result + bool) :=
  match nodes with
  | [] => mret (inr changesMade)
  | node :: nodes =>
      if negb (Matches onloadSelector (node_Labels node)) then
        '(err, _) ← deleteLabelFromNode node labelKey;
        match err with
        | Some err => mret (inl (phase_error err))
        | None => removeStaleLabels_loop onloadSelector labelKey nodes true
        end
      else removeStaleLabels_loop onloadSelector labelKey nodes changesMade
  end.

Definition removeStaleLabels onload (labelKey : string) : prog clientS phase_result :=
  match labels_Parse (FormatLabels (onload_Selector onload)) with
  | inl err => mret (phase_error (ExtError err))
  | inr onloadSelector =>
      got ← listNodesWithLabels labelKey;
      match got with
      | inl err => mret (phase_error err)
      | inr nodes =>
          res ← removeStaleLabels_loop onloadSelector labelKey nodes false;
          match res with
          | inl r => mret r
          | inr true => mret (phase_stop requeue)
          | inr false => mret phase_nothing
          end
      end
  end.

(** ** addKmmLabelsToNodes *)

(** The closure [addKmmLabelToNode]: its result, whether it set [changesMade],
    and the node's label map afterwards. *)
Definition addKmmLabelToNode onload node (labelKey : string) (podLabelSet : gmap string string)
    : prog clientS (phase_result * bool * gomap string) :=
  let labels := node_Labels node in
  let kmmOnload := kmmOnloadLabelName (onload_Name onload) (onload_Namespace onload) in
  if non_nil (gomap_get labels labelKey) then mret (phase_nothing, false, labels) else
  if bool_decide (labelKey ≠ kmmOnload) &&
     bool_decide (gomap_index labels kmmOnload ≠ onload_Version onload)
  then mret (phase_nothing, false, labels) else
  got ← getPodsOnNode podLabelSet (node_Name node);
  match got with
  | inl err => mret (phase_error err, false, labels)
  | inr (_ :: _) => mret (phase_stop requeue_after_default, false, labels)
  | inr [] =>
      match gomap_set labels labelKey (onload_Version onload) with
      | None => Halt nil_map_panic
      | Some labels' =>
          got ← patch_node node (node_with_Labels node labels');
          match got with
          | inl err => mret (phase_error (ExtError err), false, labels')
          | inr labels'' => mret (phase_nothing, true, labels'')
          end
      end
  end.

Fixpoint addKmmLabels_loop onload (nodes : list Node) (changesMade : bool)
    : prog clientS (phase_result + bool) :=
  match nodes with
  | [] => mret (inr changesMade)
  | node :: nodes =>
      '(res, changed, labels) ← addKmmLabelToNode onload node
              (kmmOnloadLabelName (onload_Name onload) (onload_Namespace onload))
              {[ kmmModuleNameLabel := onload_Name onload +:+ onloadModuleNameSuffix ]};
      if returns_early res then mret (inl res) else
      if onloadUsesSFC onload then
        '(res, changed', _) ← addKmmLabelToNode onload (node_with_Labels node labels)
                (kmmSFCLabelName (onload_Name onload) (onload_Namespace onload))
                {[ kmmModuleNameLabel := onload_Name onload +:+ sfcModuleNameSuffix ]};
        if returns_early res then mret (inl res) else
        addKmmLabels_loop onload nodes (changesMade || changed || changed')
      else addKmmLabels_loop onload nodes (changesMade || changed)
  end.

Definition addKmmLabelsToNodes onload : prog clientS phase_result :=
  got ← listNodesWithLabels (FormatLabels (onload_Selector onload));
  match got with
  | inl err => mret (phase_error err)
  | inr nodes =>
      res ← addKmmLabels_loop onload nodes false;
      match res with
      | inl r => mret r
      | inr true => mret (phase_stop requeue)
      | inr false =>
          res ← removeStaleLabels onload
                  (kmmOnloadLabelName (onload_Name onload) (onload_Namespace onload));
          if returns_early res then mret res else
          removeStaleLabels onload
            (kmmSFCLabelName (onload_Name onload) (onload_Namespace onload))
      end
  end.

(** ** addOnloadLabelsToNodes *)

Fixpoint addOnloadLabels_loop onload (nodes : list Node) (changesMade : bool)
    : prog clientS (phase_result + bool) :=
  let labelKey := onloadLabelName (onload_Name onload) (onload_Namespace onload) in
  let kmmLabel := kmmOnloadLabelName (onload_Name onload) (onload_Namespace onload) in
  match nodes with
  | [] => mret (inr changesMade)
  | node :: nodes =>
      let labels := node_Labels node in
      if bool_decide (gomap_index labels kmmLabel ≠ onload_Version onload)
      then addOnloadLabels_loop onload nodes changesMade else
      if non_nil (gomap_get labels labelKey)
      then addOnloadLabels_loop onload nodes changesMade else
      match gomap_set labels labelKey (onload_Version onload) with
      | None => Halt nil_map_panic
      | Some labels' =>
          got ← patch_node node (node_with_Labels node labels');
          match got with
          | inl err => mret (inl (phase_error (ExtError err)))
          | inr _ => addOnloadLabels_loop onload nodes true
          end
      end
  end.

Definition addOnloadLabelsToNodes onload : prog clientS phase_result :=
  got ← listNodesWithLabels (FormatLabels (onload_Selector onload));
  match got with
  | inl err => mret (phase_error err)
  | inr nodes =>
      res ← addOnloadLabels_loop onload nodes false;
      match res with
      | inl r => mret r
      | inr true => mret (phase_stop requeue)
      | inr false =>
          removeStaleLabels onload (onloadLabelName (onload_Name onload) (onload_Namespace onload))
      end
  end.
End node_labels.
