(* ===== verification/DevicePluginDS.v ===== *)
(** * The device plugin DaemonSet (src/controllers/onload_controller.go, 426-459 and 879-1192)

    The DaemonSet runs, on each node that carries the operator's label, the
    device plugin, the worker that configures the control plane, and an init
    container that copies Onload to the host. *)

From S2P Require Import Prelude GoStd GoFmt Effects ApiTypes Client Labels.
From Stdlib Require Import Ascii.
From stdpp Require Import options.

Local Open Scope list_scope.

Definition dquote : string := String "034" "".
(** The tabs that indent the lines of the raw string literals. *)
Fixpoint tabs (n : nat) : string :=
  match n with 0 => "" | S n => String "009" (tabs n) end.

Definition hostOnloadPath (onload : Onload) : string :=
  default "/opt/onload" (dps_HostOnloadPath (spec_DevicePlugin (onload_Spec onload))).

Definition postStartCommand (path : string) : list string :=
  ["/bin/sh"; "-c";
   "set -e;" +:+ newline +:+
   tabs 4 +:+ "chcon --type container_file_t --recursive " +:+ path +:+ " ||" +:+ newline +:+
   tabs 4 +:+ "echo " +:+ dquote +:+ "chcon failed. System may not be SELinux enabled."
     +:+ dquote +:+ ";"].

Definition preStopCommand (path : string) : list string :=
  ["/bin/sh"; "-c"; "set -e;" +:+ newline +:+ tabs 4 +:+ "rm -r " +:+ path +:+ ";"].

(** An optional field that becomes a flag when it is set. *)
Definition flag_arg {A} (name : string) (show : A → string) (o : option A) : list string :=
  match o with
  | Some a => ["-" +:+ name +:+ "=" +:+ show a]
  | None => []
  end.

Definition devicePluginArgs (dp : DevicePluginSpec) : list string :=
  flag_arg "maxPods" Itoa (dps_MaxPodsPerNode dp) ++
  flag_arg "setPreload" FormatBool (dps_SetPreload dp) ++
  flag_arg "mountOnload" FormatBool (dps_MountOnload dp) ++
  flag_arg "hostOnloadPath" id (dps_HostOnloadPath dp) ++
  flag_arg "baseMountPath" id (dps_BaseMountPath dp) ++
  flag_arg "binMountPath" id (dps_BinMountPath dp) ++
  flag_arg "libMountPath" id (dps_LibMountPath dp).

Definition devicePluginContainer (image : string) (onload : Onload) : Container := {|
  c_Name := "device-plugin";
  c_Image := image;
  c_ImagePullPolicy := dps_ImagePullPolicy (spec_DevicePlugin (onload_Spec onload));
  c_Command := [];
  c_Args := devicePluginArgs (spec_DevicePlugin (onload_Spec onload));
  c_Privileged := Some true;
  c_PostStart := Some (postStartCommand (hostOnloadPath onload));
  c_PreStop := Some (preStopCommand (hostOnloadPath onload));
  c_VolumeMounts := [
    MkVolumeMount "/var/lib/kubelet/device-plugins" "kubelet-socket";
    MkVolumeMount (hostOnloadPath onload) "host-onload"];
  c_Env := [] |}.

Definition workerContainerName : string := "onload-worker".
Definition workerCPServerPath : string := "/mnt/onload/sbin/onload_cp_server".

Definition cplaneParams (onload : Onload) : string :=
  match os_ControlPlane (spec_Onload (onload_Spec onload)) with
  | Some cp =>
      match cps_Parameters cp with
      | Some params => Join params " "
      | None => "-K"
      end
  | None => "-K"
  end.

Definition workerContainerEnv (onload : Onload) : list EnvVar := [
  MkEnvVar "POD_NAME" (EnvFieldPath "metadata.name");
  MkEnvVar "POD_NAMESPACE" (EnvFieldPath "metadata.namespace");
  MkEnvVar "CONTAINER_NAME" (EnvValue workerContainerName);
  MkEnvVar "ONLOAD_CP_SERVER_PATH" (EnvValue workerCPServerPath);
  MkEnvVar "ONLOAD_CP_SERVER_PARAMS" (EnvValue (cplaneParams onload))].

Definition workerContainer (image : string) (onload : Onload) : Container := {|
  c_Name := workerContainerName;
  c_Image := image;
  c_ImagePullPolicy := dps_ImagePullPolicy (spec_DevicePlugin (onload_Spec onload));
  c_Command := ["onload-worker"];
  c_Args := [];
  c_Privileged := Some true;
  c_PostStart := None;
  c_PreStop := None;
  c_VolumeMounts := [MkVolumeMount "/mnt/onload" "worker-volume"];
  c_Env := workerContainerEnv onload |}.

Definition initContainerScript : string :=
  "set -e;" +:+ newline +:+
  tabs 3 +:+ "cp -TRv /opt/onload /host/onload;" +:+ newline +:+ newline +:+
  tabs 3 +:+ "mkdir -vp /mnt/onload/sbin/;" +:+ newline +:+
  tabs 3 +:+ "cp -v /opt/onload/sbin/onload_cp_server /mnt/onload/sbin/;" +:+ newline +:+
  tabs 3.

Definition initContainer (onload : Onload) : Container := {|
  c_Name := "init";
  c_Image := os_UserImage (spec_Onload (onload_Spec onload));
  c_ImagePullPolicy := os_ImagePullPolicy (spec_Onload (onload_Spec onload));
  c_Command := ["/bin/sh"; "-c"; initContainerScript];
  c_Args := [];
  c_Privileged := Some true;
  c_PostStart := None;
  c_PreStop := None;
  c_VolumeMounts := [
    MkVolumeMount "/host/onload" "host-onload";
    MkVolumeMount "/mnt/onload" "worker-volume"];
  c_Env := [] |}.

Definition devicePluginName (onload : Onload) : string :=
  onload_Name onload +:+ devicePluginNameSuffix.

Definition dsLabels (onload : Onload) : gmap string string :=
  <[onloadVersionLabel := onload_Version onload]>
    (baseLabels (onload_Name onload) (onload_Namespace onload) "device-plugin").

Definition dsPodLabels (onload : Onload) : gmap string string :=
  <[onloadLabelPrefix +:+ "name" := devicePluginName onload]>
    (baseLabels (onload_Name onload) (onload_Namespace onload) "device-plugin").

Definition dsVolumes (onload : Onload) : list Volume := [
  MkVolume "kubelet-socket" (HostPath "/var/lib/kubelet/device-plugins" "Directory");
  MkVolume "host-onload" (HostPath (hostOnloadPath onload) "DirectoryOrCreate");
  MkVolume "worker-volume" (EmptyDir (8 * 1024 * 1024))].

(** The object literal of [createDevicePluginDaemonSet]; [image] is the
    reconciler's [DevicePluginImage]. *)
Definition devicePluginDaemonSet (image : string) (onload : Onload) : DaemonSet := {|
  ds_meta := {|
    meta_Name := devicePluginName onload;
    meta_Namespace := onload_Namespace onload;
    meta_UID := "";
    meta_Labels := Some (dsLabels onload);
    meta_OwnerReferences := [];
    meta_DeletionTimestamp := None |};
  ds_UpdateStrategy := "OnDelete";
  ds_MatchLabels := Some (dsPodLabels onload);
  ds_TemplateLabels := Some (dsPodLabels onload);
  ds_PodSpec := {|
    ps_ServiceAccountName := spec_ServiceAccountName (onload_Spec onload);
    ps_InitContainers := [initContainer onload];
    ps_Containers := [devicePluginContainer image onload; workerContainer image onload];
    ps_Volumes := dsVolumes onload;
    ps_NodeSelector := onload_Selector onload;
    ps_NodeAffinity := [MkNodeSelectorRequirement
      (onloadLabelName (onload_Name onload) (onload_Namespace onload)) "Exists" []];
    ps_HostNetwork := true;
    ps_HostPID := true;
    ps_HostIPC := true |} |}.

Definition daemonset_with_meta (d : DaemonSet) (meta : ObjectMeta) : DaemonSet := {|
  ds_meta := meta;
  ds_UpdateStrategy := ds_UpdateStrategy d;
  ds_MatchLabels := ds_MatchLabels d;
  ds_TemplateLabels := ds_TemplateLabels d;
  ds_PodSpec := ds_PodSpec d |}.

Definition container_with_Image (c : Container) (image : string) : Container := {|
  c_Name := c_Name c;
  c_Image := image;
  c_ImagePullPolicy := c_ImagePullPolicy c;
  c_Command := c_Command c;
  c_Args := c_Args c;
  c_Privileged := c_Privileged c;
  c_PostStart := c_PostStart c;
  c_PreStop := c_PreStop c;
  c_VolumeMounts := c_VolumeMounts c;
  c_Env := c_Env c |}.

Definition podspec_with_InitContainers (s : PodSpec) (cs : list Container) : PodSpec := {|
  ps_ServiceAccountName := ps_ServiceAccountName s;
  ps_InitContainers := cs;
  ps_Containers := ps_Containers s;
  ps_Volumes := ps_Volumes s;
  ps_NodeSelector := ps_NodeSelector s;
  ps_NodeAffinity := ps_NodeAffinity s;
  ps_HostNetwork := ps_HostNetwork s;
  ps_HostPID := ps_HostPID s;
  ps_HostIPC := ps_HostIPC s |}.

(** The two assignments of [handleDevicePluginUpdate], in order: to the version
    label, then to [InitContainers[0].Image].  Each can panic. *)
Definition daemonset_upgraded (onload : Onload) (d : DaemonSet) : crash + DaemonSet :=
  match gomap_set (meta_Labels (ds_meta d)) onloadVersionLabel (onload_Version onload) with
  | None => inl (Panic "assignment to entry in nil map")
  | Some labels =>
      match ps_InitContainers (ds_PodSpec d) with
      | [] => inl (Panic "index out of range")
      | c :: cs => inr {|
          ds_meta := with_Labels (ds_meta d) labels;
          ds_UpdateStrategy := ds_UpdateStrategy d;
          ds_MatchLabels := ds_MatchLabels d;
          ds_TemplateLabels := ds_TemplateLabels d;
          ds_PodSpec := podspec_with_InitContainers (ds_PodSpec d)
            (container_with_Image c (os_UserImage (spec_Onload (onload_Spec onload))) :: cs) |}
      end
  end.

(** ** The phases *)

Section phases.
Context `{Apimachinery}.
Implicit Types (onload : Onload).

Definition createDevicePluginDaemonSet (image : string) onload : prog clientS phase_result :=
  got ← get_daemonset (MkNamespacedName (devicePluginName onload) (onload_Namespace onload));
  match got with
  | inr _ => mret phase_nothing
  | inl err =>
      if negb (IsNotFound err) then mret (phase_error (ExtError err)) else
      let devicePlugin := devicePluginDaemonSet image onload in
      match SetControllerReference onload (ds_meta devicePlugin) with
      | inl err => mret (phase_error (ExtError err))
      | inr meta =>
          err ← create_daemonset (daemonset_with_meta devicePlugin meta);
          match err with
          | Some err => mret (phase_error (ExtError err))
          | None => mret (phase_stop requeue)
          end
      end
  end.

Definition handleDevicePluginUpdate onload : prog clientS phase_result :=
  got ← get_daemonset (MkNamespacedName (onload_Name onload +:+ devicePluginNameSuffix)
                         (onload_Namespace onload));
  match got with
  | inl err => mret (phase_error (ExtError err))
  | inr devicePlugin =>
      if bool_decide (gomap_index (meta_Labels (ds_meta devicePlugin)) onloadVersionLabel
                      = onload_Version onload)
      then mret phase_nothing else
      match daemonset_upgraded onload devicePlugin with
      | inl c => Halt c
      | inr devicePlugin' =>
          err ← patch_daemonset devicePlugin devicePlugin';
          match err with
          | Some err => mret (phase_error (ExtError err))
          | None => mret (phase_stop requeue)
          end
      end
  end.
End phases.
