(* ===== verification/Upgrade.v ===== *)
(** * Upgrading nodes one at a time (src/controllers/onload_controller.go, 404-424, 545-720) *)

From S2P Require Import Prelude GoStd Effects ApiTypes Client Labels Modules NodeLabels DevicePluginDS.
From stdpp Require Import options.

Local Open Scope list_scope.

Definition onloadResource : string := "amd.com/onload".

Section upgrade.
Context `{Apimachinery}.
Implicit Types (onload : Onload) (node : Node) (pod : Pod).

(** The test of the loop of [getNodesToUpgrade]. *)
Definition needs_upgrade onload node : bool :=
  bool_decide (gomap_index (node_Labels node)
    (kmmOnloadLabelName (onload_Name onload) (onload_Namespace onload)) ≠ onload_Version onload).

Definition getNodesToUpgrade onload : prog clientS (error + list Node) :=
  got ← listNodesWithLabels (kmmOnloadLabelName (onload_Name onload) (onload_Namespace onload));
  match got with
  | inl err => mret (inl err)
  | inr nodes => mret (inr (List.filter (needs_upgrade onload) nodes))
  end.

(** The inner loop over a pod's containers. *)
Definition pod_uses_onload pod : bool :=
  existsb (λ container,
    match ResourceList_Name (pc_Requests container) onloadResource with
    | Some numOnloads => bool_decide (CmpInt64 numOnloads 0 > 0)%Z
    | None => false
    end) (pod_Containers pod).

(** An error of the listing is logged only: the function goes on with no pods. *)
Definition getPodsUsingOnload node : prog clientS (error + list Pod) :=
  got ← getPodsOnNode ∅ (node_Name node);
  let allPods := match got with inl _ => [] | inr pods => pods end in
  mret (inr (List.filter pod_uses_onload allPods)).

Definition pod_terminating pod : bool := non_nil (meta_DeletionTimestamp (pod_meta pod)).

Fixpoint evict_loop (pods : list Pod) : prog clientS (option error) :=
  match pods with
  | [] => mret None
  | pod :: pods =>
      if pod_terminating pod then evict_loop pods else
      err ← create_eviction pod;
      match err with
      | Some err => mret (Some (ExtError err))
      | None => evict_loop pods
      end
  end.

Definition evictOnloadedPods node : prog clientS phase_result :=
  got ← getPodsUsingOnload node;
  match got with
  | inl err => mret (phase_error err)
  | inr onloadedPods =>
      if bool_decide (length onloadedPods = 0) then mret phase_nothing else
      err ← evict_loop onloadedPods;
      match err with
      | Some err => mret (phase_error err)
      | None => mret (phase_stop requeue_after_default)
      end
  end.

(** The labels by which [handleNodeUpdate] finds the device plugin's pods. *)
Definition devicePluginPodSet onload : gmap string string :=
  {[ onloadLabelPrefix +:+ "name" := onload_Name onload +:+ devicePluginNameSuffix ]}.

Definition handleNodeUpdate onload node : prog clientS phase_result :=
  let label := onloadLabelName (onload_Name onload) (onload_Namespace onload) in
  let onloadLabelVersion := gomap_get (node_Labels node) label in
  if match onloadLabelVersion with
     | Some v => bool_decide (v ≠ onload_Version onload)
     | None => false
     end
  then
    '(err, _) ← deleteLabelFromNode node label;
    match err with
    | Some err => mret (phase_error err)
    | None => mret (phase_stop requeue)
    end
  else
  got ← getPodsOnNode (devicePluginPodSet onload) (node_Name node);
  match got with
  | inl err => mret (phase_error err)
  | inr (_ :: _) => mret (phase_stop requeue_after_default)
  | inr [] =>
      res ← evictOnloadedPods node;
      if returns_early res then mret res else
      '(err, labels) ← deleteLabelFromNode node
          (kmmSFCLabelName (onload_Name onload) (onload_Namespace onload));
      match err with
      | Some err => mret (phase_error err)
      | None =>
          '(err, _) ← deleteLabelFromNode (node_with_Labels node labels)
              (kmmOnloadLabelName (onload_Name onload) (onload_Namespace onload));
          match err with
          | Some err => mret (phase_error err)
          | None => mret (phase_stop requeue)
          end
      end
  end.

Definition compare_names (a b : Node) : comparison := String.compare (node_Name a) (node_Name b).

Definition handleUpdate onload : prog clientS phase_result :=
  res ← handleDevicePluginUpdate onload;
  if returns_early res then mret res else
  res ← handleModuleUpdate onload;
  if returns_early res then mret res else
  got ← getNodesToUpgrade onload;
  match got with
  | inl err => mret (phase_error err)
  | inr nodesToUpgrade =>
      if bool_decide (length nodesToUpgrade = 0) then mret phase_nothing else
      match MinFunc compare_names nodesToUpgrade with
      | None => Halt (Panic "slices.MinFunc: empty list")
      | Some node => handleNodeUpdate onload node
      end
  end.
End upgrade.
