(* ===== verification/Reconcile.v ===== *)
(** * The reconciliation loop (src/controllers/onload_controller.go, 54-153 and 1194-1211)

    [Reconcile] runs the phases in a fixed order and stops at the first one that
    changed the cluster, has to wait, or failed. *)

From S2P Require Import Prelude GoStd Effects ApiTypes Client Labels Modules NodeLabels DevicePluginDS Upgrade.
From stdpp Require Import options.

Local Open Scope list_scope.

Section reconcile.
Context `{Apimachinery}.
Implicit Types (onload : Onload).

Definition name_too_long onload : bool :=
  bool_decide (39 < String.length (onload_Name onload) + String.length (onload_Namespace onload)
                    + String.length onloadModuleNameSuffix).

(** What [Reconcile] returns when a phase ends it: an error takes precedence
    over a result. *)
Definition reconcile_return (r : phase_result) : Result * option error :=
  match r with
  | (_, Some err) => (no_result, Some err)
  | (Some res, None) => (res, None)
  | (None, None) => (no_result, None)
  end.

(** [res, err := phase(); if err != nil { return } else if res != nil { return }; k] *)
Definition then_phase (phase : prog clientS phase_result)
    (k : prog clientS (Result * option error)) : prog clientS (Result * option error) :=
  res ← phase;
  if returns_early res then mret (reconcile_return res) else k.

(** [Reconcile] once the resource is read. *)
Definition reconcile_onload (image : string) onload : prog clientS (Result * option error) :=
  if non_nil (meta_DeletionTimestamp (onload_meta onload)) then mret (no_result, None) else
  if name_too_long onload
  then mret (no_result, Some (FmtError "Combined length of Onload name and namespace is too long"))
  else
    then_phase (addKmmLabelsToNodes onload) $
    then_phase (createAndAddModules onload) $
    then_phase (addOnloadLabelsToNodes onload) $
    then_phase (createDevicePluginDaemonSet image onload) $
    then_phase (handleUpdate onload) $
    mret (no_result, None).

Definition Reconcile (image : string) (req : NamespacedName)
    : prog clientS (Result * option error) :=
  got ← get_onload req;
  match got with
  | inl err =>
      if IsNotFound err then
        err ← deleteLabels req;
        match err with
        | Some err => mret (no_result, Some err)
        | None => mret (no_result, None)
        end
      else mret (no_result, Some (ExtError err))
  | inr onload => reconcile_onload image onload
  end.

Definition nodeLabelWatchFunc : prog clientS (list NamespacedName) :=
  got ← list_onloads;
  match got with
  | inl _ => mret []
  | inr onloads => mret (map (λ o, MkNamespacedName (onload_Name o) (onload_Namespace o)) onloads)
  end.

(** The first call is the one that reads the resource. *)
Lemma reconcile_runs_inv image req tr out :
  runs (Reconcile image req) tr out →
  ∃ r tr', tr = Ev (S:=clientS) (GetOnload req) r :: tr'.
Proof. intros (r & tr' & -> & _)%runs_vis_inv. eauto. Qed.

(** The reply to a call that reads a resource. *)
Definition reply_onload (e : event clientS) : option (ext_error + Onload) :=
  match e with
  | Ev o r =>
      match o return client_reply o → option (ext_error + Onload) with
      | GetOnload _ => Some
      | _ => λ _, None
      end r
  end.

Lemma reconcile_found image req onload tr out :
  runs (Reconcile image req) (Ev (S:=clientS) (GetOnload req) (inr onload) :: tr) out →
  runs (reconcile_onload image onload) tr out.
Proof.
  intros (r & tr' & Heq & Hr)%runs_vis_inv.
  pose proof (f_equal (λ l, head l ≫= reply_onload) Heq) as Ho.
  apply (f_equal tail) in Heq. simpl in Heq, Ho. subst tr'.
  by injection Ho as <-.
Qed.

(** What [Reconcile] does when the resource cannot be read. *)
Definition reconcile_unread (req : NamespacedName) (err : ext_error)
    : prog clientS (Result * option error) :=
  if IsNotFound err then
    err ← deleteLabels req;
    match err with
    | Some err => mret (no_result, Some err)
    | None => mret (no_result, None)
    end
  else mret (no_result, Some (ExtError err)).

Lemma reconcile_not_found image req err tr out :
  runs (Reconcile image req) (Ev (S:=clientS) (GetOnload req) (inl err) :: tr) out →
  runs (reconcile_unread req err) tr out.
Proof.
  intros (r & tr' & Heq & Hr)%runs_vis_inv.
  pose proof (f_equal (λ l, head l ≫= reply_onload) Heq) as Ho.
  apply (f_equal tail) in Heq. simpl in Heq, Ho. subst tr'. by injection Ho as <-.
Qed.

(** ** Safety of a reconciliation, phase by phase

    An invariant that only restricts node patches is established by the three
    phases that patch nodes. *)
Definition patches_node (o : client_op) : bool :=
  match o with PatchNode _ _ => true | _ => false end.

Section node_patches.
#[local] Set Default Proof Using "I_other".
Variable onload : Onload.
Variable I : list (event clientS) → client_op → Prop.
Hypothesis I_other : ∀ h o, patches_node o = false → I h o.

Lemma createAndAddModules_hsafe h : hsafe (S:=clientS) I h (createAndAddModules onload).
Proof. unfold createAndAddModules, createAndAddModule. hsafe_go; by apply I_other. Qed.

Lemma createDevicePluginDaemonSet_hsafe image h :
  hsafe (S:=clientS) I h (createDevicePluginDaemonSet image onload).
Proof. unfold createDevicePluginDaemonSet. hsafe_go; by apply I_other. Qed.

Lemma handleDevicePluginUpdate_hsafe h : hsafe (S:=clientS) I h (handleDevicePluginUpdate onload).
Proof. unfold handleDevicePluginUpdate. hsafe_go; by apply I_other. Qed.

Lemma handleModuleUpdate_hsafe h : hsafe (S:=clientS) I h (handleModuleUpdate onload).
Proof. unfold handleModuleUpdate, patchOrDeleteModule, patchModule. hsafe_go; by apply I_other. Qed.

Lemma evictOnloadedPods_hsafe h node : hsafe (S:=clientS) I h (evictOnloadedPods node).
Proof.
  assert (∀ pods h, hsafe (S:=clientS) I h (evict_loop pods)) as Hloop.
  { intros pods. induction pods as [|p pods IH]; intros h'; hsafe_go; by apply I_other. }
  unfold evictOnloadedPods, getPodsUsingOnload, getPodsOnNode. hsafe_go; by apply I_other.
Qed.

Lemma listNodesWithLabels_hsafe h label : hsafe (S:=clientS) I h (listNodesWithLabels label).
Proof. unfold listNodesWithLabels. hsafe_go; by apply I_other. Qed.

Lemma reconcile_onload_hsafe image h :
  (∀ h, hsafe (S:=clientS) I h (addKmmLabelsToNodes onload)) →
  (∀ h, hsafe (S:=clientS) I h (addOnloadLabelsToNodes onload)) →
  (∀ h node, hsafe (S:=clientS) I h (handleNodeUpdate onload node)) →
  hsafe (S:=clientS) I h (reconcile_onload image onload).
Proof.
  intros H1 H2 H3.
  pose proof createAndAddModules_hsafe. pose proof createDevicePluginDaemonSet_hsafe.
  pose proof handleDevicePluginUpdate_hsafe. pose proof handleModuleUpdate_hsafe.
  pose proof listNodesWithLabels_hsafe.
  assert (∀ h, hsafe (S:=clientS) I h (handleUpdate onload)).
  { intros h'. unfold handleUpdate, getNodesToUpgrade. hsafe_go. }
  unfold reconcile_onload, then_phase. hsafe_go.
Qed.
End node_patches.

(** Dually, an invariant that only restricts the changes of Modules and of the
    DaemonSet is not affected by the phases that work on nodes. *)
Definition changes_object (o : client_op) : bool :=
  match o with
  | CreateModule _ | PatchModule _ _ | DeleteModule _ | CreateDaemonSet _ | PatchDaemonSet _ _ => true
  | _ => false
  end.

Section object_changes.
#[local] Set Default Proof Using "I_other".
Variable onload : Onload.
Variable I : list (event clientS) → client_op → Prop.
Hypothesis I_other : ∀ h o, changes_object o = false → I h o.

Lemma removeStaleLabels_hsafe h key : hsafe (S:=clientS) I h (removeStaleLabels onload key).
Proof.
  assert (∀ sel nodes c h, hsafe (S:=clientS) I h (removeStaleLabels_loop sel key nodes c)) as Hloop.
  { intros sel nodes. induction nodes as [|n nodes IH]; intros c h'; hsafe_go. by apply I_other. }
  unfold removeStaleLabels, listNodesWithLabels. hsafe_go. by apply I_other.
Qed.

Lemma addKmmLabelsToNodes_hsafe h : hsafe (S:=clientS) I h (addKmmLabelsToNodes onload).
Proof.
  pose proof removeStaleLabels_hsafe.
  assert (∀ node key set h, hsafe (S:=clientS) I h (addKmmLabelToNode onload node key set)) as Hone.
  { intros. unfold addKmmLabelToNode, getPodsOnNode. hsafe_go; by apply I_other. }
  assert (∀ nodes c h, hsafe (S:=clientS) I h (addKmmLabels_loop onload nodes c)) as Hloop.
  { intros nodes. induction nodes as [|n nodes IH]; intros c h'; hsafe_go. }
  unfold addKmmLabelsToNodes, listNodesWithLabels. hsafe_go. by apply I_other.
Qed.

Lemma addOnloadLabelsToNodes_hsafe h : hsafe (S:=clientS) I h (addOnloadLabelsToNodes onload).
Proof.
  pose proof removeStaleLabels_hsafe.
  assert (∀ nodes c h, hsafe (S:=clientS) I h (addOnloadLabels_loop onload nodes c)) as Hloop.
  { intros nodes. induction nodes as [|n nodes IH]; intros c h'; hsafe_go. by apply I_other. }
  unfold addOnloadLabelsToNodes, listNodesWithLabels. hsafe_go. by apply I_other.
Qed.

Lemma handleNodeUpdate_hsafe h node : hsafe (S:=clientS) I h (handleNodeUpdate onload node).
Proof.
  assert (∀ pods h, hsafe (S:=clientS) I h (evict_loop pods)) as Hloop.
  { intros pods. induction pods as [|p pods IH]; intros h'; hsafe_go; by apply I_other. }
  unfold handleNodeUpdate, evictOnloadedPods, getPodsUsingOnload, getPodsOnNode. hsafe_go; by apply I_other.
Qed.

Lemma reconcile_objects_hsafe image h :
  (∀ h, hsafe (S:=clientS) I h (createAndAddModules onload)) →
  (∀ h, hsafe (S:=clientS) I h (createDevicePluginDaemonSet image onload)) →
  (∀ h, hsafe (S:=clientS) I h (handleDevicePluginUpdate onload)) →
  (∀ h, hsafe (S:=clientS) I h (handleModuleUpdate onload)) →
  hsafe (S:=clientS) I h (reconcile_onload image onload).
Proof.
  intros H1 H2 H3 H4. pose proof addKmmLabelsToNodes_hsafe. pose proof addOnloadLabelsToNodes_hsafe.
  pose proof handleNodeUpdate_hsafe.
  assert (∀ h, hsafe (S:=clientS) I h (handleUpdate onload)).
  { intros h'. unfold handleUpdate, getNodesToUpgrade, listNodesWithLabels. hsafe_go. by apply I_other. }
  unfold reconcile_onload, then_phase. hsafe_go.
Qed.
End object_changes.
End reconcile.

#[export] Hint Resolve createAndAddModules_hsafe createDevicePluginDaemonSet_hsafe
  handleDevicePluginUpdate_hsafe handleModuleUpdate_hsafe evictOnloadedPods_hsafe
  listNodesWithLabels_hsafe : hsafe.
