(* ===== verification/ApiServer.v ===== *)
(** * An API server

    A server that answers from its own state, without failures: the objects as
    lists, the reads the current ones.  What the Kubernetes libraries compute on
    labels is a parameter; [ApiErrors] adds the error of an object that is not
    there.  The theorems on [Effects.denote] describe the controller against this
    server; all others hold against any. *)

From S2P Require Import Prelude GoStd Effects ApiTypes Client.
From stdpp Require Import options.

Local Open Scope list_scope.

Class ApiErrors `{Apimachinery} := {
  not_found_error : ext_error;
  IsNotFound_error : IsNotFound not_found_error = true;
}.

Section server.
Context `{ApiErrors}.

Record cluster := MkCluster {
  cl_onloads : list Onload;
  cl_nodes : list Node;
  cl_pods : list Pod;
  cl_modules : list kmm_Module;
  cl_daemonsets : list DaemonSet;
}.

Definition named {A} (meta : A → ObjectMeta) (key : NamespacedName) (l : list A) : option A :=
  List.find (λ a, bool_decide (meta_Name (meta a) = nn_Name key) &&
                  bool_decide (meta_Namespace (meta a) = nn_Namespace key)) l.

Definition same_name (m m' : ObjectMeta) : bool :=
  bool_decide (meta_Name m = meta_Name m') && bool_decide (meta_Namespace m = meta_Namespace m').

Definition replace {A} (meta : A → ObjectMeta) (a : A) (l : list A) : list A :=
  map (λ b, if same_name (meta b) (meta a) then a else b) l.

Definition found {A} (o : option A) : ext_error + A :=
  match o with Some a => inr a | None => inl not_found_error end.

Definition pod_selected (set : gmap string string) (nodeName : string) (p : Pod) : bool :=
  bool_decide (pod_NodeName p = nodeName) &&
  forallb (λ '(k, v), bool_decide (gomap_get (meta_Labels (pod_meta p)) k = Some v))
    (map_to_list set).

Definition with_nodes (w : cluster) (ns : list Node) : cluster :=
  MkCluster (cl_onloads w) ns (cl_pods w) (cl_modules w) (cl_daemonsets w).
Definition with_modules (w : cluster) (ms : list kmm_Module) : cluster :=
  MkCluster (cl_onloads w) (cl_nodes w) (cl_pods w) ms (cl_daemonsets w).
Definition with_daemonsets (w : cluster) (ds : list DaemonSet) : cluster :=
  MkCluster (cl_onloads w) (cl_nodes w) (cl_pods w) (cl_modules w) ds.

(** An evicted pod gets a deletion timestamp; nothing else happens by itself. *)
Definition evicted (p : Pod) : Pod :=
  MkPod (MkObjectMeta (meta_Name (pod_meta p)) (meta_Namespace (pod_meta p))
           (meta_UID (pod_meta p)) (meta_Labels (pod_meta p))
           (meta_OwnerReferences (pod_meta p)) (Some 0%Z))
    (pod_NodeName p) (pod_Containers p).

Definition serve (o : op clientS) (w : cluster) : reply o * cluster :=
  match o return client_reply o * cluster with
  | GetOnload key => (found (named onload_meta key (cl_onloads w)), w)
  | GetModule key => (found (named module_meta key (cl_modules w)), w)
  | GetDaemonSet key => (found (named ds_meta key (cl_daemonsets w)), w)
  | ListNodes sel => (inr (List.filter (λ n, Matches sel (node_Labels n)) (cl_nodes w)), w)
  | ListPods set name => (inr (List.filter (pod_selected set name) (cl_pods w)), w)
  | ListOnloads => (inr (cl_onloads w), w)
  | PatchNode old new =>
      (inr (node_Labels new), with_nodes w (replace node_meta new (cl_nodes w)))
  | PatchModule old new => (None, with_modules w (replace module_meta new (cl_modules w)))
  | PatchDaemonSet old new => (None, with_daemonsets w (replace ds_meta new (cl_daemonsets w)))
  | CreateModule m => (None, with_modules w (cl_modules w ++ [m]))
  | CreateDaemonSet d => (None, with_daemonsets w (cl_daemonsets w ++ [d]))
  | DeleteModule m =>
      (None, with_modules w
               (List.filter (λ m', negb (same_name (module_meta m') (module_meta m))) (cl_modules w)))
  | CreateEviction p =>
      (None, MkCluster (cl_onloads w) (cl_nodes w) (replace pod_meta (evicted p) (cl_pods w))
               (cl_modules w) (cl_daemonsets w))
  end.
End server.
