(* ===== verification/MemServer.v ===== *)
(** * Concrete Kubernetes libraries

    Where a theorem of the controller has hypotheses, its witness runs the
    controller against [ApiServer] with these label selectors, quantities and
    errors.  They stand for nothing the theorems rely on. *)

From stdpp Require Import sorting.
From S2P Require Import Prelude GoStd Effects ApiTypes Client ApiServer.
From stdpp Require Import options.

Local Open Scope list_scope.

(** ** The Kubernetes libraries *)

(** A requirement of a selector: the key exists, or it has a value. *)
Definition requirement : Type := string * option string.

Definition mem_parse_requirement (s : string) : option requirement :=
  match Split s "=" with
  | [k] => if Contains k "<" then None else Some (k, None)
  | [k; v] => Some (k, Some v)
  | _ => None
  end.

Definition mem_parse (s : string) : (bool * string) + list requirement :=
  match mapM mem_parse_requirement (Split s ",") with
  | Some rs => inr rs
  | None => inl (false, "couldn't parse the selector string")
  end.

Definition mem_matches (rs : list requirement) (l : gomap string) : bool :=
  forallb (λ '(k, v), match v with
                      | None => non_nil (gomap_get l k)
                      | Some v => bool_decide (gomap_get l k = Some v)
                      end) rs.

Definition mem_format (m : gmap string string) : string :=
  match merge_sort String.le (map (λ '(k, v), k +:+ "=" +:+ v) (map_to_list m)) with
  | [] => "<none>"
  | kvs => Join kvs ","
  end.

Definition mem_set_owner (o : Onload) (m : ObjectMeta) : (bool * string) + ObjectMeta :=
  inr (MkObjectMeta (meta_Name m) (meta_Namespace m) (meta_UID m) (meta_Labels m)
         (meta_OwnerReferences m ++
          [MkOwnerReference (onload_Name o) (meta_UID (onload_meta o)) true])
         (meta_DeletionTimestamp m)).

#[export] Instance mem_api : Apimachinery := {|
  ext_error := bool * string;
  IsNotFound := fst;
  Selector := list requirement;
  FormatLabels := mem_format;
  labels_Parse := mem_parse;
  Matches := mem_matches;
  ResourceList := gmap string Z;
  Quantity := Z;
  ResourceList_Name := λ rl k, Some (default 0%Z (rl !! k));
  CmpInt64 := λ q n, Z.sgn (q - n);
  SetControllerReference := mem_set_owner;
|}.

#[export] Instance mem_errors : ApiErrors := {|
  not_found_error := (true, "not found") : ext_error;
  IsNotFound_error := eq_refl |}.
