(* ===== verification/Samples.v ===== *)
(** * Sample resources and clusters, for the witnesses *)

From S2P Require Import Prelude GoStd GoFmt Effects ApiTypes Client Labels Modules NodeLabels DevicePluginDS Upgrade Reconcile ApiServer MemServer.
From stdpp Require Import options.

Local Open Scope list_scope.

Definition sample_image : string := "onload-device-plugin:3.0".
Definition sample_key : NamespacedName := MkNamespacedName "onload" "ns".

Definition sample_meta (name namespace : string) (labels : gomap string) : ObjectMeta :=
  MkObjectMeta name namespace "uid" labels [] None.

Definition sample_mapping (sfc : option SFCSpec) : OnloadKernelMapping :=
  MkOnloadKernelMapping "^.*$" "onload-module:v1" sfc
    (Some (MkOnloadKernelBuild [MkBuildArg "ONLOAD_BUILD_PARAMS" "--debug"]
             (Some (MkLocalObjectReference "dockerfile")))).

Definition sample_dps : DevicePluginSpec :=
  MkDevicePluginSpec "Always" (Some 10%Z) (Some false) (Some true) (Some "/opt/onload/") None None None.

(** An Onload resource of a version, with or without the [sfc] module. *)
Definition sample_onload (version : string) (sfc : option SFCSpec) : Onload :=
  MkOnload (sample_meta "onload" "ns" None)
    (MkSpec (MkOnloadSpec [sample_mapping sfc; sample_mapping None] "onload-user:v1" version "Always" None)
       sample_dps {[ "key" := "value" ]} "onload-sa").

Definition sample_node (name : string) (labels : gmap string string) : Node :=
  MkNode (sample_meta name "" (Some labels)).

(** A node with the operator's labels at a version. *)
Definition labelled_node (name version : string) : Node :=
  sample_node name {[ "key" := "value"; kmmOnloadLabelName "onload" "ns" := version;
                      kmmSFCLabelName "onload" "ns" := version;
                      onloadLabelName "onload" "ns" := version ]}.

Definition sample_pod (name node : string) (labels : gmap string string) (n : Z) : Pod :=
  MkPod (sample_meta name "apps" (Some labels)) node
    [MkPodContainer ({[ onloadResource := n ]} : gmap string Z)].

(** What the operator itself creates for a resource. *)
Definition sample_modules (o : Onload) : list kmm_Module :=
  [createModule o "onload-module" "onload" "" onloadKernelMapper;
   createModule o "onload-sfcmod" "sfc" "sfc" sfcKernelMapper].

Definition settled_cluster (o : Onload) (nodes : list Node) (pods : list Pod) : cluster :=
  MkCluster [o] nodes pods (sample_modules o) [devicePluginDaemonSet sample_image o].

Definition sample_run (w : cluster) :=
  exec serve (Reconcile sample_image sample_key) w.

Definition out_of {A} (r : outcome A * list (event clientS) * cluster) : outcome A := r.1.1.
Definition trace_of {A} (r : outcome A * list (event clientS) * cluster) : list (event clientS) := r.1.2.

(** A run of [Reconcile] on a cluster that holds the resource. *)
Lemma sample_run_found w onload :
  named onload_meta sample_key (cl_onloads w) = Some onload →
  runs (Reconcile sample_image sample_key)
    (Ev (S:=clientS) (GetOnload sample_key) (inr onload) :: tail (trace_of (sample_run w)))
    (out_of (sample_run w)).
Proof.
  intros Hn. pose proof (exec_runs serve (Reconcile sample_image sample_key) w) as Hr.
  change (exec serve (Reconcile sample_image sample_key) w) with (sample_run w) in Hr.
  assert (∃ tr, trace_of (sample_run w) =
                Ev (S:=clientS) (GetOnload sample_key) (inr onload) :: tr) as [tr Htr].
  { unfold sample_run, trace_of. simpl. rewrite Hn. simpl.
    destruct (exec serve (reconcile_onload _ _) _) as [[??]?]. by eexists. }
  unfold out_of, trace_of in *. rewrite Htr in Hr |- *. exact Hr.
Qed.

(** The event at a position of a run. *)
Definition event_at (n : nat) (tr : list (event clientS)) : event clientS :=
  nth n tr (Ev (S:=clientS) ListOnloads (inr [])).

(** The run returned this result and no error. *)
Definition returned (res : Result) (out : outcome (Result * option error)) : bool :=
  match out with
  | Done (res', None) => bool_decide (res = res')
  | _ => false
  end.

Lemma returned_spec res out : returned res out = true → out = Done (res, None).
Proof. destruct out as [[? []]|]; simpl; [done| |done]. by intros ->%bool_decide_eq_true. Qed.
