(* ===== verification/ClusterSpec.v ===== *)
(** * What a reconciliation means

    The abstract specification of the operator: what one reconciliation does to a
    cluster, as a function on its state, without calls, loops over listings, or
    errors.  [Refinement] proves that [Reconcile] implements it; [Convergence]
    shows where it leads. *)

From S2P Require Import Prelude GoStd Effects ApiTypes Client ApiServer Labels Modules NodeLabels DevicePluginDS Upgrade Reconcile.
From stdpp Require Import options.

Local Open Scope list_scope.

(** What a phase reports: nothing to do, a change, or that it has to wait. *)
Inductive verdict := Nothing | Changed | Waiting.

Definition result_of (v : verdict) : Result :=
  match v with
  | Nothing => no_result
  | Changed => requeue
  | Waiting => requeue_after_default
  end.

Section cluster_spec.
Context `{ApiErrors}.

Definition phase_of (v : verdict) : phase_result :=
  match v with
  | Nothing => phase_nothing
  | Changed => phase_stop requeue
  | Waiting => phase_stop requeue_after_default
  end.

Definition transform : Type := cluster → verdict * cluster.

Definition skip : transform := λ w, (Nothing, w).
(** The second is reached only when the first had nothing to do. *)
Definition then_do (f g : transform) : transform := λ w,
  match f w with
  | (Nothing, w') => g w'
  | r => r
  end.

(** Every node that satisfies [P] is changed by [f]. *)
Definition change_nodes (P : Node → bool) (f : Node → Node) : transform := λ w,
  (if existsb P (cl_nodes w) then Changed else Nothing,
   with_nodes w (map (λ n, if P n then f n else n) (cl_nodes w))).

(** A label taken off a node. *)
Definition unlabel (key : string) (n : Node) : Node :=
  node_with_Labels n (gomap_delete (node_Labels n) key).

(** A resource that is gone. *)
Definition has_key (key : string) (n : Node) : bool := non_nil (gomap_get (node_Labels n) key).
Definition spec_forget (name namespace : string) (w : cluster) : cluster :=
  with_nodes w
    (map (λ n, unlabel (label_of Operator name namespace)
                 (unlabel (label_of KmmSFC name namespace)
                    (unlabel (label_of KmmOnload name namespace) n))) (cl_nodes w)).

(** ** One resource *)

Section resource.
Variables (image : string) (onload : Onload).
Implicit Types (n : Node) (k : label_kind) (w : cluster).

Definition key k : string := label_of k (onload_Name onload) (onload_Namespace onload).
Definition label n k : option string := gomap_get (node_Labels n) (key k).
Definition has n k : bool := non_nil (label n k).
Definition selects n : bool :=
  bool_decide (map_Forall (λ x v, gomap_get (node_Labels n) x = Some v) (onload_Selector onload)).
(** A missing label reads as the empty version. *)
Definition at_target n : bool := bool_decide (default "" (label n KmmOnload) = onload_Version onload).

Definition set_label k n : Node :=
  node_with_Labels n (Some (<[key k := onload_Version onload]> (default ∅ (node_Labels n)))).
Definition unset_label k n : Node := unlabel (key k) n.

(** A node that is not selected loses the label. *)
Definition spec_removeStale k : transform :=
  change_nodes (λ n, has n k && negb (selects n)) (unset_label k).

(** *** The labels of KMM *)

Definition module_suffix k : string :=
  match k with KmmSFC => sfcModuleNameSuffix | _ => onloadModuleNameSuffix end.
Definition module_pods k : gmap string string :=
  {[ kmmModuleNameLabel := onload_Name onload +:+ module_suffix k ]}.
(** Pods of the module linger on the node. *)
Definition lingers w k n : bool :=
  existsb (pod_selected (module_pods k) (node_Name n)) (cl_pods w).
Definition lacks k n : bool :=
  negb (has n k) && match k with KmmOnload => true | _ => at_target n end.

(** The node afterwards, whether it was changed, and whether the phase has to wait. *)
Definition label_module w k n : Node * bool * bool :=
  if lacks k n then if lingers w k n then (n, false, true) else (set_label k n, true, false)
  else (n, false, false).
Definition label_modules w n : Node * bool * bool :=
  let '(n1, c1, b1) := label_module w KmmOnload n in
  if b1 || negb (onloadUsesSFC onload) then (n1, c1, b1)
  else let '(n2, c2, b2) := label_module w KmmSFC n1 in (n2, c1 || c2, b2).

(** The nodes are visited in order, up to the first that has to wait. *)
Fixpoint label_all w (ns : list Node) : list Node * bool * bool :=
  match ns with
  | [] => ([], false, false)
  | n :: ns =>
      if selects n then
        let '(n', c, b) := label_modules w n in
        if b then (n' :: ns, c, true)
        else let '(ns', cs, bs) := label_all w ns in (n' :: ns', c || cs, bs)
      else let '(ns', cs, bs) := label_all w ns in (n :: ns', cs, bs)
  end.

Definition spec_addKmm : transform := λ w,
  let '(ns, c, b) := label_all w (cl_nodes w) in
  let w' := with_nodes w ns in
  if b then (Waiting, w')
  else if c then (Changed, w')
  else then_do (spec_removeStale KmmOnload) (spec_removeStale KmmSFC) w'.

(** *** The operator's label *)

Definition spec_addOnload : transform :=
  then_do
    (change_nodes (λ n, selects n && (at_target n && negb (has n Operator))) (set_label Operator))
    (spec_removeStale Operator).

(** *** The objects *)

Definition object_key (suffix : string) : NamespacedName :=
  MkNamespacedName (onload_Name onload +:+ suffix) (onload_Namespace onload).
(** The metadata once the resource owns the object. *)
Definition owned (m : ObjectMeta) : ObjectMeta :=
  match SetControllerReference onload m with inr m' => m' | inl _ => m end.

Definition spec_createModule k (modprobe inTree : string)
    (getKernelMap : OnloadKernelMapping → option kmm_KernelMapping) : transform := λ w,
  let m := createModule onload (onload_Name onload +:+ module_suffix k) modprobe inTree getKernelMap in
  match named module_meta (object_key (module_suffix k)) (cl_modules w) with
  | Some _ => (Nothing, w)
  | None => (Changed, with_modules w (cl_modules w ++ [module_with_meta m (owned (module_meta m))]))
  end.
Definition spec_createModules : transform :=
  then_do (spec_createModule KmmOnload "onload" "" onloadKernelMapper)
    (if onloadUsesSFC onload then spec_createModule KmmSFC "sfc" "sfc" sfcKernelMapper else skip).

Definition spec_createDaemonSet : transform := λ w,
  let d := devicePluginDaemonSet image onload in
  match named ds_meta (object_key devicePluginNameSuffix) (cl_daemonsets w) with
  | Some _ => (Nothing, w)
  | None => (Changed, with_daemonsets w (cl_daemonsets w ++ [daemonset_with_meta d (owned (ds_meta d))]))
  end.

Definition ds_at_target (d : DaemonSet) : bool :=
  bool_decide (gomap_index (meta_Labels (ds_meta d)) onloadVersionLabel = onload_Version onload).
Definition module_at_target (m : kmm_Module) : bool :=
  bool_decide (mlc_Version (module_Container m) = onload_Version onload).

Definition spec_updateDaemonSet : transform := λ w,
  match named ds_meta (object_key devicePluginNameSuffix) (cl_daemonsets w) with
  | Some d =>
      if ds_at_target d then (Nothing, w) else
      match daemonset_upgraded onload d with
      | inr d' => (Changed, with_daemonsets w (replace ds_meta d' (cl_daemonsets w)))
      | inl _ => (Nothing, w)
      end
  | None => (Nothing, w)
  end.

Definition spec_updateModule k (used : bool)
    (getKernelMap : OnloadKernelMapping → option kmm_KernelMapping) : transform := λ w,
  match named module_meta (object_key (module_suffix k)) (cl_modules w) with
  | Some m =>
      if used then
        if module_at_target m then (Nothing, w)
        else (Changed, with_modules w
                (replace module_meta (module_upgraded onload getKernelMap m) (cl_modules w)))
      else (Changed, with_modules w
              (List.filter (λ m', negb (same_name (module_meta m') (module_meta m))) (cl_modules w)))
  | None => (Nothing, w)
  end.

(** *** The upgrade of a node *)

(** The node [n'] in the place of the node of that name. *)
Definition put_node (n' : Node) w : cluster := with_nodes w (replace node_meta n' (cl_nodes w)).

Definition with_pods w (ps : list Pod) : cluster :=
  MkCluster (cl_onloads w) (cl_nodes w) ps (cl_modules w) (cl_daemonsets w).
Definition evict_all (victims : list Pod) w : cluster :=
  with_pods w (fold_left (λ ps p, replace pod_meta (evicted p) ps) victims (cl_pods w)).

Definition pods_on w n : list Pod := List.filter (pod_selected ∅ (node_Name n)) (cl_pods w).
Definition plugin_on w n : bool :=
  existsb (pod_selected (devicePluginPodSet onload) (node_Name n)) (cl_pods w).

(** The pods that use Onload must be gone, and the device plugin before them. *)
Definition spec_drain n : transform := λ w,
  if plugin_on w n then (Waiting, w) else
  let users := List.filter pod_uses_onload (pods_on w n) in
  if bool_decide (users = [])
  then (Changed, put_node (unset_label KmmOnload (unset_label KmmSFC n)) w)
  else (Waiting, evict_all (List.filter (λ p, negb (pod_terminating p)) users) w).

Definition spec_upgradeNode n : transform :=
  match label n Operator with
  | Some v =>
      if bool_decide (v ≠ onload_Version onload)
      then λ w, (Changed, put_node (unset_label Operator n) w)
      else spec_drain n
  | None => spec_drain n
  end.

(** The nodes with the module at another version; the first in the alphabet is next. *)
Definition outdated w : list Node :=
  List.filter (λ n, has n KmmOnload && negb (at_target n)) (cl_nodes w).
Definition spec_upgradeNext : transform := λ w,
  match MinFunc compare_names (outdated w) with
  | None => (Nothing, w)
  | Some n => spec_upgradeNode n w
  end.

Definition spec_update : transform :=
  then_do spec_updateDaemonSet
    (then_do (spec_updateModule KmmOnload true onloadKernelMapper)
       (then_do (spec_updateModule KmmSFC (onloadUsesSFC onload) sfcKernelMapper)
          spec_upgradeNext)).

(** *** One reconciliation of a live resource *)

Definition spec_live : transform :=
  then_do spec_addKmm
    (then_do spec_createModules
       (then_do spec_addOnload
          (then_do spec_createDaemonSet spec_update))).
End resource.

Definition spec_reconcile (image : string) (req : NamespacedName) (w : cluster) : Result * cluster :=
  match named onload_meta req (cl_onloads w) with
  | None => (no_result, spec_forget (nn_Name req) (nn_Namespace req) w)
  | Some onload =>
      if non_nil (meta_DeletionTimestamp (onload_meta onload)) then (no_result, w)
      else let '(v, w') := spec_live image onload w in (result_of v, w')
  end.

(** ** Well-formed clusters

    Node names are unique, nodes have label maps, and a DaemonSet of the operator
    has labels and an init container. *)

Definition daemonset_ok (d : DaemonSet) : bool :=
  non_nil (meta_Labels (ds_meta d)) && negb (bool_decide (ps_InitContainers (ds_PodSpec d) = [])).

Record wf (w : cluster) : Prop := {
  wf_names : NoDup (map node_Name (cl_nodes w));
  wf_labels : Forall (λ n, non_nil (node_Labels n) = true) (cl_nodes w);
  wf_daemonsets : Forall (λ d, daemonset_ok d = true) (cl_daemonsets w);
}.

(** What is assumed of the Kubernetes libraries about a resource: a key selects the
    nodes that have it; the formatted selector selects the nodes with its labels;
    and setting the owner keeps the name and the labels. *)
Definition parses_keys (name namespace : string) : Prop :=
  ∀ k, ∃ sel, labels_Parse (label_of k name namespace) = inr sel ∧
    ∀ l, Matches sel l = non_nil (gomap_get l (label_of k name namespace)).

Record library_laws (onload : Onload) : Prop := {
  law_keys : parses_keys (onload_Name onload) (onload_Namespace onload);
  law_selector : ∃ sel, labels_Parse (FormatLabels (onload_Selector onload)) = inr sel ∧
    ∀ l, Matches sel l =
         bool_decide (map_Forall (λ x v, gomap_get l x = Some v) (onload_Selector onload));
  law_owner : ∀ m, meta_Namespace m = onload_Namespace onload →
    ∃ m', SetControllerReference onload m = inr m' ∧ meta_Name m' = meta_Name m ∧
          meta_Namespace m' = meta_Namespace m ∧ meta_Labels m' = meta_Labels m;
}.
End cluster_spec.
