(* ===== verification/RefineLabels.v ===== *)
(** * The labelling phases implement their specification

    Against [ApiServer] a loop over a listing that patches each node in turn is one
    pass over the nodes of the cluster. *)

From S2P Require Import Prelude GoStd Effects ApiTypes Client ApiServer Labels Modules NodeLabels DevicePluginDS Upgrade Reconcile ClusterSpec.
From stdpp Require Import options.

Local Open Scope list_scope.

(** ** The server *)

Section server.
Context `{ApiErrors}.
Implicit Types (w : cluster) (n : Node).

Lemma with_nodes_twice w ns ns' : with_nodes (with_nodes w ns) ns' = with_nodes w ns'.
Proof. done. Qed.
Lemma with_nodes_id w : with_nodes w (cl_nodes w) = w.
Proof. by destruct w. Qed.

Lemma den_patch_node old new w :
  denote serve (patch_node old new) w = (Done (inr (node_Labels new)), put_node new w).
Proof. done. Qed.

Lemma den_deleteLabelFromNode n key w :
  denote serve (deleteLabelFromNode n key) w =
  (Done (None, node_Labels (unlabel key n)), put_node (unlabel key n) w).
Proof. done. Qed.

Lemma den_getPodsOnNode set node w :
  denote serve (getPodsOnNode set node) w =
  (Done (inr (List.filter (pod_selected set node) (cl_pods w))), w).
Proof. done. Qed.

Lemma existsb_filter_nonempty {A} (f : A → bool) l :
  match List.filter f l with [] => false | _ => true end = existsb f l.
Proof. induction l as [|a l IH]; [done|]. simpl. by destruct (f a). Qed.

(** ** Nodes in their list *)

Lemma same_node n n' : node_Name n ≠ node_Name n' → same_name (node_meta n) (node_meta n') = false.
Proof. intros Hn. unfold same_name. by rewrite bool_decide_eq_false_2. Qed.

Definition same_id n n' : Prop := same_name (node_meta n) (node_meta n') = true.

Lemma same_id_name n n' : same_id n n' → node_Name n = node_Name n'.
Proof. intros [?%bool_decide_eq_true _]%andb_true_iff. done. Qed.

Lemma same_id_labels n l : same_id n (node_with_Labels n l).
Proof. unfold same_id, same_name. simpl. by rewrite !bool_decide_eq_true_2. Qed.

Lemma same_id_refl n : same_id n n.
Proof. unfold same_id, same_name. by rewrite !bool_decide_eq_true_2. Qed.

Lemma replace_others n' ns :
  node_Name n' ∉ map node_Name ns → replace node_meta n' ns = ns.
Proof.
  induction ns as [|m ns IH]; intros Hn; [done|]. simpl in *.
  apply not_elem_of_cons in Hn as [Hne Hn]. by rewrite same_node, IH.
Qed.

Lemma replace_at pre n n' ns :
  NoDup (map node_Name (pre ++ n :: ns)) → same_id n n' →
  replace node_meta n' (pre ++ n :: ns) = pre ++ n' :: ns.
Proof.
  rewrite map_app. simpl. intros Hd Hs. pose proof (same_id_name _ _ Hs) as Heq.
  apply NoDup_app in Hd as (_ & Hpre & [Hn _]%NoDup_cons). unfold replace.
  rewrite map_app. simpl. rewrite Hs. f_equal; [|f_equal].
  - apply replace_others. rewrite <-Heq. intros Hi. apply (Hpre _ Hi). by left.
  - apply replace_others. by rewrite <-Heq.
Qed.

Lemma put_node_at w pre n n' ns :
  NoDup (map node_Name (pre ++ n :: ns)) → same_id n n' →
  put_node n' (with_nodes w (pre ++ n :: ns)) = with_nodes w (pre ++ n' :: ns).
Proof.
  intros Hd Hs. change (with_nodes w (replace node_meta n' (pre ++ n :: ns)) = with_nodes w (pre ++ n' :: ns)).
  by rewrite replace_at.
Qed.

Lemma names_at pre n n' ns :
  same_id n n' → map node_Name (pre ++ n' :: ns) = map node_Name (pre ++ n :: ns).
Proof. intros Hs%same_id_name. rewrite !map_app. simpl. by rewrite Hs. Qed.

Lemma put_node_twice n n' w : same_id n n' → put_node n' (put_node n w) = put_node n' w.
Proof.
  intros Hs. unfold put_node. simpl. unfold with_nodes. f_equal. unfold replace. rewrite map_map.
  apply map_ext. intros m. unfold same_id, same_name in *.
  destruct (bool_decide (meta_Name (node_meta m) = meta_Name (node_meta n)) &&
            bool_decide (meta_Namespace (node_meta m) = meta_Namespace (node_meta n))) eqn:Hm; [|done].
  rewrite !andb_true_iff, !bool_decide_eq_true in *. destruct Hs as [Hs1 Hs2], Hm as [Hm1 Hm2].
  by rewrite Hm1, Hm2, !bool_decide_eq_true_2.
Qed.

(** ** Loops that patch some of the listed nodes *)

Section patch_loop.
Variable loop : list Node → bool → prog clientS (phase_result + bool).
Variables (P : Node → bool) (f : Node → Node) (good : Node → Prop).
Hypothesis loop_nil : ∀ c, loop [] c = mret (inr c).
Hypothesis loop_cons : ∀ n ns c w, good n →
  denote serve (loop (n :: ns) c) w =
  if P n then denote serve (loop ns true) (put_node (f n) w) else denote serve (loop ns c) w.
Hypothesis f_id : ∀ n, same_id n (f n).

Lemma patch_loop_denote listed pre ns c w :
  NoDup (map node_Name (pre ++ ns)) → Forall good ns →
  denote serve (loop (List.filter listed ns) c) (with_nodes w (pre ++ ns)) =
  (Done (inr (c || existsb (λ n, listed n && P n) ns)),
   with_nodes w (pre ++ map (λ n, if listed n && P n then f n else n) ns)).
Proof using loop_nil loop_cons f_id.
  revert pre c. induction ns as [|n ns IH]; intros pre c Hd Hg.
  { simpl. rewrite loop_nil, orb_false_r. done. }
  apply Forall_cons in Hg as [Hn Hg]. simpl.
  assert (∀ n', same_id n n' → NoDup (map node_Name ((pre ++ [n']) ++ ns))) as Hd'.
  { intros n' Hs. rewrite <-(assoc_L app). simpl. by rewrite (names_at pre n n' ns). }
  assert (∀ n', same_id n n' → ∀ c', denote serve (loop (List.filter listed ns) c')
      (with_nodes w (pre ++ n' :: ns)) =
      (Done (inr (c' || existsb (λ n, listed n && P n) ns)),
       with_nodes w (pre ++ n' :: map (λ n, if listed n && P n then f n else n) ns))) as IH'.
  { intros n' Hs c'. specialize (IH (pre ++ [n']) c' (Hd' n' Hs) Hg).
    rewrite <-!(assoc_L app) in IH. exact IH. }
  destruct (listed n); simpl; [|apply IH', same_id_refl].
  rewrite loop_cons by done. destruct (P n); simpl; [|apply IH', same_id_refl].
  rewrite put_node_at by done. rewrite orb_true_r. by apply IH'.
Qed.
End patch_loop.

(** ** Labels *)

Section resource.
Context (onload : Onload) (laws : library_laws onload).

(** *** Well-formedness is kept *)

Definition ready n : Prop := non_nil (node_Labels n) = true.

(** What the operator does to a node. *)
Definition relabelled n n' : Prop := same_id n n' ∧ (ready n → ready n').

Lemma relabelled_refl n : relabelled n n.
Proof. split; [apply same_id_refl|done]. Qed.

Lemma relabelled_trans n n' n'' : relabelled n n' → relabelled n' n'' → relabelled n n''.
Proof.
  unfold relabelled, same_id, same_name. rewrite !andb_true_iff, !bool_decide_eq_true.
  intros [[-> ->] Hr] [[-> ->] Hr']. auto.
Qed.

Lemma relabelled_set k n : relabelled n (set_label onload k n).
Proof. split; [apply same_id_labels|done]. Qed.

Lemma relabelled_unset key n : relabelled n (unlabel key n).
Proof. split; [apply same_id_labels|]. unfold ready, unlabel. simpl. by destruct (node_Labels n). Qed.

Lemma wf_relabelled w ns : wf w → Forall2 relabelled (cl_nodes w) ns → wf (with_nodes w ns).
Proof.
  intros [Hn Hl Hd] Hf. split; [| |done]; simpl.
  - replace (map node_Name ns) with (map node_Name (cl_nodes w)); [done|]. clear Hn Hl Hd.
    induction Hf as [|n n' ns ns' [Hs%same_id_name _] _ IH]; [done|]. simpl. by rewrite Hs, IH.
  - clear Hn Hd. induction Hf as [|n n' ns ns' [_ Hr] _ IH]; [constructor|].
    apply Forall_cons in Hl as [Hn Hl]. constructor; [by apply Hr|auto].
Qed.

Lemma wf_map w f : wf w → (∀ n, relabelled n (f n)) → wf (with_nodes w (map f (cl_nodes w))).
Proof.
  intros Hw Hf. apply wf_relabelled; [done|]. induction (cl_nodes w); constructor; auto.
Qed.

Lemma wf_change_nodes P f w :
  wf w → (∀ n, relabelled n (f n)) → wf (change_nodes P f w).2.
Proof.
  intros Hw Hf. apply wf_map; [done|]. intros n. destruct (P n); [apply Hf|apply relabelled_refl].
Qed.

Lemma den_listNodes_key k w :
  denote serve (listNodesWithLabels (key onload k)) w =
  (Done (inr (List.filter (λ n, has onload n k) (cl_nodes w))), w).
Proof using laws.
  destruct (law_keys _ laws k) as (sel & Hs & Hm). unfold listNodesWithLabels, key. rewrite Hs.
  simpl. do 3 f_equal. apply filter_ext. intros n. by rewrite Hm.
Qed.

Lemma den_listNodes_selected w :
  denote serve (listNodesWithLabels (FormatLabels (onload_Selector onload))) w =
  (Done (inr (List.filter (selects onload) (cl_nodes w))), w).
Proof using laws.
  destruct (law_selector _ laws) as (sel & Hs & Hm). unfold listNodesWithLabels. rewrite Hs.
  simpl. do 3 f_equal. apply filter_ext. intros n. by rewrite Hm.
Qed.

Lemma removeStaleLabels_denote k w :
  wf w →
  denote serve (removeStaleLabels onload (key onload k)) w =
  let '(v, w') := spec_removeStale onload k w in (Done (phase_of v), w').
Proof using laws.
  intros Hw. destruct (law_selector _ laws) as (sel & Hs & Hm). unfold removeStaleLabels. rewrite Hs.
  rewrite denote_bind, den_listNodes_key. simpl. rewrite denote_bind.
  pose proof (patch_loop_denote (removeStaleLabels_loop sel (key onload k))
    (λ n, negb (selects onload n)) (unset_label onload k) (λ _, True)) as Hl.
  specialize (Hl (λ _, eq_refl)). specialize (Hl ltac:(
    intros n ns c w' _; simpl; unfold selects; rewrite <-(Hm (node_Labels n));
    by destruct (Matches sel (node_Labels n)))).
  specialize (Hl ltac:(intros n; apply same_id_labels)).
  specialize (Hl (λ n, has onload n k) [] (cl_nodes w) false w (wf_names _ Hw)).
  specialize (Hl ltac:(by apply Forall_true)). rewrite !app_nil_l, with_nodes_id in Hl. rewrite Hl.
  unfold spec_removeStale, change_nodes. simpl. by destruct (existsb _ _).
Qed.

(** A phase that implements a transformation. *)
Definition implements (p : prog clientS phase_result) (f : transform) : Prop :=
  ∀ w, wf w → denote serve p w = (Done (phase_of (f w).1), (f w).2).

Lemma removeStaleLabels_implements k :
  implements (removeStaleLabels onload (key onload k)) (spec_removeStale onload k).
Proof using laws.
  intros w Hw. rewrite removeStaleLabels_denote by done. by destruct (spec_removeStale onload k w).
Qed.

(** *** The operator's label *)

Lemma addOnloadLabels_loop_denote n ns c w :
  ready n →
  denote serve (addOnloadLabels_loop onload (n :: ns) c) w =
  if at_target onload n && negb (has onload n Operator)
  then denote serve (addOnloadLabels_loop onload ns true) (put_node (set_label onload Operator n) w)
  else denote serve (addOnloadLabels_loop onload ns c) w.
Proof.
  intros Hr. unfold addOnloadLabels_loop; fold addOnloadLabels_loop.
  change (gomap_index (node_Labels n) _) with (default "" (label onload n KmmOnload)).
  change (gomap_get (node_Labels n) _) with (label onload n Operator).
  unfold at_target, has. case_bool_decide as Hv.
  - by rewrite bool_decide_eq_false_2.
  - rewrite bool_decide_eq_true_2 by (destruct (decide (default "" (label onload n KmmOnload) = onload_Version onload)); [done|by destruct Hv]). simpl.
    destruct (label onload n Operator); [done|]. simpl.
    unfold ready in Hr. unfold set_label. destruct (node_Labels n) as [l|]; done.
Qed.

Lemma addOnloadLabelsToNodes_implements :
  implements (addOnloadLabelsToNodes onload) (spec_addOnload onload).
Proof using laws.
  intros w Hw. unfold addOnloadLabelsToNodes. rewrite denote_bind, den_listNodes_selected. simpl.
  rewrite denote_bind.
  pose proof (patch_loop_denote (addOnloadLabels_loop onload)
    (λ n, at_target onload n && negb (has onload n Operator)) (set_label onload Operator) ready
    (λ _, eq_refl) addOnloadLabels_loop_denote ltac:(intros n; apply same_id_labels)
    (selects onload) [] (cl_nodes w) false w (wf_names _ Hw) (wf_labels _ Hw)) as Hl.
  rewrite !app_nil_l, with_nodes_id in Hl. rewrite Hl. simpl.
  unfold spec_addOnload, then_do, change_nodes at 1 2. cbv beta iota.
  destruct (existsb _ _); [done|]. apply (removeStaleLabels_implements Operator).
  apply wf_map; [done|]. intros n. destruct (_ && _); [apply relabelled_set|apply relabelled_refl].
Qed.

(** *** The labels of KMM *)

Lemma label_module_relabelled w k n : relabelled n (label_module onload w k n).1.1.
Proof.
  unfold label_module. destruct (lacks _ _ _); [|apply relabelled_refl].
  destruct (lingers _ _ _ _); [apply relabelled_refl|apply relabelled_set].
Qed.

Lemma label_modules_relabelled w n : relabelled n (label_modules onload w n).1.1.
Proof.
  unfold label_modules. pose proof (label_module_relabelled w KmmOnload n) as H1.
  destruct (label_module onload w KmmOnload n) as [[n1 c1] b1]. destruct (_ || _); [done|].
  pose proof (label_module_relabelled w KmmSFC n1) as H2.
  destruct (label_module onload w KmmSFC n1) as [[n2 c2] b2]. by eapply relabelled_trans.
Qed.

Lemma label_all_relabelled w ns : Forall2 relabelled ns (label_all onload w ns).1.1.
Proof.
  assert (∀ ns, Forall2 relabelled ns ns) as Hrefl.
  { intros l. induction l; constructor; [apply relabelled_refl|done]. }
  induction ns as [|n ns IH]; [constructor|]. simpl.
  pose proof (label_modules_relabelled w n) as Hn.
  destruct (label_modules onload w n) as [[n' c] b], (label_all onload w ns) as [[ns' cs] bs].
  simpl in *. destruct (selects onload n), b; simpl; constructor; auto using relabelled_refl.
Qed.

Lemma addKmmLabelToNode_denote k n w :
  k ≠ Operator → ready n →
  denote serve (addKmmLabelToNode onload n (key onload k) (module_pods onload k)) w =
  let '(n', c, b) := label_module onload w k n in
  (Done (phase_of (if b then Waiting else Nothing), c, node_Labels n'),
   if c then put_node n' w else w).
Proof.
  intros Hk Hr. unfold addKmmLabelToNode, label_module, lacks.
  change (kmmOnloadLabelName (onload_Name onload) (onload_Namespace onload)) with (key onload KmmOnload).
  change (gomap_index (node_Labels n) (key onload KmmOnload)) with (default "" (label onload n KmmOnload)).
  change (non_nil (gomap_get (node_Labels n) (key onload k))) with (has onload n k).
  destruct (has onload n k); [done|]. simpl negb. cbv beta iota.
  assert (bool_decide (key onload k ≠ key onload KmmOnload) &&
          bool_decide (default "" (label onload n KmmOnload) ≠ onload_Version onload) =
          negb (match k with KmmOnload => true | _ => at_target onload n end)) as ->.
  { unfold at_target. rewrite !bool_decide_not. destruct k; [| |done].
    - by rewrite bool_decide_eq_true_2.
    - by rewrite (bool_decide_eq_false_2 (key onload KmmSFC = key onload KmmOnload)) by
        apply kmm_labels_ne'. }
  destruct k; [|destruct (at_target onload n); [|done]|done]; cbn [negb].
  all: unfold lingers; rewrite denote_bind, den_getPodsOnNode; cbv beta iota.
  all: rewrite <-(existsb_filter_nonempty (pod_selected _ _)).
  all: destruct (List.filter _ (cl_pods w)); [|done].
  all: unfold ready in Hr; unfold set_label; destruct (node_Labels n); done.
Qed.

Lemma label_module_labels w k n :
  node_with_Labels n (node_Labels (label_module onload w k n).1.1) = (label_module onload w k n).1.1.
Proof.
  unfold label_module. by destruct (lacks onload k n), (lingers onload w k n), n as [[]].
Qed.

Lemma label_module_same w k n n' b : label_module onload w k n = (n', false, b) → n' = n.
Proof. unfold label_module. destruct (lacks onload k n), (lingers onload w k n); congruence. Qed.

(** One iteration of the loop over the selected nodes. *)
Definition addKmmLabels_body (n : Node) : prog clientS (phase_result * bool) :=
  '(res, changed, labels) ← addKmmLabelToNode onload n (key onload KmmOnload) (module_pods onload KmmOnload);
  if returns_early res then mret (res, changed) else
  if onloadUsesSFC onload then
    '(res, changed', _) ← addKmmLabelToNode onload (node_with_Labels n labels) (key onload KmmSFC)
                            (module_pods onload KmmSFC);
    mret (res, changed || changed')
  else mret (res, changed).

Lemma addKmmLabels_loop_body n ns c w :
  denote serve (addKmmLabels_loop onload (n :: ns) c) w =
  denote serve (
    '(res, changed) ← addKmmLabels_body n;
    if returns_early res then mret (inl res) else addKmmLabels_loop onload ns (c || changed)) w.
Proof.
  unfold addKmmLabels_loop, addKmmLabels_body; fold addKmmLabels_loop.
  rewrite !denote_bind. destruct (denote serve (addKmmLabelToNode _ _ _ _) w) as [[[[res ch] ls]|] w1]; [|done].
  destruct (returns_early res) eqn:Hre; [by simpl; rewrite Hre|].
  destruct (onloadUsesSFC onload); [|by simpl; rewrite Hre].
  rewrite !denote_bind. destruct (denote serve (addKmmLabelToNode _ _ _ _) w1) as [[[[res' ch'] ls']|] w2]; [|done].
  simpl. destruct (returns_early res'); [done|]. by rewrite orb_assoc.
Qed.

Lemma addKmmLabels_body_denote pre n ns w :
  NoDup (map node_Name (pre ++ n :: ns)) → ready n →
  denote serve (addKmmLabels_body n) (with_nodes w (pre ++ n :: ns)) =
  let '(n', c, b) := label_modules onload w n in
  (Done (phase_of (if b then Waiting else Nothing), c), with_nodes w (pre ++ n' :: ns)).
Proof.
  intros Hd Hr. unfold addKmmLabels_body, label_modules. rewrite denote_bind, addKmmLabelToNode_denote by done.
  pose proof (label_module_relabelled w KmmOnload n) as [Hid1 Hr1].
  pose proof (label_module_labels w KmmOnload n) as Hl1.
  change (label_module onload (with_nodes w (pre ++ n :: ns))) with (label_module onload w).
  destruct (label_module onload w KmmOnload n) as [[n1 c1] b1] eqn:H1. simpl in Hid1, Hr1, Hl1. rewrite Hl1.
  assert ((if c1 then put_node n1 (with_nodes w (pre ++ n :: ns)) else with_nodes w (pre ++ n :: ns))
          = with_nodes w (pre ++ n1 :: ns)) as ->.
  { destruct c1; [by apply put_node_at|]. by apply label_module_same in H1 as ->. }
  destruct b1; [done|]. change (returns_early (phase_of Nothing)) with false. cbn [orb].
  destruct (onloadUsesSFC onload); [|done]. cbn [negb]. cbv beta iota.
  rewrite denote_bind, addKmmLabelToNode_denote by auto.
  pose proof (label_module_relabelled w KmmSFC n1) as [Hid2 Hr2].
  change (label_module onload (with_nodes w (pre ++ n1 :: ns))) with (label_module onload w).
  destruct (label_module onload w KmmSFC n1) as [[n2 c2] b2] eqn:H2. simpl in Hid2, Hr2.
  assert ((if c2 then put_node n2 (with_nodes w (pre ++ n1 :: ns)) else with_nodes w (pre ++ n1 :: ns))
          = with_nodes w (pre ++ n2 :: ns)) as ->; [|done].
  destruct c2; [apply put_node_at; [by rewrite (names_at pre n)|done]|].
  by apply label_module_same in H2 as ->.
Qed.

Lemma addKmmLabels_loop_denote pre ns c w :
  NoDup (map node_Name (pre ++ ns)) → Forall ready ns →
  denote serve (addKmmLabels_loop onload (List.filter (selects onload) ns) c) (with_nodes w (pre ++ ns)) =
  let '(ns', c', b) := label_all onload w ns in
  (Done (if b then inl (phase_stop requeue_after_default) else inr (c || c')), with_nodes w (pre ++ ns')).
Proof.
  revert pre c. induction ns as [|n ns IH]; intros pre c Hd Hg.
  { simpl. by rewrite orb_false_r. }
  apply Forall_cons in Hg as [Hn Hg].
  assert (∀ n' c', same_id n n' →
    denote serve (addKmmLabels_loop onload (List.filter (selects onload) ns) c')
      (with_nodes w (pre ++ n' :: ns)) =
    let '(ns', cs, b) := label_all onload w ns in
    (Done (if b then inl (phase_stop requeue_after_default) else inr (c' || cs)),
     with_nodes w (pre ++ n' :: ns'))) as IH'.
  { intros n' c' Hs. specialize (IH (pre ++ [n']) c'). rewrite <-!(assoc_L app) in IH.
    specialize (IH ltac:(by simpl; rewrite (names_at pre n)) Hg). simpl in IH. rewrite IH.
    destruct (label_all onload w ns) as [[ns' cs] b]. by rewrite <-(assoc_L app). }
  simpl. destruct (selects onload n).
  - rewrite addKmmLabels_loop_body, denote_bind, addKmmLabels_body_denote by done.
    pose proof (label_modules_relabelled w n) as [Hid _].
    destruct (label_modules onload w n) as [[n' c'] b]. simpl in Hid.
    destruct b; [done|]. change (returns_early (phase_of Nothing)) with false. cbv beta iota. rewrite IH' by done.
    destruct (label_all onload w ns) as [[ns' cs] bs]. by rewrite orb_assoc.
  - rewrite IH' by apply same_id_refl. by destruct (label_all onload w ns) as [[ns' cs] bs].
Qed.

Lemma addKmmLabelsToNodes_implements :
  implements (addKmmLabelsToNodes onload) (spec_addKmm onload).
Proof using laws.
  intros w Hw. unfold addKmmLabelsToNodes. rewrite denote_bind, den_listNodes_selected. simpl.
  rewrite denote_bind.
  pose proof (addKmmLabels_loop_denote [] (cl_nodes w) false w (wf_names _ Hw) (wf_labels _ Hw)) as Hl.
  rewrite !app_nil_l, with_nodes_id in Hl. rewrite Hl. unfold spec_addKmm.
  pose proof (wf_relabelled w _ Hw (label_all_relabelled w (cl_nodes w))) as Hw'.
  destruct (label_all onload w (cl_nodes w)) as [[ns c] b]. simpl in Hw'.
  change ([] ++ ns) with ns. destruct b; [done|]. destruct c; [done|]. cbn [orb]. cbv beta iota.
  rewrite denote_bind, (removeStaleLabels_implements KmmOnload) by done. unfold then_do.
  assert (wf (spec_removeStale onload KmmOnload (with_nodes w ns)).2) as Hw''.
  { apply wf_change_nodes; [done|]. intros n. apply relabelled_unset. }
  destruct (spec_removeStale onload KmmOnload (with_nodes w ns)) as [[] w1]; [|done|done].
  by apply (removeStaleLabels_implements KmmSFC).
Qed.
End resource.
End server.
