(* ===== verification/Refinement.v ===== *)
(** * Reconcile implements its specification

    Against [ApiServer], whose replies are current and never fail, every function
    of the operator computes the transformation of [ClusterSpec]. *)

From S2P Require Import Prelude GoStd GoFmt Effects ApiTypes Client ApiServer MemServer Labels Modules NodeLabels DevicePluginDS Upgrade Reconcile Samples ClusterSpec RefineLabels.
From stdpp Require Import options.

Local Open Scope list_scope.

Section refinement.
Context `{ApiErrors}.
Implicit Types (w : cluster) (n : Node).

Section resource.
Context (onload : Onload) (laws : library_laws onload).

(** *** The objects *)

Lemma owned_law m : meta_Namespace m = onload_Namespace onload →
  SetControllerReference onload m = inr (owned onload m).
Proof using laws.
  intros Hm. unfold owned. by destruct (law_owner _ laws m Hm) as (m' & -> & _).
Qed.

Lemma createAndAddModule_denote k modprobe inTree getKernelMap w :
  denote serve (createAndAddModule onload (onload_Name onload +:+ module_suffix k) modprobe inTree
                  getKernelMap) w =
  (Done (phase_of (spec_createModule onload k modprobe inTree getKernelMap w).1),
   (spec_createModule onload k modprobe inTree getKernelMap w).2).
Proof using laws.
  unfold createAndAddModule, spec_createModule, object_key. simpl.
  destruct (named module_meta _ (cl_modules w)) as [m|]; [done|]. simpl.
  rewrite IsNotFound_error. simpl. by rewrite owned_law.
Qed.

Lemma createAndAddModules_implements :
  implements (createAndAddModules onload) (spec_createModules onload).
Proof using laws.
  intros w _. unfold createAndAddModules, spec_createModules, then_do.
  rewrite denote_bind, (createAndAddModule_denote KmmOnload).
  destruct (spec_createModule onload KmmOnload _ _ _ w) as [[] w1]; [|done|done]. simpl.
  destruct (onloadUsesSFC onload); [|done]. apply (createAndAddModule_denote KmmSFC).
Qed.

Lemma createDevicePluginDaemonSet_implements image :
  implements (createDevicePluginDaemonSet image onload) (spec_createDaemonSet image onload).
Proof using laws.
  intros w _. unfold createDevicePluginDaemonSet, spec_createDaemonSet, object_key. simpl.
  unfold devicePluginName.
  destruct (named ds_meta _ (cl_daemonsets w)) as [d|]; [done|]. simpl.
  rewrite IsNotFound_error. simpl. by rewrite owned_law.
Qed.

(** The objects of the resource exist. *)
Definition module_exists k w : Prop :=
  is_Some (named module_meta (object_key onload (module_suffix k)) (cl_modules w)).
Definition modules_exist w : Prop :=
  module_exists KmmOnload w ∧ (onloadUsesSFC onload = true → module_exists KmmSFC w).
Definition daemonset_exists w : Prop :=
  is_Some (named ds_meta (object_key onload devicePluginNameSuffix) (cl_daemonsets w)).

Lemma named_elem {A} (meta : A → ObjectMeta) nn l a : named meta nn l = Some a → a ∈ l.
Proof. intros Hf%find_some. apply list_elem_of_In, Hf. Qed.

Lemma daemonset_upgraded_ok d : daemonset_ok d = true → ∃ d', daemonset_upgraded onload d = inr d'.
Proof.
  unfold daemonset_ok, daemonset_upgraded. destruct (meta_Labels (ds_meta d)); [simpl|done].
  destruct (ps_InitContainers _); [done|eauto].
Qed.

Lemma handleDevicePluginUpdate_denote w :
  wf w → daemonset_exists w →
  denote serve (handleDevicePluginUpdate onload) w =
  (Done (phase_of (spec_updateDaemonSet onload w).1), (spec_updateDaemonSet onload w).2).
Proof.
  intros Hw [d Hd]. unfold handleDevicePluginUpdate, spec_updateDaemonSet. rewrite Hd. simpl.
  unfold object_key in Hd. rewrite Hd. simpl. unfold ds_at_target. case_bool_decide; [done|].
  pose proof (wf_daemonsets _ Hw) as Hok. rewrite Forall_forall in Hok.
  by destruct (daemonset_upgraded_ok d (Hok d (named_elem _ _ _ _ Hd))) as [d' ->].
Qed.

Lemma patchOrDeleteModule_denote k used getKernelMap w :
  (used = true → module_exists k w) →
  denote serve (patchOrDeleteModule onload used (onload_Name onload +:+ module_suffix k) getKernelMap) w =
  (Done (phase_of (spec_updateModule onload k used getKernelMap w).1),
   (spec_updateModule onload k used getKernelMap w).2).
Proof.
  intros Hex. unfold patchOrDeleteModule, spec_updateModule, module_exists, object_key in *. simpl.
  destruct (named module_meta _ (cl_modules w)) as [m|] eqn:Hm.
  - simpl. destruct used; [|done]. unfold patchModule, module_at_target. by case_bool_decide.
  - simpl. rewrite IsNotFound_error. destruct used; [by destruct (Hex eq_refl)|done].
Qed.

(** *** Nodes in an upgrade *)

Lemma evict_loop_denote pods w :
  denote serve (evict_loop pods) w =
  (Done None, evict_all (List.filter (λ p, negb (pod_terminating p)) pods) w).
Proof.
  revert w. induction pods as [|p pods IH]; intros w; [by destruct w|]. simpl.
  destruct (pod_terminating p); simpl; apply IH.
Qed.

Lemma evictOnloadedPods_denote n w :
  denote serve (evictOnloadedPods n) w =
  let users := List.filter pod_uses_onload (pods_on w n) in
  if bool_decide (users = []) then (Done phase_nothing, w)
  else (Done (phase_stop requeue_after_default),
        evict_all (List.filter (λ p, negb (pod_terminating p)) users) w).
Proof.
  unfold evictOnloadedPods. rewrite denote_bind. cbv zeta.
  change (denote serve (getPodsUsingOnload n) w)
    with (Done (A:=error + list Pod) (inr (List.filter pod_uses_onload (pods_on w n))), w).
  cbv beta iota. destruct (List.filter pod_uses_onload (pods_on w n)) as [|p ps]; [done|].
  rewrite !bool_decide_eq_false_2 by done. by rewrite denote_bind, evict_loop_denote.
Qed.

Lemma spec_drain_denote n w :
  denote serve (
    got ← getPodsOnNode (devicePluginPodSet onload) (node_Name n);
    match got with
    | inl err => mret (phase_error err)
    | inr (_ :: _) => mret (phase_stop requeue_after_default)
    | inr [] =>
        res ← evictOnloadedPods n;
        if returns_early res then mret res else
        '(err, labels) ← deleteLabelFromNode n (key onload KmmSFC);
        match err with
        | Some err => mret (phase_error err)
        | None =>
            '(err, _) ← deleteLabelFromNode (node_with_Labels n labels) (key onload KmmOnload);
            match err with
            | Some err => mret (phase_error err)
            | None => mret (phase_stop requeue)
            end
        end
    end) w =
  (Done (phase_of (spec_drain onload n w).1), (spec_drain onload n w).2).
Proof.
  unfold spec_drain, plugin_on. rewrite denote_bind, den_getPodsOnNode. cbv beta iota.
  rewrite <-existsb_filter_nonempty. destruct (List.filter _ (cl_pods w)); [|done].
  rewrite denote_bind, evictOnloadedPods_denote. cbv zeta. case_bool_decide; [|done]. cbv beta iota.
  change (returns_early phase_nothing) with false. cbv beta iota.
  rewrite denote_bind, den_deleteLabelFromNode. cbv beta iota.
  rewrite denote_bind, den_deleteLabelFromNode. cbv beta iota.
  by rewrite put_node_twice by apply same_id_labels.
Qed.

Lemma handleNodeUpdate_denote n w :
  denote serve (handleNodeUpdate onload n) w =
  (Done (phase_of (spec_upgradeNode onload n w).1), (spec_upgradeNode onload n w).2).
Proof.
  unfold handleNodeUpdate, spec_upgradeNode.
  change (gomap_get (node_Labels n) _) with (label onload n Operator).
  destruct (label onload n Operator) as [v|]; [|apply spec_drain_denote].
  case_bool_decide; [done|apply spec_drain_denote].
Qed.

Lemma getNodesToUpgrade_denote w :
  denote serve (getNodesToUpgrade onload) w = (Done (inr (outdated onload w)), w).
Proof using laws.
  unfold getNodesToUpgrade. rewrite denote_bind, (den_listNodes_key _ laws KmmOnload). simpl.
  do 3 f_equal. unfold outdated. induction (cl_nodes w) as [|n ns IH]; [done|]. simpl.
  destruct (has onload n KmmOnload); simpl; [|done].
  replace (needs_upgrade onload n) with (negb (at_target onload n)); [by rewrite IH|].
  unfold needs_upgrade, at_target. by rewrite bool_decide_not.
Qed.

(** The update of nodes after the objects. *)
Lemma upgradeNext_denote w :
  denote serve (
    got ← getNodesToUpgrade onload;
    match got with
    | inl err => mret (phase_error err)
    | inr nodesToUpgrade =>
        if bool_decide (length nodesToUpgrade = 0) then mret phase_nothing else
        match MinFunc compare_names nodesToUpgrade with
        | None => Halt (Panic "slices.MinFunc: empty list")
        | Some node => handleNodeUpdate onload node
        end
    end) w =
  (Done (phase_of (spec_upgradeNext onload w).1), (spec_upgradeNext onload w).2).
Proof using laws.
  rewrite denote_bind, getNodesToUpgrade_denote. cbv beta iota. unfold spec_upgradeNext.
  destruct (outdated onload w) as [|n ns]; [done|]. rewrite bool_decide_eq_false_2 by done.
  destruct (MinFunc compare_names (n :: ns)) eqn:Hm; [apply handleNodeUpdate_denote|].
  by destruct (MinFunc_nonempty node_Name (n :: ns)) as [m Hm'].
Qed.

(** *** What a phase without work leaves *)

Lemma spec_createModule_nothing k modprobe inTree getKernelMap w w' :
  spec_createModule onload k modprobe inTree getKernelMap w = (Nothing, w') → w' = w ∧ module_exists k w.
Proof.
  unfold spec_createModule, module_exists. destruct (named module_meta _ _); [|done].
  intros [= <-]. eauto.
Qed.

Lemma spec_createModules_nothing w w' :
  spec_createModules onload w = (Nothing, w') → w' = w ∧ modules_exist w.
Proof.
  unfold spec_createModules, then_do, modules_exist.
  destruct (spec_createModule onload KmmOnload _ _ _ w) as [[] w1] eqn:H1; [|done|done].
  apply spec_createModule_nothing in H1 as [-> H1]. destruct (onloadUsesSFC onload).
  - intros [-> H2]%spec_createModule_nothing. auto.
  - intros [= <-]. done.
Qed.

Lemma spec_createDaemonSet_nothing image w w' :
  spec_createDaemonSet image onload w = (Nothing, w') → w' = w ∧ daemonset_exists w.
Proof.
  unfold spec_createDaemonSet, daemonset_exists. destruct (named ds_meta _ _); [|done].
  intros [= <-]. eauto.
Qed.

Lemma spec_updateDaemonSet_nothing w w' : spec_updateDaemonSet onload w = (Nothing, w') → w' = w.
Proof.
  unfold spec_updateDaemonSet. destruct (named _ _ _); [|congruence].
  destruct (ds_at_target _ _); [congruence|]. destruct (daemonset_upgraded _ _); congruence.
Qed.

Lemma spec_updateModule_nothing k used getKernelMap w w' :
  spec_updateModule onload k used getKernelMap w = (Nothing, w') → w' = w.
Proof.
  unfold spec_updateModule. destruct (named _ _ _), used; try destruct (module_at_target _ _); congruence.
Qed.

Lemma spec_addOnload_objects w :
  cl_modules (spec_addOnload onload w).2 = cl_modules w ∧
  cl_daemonsets (spec_addOnload onload w).2 = cl_daemonsets w.
Proof. unfold spec_addOnload, then_do, change_nodes at 1 2. by destruct (existsb _ _). Qed.

Lemma wf_spec_removeStale k w : wf w → wf (spec_removeStale onload k w).2.
Proof. intros Hw. apply wf_change_nodes; [done|]. intros n. apply relabelled_unset. Qed.

Lemma wf_spec_addKmm w : wf w → wf (spec_addKmm onload w).2.
Proof.
  intros Hw. unfold spec_addKmm.
  pose proof (wf_relabelled w _ Hw (label_all_relabelled onload w (cl_nodes w))) as Hw'.
  destruct (label_all onload w (cl_nodes w)) as [[ns c] b]. simpl in Hw'.
  destruct b; [done|]. destruct c; [done|]. unfold then_do.
  apply (wf_spec_removeStale KmmOnload) in Hw'.
  destruct (spec_removeStale onload KmmOnload _) as [[] w1]; [|done|done]. by apply wf_spec_removeStale.
Qed.

Lemma wf_spec_addOnload w : wf w → wf (spec_addOnload onload w).2.
Proof.
  intros Hw. unfold spec_addOnload, then_do.
  apply (wf_change_nodes (λ n, selects onload n && (at_target onload n && negb (has onload n Operator)))
           (set_label onload Operator)) in Hw; [|intros n; apply relabelled_set].
  destruct (change_nodes _ _ w) as [[] w1]; [|done|done]. by apply wf_spec_removeStale.
Qed.

(** *** A reconciliation *)

(** Goes on after a phase that had nothing to do. *)
Ltac nothing_done :=
  cbn [fst snd]; change (returns_early (phase_of Nothing)) with false; cbv beta iota.

Lemma handleUpdate_denote w :
  wf w → daemonset_exists w → modules_exist w →
  denote serve (handleUpdate onload) w =
  (Done (phase_of (spec_update onload w).1), (spec_update onload w).2).
Proof using laws.
  intros Hw Hd [Hm Hs]. unfold handleUpdate, spec_update, then_do.
  rewrite denote_bind, handleDevicePluginUpdate_denote by done.
  destruct (spec_updateDaemonSet onload w) as [[] w1] eqn:H1; [|done|done].
  apply spec_updateDaemonSet_nothing in H1 as ->. nothing_done.
  unfold handleModuleUpdate. rewrite !denote_bind, (patchOrDeleteModule_denote KmmOnload) by done.
  destruct (spec_updateModule onload KmmOnload _ _ w) as [[] w1] eqn:H1; [|done|done].
  apply spec_updateModule_nothing in H1 as ->. nothing_done.
  rewrite (patchOrDeleteModule_denote KmmSFC) by done.
  destruct (spec_updateModule onload KmmSFC _ _ w) as [[] w1] eqn:H1; [|done|done].
  apply spec_updateModule_nothing in H1 as ->. apply upgradeNext_denote.
Qed.

Lemma then_phase_denote (p : prog clientS phase_result) (f : transform) k w :
  denote serve p w = (Done (phase_of (f w).1), (f w).2) →
  denote serve (then_phase p k) w =
  match f w with
  | (Nothing, w') => denote serve k w'
  | (v, w') => (Done (result_of v, None), w')
  end.
Proof. intros Hp. unfold then_phase. rewrite denote_bind, Hp. by destruct (f w) as [[] w']. Qed.

Lemma reconcile_onload_denote image w :
  wf w → meta_DeletionTimestamp (onload_meta onload) = None → name_too_long onload = false →
  denote serve (reconcile_onload image onload) w =
  let '(v, w') := spec_live image onload w in (Done (result_of v, None), w').
Proof using laws.
  intros Hw Hd Hn. unfold reconcile_onload, spec_live, then_do. rewrite Hd, Hn. simpl non_nil. cbv beta iota.
  erewrite then_phase_denote by by apply addKmmLabelsToNodes_implements.
  apply wf_spec_addKmm in Hw. destruct (spec_addKmm onload w) as [[] w1]; [|done|done]. simpl in Hw.
  erewrite then_phase_denote by by apply createAndAddModules_implements.
  destruct (spec_createModules onload w1) as [[] w1'] eqn:H1; [|done|done].
  apply spec_createModules_nothing in H1 as [-> Hm].
  erewrite then_phase_denote by by apply addOnloadLabelsToNodes_implements.
  pose proof (wf_spec_addOnload w1 Hw) as Hw2. destruct (spec_addOnload_objects w1) as [Hmod _].
  destruct (spec_addOnload onload w1) as [[] w2]; [|done|done]. simpl in Hw2, Hmod.
  erewrite then_phase_denote by by apply createDevicePluginDaemonSet_implements.
  destruct (spec_createDaemonSet image onload w2) as [[] w3] eqn:H3; [|done|done].
  apply spec_createDaemonSet_nothing in H3 as [-> Hds].
  erewrite then_phase_denote by (apply handleUpdate_denote; [done|done|];
    unfold modules_exist, module_exists in *; by rewrite Hmod).
  by destruct (spec_update onload w2) as [[] w4].
Qed.

(** *** Well-formedness through the objects and the upgrade *)

Lemma wf_put_node w n n' :
  wf w → n ∈ cl_nodes w → relabelled n n' → wf (put_node n' w).
Proof.
  intros Hw Hn [Hs Hr]. pose proof (wf_labels _ Hw) as Hl. rewrite Forall_forall in Hl.
  apply (wf_map w (λ m, if same_name (node_meta m) (node_meta n') then n' else m)); [done|].
  intros m. destruct (same_name _ _) eqn:Hm; [|apply relabelled_refl]. split; [done|].
  intros _. by apply Hr, Hl.
Qed.

Lemma wf_daemonsets_change w ds :
  wf w → Forall (λ d, daemonset_ok d = true) ds → wf (with_daemonsets w ds).
Proof. by intros [Hn Hl _] Hd. Qed.

Lemma daemonset_upgraded_is_ok d d' : daemonset_upgraded onload d = inr d' → daemonset_ok d' = true.
Proof.
  unfold daemonset_upgraded, daemonset_ok. destruct (meta_Labels (ds_meta d)); simpl; [|done].
  destruct (ps_InitContainers _); [done|]. by intros [= <-].
Qed.

Lemma wf_spec_createDaemonSet image w : wf w → wf (spec_createDaemonSet image onload w).2.
Proof using laws.
  intros Hw. unfold spec_createDaemonSet. destruct (named _ _ _); [done|].
  apply wf_daemonsets_change; [done|]. apply Forall_app. split; [apply Hw|].
  constructor; [|constructor]. unfold daemonset_ok, owned.
  destruct (law_owner _ laws (ds_meta (devicePluginDaemonSet image onload)) eq_refl)
    as (m' & -> & _ & _ & Hl). simpl. by rewrite Hl.
Qed.

Lemma wf_spec_updateDaemonSet w : wf w → wf (spec_updateDaemonSet onload w).2.
Proof.
  intros Hw. unfold spec_updateDaemonSet. destruct (named _ _ _) as [d|]; [|done].
  destruct (ds_at_target _ _); [done|]. destruct (daemonset_upgraded onload d) as [|d'] eqn:Hd; [done|].
  apply wf_daemonsets_change; [done|]. apply Forall_map, (Forall_impl _ _ _ (wf_daemonsets _ Hw)).
  intros d0 Hd0. simpl. destruct (same_name _ _); [by apply daemonset_upgraded_is_ok in Hd|done].
Qed.

Lemma outdated_next w n :
  MinFunc compare_names (outdated onload w) = Some n → n ∈ outdated onload w ∧ n ∈ cl_nodes w.
Proof.
  intros [Hin _]%(MinFunc_spec node_Name). split; [by apply list_elem_of_In|].
  apply filter_In in Hin as [Hin _]. by apply list_elem_of_In.
Qed.

Lemma wf_spec_upgradeNext w : wf w → wf (spec_upgradeNext onload w).2.
Proof.
  intros Hw. unfold spec_upgradeNext. destruct (MinFunc _ _) as [n|] eqn:Hm; [|done].
  apply outdated_next in Hm as [_ Hn].
  assert (wf (spec_drain onload n w).2) as Hdrain.
  { unfold spec_drain. destruct (plugin_on _ _ _); [done|]. case_bool_decide.
    - apply (wf_put_node w n); [done|done|]. eapply relabelled_trans; apply relabelled_unset.
    - by destruct Hw. }
  unfold spec_upgradeNode. destruct (label onload n Operator); [|done]. case_bool_decide; [|done].
  apply (wf_put_node w n); [done|done|apply relabelled_unset].
Qed.

Lemma wf_then_do (f g : transform) w :
  (∀ w, wf w → wf (f w).2) → (∀ w, wf w → wf (g w).2) → wf w → wf (then_do f g w).2.
Proof.
  intros Hf Hg Hw. unfold then_do. specialize (Hf w Hw). destruct (f w) as [[] w']; [by apply Hg|done|done].
Qed.

Lemma wf_spec_modules w : wf w → wf (spec_createModules onload w).2.
Proof.
  apply wf_then_do; clear w; intros w Hw.
  - unfold spec_createModule. destruct (named _ _ _); [done|]. by destruct Hw.
  - destruct (onloadUsesSFC onload); [|done].
    unfold spec_createModule. destruct (named _ _ _); [done|]. by destruct Hw.
Qed.

Lemma wf_spec_updateModule k used getKernelMap w : wf w → wf (spec_updateModule onload k used getKernelMap w).2.
Proof.
  intros Hw. unfold spec_updateModule. destruct (named _ _ _); [|done].
  destruct used; [destruct (module_at_target _ _)|]; by destruct Hw.
Qed.

Lemma wf_spec_live image w : wf w → wf (spec_live image onload w).2.
Proof using laws.
  unfold spec_live, spec_update.
  repeat (apply wf_then_do; [clear w|clear w; intros w]); auto using wf_spec_addKmm, wf_spec_modules,
    wf_spec_addOnload, wf_spec_createDaemonSet, wf_spec_updateDaemonSet, wf_spec_updateModule,
    wf_spec_upgradeNext.
Qed.
End resource.

(** ** A resource that is gone *)

Lemma unlabel_absent key n : has_key key n = false → unlabel key n = n.
Proof.
  unfold has_key, unlabel, node_with_Labels, with_Labels. destruct n as [[? ? ? [l|] ? ?]]; simpl; [|done].
  intros Hk. rewrite delete_id; [done|]. by destruct (l !! key).
Qed.

Lemma deleteLabel_loop_denote key pre ns w :
  NoDup (map node_Name (pre ++ ns)) →
  denote serve (deleteLabel_loop (List.filter (has_key key) ns) key) (with_nodes w (pre ++ ns)) =
  (Done (), with_nodes w (pre ++ map (unlabel key) ns)).
Proof.
  revert pre. induction ns as [|n ns IH]; intros pre Hd; [done|]. cbn [List.filter map].
  assert (NoDup (map node_Name ((pre ++ [unlabel key n]) ++ ns))) as Hd'.
  { rewrite <-(assoc_L app). simpl. by rewrite (names_at pre n (unlabel key n)) by apply same_id_labels. }
  specialize (IH _ Hd'). rewrite <-!(assoc_L app) in IH. simpl in IH.
  destruct (has_key key n) eqn:Hk.
  - unfold deleteLabel_loop; fold deleteLabel_loop. rewrite denote_bind, den_deleteLabelFromNode, put_node_at; [exact IH|done|].
    apply same_id_labels.
  - rewrite unlabel_absent in * by done. exact IH.
Qed.

Lemma deleteLabel_denote key sel w :
  wf w → labels_Parse key = inr sel → (∀ l, Matches sel l = non_nil (gomap_get l key)) →
  denote serve (deleteLabel key) w = (Done None, with_nodes w (map (unlabel key) (cl_nodes w))).
Proof.
  intros Hw Hs Hm. unfold deleteLabel, listNodesWithLabels. rewrite Hs, denote_bind. simpl.
  rewrite denote_bind. rewrite (filter_ext _ (has_key key)) by (intros n; apply Hm).
  pose proof (deleteLabel_loop_denote key [] (cl_nodes w) w (wf_names _ Hw)) as Hl.
  rewrite !app_nil_l, with_nodes_id in Hl. by rewrite Hl.
Qed.

Lemma deleteLabels_denote req w :
  wf w → parses_keys (nn_Name req) (nn_Namespace req) →
  denote serve (deleteLabels req) w = (Done None, spec_forget (nn_Name req) (nn_Namespace req) w).
Proof.
  intros Hw Hk. unfold deleteLabels.
  destruct (Hk KmmOnload) as (sel1 & Hs1 & Hm1), (Hk KmmSFC) as (sel2 & Hs2 & Hm2),
    (Hk Operator) as (sel3 & Hs3 & Hm3).
  assert (∀ w key, wf w → wf (with_nodes w (map (unlabel key) (cl_nodes w)))) as Hwf.
  { intros w' key Hw'. apply wf_map; [done|]. intros n. apply relabelled_unset. }
  rewrite denote_bind, (deleteLabel_denote _ sel1) by done. cbv beta iota.
  rewrite denote_bind, (deleteLabel_denote _ sel2) by auto. cbv beta iota.
  rewrite denote_bind, (deleteLabel_denote _ sel3) by auto. cbv beta iota.
  unfold spec_forget. simpl. by rewrite !map_map.
Qed.

(** What is assumed for a request: of the resource, if it is there, the laws of the
    libraries and a name within the limit; of the key otherwise. *)
Definition request_ok (req : NamespacedName) w : Prop :=
  match named onload_meta req (cl_onloads w) with
  | Some onload => library_laws onload ∧ name_too_long onload = false
  | None => parses_keys (nn_Name req) (nn_Namespace req)
  end.

Lemma Reconcile_denote image req w :
  denote serve (Reconcile image req) w =
  match named onload_meta req (cl_onloads w) with
  | Some onload => denote serve (reconcile_onload image onload) w
  | None => denote serve (reconcile_unread req not_found_error) w
  end.
Proof.
  unfold Reconcile. rewrite denote_bind.
  change (denote serve (get_onload req) w)
    with (Done (A:=ext_error + Onload) (found (named onload_meta req (cl_onloads w))), w).
  unfold found. cbv beta iota. destruct (named onload_meta req (cl_onloads w)); cbv beta iota; done.
Qed.

(** C2. Against a server whose replies are current and do not fail, [Reconcile]
    returns without an error, and what it returns and does to the cluster is
    exactly the transformation [spec_reconcile]: its loops over listings, its
    sharing of label maps and its early returns add up to one pass over the nodes
    for each phase. *)
Theorem reconcile_refines image req w :
  wf w → request_ok req w →
  denote serve (Reconcile image req) w =
  (Done ((spec_reconcile image req w).1, None), (spec_reconcile image req w).2).
Proof.
  intros Hw Hreq. rewrite Reconcile_denote. unfold spec_reconcile, request_ok in *.
  destruct (named onload_meta req (cl_onloads w)) as [onload|].
  - destruct Hreq as [Hlaws Hn]. destruct (meta_DeletionTimestamp (onload_meta onload)) eqn:Hd; simpl non_nil.
    + unfold reconcile_onload. by rewrite Hd.
    + rewrite reconcile_onload_denote by done. by destruct (spec_live image onload w).
  - unfold reconcile_unread. by rewrite IsNotFound_error, denote_bind, deleteLabels_denote.
Qed.

Lemma wf_spec_forget name namespace w : wf w → wf (spec_forget name namespace w).
Proof.
  intros Hw. apply (wf_map w (λ n, unlabel _ (unlabel _ (unlabel _ n)))); [done|]. intros n.
  eapply relabelled_trans; [|apply relabelled_unset]. eapply relabelled_trans; apply relabelled_unset.
Qed.

(** C9. A reconciliation keeps the cluster well-formed, whether the resource is
    there, is being deleted or is gone: the names of the nodes stay unique, no node
    loses its label map, and the DaemonSets keep the labels and the init container
    that an upgrade writes to without a check. *)
Theorem reconcile_wf image req w :
  wf w → request_ok req w → wf (denote serve (Reconcile image req) w).2.
Proof.
  intros Hw Hreq. rewrite Reconcile_denote. unfold request_ok in *.
  destruct (named onload_meta req (cl_onloads w)) as [onload|].
  - destruct Hreq as [Hlaws Hn]. destruct (meta_DeletionTimestamp (onload_meta onload)) eqn:Hd.
    + unfold reconcile_onload. by rewrite Hd.
    + rewrite reconcile_onload_denote by done. pose proof (wf_spec_live onload Hlaws image w Hw) as Hw'.
      by destruct (spec_live image onload w).
  - unfold reconcile_unread. rewrite IsNotFound_error, denote_bind, deleteLabels_denote by done.
    by apply wf_spec_forget.
Qed.
End refinement.

(** ** A resource that satisfies the laws *)

Lemma sample_parses_keys : parses_keys "onload" "ns".
Proof.
  intros k. exists [(label_of k "onload" "ns", None)]. split; [by destruct k|].
  intros l. simpl. apply andb_true_r.
Qed.

Lemma sample_laws version sfc : library_laws (sample_onload version sfc).
Proof.
  split.
  - apply sample_parses_keys.
  - exists [("key", Some "value")]. split; [vm_compute; reflexivity|]. intros l.
    change (bool_decide (gomap_get l "key" = Some "value") && true =
            bool_decide (map_Forall (λ x v, gomap_get l x = Some v)
              ({[ "key" := "value" ]} : gmap string string))).
    rewrite andb_true_r. apply bool_decide_ext. by rewrite map_Forall_singleton.
  - intros m _. by eexists.
Qed.

(** A cluster with an upgrade to do. *)
Definition sample_upgrade : cluster :=
  settled_cluster (sample_onload "v2" (Some MkSFCSpec)) [labelled_node "n1" "v1"; sample_node "n2" ∅] [].

Lemma sample_upgrade_wf : wf sample_upgrade.
Proof. split; [repeat constructor; set_solver|by repeat constructor|by repeat constructor]. Qed.

Lemma reconcile_refines_witness :
  wf sample_upgrade ∧ request_ok sample_key sample_upgrade ∧
  denote serve (Reconcile sample_image sample_key) sample_upgrade =
  (Done (requeue, None),
   (spec_reconcile sample_image sample_key sample_upgrade).2) ∧
  map (λ n, (node_Name n, gomap_get (node_Labels n) (onloadLabelName "onload" "ns")))
    (cl_nodes (spec_reconcile sample_image sample_key sample_upgrade).2) =
  [("n1", None); ("n2", None)].
Proof.
  assert (request_ok sample_key sample_upgrade) as Hreq by (split; [apply sample_laws|reflexivity]).
  split_and!; [apply sample_upgrade_wf|exact Hreq| |vm_compute; reflexivity].
  exact (reconcile_refines sample_image sample_key sample_upgrade sample_upgrade_wf Hreq).
Defined.

Lemma reconcile_wf_witness :
  wf sample_upgrade ∧ request_ok sample_key sample_upgrade ∧
  wf (denote serve (Reconcile sample_image sample_key) sample_upgrade).2.
Proof.
  assert (request_ok sample_key sample_upgrade) as Hreq by (split; [apply sample_laws|reflexivity]).
  split_and!; [apply sample_upgrade_wf|exact Hreq|].
  exact (reconcile_wf sample_image sample_key sample_upgrade sample_upgrade_wf Hreq).
Defined.
