(* ===== verification/NodeMachine.v ===== *)
(** * The life of a node

    The states of a node, as far as one resource is concerned, are its three
    labels.  [node_step] is the state machine of the specification: the steps the
    operator may take with a node, each with its guard.  Each brings the node
    nearer to where the resource wants it, by a measure; every reconciliation moves
    every node along these steps only. *)

From S2P Require Import Prelude GoStd Effects ApiTypes Client ApiServer Labels Modules NodeLabels DevicePluginDS Upgrade Reconcile ClusterSpec RefineLabels Refinement.
From stdpp Require Import relations.
From stdpp Require Import options.

Local Open Scope list_scope.

Section machine.
Context `{ApiErrors}.
Context (onload : Onload).
Implicit Types (n : Node) (k : label_kind) (w : cluster).

(** The module is loaded at another version. *)
Definition outdated_node n : bool := has onload n KmmOnload && negb (at_target onload n).

Inductive node_step : Node → Node → Prop :=
  | step_load n :
      selects onload n = true → has onload n KmmOnload = false →
      node_step n (set_label onload KmmOnload n)
  | step_load_sfc n :
      selects onload n = true → onloadUsesSFC onload = true → at_target onload n = true →
      has onload n KmmSFC = false →
      node_step n (set_label onload KmmSFC n)
  | step_admit n :
      selects onload n = true → at_target onload n = true → has onload n Operator = false →
      node_step n (set_label onload Operator n)
  | step_stale k n :
      selects onload n = false → has onload n k = true →
      node_step n (unset_label onload k n)
  | step_expel n v :
      outdated_node n = true → label onload n Operator = Some v → v ≠ onload_Version onload →
      node_step n (unset_label onload Operator n)
  | step_unload n :
      outdated_node n = true →
      (∀ v, label onload n Operator = Some v → v = onload_Version onload) →
      node_step n (unset_label onload KmmOnload (unset_label onload KmmSFC n)).

(** ** Labels after a step *)

Lemma key_inj k k' : key onload k = key onload k' → k = k'.
Proof. apply label_of_kind_inj. Qed.

Lemma label_set_eq k n : label onload (set_label onload k n) k = Some (onload_Version onload).
Proof. apply lookup_insert_eq. Qed.

Lemma label_set_ne k k' n : k ≠ k' → label onload (set_label onload k n) k' = label onload n k'.
Proof.
  intros Hk. unfold label, set_label. simpl.
  rewrite lookup_insert_ne by (intros ?%key_inj; done). by destruct (node_Labels n).
Qed.

Lemma label_unset_eq k n : label onload (unset_label onload k n) k = None.
Proof. apply gomap_get_delete_eq. Qed.

Lemma label_unset_ne k k' n : k ≠ k' → label onload (unset_label onload k n) k' = label onload n k'.
Proof. intros Hk. apply gomap_get_delete_ne. by intros ?%key_inj. Qed.

(** The resource does not select by the operator's own labels. *)
Definition selector_apart : Prop := ∀ k, onload_Selector onload !! key onload k = None.
Context (apart : selector_apart).

Lemma selects_other n l' :
  (∀ x, (∀ k, x ≠ key onload k) → gomap_get l' x = gomap_get (node_Labels n) x) →
  selects onload (node_with_Labels n l') = selects onload n.
Proof using apart.
  intros Hx. unfold selects. apply bool_decide_ext. simpl.
  split; intros Hm x v Hv.
  - rewrite <-Hx; [by apply Hm|]. intros k ->. by rewrite apart in Hv.
  - rewrite Hx; [by apply Hm|]. intros k ->. by rewrite apart in Hv.
Qed.

Lemma selects_set k n : selects onload (set_label onload k n) = selects onload n.
Proof using apart.
  apply selects_other. intros x Hx. simpl. rewrite lookup_insert_ne by (intros Hk; by apply (Hx k)).
  by destruct (node_Labels n).
Qed.

Lemma selects_unset k n : selects onload (unset_label onload k n) = selects onload n.
Proof using apart.
  apply selects_other. intros x Hx. apply gomap_get_delete_ne. intros Hk. by apply (Hx k).
Qed.

(** ** The measure *)

Definition missing n k : nat := if has onload n k then 0 else 1.
Definition present n k : nat := if has onload n k then 1 else 0.
Definition sfc_missing n : nat := if onloadUsesSFC onload then missing n KmmSFC else 0.

(** How many steps the node has to take, at most. *)
Definition node_work n : nat :=
  if selects onload n then
    if outdated_node n then 4 + present n KmmSFC + present n Operator
    else missing n KmmOnload + sfc_missing n + missing n Operator
  else present n KmmOnload + present n KmmSFC + present n Operator.

(** Rewrites the labels after a step, and takes the measure apart. *)
Ltac node_cases :=
  unfold node_work, outdated_node, at_target, sfc_missing, missing, present, has in *;
  rewrite ?selects_set, ?selects_unset;
  repeat (rewrite label_set_eq || rewrite label_unset_eq ||
          (rewrite label_set_ne by done) || (rewrite label_unset_ne by done)).

Lemma node_step_work n n' : node_step n n' → node_work n' < node_work n.
Proof using apart.
  intros Hs. destruct Hs as [n Hsel Hl|n Hsel Hu Ht Hl|n Hsel Ht Hl|k n Hsel Hl|n v Ho Hl Hv|n Ho Hv].
  - node_cases. rewrite Hsel. destruct (label onload n KmmOnload); [done|]. simpl.
    rewrite bool_decide_eq_true_2 by done. simpl. lia.
  - node_cases. rewrite Hsel, Hu, !Ht; simpl; rewrite !andb_false_r. destruct (label onload n KmmSFC); [done|]. simpl. lia.
  - node_cases. rewrite Hsel, !Ht; simpl; rewrite !andb_false_r. destruct (label onload n Operator); [done|]. simpl. lia.
  - destruct k; node_cases; rewrite Hsel, Hl; simpl; lia.
  - node_cases. rewrite Ho, Hl. apply andb_true_iff in Ho as [-> _]. simpl. destruct (selects onload n); lia.
  - node_cases. rewrite Ho. apply andb_true_iff in Ho as [-> _]. simpl.
    destruct (selects onload n), (onloadUsesSFC onload), (non_nil (label onload n Operator)),
      (non_nil (label onload n KmmSFC)); lia.
Qed.

(** ** Invariants of the machine *)

Lemma node_step_selects n n' : node_step n n' → selects onload n' = selects onload n.
Proof using apart.
  intros Hs. by destruct Hs; rewrite ?selects_set, ?selects_unset.
Qed.

(** The labels of a node agree on the version, and without the module's label a
    node that is to be used has none. *)
Definition coherent n : Prop :=
  ∀ k v, k ≠ KmmOnload → label onload n k = Some v →
    match label onload n KmmOnload with
    | Some u => u = v
    | None => selects onload n = false
    end.

Lemma at_target_Some n :
  onload_Version onload ≠ "" → at_target onload n = true →
  label onload n KmmOnload = Some (onload_Version onload).
Proof.
  intros Hv Ht%bool_decide_eq_true. destruct (label onload n KmmOnload) as [v|]; simpl in *; congruence.
Qed.

Lemma coherent_alone n :
  coherent n → selects onload n = true → label onload n KmmOnload = None →
  ∀ k, label onload n k = None.
Proof.
  intros Hc Hs Hl k. destruct (decide (k = KmmOnload)) as [->|Hk]; [done|].
  destruct (label onload n k) as [v|] eqn:Hv; [|done].
  pose proof (Hc k v Hk Hv) as Hu. rewrite Hl in Hu. congruence.
Qed.

Lemma has_false n k : has onload n k = false → label onload n k = None.
Proof. unfold has. by destruct (label onload n k). Qed.

Lemma coherent_set k n :
  k ≠ KmmOnload → label onload n KmmOnload = Some (onload_Version onload) → coherent n →
  coherent (set_label onload k n).
Proof using apart.
  intros Hk Hl Hc k' v Hk' Hv. rewrite selects_set, label_set_ne by done.
  destruct (decide (k = k')) as [->|Hne].
  - rewrite label_set_eq in Hv. rewrite Hl. congruence.
  - rewrite label_set_ne in Hv by done. by apply (Hc k').
Qed.

Lemma coherent_unset k n : k ≠ KmmOnload → coherent n → coherent (unset_label onload k n).
Proof using apart.
  intros Hk Hc k' v Hk' Hv. rewrite selects_unset, label_unset_ne by done.
  destruct (decide (k = k')) as [->|Hne]; [by rewrite label_unset_eq in Hv|].
  rewrite label_unset_ne in Hv by done. by apply (Hc k').
Qed.

(** The module's label goes from a node that is not selected, or as the last. *)
Lemma coherent_unset_module n :
  selects onload n = false ∨ (∀ k, k ≠ KmmOnload → label onload n k = None) →
  coherent (unset_label onload KmmOnload n).
Proof using apart.
  intros Hn k v Hk Hv. rewrite label_unset_ne in Hv by done.
  rewrite selects_unset, label_unset_eq. destruct Hn as [Hn|Hn]; [done|].
  by rewrite Hn in Hv.
Qed.

Lemma coherent_load n :
  coherent n → selects onload n = true → label onload n KmmOnload = None →
  coherent (set_label onload KmmOnload n).
Proof.
  intros Hc Hs Hl k v Hk Hv. rewrite label_set_ne in Hv by done.
  by rewrite coherent_alone in Hv.
Qed.

(** A node that is unloaded has lost the operator's label before. *)
Lemma coherent_outdated n :
  coherent n → outdated_node n = true →
  (∀ v, label onload n Operator = Some v → v = onload_Version onload) →
  label onload n Operator = None.
Proof.
  intros Hc [Hm Ht%negb_true_iff]%andb_true_iff Hv. unfold has, at_target in *.
  destruct (label onload n Operator) as [v|] eqn:Ho; [|done].
  pose proof (Hc Operator v ltac:(done) Ho) as Hu. destruct (label onload n KmmOnload) as [u|]; [|done].
  apply bool_decide_eq_false in Ht. destruct Ht. simpl. rewrite Hu. by apply Hv.
Qed.

Lemma node_step_coherent n n' :
  onload_Version onload ≠ "" → node_step n n' → coherent n → coherent n'.
Proof using apart.
  intros Hne Hs Hc. destruct Hs as [n Hsel Hl|n Hsel Hu Ht Hl|n Hsel Ht Hl|k n Hsel Hl|n v Ho Hl Hv|n Ho Hv].
  - apply has_false in Hl. by apply coherent_load.
  - apply coherent_set; [done|by apply at_target_Some|done].
  - apply coherent_set; [done|by apply at_target_Some|done].
  - destruct (decide (k = KmmOnload)) as [->|Hk]; [|by apply coherent_unset].
    apply coherent_unset_module. by left.
  - by apply coherent_unset.
  - apply coherent_unset_module. right. intros k Hk.
    destruct k; [done|apply label_unset_eq|].
    rewrite label_unset_ne by done. by apply coherent_outdated.
Qed.

(** ** The moves of a reconciliation *)

Definition moves (ns ns' : list Node) : Prop := Forall2 (rtc node_step) ns ns'.
Definition total_work (ns : list Node) : nat := sum_list (map node_work ns).

#[export] Instance moves_refl : Reflexive moves.
Proof. intros ns. induction ns; constructor; [apply rtc_refl|done]. Qed.
#[export] Instance moves_trans : Transitive moves.
Proof.
  intros ns1 ns2 ns3 Hm. revert ns3. induction Hm; intros ns3 Hm'; inversion Hm'; subst; constructor.
  - by etrans.
  - by apply IHHm.
Qed.

Lemma rtc_node_work n n' : rtc node_step n n' → node_work n' ≤ node_work n.
Proof using apart. induction 1 as [|n n1 n2 H1%node_step_work _ IH]; lia. Qed.

Lemma moves_invariant (P : Node → Prop) ns ns' :
  (∀ n n', node_step n n' → P n → P n') → moves ns ns' → Forall P ns → Forall P ns'.
Proof.
  intros HP Hm. induction Hm as [|n n' ns ns' Hn _ IH]; [done|]. intros [Hp Hps]%Forall_cons.
  constructor; [|auto]. clear IH Hps. induction Hn; eauto.
Qed.

(** A phase: what it does to the nodes are moves, and it takes work off when it
    reports a change of nodes. *)
Definition advances (c : bool) (ns ns' : list Node) : Prop :=
  moves ns ns' ∧ total_work ns' + (if c then 1 else 0) ≤ total_work ns.

Lemma advances_refl ns : advances false ns ns.
Proof. split; [done|lia]. Qed.

Lemma change_nodes_advances P f ns :
  (∀ n, P n = true → node_step n (f n)) →
  advances (existsb P ns) ns (map (λ n, if P n then f n else n) ns).
Proof using apart.
  intros HP. unfold advances. induction ns as [|n ns [IHm IHw]]; [split; [done|simpl; lia]|]. simpl.
  split.
  - constructor; [|done]. destruct (P n) eqn:Hn; [by apply rtc_once, HP|done].
  - unfold total_work in *. simpl. destruct (P n) eqn:Hn; simpl; [|destruct (existsb P ns); lia].
    apply HP, node_step_work in Hn. destruct (existsb P ns); lia.
Qed.

Lemma spec_removeStale_advances k w :
  advances (existsb (λ n, has onload n k && negb (selects onload n)) (cl_nodes w)) (cl_nodes w)
    (cl_nodes (spec_removeStale onload k w).2).
Proof using apart.
  apply (change_nodes_advances (λ n, has onload n k && negb (selects onload n))).
  intros n [Hh Hs%negb_true_iff]%andb_true_iff. by constructor.
Qed.

(** *** The labels of KMM *)

Lemma label_module_step w k n :
  k ≠ Operator → selects onload n = true → (k = KmmSFC → onloadUsesSFC onload = true) →
  let '(n', c, b) := label_module onload w k n in
  (if c : bool then node_step n n' else n' = n) ∧ (c = false → b = false → lacks onload k n = false).
Proof.
  intros Hk Hs Hu. unfold label_module. destruct (lacks onload k n) eqn:Hl; [|done].
  destruct (lingers onload w k n); [done|]. split; [|done].
  unfold lacks in Hl. apply andb_true_iff in Hl as [Hn%negb_true_iff Ht].
  destruct k; [by constructor|apply step_load_sfc; auto|done].
Qed.

Lemma label_modules_steps w n :
  selects onload n = true →
  let '(n', c, b) := label_modules onload w n in
  rtc node_step n n' ∧ node_work n' + (if c : bool then 1 else 0) ≤ node_work n.
Proof using apart.
  intros Hs. unfold label_modules.
  pose proof (label_module_step w KmmOnload n ltac:(done) Hs ltac:(done)) as H1.
  destruct (label_module onload w KmmOnload n) as [[n1 c1] b1]. destruct H1 as [H1 _].
  assert (rtc node_step n n1 ∧ node_work n1 + (if c1 then 1 else 0) ≤ node_work n ∧ selects onload n1 = true)
    as (Hr1 & Hw1 & Hs1).
  { destruct c1; [|subst n1; split_and!; [done|lia|done]].
    split_and!; [by apply rtc_once|by apply node_step_work in H1; lia|by rewrite (node_step_selects _ _ H1)]. }
  destruct (b1 || negb (onloadUsesSFC onload)) eqn:Hb; [done|].
  apply orb_false_iff in Hb as [_ Hu%negb_false_iff].
  pose proof (label_module_step w KmmSFC n1 ltac:(done) Hs1 ltac:(done)) as H2.
  destruct (label_module onload w KmmSFC n1) as [[n2 c2] b2]. destruct H2 as [H2 _].
  destruct c2; [|subst n2; by rewrite orb_false_r]. rewrite orb_true_r. split.
  - by eapply rtc_r.
  - apply node_step_work in H2. destruct c1; lia.
Qed.

Lemma label_all_advances w ns :
  let '(ns', c, b) := label_all onload w ns in advances c ns ns'.
Proof using apart.
  unfold advances, total_work. induction ns as [|n ns IH]; [split; [done|simpl; lia]|]. simpl.
  destruct (label_all onload w ns) as [[ns' cs] bs]. destruct IH as [IHm IHw].
  destruct (selects onload n) eqn:Hs; [|split; [by constructor|simpl; lia]].
  pose proof (label_modules_steps w n Hs) as Hn. destruct (label_modules onload w n) as [[n' c] b].
  destruct Hn as [Hr Hw]. destruct b; simpl; (split; [by constructor|simpl]); [lia|].
  destruct c, cs; simpl; lia.
Qed.
End machine.
