(* ===== verification/Progress.v ===== *)
(** * What a reconciliation achieves

    The measure of [NodeMachine], with the objects of the resource added, and what
    every phase does to it: a phase that changes something takes work off, no phase
    adds to it, and the nodes only make steps of the machine. *)

From S2P Require Import Prelude GoStd Effects ApiTypes Client ApiServer Labels Modules NodeLabels DevicePluginDS Upgrade Reconcile ClusterSpec RefineLabels Refinement NodeMachine.
From stdpp Require Import relations.
From stdpp Require Import options.

Local Open Scope list_scope.

(** ** Objects in their list *)

Section objects.
Context `{ApiErrors} {A : Type} (meta : A → ObjectMeta).
Implicit Types (nn : NamespacedName) (l : list A).

Definition is_named nn (a : A) : bool :=
  bool_decide (meta_Name (meta a) = nn_Name nn) && bool_decide (meta_Namespace (meta a) = nn_Namespace nn).

Lemma named_app nn l l' : named meta nn l = None → named meta nn (l ++ l') = named meta nn l'.
Proof.
  unfold named. induction l as [|a l IH]; simpl; [done|]. by destruct (_ && _).
Qed.

Lemma named_app_other nn l a :
  is_named nn a = false → named meta nn (l ++ [a]) = named meta nn l.
Proof.
  unfold named, is_named. intros Ha. induction l as [|b l IH]; simpl; [by rewrite Ha|].
  by rewrite IH.
Qed.

Lemma named_is_named nn l a : named meta nn l = Some a → is_named nn a = true.
Proof. intros Hn. by apply find_some in Hn as [_ ?]. Qed.

Lemma same_name_named nn a b : is_named nn a = true → same_name (meta b) (meta a) = is_named nn b.
Proof.
  unfold is_named, same_name. intros [->%bool_decide_eq_true ->%bool_decide_eq_true]%andb_true_iff. done.
Qed.

Lemma named_replace nn l a a' :
  named meta nn l = Some a → same_name (meta a) (meta a') = true →
  named meta nn (replace meta a' l) = Some a'.
Proof.
  intros Hn Hs. pose proof (named_is_named _ _ _ Hn) as Ha.
  assert (is_named nn a' = true) as Ha'.
  { unfold is_named, same_name in *. rewrite !andb_true_iff, !bool_decide_eq_true in *.
    destruct Hs as [<- <-]. done. }
  unfold named in *. induction l as [|b l IH]; simpl in *; [done|].
  fold (is_named nn b) in Hn. rewrite (same_name_named nn) by done.
  destruct (is_named nn b) eqn:Hb; fold (is_named nn a') (is_named nn b); [by rewrite Ha'|].
  rewrite Hb. by apply IH.
Qed.

Lemma named_replace_other nn l a' :
  is_named nn a' = false → named meta nn (replace meta a' l) = named meta nn l.
Proof.
  intros Ha'. unfold named. induction l as [|b l IH]; simpl; [done|].
  destruct (same_name (meta b) (meta a')) eqn:Hs.
  - assert (is_named nn b = false) as Hb.
    { unfold is_named, same_name in *. rewrite andb_true_iff, !bool_decide_eq_true in Hs.
      destruct Hs as [-> ->]. done. }
    fold (is_named nn a') (is_named nn b). by rewrite Ha', Hb.
  - by rewrite IH.
Qed.

Lemma named_filter nn l a :
  is_named nn a = true →
  named meta nn (List.filter (λ b, negb (same_name (meta b) (meta a))) l) = None.
Proof.
  intros Ha. unfold named. induction l as [|b l IH]; simpl; [done|].
  rewrite (same_name_named nn) by done. destruct (is_named nn b) eqn:Hb; [done|]. simpl.
  fold (is_named nn b). by rewrite Hb.
Qed.

Lemma named_filter_other nn l a :
  is_named nn a = false →
  named meta nn (List.filter (λ b, negb (same_name (meta b) (meta a))) l) = named meta nn l.
Proof.
  intros Ha. unfold named. induction l as [|b l IH]; simpl; [done|].
  destruct (same_name (meta b) (meta a)) eqn:Hs; simpl; [|by rewrite IH].
  assert (is_named nn b = false) as Hb.
  { unfold is_named, same_name in *. rewrite andb_true_iff, !bool_decide_eq_true in Hs.
    destruct Hs as [-> ->]. done. }
  fold (is_named nn b). by rewrite Hb.
Qed.
End objects.

Section progress.
Context `{ApiErrors}.
Context (onload : Onload).
Implicit Types (n : Node) (k : label_kind) (w : cluster).

(** ** The measure *)

Definition module_work k (used : bool) w : nat :=
  match named module_meta (object_key onload (module_suffix k)) (cl_modules w) with
  | None => if used then 1 else 0
  | Some m => if used && module_at_target onload m then 0 else 1
  end.
Definition daemonset_work w : nat :=
  match named ds_meta (object_key onload devicePluginNameSuffix) (cl_daemonsets w) with
  | None => 1
  | Some d => if ds_at_target onload d then 0 else 1
  end.
Definition work w : nat :=
  total_work onload (cl_nodes w) + module_work KmmOnload true w +
  module_work KmmSFC (onloadUsesSFC onload) w + daemonset_work w.

Definition changed (v : verdict) : bool := match v with Changed => true | _ => false end.

Definition progresses w (r : verdict * cluster) : Prop :=
  moves onload (cl_nodes w) (cl_nodes r.2) ∧ (r.1 = Nothing → r.2 = w) ∧
  work r.2 + (if changed r.1 then 1 else 0) ≤ work w.
Definition progressive (f : transform) : Prop := ∀ w, wf w → progresses w (f w).

Lemma progresses_nothing w : progresses w (Nothing, w).
Proof. split_and!; simpl; [done|done|lia]. Qed.

Lemma progressive_skip : progressive skip.
Proof. intros w _. apply progresses_nothing. Qed.

Lemma progressive_then f g : progressive f → progressive g → progressive (then_do f g).
Proof.
  intros Hf Hg w Hw. unfold then_do. pose proof (Hf w Hw) as Hfw.
  destruct (f w) as [[] w1]; [|done|done]. destruct Hfw as (_ & Heq & _). simpl in Heq.
  rewrite Heq by done. by apply Hg.
Qed.

(** A phase that only changes nodes. *)
Lemma progresses_nodes w v c ns :
  advances onload c (cl_nodes w) ns → (v = Nothing → ns = cl_nodes w) → (changed v = true → c = true) →
  progresses w (v, with_nodes w ns).
Proof.
  intros [Hm Hw] Hn Hc. split_and!; simpl; [done| |].
  - intros Hv. rewrite Hn by done. apply with_nodes_id.
  - unfold work, module_work, daemonset_work in *. simpl. destruct (changed v); [rewrite Hc in Hw by done|]; lia.
Qed.

(** ** The nodes *)

Context (apart : selector_apart onload).

Lemma change_nodes_progressive P f :
  (∀ n, P n = true → node_step onload n (f n)) → progressive (change_nodes P f).
Proof using apart.
  intros HP w Hw. unfold change_nodes. pose proof (change_nodes_advances onload apart P f (cl_nodes w) HP) as Ha.
  destruct (existsb P (cl_nodes w)) eqn:He; eapply progresses_nodes; try done.
  intros _. clear Hw Ha. induction (cl_nodes w) as [|n ns IH]; [done|]. simpl in *.
  apply orb_false_iff in He as [-> He]. by rewrite IH.
Qed.

Lemma spec_removeStale_progressive k : progressive (spec_removeStale onload k).
Proof using apart.
  apply change_nodes_progressive. intros n [Hh Hs%negb_true_iff]%andb_true_iff. by constructor.
Qed.

Lemma label_modules_same w n n' b : label_modules onload w n = (n', false, b) → n' = n.
Proof.
  unfold label_modules. destruct (label_module onload w KmmOnload n) as [[n1 c1] b1] eqn:H1.
  destruct (_ || _); [intros [= -> -> ->]; by apply label_module_same in H1|].
  destruct (label_module onload w KmmSFC n1) as [[n2 c2] b2] eqn:H2.
  intros [= -> [-> ->]%orb_false_iff ->]. apply label_module_same in H2 as ->.
  by apply label_module_same in H1.
Qed.

Lemma label_all_same w ns ns' b : label_all onload w ns = (ns', false, b) → ns' = ns.
Proof.
  revert ns' b. induction ns as [|n ns IH]; intros ns' b; [by intros [= <- _]|]. simpl.
  destruct (label_all onload w ns) as [[ns1 cs] bs].
  destruct (selects onload n); [|intros [= <- -> _]; f_equal; by eapply IH].
  destruct (label_modules onload w n) as [[n' c] b'] eqn:Hn. destruct b'.
  - intros [= <- -> _]. f_equal. by eapply label_modules_same.
  - intros [= <- [-> ->]%orb_false_iff _]. f_equal; [by eapply label_modules_same|by eapply IH].
Qed.

Lemma spec_addKmm_progressive : progressive (spec_addKmm onload).
Proof using apart.
  intros w Hw. unfold spec_addKmm. pose proof (label_all_advances onload apart w (cl_nodes w)) as Ha.
  destruct (label_all onload w (cl_nodes w)) as [[ns c] b] eqn:Hl.
  destruct b; [by eapply progresses_nodes|]. destruct c; [by eapply progresses_nodes|].
  apply label_all_same in Hl as ->. rewrite with_nodes_id.
  apply progressive_then; [apply spec_removeStale_progressive..|done].
Qed.

Lemma spec_addOnload_progressive : progressive (spec_addOnload onload).
Proof using apart.
  apply progressive_then; [|apply spec_removeStale_progressive]. apply change_nodes_progressive.
  intros n [Hs [Ht Hn%negb_true_iff]%andb_true_iff]%andb_true_iff. by constructor.
Qed.

(** *** One node in its place *)

Lemma put_node_progresses w n n' :
  wf w → n ∈ cl_nodes w → same_id n n' → node_step onload n n' → progresses w (Changed, put_node n' w).
Proof using apart.
  intros Hw Hn Hs Hstep. pose proof (wf_names _ Hw) as Hd.
  apply list_elem_of_split in Hn as (pre & post & Hns). rewrite Hns in Hd.
  assert (put_node n' w = with_nodes w (pre ++ n' :: post)) as ->.
  { rewrite <-(put_node_at w pre n n' post), <-Hns by done. by rewrite with_nodes_id. }
  apply progresses_nodes with (c := true); [|done|done]. rewrite Hns. split.
  - apply Forall2_app; [reflexivity|]. constructor; [by apply rtc_once|reflexivity].
  - unfold total_work. rewrite !map_app, !sum_list_with_app. simpl.
    apply node_step_work in Hstep; [lia|done].
Qed.

Lemma progresses_waiting w ps : progresses w (Waiting, with_pods w ps).
Proof. split_and!; simpl; [done|done|]. unfold work, module_work, daemonset_work. simpl. lia. Qed.

Lemma outdated_is w n : n ∈ outdated onload w → outdated_node onload n = true.
Proof. by intros [_ Hn]%list_elem_of_In%filter_In. Qed.

Lemma spec_drain_progresses w n :
  wf w → n ∈ cl_nodes w → outdated_node onload n = true →
  (∀ v, label onload n Operator = Some v → v = onload_Version onload) →
  progresses w (spec_drain onload n w).
Proof using apart.
  intros Hw Hn Ho Hv. unfold spec_drain. destruct (plugin_on _ _ _); [by destruct w; apply progresses_waiting|].
  case_bool_decide; [|apply progresses_waiting].
  apply (put_node_progresses w n); [done|done| |by constructor].
  unfold unset_label, unlabel. apply (same_id_labels n).
Qed.

Lemma spec_upgradeNext_progressive : progressive (spec_upgradeNext onload).
Proof using apart.
  intros w Hw. unfold spec_upgradeNext. destruct (MinFunc _ _) as [n|] eqn:Hm; [|apply progresses_nothing].
  apply outdated_next in Hm as [Ho%outdated_is Hn]. unfold spec_upgradeNode.
  destruct (label onload n Operator) as [v|] eqn:Hl; [case_bool_decide|].
  - apply (put_node_progresses w n); [done|done|apply same_id_labels|by eapply step_expel].
  - apply spec_drain_progresses; [done|done|done|]. rewrite Hl. intros u [= <-].
    by destruct (decide (v = onload_Version onload)).
  - apply spec_drain_progresses; [done|done|done|]. by rewrite Hl.
Qed.

(** ** The objects *)

Lemma progresses_modules w ms :
  module_work KmmOnload true (with_modules w ms) + module_work KmmSFC (onloadUsesSFC onload) (with_modules w ms)
    < module_work KmmOnload true w + module_work KmmSFC (onloadUsesSFC onload) w →
  progresses w (Changed, with_modules w ms).
Proof.
  intros Hlt. split_and!; simpl; [done|done|]. unfold work, daemonset_work in *. simpl. lia.
Qed.

Lemma progresses_daemonset w ds :
  daemonset_work (with_daemonsets w ds) < daemonset_work w → progresses w (Changed, with_daemonsets w ds).
Proof.
  intros Hlt. split_and!; simpl; [done|done|]. unfold work, module_work in *. simpl. lia.
Qed.

Definition used k : bool := match k with KmmSFC => onloadUsesSFC onload | _ => true end.

(** The name tells the two modules apart. *)
Lemma module_key_other (m : kmm_Module) k k' :
  k ≠ Operator → k' ≠ Operator → k' ≠ k → is_named module_meta (object_key onload (module_suffix k)) m = true →
  is_named module_meta (object_key onload (module_suffix k')) m = false.
Proof.
  intros Hk Hk' Hne. unfold is_named. simpl. intros [Hm%bool_decide_eq_true _]%andb_true_iff.
  rewrite Hm, bool_decide_eq_false_2; [done|]. intros Heq%string_app_inj_l.
  destruct k, k'; first [discriminate Heq|congruence].
Qed.

Lemma progresses_module k w ms :
  k ≠ Operator →
  module_work k (used k) (with_modules w ms) < module_work k (used k) w →
  (∀ k', k' ≠ Operator → k' ≠ k →
     named module_meta (object_key onload (module_suffix k')) ms =
     named module_meta (object_key onload (module_suffix k')) (cl_modules w)) →
  progresses w (Changed, with_modules w ms).
Proof.
  intros Hk Hlt Hother. apply progresses_modules.
  assert (∀ k' u, k' ≠ Operator → k' ≠ k → module_work k' u (with_modules w ms) = module_work k' u w) as Heq.
  { intros k' u Hk' Hne. unfold module_work. change (cl_modules (with_modules w ms)) with ms. by rewrite Hother. }
  destruct k; simpl used in *; [rewrite (Heq KmmSFC) by done|rewrite (Heq KmmOnload) by done|done]; lia.
Qed.

Context (laws : library_laws onload).

Lemma owned_keeps m :
  meta_Namespace m = onload_Namespace onload →
  meta_Name (owned onload m) = meta_Name m ∧ meta_Namespace (owned onload m) = meta_Namespace m ∧
  meta_Labels (owned onload m) = meta_Labels m.
Proof using laws.
  intros Hm. unfold owned. by destruct (law_owner _ laws m Hm) as (m' & -> & -> & -> & ->).
Qed.

Lemma spec_createModule_progressive k modprobe inTree getKernelMap :
  k ≠ Operator → used k = true → progressive (spec_createModule onload k modprobe inTree getKernelMap).
Proof using laws.
  intros Hk Hu w Hw. unfold spec_createModule.
  destruct (named _ _ _) eqn:Hn; [apply progresses_nothing|].
  set (m := createModule _ _ _ _ _).
  assert (is_named module_meta (object_key onload (module_suffix k)) (module_with_meta m (owned onload (module_meta m))) = true) as Hm.
  { unfold is_named, module_with_meta. cbn [module_meta]. destruct (owned_keeps (module_meta m)) as (-> & -> & _); [done|].
    simpl. by rewrite !bool_decide_eq_true_2. }
  apply (progresses_module k); [done| |].
  - unfold module_work. cbn [cl_modules with_modules]. rewrite Hn, named_app, Hu by done.
    unfold named. cbn [List.find]. unfold is_named in Hm. rewrite Hm. unfold module_at_target. simpl.
    rewrite bool_decide_eq_true_2 by done. lia.
  - intros k' Hk' Hne. apply named_app_other. by apply (module_key_other _ k).
Qed.

Lemma spec_createModules_progressive : progressive (spec_createModules onload).
Proof using laws.
  apply progressive_then; [by apply spec_createModule_progressive|].
  destruct (onloadUsesSFC onload) eqn:Hu; [by apply spec_createModule_progressive|apply progressive_skip].
Qed.

Lemma spec_updateModule_progressive k getKernelMap :
  k ≠ Operator → progressive (spec_updateModule onload k (used k) getKernelMap).
Proof.
  intros Hk w Hw. unfold spec_updateModule.
  destruct (named _ _ _) as [m|] eqn:Hn; [|apply progresses_nothing].
  pose proof (named_is_named _ _ _ _ Hn) as Hm. destruct (used k) eqn:Hu.
  - destruct (module_at_target onload m) eqn:Ht; [apply progresses_nothing|].
    apply (progresses_module k); [done| |].
    + unfold module_work. simpl. rewrite Hn, Hu, Ht. rewrite (named_replace _ _ _ m) by
        (done || by unfold same_name; rewrite !bool_decide_eq_true_2).
      unfold module_at_target. simpl. rewrite bool_decide_eq_true_2 by done. lia.
    + intros k' Hk' Hne. apply named_replace_other. by apply (module_key_other m k).
  - apply (progresses_module k); [done| |].
    + unfold module_work. simpl. rewrite Hn, Hu, (named_filter _ _ _ m) by done. simpl. lia.
    + intros k' Hk' Hne. apply named_filter_other. by apply (module_key_other m k).
Qed.

Lemma spec_createDaemonSet_progressive image : progressive (spec_createDaemonSet image onload).
Proof using laws.
  intros w Hw. unfold spec_createDaemonSet.
  destruct (named _ _ _) eqn:Hn; [apply progresses_nothing|].
  set (d := devicePluginDaemonSet _ _). destruct (owned_keeps (ds_meta d)) as (Hnm & Hns & Hl); [done|].
  apply progresses_daemonset. unfold daemonset_work. cbn [cl_daemonsets with_daemonsets].
  rewrite Hn, named_app by done. unfold named, daemonset_with_meta. cbn [List.find ds_meta].
  rewrite Hnm, Hns, !bool_decide_eq_true_2 by done. cbn [andb].
  unfold ds_at_target. cbn [ds_meta]. rewrite Hl. rewrite bool_decide_eq_true_2; [lia|done].
Qed.

Lemma spec_updateDaemonSet_progressive : progressive (spec_updateDaemonSet onload).
Proof.
  intros w Hw. unfold spec_updateDaemonSet.
  destruct (named _ _ _) as [d|] eqn:Hn; [|apply progresses_nothing].
  destruct (ds_at_target onload d) eqn:Ht; [apply progresses_nothing|].
  destruct (daemonset_upgraded onload d) as [|d'] eqn:Hd; [apply progresses_nothing|].
  unfold daemonset_upgraded in Hd. destruct (meta_Labels (ds_meta d)) as [l|]; [|done]. simpl in Hd.
  destruct (ps_InitContainers _); [done|]. injection Hd as <-.
  apply progresses_daemonset. unfold daemonset_work. simpl. rewrite Hn, Ht.
  erewrite named_replace by (done || by unfold same_name; rewrite !bool_decide_eq_true_2).
  unfold ds_at_target, gomap_index. simpl. rewrite lookup_insert_eq. simpl.
  rewrite bool_decide_eq_true_2 by done. lia.
Qed.

(** ** One reconciliation *)

Lemma spec_live_progressive image : progressive (spec_live image onload).
Proof using apart laws.
  apply progressive_then; [apply spec_addKmm_progressive|].
  apply progressive_then; [apply spec_createModules_progressive|].
  apply progressive_then; [apply spec_addOnload_progressive|].
  apply progressive_then; [apply spec_createDaemonSet_progressive|].
  apply progressive_then; [apply spec_updateDaemonSet_progressive|].
  apply progressive_then; [by apply (spec_updateModule_progressive KmmOnload)|].
  apply progressive_then; [by apply (spec_updateModule_progressive KmmSFC)|].
  apply spec_upgradeNext_progressive.
Qed.
End progress.
