(* ===== verification/Convergence.v ===== *)
(** * Where the reconciliations lead

    A reconciliation has nothing to do exactly when no work is left, and then the
    cluster is as the resource wants it.  The theorem on convergence runs the
    reconciler for ever, with an environment between two reconciliations that may
    be slow: as long as it does its part again and again, the reconciler comes to
    rest. *)

From S2P Require Import Prelude GoStd Effects ApiTypes Client ApiServer MemServer Labels Modules NodeLabels DevicePluginDS Upgrade Reconcile Samples ClusterSpec RefineLabels Refinement NodeMachine Progress.
From Stdlib Require Import Wellfounded Relation_Operators.
From stdpp Require Import relations.
From stdpp Require Import options.

Local Open Scope list_scope.

(** ** Fair runs of a measured system *)

Section fair.
Context {State Measure : Type} (lt : Measure → Measure → Prop) (lt_wf : well_founded lt).
Context (lt_trans : ∀ a b c, lt a b → lt b c → lt a c).
Context (m : State → Measure) (fair goal : State → Prop) (run : nat → State).

Definition at_most (a b : Measure) : Prop := a = b ∨ lt a b.

Context (never_up : ∀ i, at_most (m (run (S i))) (m (run i))).
Context (fair_down : ∀ i, fair (run i) → goal (run i) ∨ lt (m (run (S i))) (m (run i))).
Context (fairness : ∀ i, ∃ j, i ≤ j ∧ fair (run j)).

Lemma at_most_later i j : i ≤ j → at_most (m (run j)) (m (run i)).
Proof using lt_trans never_up.
  induction 1 as [|j Hij IH]; [by left|].
  destruct (never_up j) as [->|Hlt]; [done|]. right.
  destruct IH as [<-|Hlt']; [done|]. by eapply lt_trans.
Qed.

Lemma fair_reaches i : ∃ j, i ≤ j ∧ goal (run j).
Proof using lt_wf lt_trans never_up fair_down fairness.
  remember (m (run i)) as a eqn:Ha. revert i Ha.
  induction a as [a IH] using (well_founded_ind lt_wf). intros i ->.
  destruct (fairness i) as (j & Hij & Hf). destruct (fair_down j Hf) as [Hg|Hlt]; [by eauto|].
  destruct (IH (m (run (S j)))) with (i := S j) as (j' & Hj & Hg); [|done|].
  - destruct (at_most_later i j Hij) as [<-|?]; [done|]. by eapply lt_trans.
  - exists j'. split; [lia|done].
Qed.
End fair.

Section convergence.
Context `{ApiErrors}.
Context (onload : Onload).
Implicit Types (n : Node) (k : label_kind) (w : cluster).

(** ** What the resource wants *)

Definition desired_node n : Prop :=
  if selects onload n then
    label onload n KmmOnload = Some (onload_Version onload) ∧
    label onload n Operator = Some (onload_Version onload) ∧
    (onloadUsesSFC onload = true → label onload n KmmSFC = Some (onload_Version onload))
  else ∀ k, label onload n k = None.

Definition desired_module k w : Prop :=
  match named module_meta (object_key onload (module_suffix k)) (cl_modules w) with
  | Some m => used onload k = true ∧ mlc_Version (module_Container m) = onload_Version onload
  | None => used onload k = false
  end.

Definition desired_daemonset w : Prop :=
  ∃ d, named ds_meta (object_key onload devicePluginNameSuffix) (cl_daemonsets w) = Some d ∧
    gomap_index (meta_Labels (ds_meta d)) onloadVersionLabel = onload_Version onload.

Definition desired w : Prop :=
  Forall desired_node (cl_nodes w) ∧ desired_module KmmOnload w ∧ desired_module KmmSFC w ∧
  desired_daemonset w.

(** ** No work is left exactly when it is so *)

Lemma total_work_zero ns : total_work onload ns = 0 ↔ Forall (λ n, node_work onload n = 0) ns.
Proof.
  unfold total_work. induction ns as [|n ns IH]; [done|]. simpl. rewrite Forall_cons, <-IH. lia.
Qed.

Lemma work_zero w :
  work onload w = 0 ↔
  Forall (λ n, node_work onload n = 0) (cl_nodes w) ∧ module_work onload KmmOnload true w = 0 ∧
  module_work onload KmmSFC (onloadUsesSFC onload) w = 0 ∧ daemonset_work onload w = 0.
Proof. unfold work. rewrite <-total_work_zero. lia. Qed.

Lemma module_work_zero k w : module_work onload k (used onload k) w = 0 → desired_module k w.
Proof.
  unfold module_work, desired_module, module_at_target. destruct (named _ _ _); destruct (used onload k); try done.
  simpl. by case_bool_decide.
Qed.

Lemma daemonset_work_zero w : daemonset_work onload w = 0 → desired_daemonset w.
Proof.
  unfold daemonset_work, desired_daemonset, ds_at_target. destruct (named _ _ _) as [d|]; [|done].
  case_bool_decide; [eauto|done].
Qed.

Lemma node_work_zero n :
  onload_Version onload ≠ "" → coherent onload n → node_work onload n = 0 → desired_node n.
Proof.
  intros Hv Hc. unfold node_work, desired_node, outdated_node, present, missing, sfc_missing.
  destruct (selects onload n) eqn:Hs.
  - destruct (has onload n KmmOnload) eqn:Hm; [|destruct (onloadUsesSFC onload), (has onload n KmmSFC), (has onload n Operator); simpl; lia].
    destruct (at_target onload n) eqn:Ht; simpl; [|lia]. apply at_target_Some in Ht; [|done].
    assert (∀ k, k ≠ KmmOnload → has onload n k = true → label onload n k = Some (onload_Version onload)) as Heq.
    { intros k Hk Hh. unfold has in Hh. destruct (label onload n k) as [v|] eqn:Hl; [|done].
      pose proof (Hc k v Hk Hl) as Hu. rewrite Ht in Hu. congruence. }
    destruct (has onload n Operator) eqn:Ho; [|destruct (onloadUsesSFC onload), (has onload n KmmSFC); simpl; lia].
    destruct (onloadUsesSFC onload) eqn:Hu, (has onload n KmmSFC) eqn:Hf; unfold missing; rewrite ?Hf; intros Hz; try (exfalso; simpl in Hz; lia);
      split_and!; first [done|intros; by apply Heq].
  - destruct (has onload n KmmOnload) eqn:H1, (has onload n KmmSFC) eqn:H2, (has onload n Operator) eqn:H3; try (simpl; lia).
    intros _ k. apply has_false. by destruct k.
Qed.

Lemma work_zero_desired w :
  onload_Version onload ≠ "" → Forall (coherent onload) (cl_nodes w) → work onload w = 0 → desired w.
Proof.
  intros Hv Hc (Hn & H1 & H2 & H3)%work_zero. split_and!.
  - rewrite Forall_forall in *. intros n Hin. apply node_work_zero; auto.
  - by apply module_work_zero.
  - by apply module_work_zero.
  - by apply daemonset_work_zero.
Qed.
(** *** A reconciliation with nothing to do *)

Context (apart : selector_apart onload) (laws : library_laws onload).

Lemma then_nothing f g w w' :
  progressive onload f → wf w → then_do f g w = (Nothing, w') → f w = (Nothing, w) ∧ g w = (Nothing, w').
Proof.
  intros Hf Hw. unfold then_do. destruct (Hf w Hw) as (_ & Heq & _).
  destruct (f w) as [[] w1]; [|done|done]. simpl in Heq. by rewrite Heq.
Qed.

Lemma change_nodes_nothing P f w w' n :
  change_nodes P f w = (Nothing, w') → n ∈ cl_nodes w → P n = false.
Proof.
  unfold change_nodes. destruct (existsb P (cl_nodes w)) eqn:He; [done|]. intros _ Hn.
  rewrite <-not_true_iff_false. intros HP. apply not_true_iff_false in He. apply He.
  apply existsb_exists. exists n. split; [by apply list_elem_of_In|done].
Qed.

Lemma label_module_quiet w k n n' : label_module onload w k n = (n', false, false) → n' = n ∧ lacks onload k n = false.
Proof. unfold label_module. destruct (lacks onload k n), (lingers onload w k n); naive_solver. Qed.

Lemma label_modules_quiet w n n' :
  label_modules onload w n = (n', false, false) →
  lacks onload KmmOnload n = false ∧ (onloadUsesSFC onload = true → lacks onload KmmSFC n = false).
Proof.
  unfold label_modules. destruct (label_module onload w KmmOnload n) as [[n1 c1] b1] eqn:H1.
  destruct (_ || _) eqn:Hb.
  - intros [= -> -> ->]. apply label_module_quiet in H1 as [_ ->]. split; [done|].
    apply negb_true_iff in Hb. congruence.
  - destruct (label_module onload w KmmSFC n1) as [[n2 c2] b2] eqn:H2.
    intros [= -> [-> ->]%orb_false_iff ->]. apply orb_false_iff in Hb as [-> _].
    apply label_module_quiet in H1 as [-> ->]. apply label_module_quiet in H2 as [_ ->]. done.
Qed.

Lemma label_all_quiet w ns ns' n :
  label_all onload w ns = (ns', false, false) → n ∈ ns → selects onload n = true →
  lacks onload KmmOnload n = false ∧ (onloadUsesSFC onload = true → lacks onload KmmSFC n = false).
Proof.
  revert ns'. induction ns as [|m ns IH]; intros ns'; [by intros _ []%not_elem_of_nil|]. simpl.
  destruct (label_all onload w ns) as [[ns1 cs] bs] eqn:Hns.
  destruct (selects onload m) eqn:Hm.
  - destruct (label_modules onload w m) as [[m' c] b] eqn:Hlm. destruct b; [done|].
    intros [= <- [-> ->]%orb_false_iff ->] [<-|Hn]%elem_of_cons Hs; [by eapply label_modules_quiet|by eapply IH].
  - intros [= <- -> ->] [<-|Hn]%elem_of_cons Hs; [congruence|by eapply IH].
Qed.

(** What every phase with nothing to do says of a node. *)
Record quiet w n : Prop := {
  quiet_kmm : selects onload n = true →
    lacks onload KmmOnload n = false ∧ (onloadUsesSFC onload = true → lacks onload KmmSFC n = false);
  quiet_stale : selects onload n = false → ∀ k, has onload n k = false;
  quiet_operator : selects onload n = true → at_target onload n = true → has onload n Operator = true;
  quiet_target : outdated_node onload n = false;
}.

Lemma spec_addKmm_nothing w w' n :
  wf w → spec_addKmm onload w = (Nothing, w') → n ∈ cl_nodes w →
  (selects onload n = true →
    lacks onload KmmOnload n = false ∧ (onloadUsesSFC onload = true → lacks onload KmmSFC n = false)) ∧
  (selects onload n = false → has onload n KmmOnload = false ∧ has onload n KmmSFC = false).
Proof using apart.
  intros Hw. unfold spec_addKmm. destruct (label_all onload w (cl_nodes w)) as [[ns c] b] eqn:Hl.
  destruct b; [done|]. destruct c; [done|].
  pose proof (label_all_same onload w _ _ _ Hl) as ->. rewrite with_nodes_id. intros Hst Hn. split.
  - by eapply label_all_quiet.
  - intros Hs. apply then_nothing in Hst as [H1 H2]; [|by apply spec_removeStale_progressive|done].
    pose proof (change_nodes_nothing _ _ _ _ n H1 Hn) as Ha.
    pose proof (change_nodes_nothing _ _ _ _ n H2 Hn) as Hb. simpl in Ha, Hb.
    rewrite Hs, andb_true_r in Ha, Hb. done.
Qed.

Lemma spec_addOnload_nothing w w' n :
  wf w → spec_addOnload onload w = (Nothing, w') → n ∈ cl_nodes w →
  (selects onload n = true → at_target onload n = true → has onload n Operator = true) ∧
  (selects onload n = false → has onload n Operator = false).
Proof using apart.
  intros Hw Hadd Hn. apply then_nothing in Hadd as [H1 H2]; [|
    apply (change_nodes_progressive onload apart); intros m [Hs [Ht Ho%negb_true_iff]%andb_true_iff]%andb_true_iff; by constructor|done].
  pose proof (change_nodes_nothing _ _ _ _ n H1 Hn) as Ha.
  pose proof (change_nodes_nothing _ _ _ _ n H2 Hn) as Hb. simpl in Ha, Hb. split.
  - intros Hs Ht. rewrite Hs, Ht in Ha. by apply negb_false_iff in Ha.
  - intros Hs. by rewrite Hs, andb_true_r in Hb.
Qed.

Lemma spec_upgradeNext_nothing w w' n :
  spec_upgradeNext onload w = (Nothing, w') → n ∈ cl_nodes w → outdated_node onload n = false.
Proof.
  unfold spec_upgradeNext. destruct (MinFunc compare_names (outdated onload w)) as [m|] eqn:Hm.
  - unfold spec_upgradeNode, spec_drain. destruct (label onload m Operator); [case_bool_decide; [done|]|];
      (destruct (plugin_on _ _ _); [done|]; by case_bool_decide).
  - intros _ Hn. destruct (outdated_node onload n) eqn:Ho; [|done].
    assert (is_Some (MinFunc compare_names (outdated onload w))) as [? Hsome]; [|by rewrite Hm in Hsome].
    apply (MinFunc_nonempty node_Name). intros Hnil.
    assert (In n (outdated onload w)) as Hin; [|by rewrite Hnil in Hin].
    apply filter_In. split; [by apply list_elem_of_In|done].
Qed.

Lemma spec_update_nothing w w' :
  wf w → spec_update onload w = (Nothing, w') →
  spec_updateDaemonSet onload w = (Nothing, w) ∧
  spec_updateModule onload KmmOnload true onloadKernelMapper w = (Nothing, w) ∧
  spec_updateModule onload KmmSFC (onloadUsesSFC onload) sfcKernelMapper w = (Nothing, w) ∧
  spec_upgradeNext onload w = (Nothing, w').
Proof.
  intros Hw Hup. apply then_nothing in Hup as [H1 Hup]; [|apply spec_updateDaemonSet_progressive|done].
  apply then_nothing in Hup as [H2 Hup]; [|by apply (spec_updateModule_progressive onload KmmOnload)|done].
  apply then_nothing in Hup as [H3 H4]; [|by apply (spec_updateModule_progressive onload KmmSFC)|done].
  done.
Qed.

Lemma spec_live_nothing image w w' :
  wf w → spec_live image onload w = (Nothing, w') →
  spec_addKmm onload w = (Nothing, w) ∧ spec_createModules onload w = (Nothing, w) ∧
  spec_addOnload onload w = (Nothing, w) ∧ spec_createDaemonSet image onload w = (Nothing, w) ∧
  spec_update onload w = (Nothing, w').
Proof using apart laws.
  intros Hw Hlive. apply then_nothing in Hlive as [H1 Hlive]; [|by apply spec_addKmm_progressive|done].
  apply then_nothing in Hlive as [H2 Hlive]; [|by apply spec_createModules_progressive|done].
  apply then_nothing in Hlive as [H3 Hlive]; [|by apply spec_addOnload_progressive|done].
  apply then_nothing in Hlive as [H4 H5]; [|by apply spec_createDaemonSet_progressive|done].
  done.
Qed.

Lemma quiet_work n w : quiet w n → node_work onload n = 0.
Proof.
  intros [Hkmm Hstale Hop Ht]. unfold node_work, present, missing, sfc_missing.
  rewrite Ht. destruct (selects onload n) eqn:Hs; [|by rewrite !Hstale].
  destruct (Hkmm eq_refl) as [H1 H2]. unfold lacks in H1. rewrite andb_true_r in H1.
  apply negb_false_iff in H1. unfold outdated_node in Ht. rewrite H1 in Ht.
  apply negb_false_iff in Ht. rewrite H1, Hop by done.
  destruct (onloadUsesSFC onload); [|done]. pose proof (H2 eq_refl) as H3. unfold lacks in H3.
  rewrite Ht, andb_true_r in H3. apply negb_false_iff in H3. unfold missing. by rewrite H3.
Qed.

Lemma objects_work image w :
  wf w → spec_createModules onload w = (Nothing, w) → spec_createDaemonSet image onload w = (Nothing, w) →
  spec_updateDaemonSet onload w = (Nothing, w) →
  spec_updateModule onload KmmOnload true onloadKernelMapper w = (Nothing, w) →
  spec_updateModule onload KmmSFC (onloadUsesSFC onload) sfcKernelMapper w = (Nothing, w) →
  module_work onload KmmOnload true w = 0 ∧ module_work onload KmmSFC (onloadUsesSFC onload) w = 0 ∧
  daemonset_work onload w = 0.
Proof.
  intros Hw [_ [[m1 Hm1] Hm2]]%spec_createModules_nothing [_ [d Hd]]%spec_createDaemonSet_nothing Hud Hu1 Hu2.
  unfold spec_updateDaemonSet, spec_updateModule, module_work, daemonset_work, module_exists in *.
  rewrite Hd in Hud |- *. rewrite Hm1 in Hu1 |- *. split_and!.
  - simpl. by destruct (module_at_target onload m1).
  - destruct (onloadUsesSFC onload).
    + destruct (Hm2 eq_refl) as [m Hm]. rewrite Hm in Hu2 |- *. simpl. by destruct (module_at_target onload m).
    + by destruct (named module_meta (object_key onload (module_suffix KmmSFC)) (cl_modules w)).
  - pose proof (wf_daemonsets _ Hw) as Hok. rewrite Forall_forall in Hok.
    destruct (ds_at_target onload d); [done|].
    destruct (daemonset_upgraded_ok onload d) as [d' Hd']; [by apply Hok, (named_elem _ _ _ _ Hd)|].
    by rewrite Hd' in Hud.
Qed.

Lemma nothing_work_zero image w w' : wf w → spec_live image onload w = (Nothing, w') → work onload w = 0.
Proof using apart laws.
  intros Hw Hlive. apply spec_live_nothing in Hlive as (H1 & H2 & H3 & H4 & H5); [|done].
  apply spec_update_nothing in H5 as (H6 & H7 & H8 & H9); [|done].
  apply work_zero. split; [|by eapply objects_work].
  rewrite Forall_forall. intros n Hn. apply (quiet_work n w).
  destruct (spec_addKmm_nothing w w n Hw H1 Hn) as [Hk Hk'].
  destruct (spec_addOnload_nothing w w n Hw H3 Hn) as [Ho Ho'].
  split; [done| |done|by eapply spec_upgradeNext_nothing].
  intros Hs k. destruct (Hk' Hs), (Ho' Hs). by destruct k.
Qed.

(** ** Pods in the way

    The pods that use Onload on a node the operator has taken its label from, and
    that have not been asked to leave. *)

Definition squats (ns : list Node) (p : Pod) : bool :=
  pod_uses_onload p && negb (pod_terminating p) &&
  existsb (λ n, negb (has onload n Operator) && bool_decide (node_Name n = pod_NodeName p)) ns.
Definition squatters w : list Pod := List.filter (squats (cl_nodes w)) (cl_pods w).

Local Arguments evicted : simpl never.
Local Arguments squats : simpl never.

Lemma evicted_leaves ns p : squats ns (evicted p) = false.
Proof. unfold squats. simpl. by rewrite andb_false_r. Qed.

Lemma filter_evicted ns p q ps :
  List.filter (squats ns) (replace pod_meta (evicted p) (q :: ps)) =
  if same_name (pod_meta q) (pod_meta (evicted p)) then List.filter (squats ns) (replace pod_meta (evicted p) ps)
  else if squats ns q then q :: List.filter (squats ns) (replace pod_meta (evicted p) ps)
  else List.filter (squats ns) (replace pod_meta (evicted p) ps).
Proof.
  unfold replace at 1. cbn [map List.filter].
  destruct (same_name (pod_meta q) (pod_meta (evicted p))); [by rewrite evicted_leaves|done].
Qed.

Lemma replace_evicted_le ns p ps :
  length (List.filter (squats ns) (replace pod_meta (evicted p) ps)) ≤ length (List.filter (squats ns) ps).
Proof.
  induction ps as [|q ps IH]; [simpl; lia|]. rewrite filter_evicted. cbn [List.filter].
  destruct (same_name (pod_meta q) (pod_meta (evicted p))), (squats ns q); simpl; lia.
Qed.

Lemma replace_evicted_lt ns p ps :
  p ∈ ps → squats ns p = true →
  length (List.filter (squats ns) (replace pod_meta (evicted p) ps)) < length (List.filter (squats ns) ps).
Proof.
  intros Hp Hs. induction ps as [|q ps IH]; [by apply not_elem_of_nil in Hp|].
  rewrite filter_evicted; cbn [List.filter]. apply elem_of_cons in Hp as [<-|Hp].
  - assert (same_name (pod_meta p) (pod_meta (evicted p)) = true) as ->.
    { unfold same_name. simpl. by rewrite !bool_decide_eq_true_2. }
    rewrite Hs. simpl. pose proof (replace_evicted_le ns p ps). lia.
  - specialize (IH Hp).
    destruct (same_name (pod_meta q) (pod_meta (evicted p))), (squats ns q); simpl; lia.
Qed.

Lemma evict_all_le victims w : length (squatters (evict_all victims w)) ≤ length (squatters w).
Proof.
  unfold squatters, evict_all. simpl. generalize (cl_pods w). induction victims as [|p ps IH]; intros l; simpl; [lia|].
  pose proof (replace_evicted_le (cl_nodes w) p l). specialize (IH (replace pod_meta (evicted p) l)). lia.
Qed.

Lemma evict_all_lt p victims w :
  p ∈ cl_pods w → squats (cl_nodes w) p = true →
  length (squatters (evict_all (p :: victims) w)) < length (squatters w).
Proof.
  intros Hp Hs. pose proof (replace_evicted_lt _ _ _ Hp Hs) as Hlt.
  pose proof (evict_all_le victims (with_pods w (replace pod_meta (evicted p) (cl_pods w)))) as Hle.
  unfold squatters, evict_all in *. simpl in *. lia.
Qed.

(** ** The environment

    Between two reconciliations the rest of the cluster leaves the objects of the
    operator and the labels alone, and puts no new pod that uses Onload on a node
    without the operator's label, where nothing offers the resource. *)
Record environment w w' : Prop := {
  env_onloads : cl_onloads w' = cl_onloads w;
  env_nodes : cl_nodes w' = cl_nodes w;
  env_modules : cl_modules w' = cl_modules w;
  env_daemonsets : cl_daemonsets w' = cl_daemonsets w;
  env_pods : length (squatters w') ≤ length (squatters w);
}.

(** It has done its part when KMM has unloaded the modules from the nodes without
    its labels, the device plugin has left the nodes without the operator's label,
    and so have the pods that were asked to. *)
Record responsive w : Prop := {
  rsp_kmm n k : n ∈ cl_nodes w → k ≠ Operator → has onload n k = false → lingers onload w k n = false;
  rsp_plugin n : n ∈ cl_nodes w → label onload n Operator = None → plugin_on onload w n = false;
  rsp_pods n p : n ∈ cl_nodes w → label onload n Operator = None → p ∈ pods_on w n →
    pod_uses_onload p = true → pod_terminating p = false;
}.

(** ** Waiting *)

Lemma label_module_waits w k n n' c :
  label_module onload w k n = (n', c, true) → has onload n k = false ∧ lingers onload w k n = true.
Proof.
  unfold label_module. destruct (lacks onload k n) eqn:Hl; [|done].
  destruct (lingers onload w k n); [|done]. intros _.
  unfold lacks in Hl. by apply andb_true_iff in Hl as [Hh%negb_true_iff _].
Qed.

Lemma label_module_keeps w k n :
  k ≠ KmmSFC → let n' := (label_module onload w k n).1.1 in
  has onload n' KmmSFC = has onload n KmmSFC ∧ lingers onload w KmmSFC n' = lingers onload w KmmSFC n.
Proof.
  intros Hk. unfold label_module. destruct (lacks onload k n), (lingers onload w k n); try done.
  simpl. unfold has. by rewrite label_set_ne.
Qed.

Lemma label_modules_waits w n n' c :
  label_modules onload w n = (n', c, true) →
  ∃ k, k ≠ Operator ∧ used onload k = true ∧ has onload n k = false ∧ lingers onload w k n = true.
Proof.
  unfold label_modules. destruct (label_module_keeps w KmmOnload n ltac:(done)) as [Hh Hli].
  destruct (label_module onload w KmmOnload n) as [[n1 c1] b1] eqn:H1. simpl in Hh, Hli.
  destruct b1; simpl; [intros _; exists KmmOnload; split_and!; [done|done|by eapply label_module_waits..]|].
  destruct (onloadUsesSFC onload) eqn:Hu; [|done]. simpl.
  destruct (label_module onload w KmmSFC n1) as [[n2 c2] b2] eqn:H2. intros [= _ _ ->].
  exists KmmSFC. rewrite <-Hh, <-Hli. split_and!; [done|done|by eapply label_module_waits..].
Qed.

Lemma label_all_waits w ns ns' c :
  label_all onload w ns = (ns', c, true) →
  ∃ n k, n ∈ ns ∧ selects onload n = true ∧ k ≠ Operator ∧ used onload k = true ∧ has onload n k = false ∧ lingers onload w k n = true.
Proof.
  revert ns' c. induction ns as [|n ns IH]; intros ns' c; [done|]. simpl.
  assert (label_all onload w ns = ((label_all onload w ns).1.1, (label_all onload w ns).1.2, true) →
    ∃ n' k, n' ∈ n :: ns ∧ selects onload n' = true ∧ k ≠ Operator ∧ used onload k = true ∧ has onload n' k = false ∧ lingers onload w k n' = true) as Hlater.
  { intros (m & k & Hm & Hk)%IH. exists m, k. split; [by right|done]. }
  destruct (label_all onload w ns) as [[ns1 cs] bs]. simpl in Hlater.
  destruct (selects onload n) eqn:Hsel; [|intros [= _ _ ->]; by apply Hlater].
  destruct (label_modules onload w n) as [[n' c'] b] eqn:Hn. destruct b.
  - intros _. apply label_modules_waits in Hn as (k & Hk). exists n, k. split; [by left|done].
  - intros [= _ _ ->]. by apply Hlater.
Qed.

(** Only the labels of KMM and the upgrade of a node wait. *)
Definition never_waits (f : transform) : Prop := ∀ w, (f w).1 ≠ Waiting.

Lemma never_waits_then f g : never_waits f → never_waits g → never_waits (then_do f g).
Proof.
  intros Hf Hg w. unfold then_do. specialize (Hf w). destruct (f w) as [[] w1]; [apply Hg|done|done].
Qed.

Lemma never_waits_change P f : never_waits (change_nodes P f).
Proof. intros w. unfold change_nodes. by destruct (existsb P (cl_nodes w)). Qed.

Lemma never_waits_createModule k modprobe inTree getKernelMap :
  never_waits (spec_createModule onload k modprobe inTree getKernelMap).
Proof. intros w. unfold spec_createModule. by destruct (named _ _ _). Qed.

Lemma never_waits_updateModule k u getKernelMap : never_waits (spec_updateModule onload k u getKernelMap).
Proof. intros w. unfold spec_updateModule. destruct (named _ _ _), u; try done. by destruct (module_at_target _ _). Qed.

Lemma then_waits f g w w' :
  progressive onload f → wf w → then_do f g w = (Waiting, w') → f w = (Waiting, w') ∨ g w = (Waiting, w').
Proof.
  intros Hf Hw. unfold then_do. destruct (Hf w Hw) as (_ & Heq & _).
  destruct (f w) as [[] w1]; [|done|auto]. simpl in Heq. rewrite Heq by done. auto.
Qed.

Lemma then_waits_later f g w w' :
  progressive onload f → never_waits f → wf w → then_do f g w = (Waiting, w') → g w = (Waiting, w').
Proof.
  intros Hf Hn Hw [Hd|Hd]%then_waits; [|done..]. specialize (Hn w). by rewrite Hd in Hn.
Qed.

Lemma spec_update_waits w w' : wf w → spec_update onload w = (Waiting, w') → spec_upgradeNext onload w = (Waiting, w').
Proof.
  intros Hw Hup. apply then_waits_later in Hup; [|apply spec_updateDaemonSet_progressive| |done].
  - apply then_waits_later in Hup; [|by apply (spec_updateModule_progressive onload KmmOnload)|apply never_waits_updateModule|done].
    apply then_waits_later in Hup; [done|by apply (spec_updateModule_progressive onload KmmSFC)|apply never_waits_updateModule|done].
  - intros w1. unfold spec_updateDaemonSet. destruct (named _ _ _); [|done].
    destruct (ds_at_target _ _); [done|]. by destruct (daemonset_upgraded _ _).
Qed.

Lemma spec_live_waits image w w' :
  wf w → spec_live image onload w = (Waiting, w') →
  spec_addKmm onload w = (Waiting, w') ∨ spec_upgradeNext onload w = (Waiting, w').
Proof using apart laws.
  intros Hw Hlive. apply then_waits in Hlive as [Hlive|Hlive]; [by left| |by apply spec_addKmm_progressive|done].
  right. apply spec_update_waits; [done|].
  apply then_waits_later in Hlive; [|by apply spec_createModules_progressive| |done].
  - apply then_waits_later in Hlive; [|by apply spec_addOnload_progressive|apply never_waits_then; apply never_waits_change|done].
    apply then_waits_later in Hlive; [done|by apply spec_createDaemonSet_progressive| |done].
    intros w1. unfold spec_createDaemonSet. by destruct (named _ _ _).
  - apply never_waits_then; [apply never_waits_createModule|].
    destruct (onloadUsesSFC onload); [apply never_waits_createModule|by intros w1].
Qed.

(** *** The labels of KMM *)

Lemma spec_addKmm_waits w w' :
  spec_addKmm onload w = (Waiting, w') →
  ∃ n k, n ∈ cl_nodes w ∧ selects onload n = true ∧ k ≠ Operator ∧ used onload k = true ∧ has onload n k = false ∧ lingers onload w k n = true.
Proof.
  unfold spec_addKmm. destruct (label_all onload w (cl_nodes w)) as [[ns c] b] eqn:Hl.
  destruct b; [intros _; by eapply label_all_waits|]. destruct c; [done|].
  intros Hw. by destruct (never_waits_then _ _ (never_waits_change _ _) (never_waits_change _ _)
    (with_nodes w ns) (f_equal fst Hw)).
Qed.

(** *** The upgrade of a node *)

Definition drain_victims w n : list Pod :=
  List.filter (λ p, negb (pod_terminating p)) (List.filter pod_uses_onload (pods_on w n)).

Lemma spec_upgradeNext_waits w w' :
  Forall (coherent onload) (cl_nodes w) → spec_upgradeNext onload w = (Waiting, w') →
  ∃ n, n ∈ cl_nodes w ∧ label onload n Operator = None ∧
    (plugin_on onload w n = true ∧ w' = w ∨
     List.filter pod_uses_onload (pods_on w n) ≠ [] ∧ w' = evict_all (drain_victims w n) w).
Proof.
  intros Hc. unfold spec_upgradeNext. destruct (MinFunc _ _) as [n|] eqn:Hm; [|done].
  apply outdated_next in Hm as [Ho%outdated_is Hn]. rewrite Forall_forall in Hc. specialize (Hc n Hn).
  assert (spec_drain onload n w = (Waiting, w') → label onload n Operator = None →
    ∃ n, n ∈ cl_nodes w ∧ label onload n Operator = None ∧
    (plugin_on onload w n = true ∧ w' = w ∨
     List.filter pod_uses_onload (pods_on w n) ≠ [] ∧ w' = evict_all (drain_victims w n) w)) as Hdrain.
  { intros Hd Hl. exists n. split_and!; [done|done|]. unfold spec_drain in Hd.
    destruct (plugin_on onload w n); [left; by injection Hd|]. case_bool_decide; [done|].
    right. by injection Hd as <-. }
  unfold spec_upgradeNode. destruct (label onload n Operator) as [v|] eqn:Hl; [case_bool_decide as Hv; [done|]|].
  - intros _. rewrite (coherent_outdated _ n Hc Ho) in Hl; [done|]. rewrite Hl. intros u [= <-].
    by destruct (decide (v = onload_Version onload)).
  - intros Hd. by apply Hdrain.
Qed.

Lemma drain_victims_squat w n p :
  n ∈ cl_nodes w → label onload n Operator = None → p ∈ drain_victims w n →
  p ∈ cl_pods w ∧ squats (cl_nodes w) p = true.
Proof.
  intros Hn Hl Hp. unfold drain_victims, pods_on in Hp.
  apply list_elem_of_In, filter_In in Hp as [Hp Ht]. apply filter_In in Hp as [Hp Hu].
  apply filter_In in Hp as [Hp Hsel]. split; [by apply list_elem_of_In|].
  unfold squats. rewrite Hu, Ht. apply existsb_exists. exists n. split; [by apply list_elem_of_In|].
  unfold has. rewrite Hl. unfold pod_selected in Hsel. apply andb_true_iff in Hsel as [Hsel%bool_decide_eq_true _].
  by apply bool_decide_eq_true_2.
Qed.

(** ** The measure of a run: the work, and then the pods in the way *)

Definition nearer : nat * nat → nat * nat → Prop := slexprod nat nat lt lt.
Definition measure w : nat * nat := (work onload w, length (squatters w)).

Lemma nearer_wf : well_founded nearer.
Proof. apply wf_slexprod; apply lt_wf. Qed.

Lemma nearer_iff a b c d : nearer (a, b) (c, d) ↔ a < c ∨ a = c ∧ b < d.
Proof.
  split; [inversion 1; subst; auto|]. intros [?|[-> ?]]; by constructor.
Qed.

Lemma nearer_trans a b c : nearer a b → nearer b c → nearer a c.
Proof. destruct a, b, c. rewrite !nearer_iff. lia. Qed.

Lemma at_most_iff a b c d : at_most nearer (a, b) (c, d) ↔ a < c ∨ a = c ∧ b ≤ d.
Proof.
  unfold at_most. rewrite nearer_iff. split.
  - intros [[= -> ->]|[?|[-> ?]]]; [right; lia|by left|right; lia].
  - intros [?|[-> ?]]; [by right; left|]. destruct (decide (b = d)) as [->|]; [by left|right; right; lia].
Qed.

Lemma environment_measure w w' :
  environment w w' → work onload w' = work onload w ∧ length (squatters w') ≤ length (squatters w).
Proof.
  intros [? Hn Hm Hd Hp]. split; [|done]. unfold work, module_work, daemonset_work. by rewrite Hn, Hm, Hd.
Qed.

(** A reconciliation never leads away, whatever the state of the environment. *)
Lemma spec_live_measure image w :
  wf w → Forall (coherent onload) (cl_nodes w) →
  at_most nearer (measure (spec_live image onload w).2) (measure w).
Proof using apart laws.
  intros Hw Hc. destruct (spec_live_progressive onload apart laws image w Hw) as (_ & Heq & Hle).
  destruct (spec_live image onload w) as [v w'] eqn:Hlive. simpl in *.
  apply at_most_iff. destruct v; simpl in Hle.
  - rewrite Heq by done. by right.
  - left. lia.
  - apply spec_live_waits in Hlive as [Hk|Hu]; [| |done].
    + unfold spec_addKmm in Hk. pose proof (label_all_advances onload apart w (cl_nodes w)) as Ha.
      destruct (label_all onload w (cl_nodes w)) as [[ns c] b] eqn:Hl. destruct b.
      * injection Hk as <-. destruct c.
        -- destruct Ha as [_ Ha]. left. unfold work, module_work, daemonset_work in *. simpl. lia.
        -- apply label_all_same in Hl as ->. rewrite with_nodes_id. by right.
      * destruct c; [done|]. by destruct (never_waits_then _ _ (never_waits_change _ _) (never_waits_change _ _)
          (with_nodes w ns) (f_equal fst Hk)).
    + apply spec_upgradeNext_waits in Hu as (n & _ & _ & [[_ ->]|[_ ->]]); [by right| |done].
      right. split; [done|apply evict_all_le].
Qed.

(** When the environment has done its part, it leads on, or there is nothing left. *)
Lemma spec_live_responsive image w :
  wf w → Forall (coherent onload) (cl_nodes w) → responsive w →
  work onload w = 0 ∨ nearer (measure (spec_live image onload w).2) (measure w).
Proof using apart laws.
  intros Hw Hc Hr. destruct (spec_live_progressive onload apart laws image w Hw) as (_ & _ & Hle).
  destruct (spec_live image onload w) as [v w'] eqn:Hlive. simpl in *. destruct v; simpl in Hle.
  - left. by eapply nothing_work_zero.
  - right. apply nearer_iff. left. lia.
  - right. apply nearer_iff. apply spec_live_waits in Hlive as [Hk|Hu]; [| |done].
    + apply spec_addKmm_waits in Hk as (n & k & Hn & _ & Hk & _ & Hh & Hli).
      by rewrite (rsp_kmm _ Hr n k) in Hli.
    + apply spec_upgradeNext_waits in Hu as (n & Hn & Hl & [[Hp _]|[Hus ->]]); [| |done].
      * by rewrite (rsp_plugin _ Hr n) in Hp.
      * right. split; [done|]. destruct (drain_victims w n) as [|p ps] eqn:Hv.
        -- destruct Hus. unfold drain_victims in Hv.
           destruct (List.filter pod_uses_onload (pods_on w n)) as [|p ps] eqn:Hps; [done|].
           assert (In p (List.filter pod_uses_onload (pods_on w n))) as [Hin Huse]%filter_In by (rewrite Hps; by left).
           simpl in Hv. by rewrite (rsp_pods _ Hr n p Hn Hl) in Hv; [|by apply list_elem_of_In|].
        -- destruct (drain_victims_squat w n p Hn Hl) as [Hp Hs]; [rewrite Hv; by left|].
           by apply evict_all_lt.
Qed.

Lemma work_zero_nothing image w :
  wf w → work onload w = 0 → spec_live image onload w = (Nothing, w).
Proof using apart laws.
  intros Hw Hz. destruct (spec_live_progressive onload apart laws image w Hw) as (_ & Heq & Hle).
  destruct (spec_live image onload w) as [v w'] eqn:Hlive. simpl in *. destruct v; simpl in Hle.
  - by rewrite Heq.
  - lia.
  - exfalso. apply work_zero in Hz as (Hz & _). rewrite Forall_forall in Hz.
    apply spec_live_waits in Hlive as [Hk|Hu]; [| |done].
    + destruct (spec_addKmm_waits _ _ Hk) as (n & k & Hn & Hs & Hk' & Hu & Hh & _).
      specialize (Hz n Hn). unfold node_work, sfc_missing, missing in Hz. rewrite Hs in Hz.
      destruct (outdated_node onload n); [lia|]. destruct k; [| |done].
      * rewrite Hh in Hz. lia.
      * simpl in Hu. rewrite Hu, Hh in Hz. lia.
    + unfold spec_upgradeNext in Hu. destruct (MinFunc _ _) as [n|] eqn:Hm; [|done].
      apply outdated_next in Hm as [Ho%outdated_is Hn]. specialize (Hz n Hn). unfold node_work in Hz.
      rewrite Ho in Hz. destruct (selects onload n); [lia|]. unfold present in Hz.
      unfold outdated_node in Ho. apply andb_true_iff in Ho as [Ho _]. rewrite Ho in Hz. lia.
Qed.

(** ** Convergence *)

Section run.
Context (image : string) (req : NamespacedName) (ws : nat → cluster).

(** The cluster before each reconciliation. *)
Definition reconciles : Prop :=
  ∀ i, environment (denote serve (Reconcile image req) (ws i)).2 (ws (S i)).
Definition fair_environment : Prop := ∀ i, ∃ j, i ≤ j ∧ responsive (ws j).
End run.

Definition governs req w : Prop :=
  named onload_meta req (cl_onloads w) = Some onload ∧
  wf w ∧ Forall (coherent onload) (cl_nodes w).

(** What a resource must be for the reconciler to handle it. *)
Record servable : Prop := {
  srv_live : meta_DeletionTimestamp (onload_meta onload) = None;
  srv_name : name_too_long onload = false;
  srv_version : onload_Version onload ≠ "";
}.

Lemma governs_denote image req w :
  servable → governs req w →
  denote serve (Reconcile image req) w =
  let '(v, w') := spec_live image onload w in (Done (result_of v, None), w').
Proof using laws.
  intros [Hd Hn _] (Ho & Hw & _). rewrite Reconcile_denote, Ho. by apply reconcile_onload_denote.
Qed.

Lemma then_onloads f g w :
  (∀ w, cl_onloads (f w).2 = cl_onloads w) → (∀ w, cl_onloads (g w).2 = cl_onloads w) →
  cl_onloads (then_do f g w).2 = cl_onloads w.
Proof.
  intros Hf Hg. unfold then_do. specialize (Hf w). destruct (f w) as [[] w1]; simpl in *; [|done|done].
  by rewrite Hg.
Qed.

Lemma spec_addKmm_onloads w : cl_onloads (spec_addKmm onload w).2 = cl_onloads w.
Proof.
  unfold spec_addKmm. destruct (label_all onload w (cl_nodes w)) as [[ns c] b].
  destruct b; [done|]. destruct c; [done|].
  apply (then_onloads (spec_removeStale onload KmmOnload) (spec_removeStale onload KmmSFC) (with_nodes w ns)); done.
Qed.

Lemma spec_upgradeNext_onloads w : cl_onloads (spec_upgradeNext onload w).2 = cl_onloads w.
Proof.
  unfold spec_upgradeNext. destruct (MinFunc _ _) as [n|]; [|done].
  assert (cl_onloads (spec_drain onload n w).2 = cl_onloads w) as Hd.
  { unfold spec_drain. destruct (plugin_on _ _ _); [done|]. by case_bool_decide. }
  unfold spec_upgradeNode. destruct (label onload n Operator); [by case_bool_decide|done].
Qed.

Lemma spec_createModule_onloads k modprobe inTree getKernelMap w :
  cl_onloads (spec_createModule onload k modprobe inTree getKernelMap w).2 = cl_onloads w.
Proof. unfold spec_createModule. by destruct (named _ _ _). Qed.

Lemma spec_updateModule_onloads k u getKernelMap w :
  cl_onloads (spec_updateModule onload k u getKernelMap w).2 = cl_onloads w.
Proof.
  unfold spec_updateModule. destruct (named _ _ _), u; try done. by destruct (module_at_target _ _).
Qed.

Lemma spec_live_onloads image w : cl_onloads (spec_live image onload w).2 = cl_onloads w.
Proof.
  unfold spec_live, spec_update, spec_createModules, spec_addOnload.
  repeat (apply then_onloads; intros); auto using spec_addKmm_onloads, spec_upgradeNext_onloads,
    spec_createModule_onloads, spec_updateModule_onloads.
  - destruct (onloadUsesSFC onload); [apply spec_createModule_onloads|done].
  - unfold spec_createDaemonSet. by destruct (named _ _ _).
  - unfold spec_updateDaemonSet. destruct (named _ _ _); [|done].
    destruct (ds_at_target _ _); [done|]. by destruct (daemonset_upgraded _ _).
Qed.

Lemma governs_live image req w : servable → governs req w → governs req (spec_live image onload w).2.
Proof using apart laws.
  intros Hs (Ho & Hw & Hc). destruct (spec_live_progressive onload apart laws image w Hw) as (Hm & _ & _).
  split_and!; [by rewrite spec_live_onloads|by apply wf_spec_live|].
  eapply (moves_invariant onload (coherent onload)); [|done|done].
  intros n n' Hstep. apply node_step_coherent; [done|apply Hs|done].
Qed.

Lemma environment_governs req w w' : environment w w' → governs req w → governs req w'.
Proof.
  intros [Ho Hn Hm Hd _] (Hon & [Hw1 Hw2 Hw3] & Hc). split_and!; [by rewrite Ho|split; by rewrite ?Hn, ?Hd|by rewrite Hn].
Qed.

Section run.
Context (image : string) (req : NamespacedName) (ws : nat → cluster).
Context (Hserv : servable) (Hrun : reconciles image req ws) (Hgov : governs req (ws 0)).

Lemma run_step i :
  governs req (ws i) → environment (spec_live image onload (ws i)).2 (ws (S i)).
Proof using laws Hserv Hrun.
  intros Hg. pose proof (Hrun i) as He. rewrite governs_denote in He by done.
  by destruct (spec_live image onload (ws i)).
Qed.

Lemma run_governs i : governs req (ws i).
Proof using apart laws Hserv Hrun Hgov.
  induction i as [|i IH]; [done|]. eapply environment_governs; [by apply run_step|]. by apply governs_live.
Qed.

Lemma run_down i : at_most nearer (measure (ws (S i))) (measure (spec_live image onload (ws i)).2).
Proof using apart laws Hserv Hrun Hgov.
  destruct (environment_measure _ _ (run_step i (run_governs i))) as [Hw Hs].
  apply at_most_iff. right. done.
Qed.

Lemma run_at_rest i : work onload (ws i) = 0 → work onload (ws (S i)) = 0.
Proof using apart laws Hserv Hrun Hgov.
  intros Hz. destruct (environment_measure _ _ (run_step i (run_governs i))) as [-> _].
  destruct (run_governs i) as (_ & Hw & _). by rewrite work_zero_nothing.
Qed.

Lemma run_rests : fair_environment ws → ∃ N, ∀ i, N ≤ i → work onload (ws i) = 0.
Proof using apart laws Hserv Hrun Hgov.
  intros Hfair.
  destruct (fair_reaches nearer nearer_wf nearer_trans measure responsive (λ w, work onload w = 0) ws) with (i := 0)
    as (N & _ & HN); [| |done|].
  - intros i. destruct (run_governs i) as (_ & Hw & Hc).
    destruct (spec_live_measure image (ws i) Hw Hc) as [<-|Hlt]; [apply run_down|].
    right. destruct (run_down i) as [->|Hlt']; [done|by eapply nearer_trans].
  - intros i Hr. destruct (run_governs i) as (_ & Hw & Hc).
    destruct (spec_live_responsive image (ws i) Hw Hc Hr) as [Hz|Hlt]; [by left|].
    right. destruct (run_down i) as [->|Hlt']; [done|by eapply nearer_trans].
  - exists N. induction 1 as [|i Hi IH]; [done|by apply run_at_rest].
Qed.
End run.

(** *** A prompt environment *)

Definition tidied w (p : Pod) : bool :=
  negb (pod_terminating p) &&
  forallb (λ n,
    (has onload n KmmOnload || negb (pod_selected (module_pods onload KmmOnload) (node_Name n) p)) &&
    (has onload n KmmSFC || negb (pod_selected (module_pods onload KmmSFC) (node_Name n) p)) &&
    (has onload n Operator || negb (pod_selected (devicePluginPodSet onload) (node_Name n) p))) (cl_nodes w).
Definition tidy w : cluster := with_pods w (List.filter (tidied w) (cl_pods w)).

Lemma tidied_node w n p :
  tidied w p = true → n ∈ cl_nodes w →
  pod_terminating p = false ∧
  (∀ k, k ≠ Operator → has onload n k = false → pod_selected (module_pods onload k) (node_Name n) p = false) ∧
  (has onload n Operator = false → pod_selected (devicePluginPodSet onload) (node_Name n) p = false).
Proof.
  unfold tidied. intros [Ht%negb_true_iff Hf]%andb_true_iff Hn.
  rewrite forallb_forall in Hf. apply list_elem_of_In, Hf in Hn.
  apply andb_true_iff in Hn as [[H1 H2]%andb_true_iff H3]. split_and!; [done| |].
  - intros k Hk Hh. destruct k; [| |done]; [rewrite Hh in H1; by apply negb_true_iff|rewrite Hh in H2; by apply negb_true_iff].
  - intros Hh. rewrite Hh in H3. by apply negb_true_iff.
Qed.

Lemma existsb_filter_false {A} (f g : A → bool) l :
  (∀ a, g a = true → f a = false) → existsb f (List.filter g l) = false.
Proof.
  intros Hfg. apply not_true_iff_false. intros (a & [_ Hg]%filter_In & Hf)%existsb_exists.
  by rewrite Hfg in Hf.
Qed.

Lemma tidy_responsive w : responsive (tidy w).
Proof.
  split; simpl.
  - intros n k Hn Hk Hh. apply existsb_filter_false. intros p Hp.
    by eapply tidied_node.
  - intros n Hn Hl. apply existsb_filter_false. intros p Hp.
    eapply tidied_node; [done|done|]. unfold has. by rewrite Hl.
  - intros n p Hn _ Hp _. apply list_elem_of_In, filter_In in Hp as [Hp _].
    apply filter_In in Hp as [_ Hp]. by apply (tidied_node w n p).
Qed.

Lemma filter_twice_le {A} (f g : A → bool) l :
  length (List.filter f (List.filter g l)) ≤ length (List.filter f l).
Proof. induction l as [|a l IH]; simpl; [lia|]. destruct (g a); simpl; destruct (f a); simpl; lia. Qed.

Lemma tidy_environment w : environment w (tidy w).
Proof. split; try done. apply filter_twice_le. Qed.

(** C1. The operator converges.  However the resource and the cluster start out, if
    the reconciler runs again and again, and the rest of the cluster does its part
    again and again (KMM unloads its modules from the nodes that have lost its
    label, the device plugin leaves the nodes that have lost the operator's, the
    evicted pods go), there is a reconciliation from which on every one returns
    without an error and without a requeue, changes nothing, and finds the cluster
    as the resource wants it: the modules and the DaemonSet at its version, the
    labels of all selected nodes at its version, and no labels on the others. *)
Theorem reconcile_converges image req ws :
  servable → governs req (ws 0) → reconciles image req ws → fair_environment ws →
  ∃ N, ∀ i, N ≤ i →
    denote serve (Reconcile image req) (ws i) = (Done (no_result, None), ws i) ∧ desired (ws i).
Proof using apart laws.
  intros Hs Hg Hr Hf. destruct (run_rests image req ws Hs Hr Hg Hf) as [N HN]. exists N. intros i Hi.
  specialize (HN i Hi). pose proof (run_governs image req ws Hs Hr Hg i) as Hgi. pose proof Hgi as (_ & Hw & Hc).
  split; [by rewrite governs_denote, work_zero_nothing|]. apply work_zero_desired; [apply Hs|done|done].
Qed.
Lemma desired_node_work n : desired_node n → node_work onload n = 0.
Proof.
  unfold desired_node, node_work, sfc_missing, outdated_node, at_target, missing, present, has.
  destruct (selects onload n).
  - intros (H1 & H2 & H3). rewrite H1, H2. simpl. rewrite bool_decide_eq_true_2 by done. simpl.
    destruct (onloadUsesSFC onload); [by rewrite H3|done].
  - intros Hl. by rewrite !Hl.
Qed.

Lemma desired_module_work k w : desired_module k w → module_work onload k (used onload k) w = 0.
Proof.
  unfold desired_module, module_work, module_at_target. destruct (named _ _ _); [|by intros ->].
  intros [-> Hv]. by rewrite bool_decide_eq_true_2.
Qed.

Lemma desired_work w : desired w → work onload w = 0.
Proof.
  intros (Hn & H1 & H2 & (d & Hd & Hv)). apply work_zero. split_and!.
  - rewrite Forall_forall in *. intros n Hin. by apply desired_node_work, Hn.
  - by apply (desired_module_work KmmOnload).
  - by apply (desired_module_work KmmSFC).
  - unfold daemonset_work, ds_at_target. rewrite Hd. by rewrite bool_decide_eq_true_2.
Qed.

(** C6. The operator has nothing to do exactly when the cluster is as the resource
    wants it: a reconciliation returns without a requeue just in that case, and it
    has then changed nothing. *)
Theorem reconcile_rests_iff image req w :
  servable → governs req w →
  (denote serve (Reconcile image req) w = (Done (no_result, None), w) ↔ desired w) ∧
  ((denote serve (Reconcile image req) w).1 = Done (no_result, None) → desired w).
Proof using apart laws.
  intros Hs Hg. pose proof Hg as (_ & Hw & Hc). rewrite governs_denote by done.
  assert ((spec_live image onload w).1 = Nothing → desired w) as Hd.
  { intros Hv. destruct (spec_live image onload w) as [v w'] eqn:Hl. simpl in Hv. subst v.
    apply work_zero_desired; [apply Hs|done|]. by eapply nothing_work_zero. }
  split; [split|].
  - intros Heq. apply Hd. by destruct (spec_live image onload w) as [[] w'].
  - intros Hdes. by rewrite work_zero_nothing by (done || by apply desired_work).
  - intros Heq. apply Hd. by destruct (spec_live image onload w) as [[] w'].
Qed.

(** C4. A reconciliation moves every node along the state machine of [NodeMachine]
    and nowhere else: a label appears only on a selected node and in order (the
    module, then [sfc], then the operator's), an upgrade takes the operator's label
    off before the module's; and nodes whose labels agree on the version stay so. *)
Theorem reconcile_moves_nodes image req w :
  servable → named onload_meta req (cl_onloads w) = Some onload → wf w →
  Forall2 (rtc (node_step onload)) (cl_nodes w) (cl_nodes (denote serve (Reconcile image req) w).2) ∧
  (Forall (coherent onload) (cl_nodes w) →
   Forall (coherent onload) (cl_nodes (denote serve (Reconcile image req) w).2)).
Proof using apart laws.
  intros Hs Ho Hw. rewrite Reconcile_denote, Ho, reconcile_onload_denote by (done || apply Hs).
  destruct (spec_live_progressive onload apart laws image w Hw) as (Hm & _ & _).
  destruct (spec_live image onload w) as [v w']. simpl in *. split; [done|].
  apply (moves_invariant onload); [|done]. intros n n' Hstep. apply node_step_coherent; [done|apply Hs|done].
Qed.
End convergence.

(** *** A run

    An upgrade: a node at [v1], used by a pod and with the device plugin's on it, a
    fresh node, and a node that is not selected but has a label. *)

Definition convergence_onload : Onload := sample_onload "v2" (Some MkSFCSpec).
Definition convergence_start : cluster :=
  MkCluster [convergence_onload]
    [labelled_node "n1" "v1"; sample_node "n2" {[ "key" := "value" ]};
     sample_node "n3" {[ onloadLabelName "onload" "ns" := "v1" ]}]
    [sample_pod "app" "n1" ∅ 1] [] [].

Fixpoint prompt_run (w : cluster) (i : nat) : cluster :=
  match i with
  | O => w
  | S i => tidy convergence_onload (denote serve (Reconcile sample_image sample_key) (prompt_run w i)).2
  end.

Lemma prompt_run_reconciles w : reconciles convergence_onload sample_image sample_key (prompt_run w).
Proof. intros i. apply tidy_environment. Qed.

Lemma prompt_run_fair w : fair_environment convergence_onload (prompt_run w).
Proof. intros i. exists (S i). split; [lia|apply tidy_responsive]. Qed.

Lemma sample_apart version sfc : selector_apart (sample_onload version sfc).
Proof. intros k. by destruct k. Qed.

Lemma convergence_servable : servable convergence_onload.
Proof. by split. Qed.

(** Coherence is decided by the labels the node has. *)
Lemma coherent_labelled n :
  label convergence_onload n KmmOnload = label convergence_onload n Operator →
  label convergence_onload n KmmSFC = label convergence_onload n Operator →
  coherent convergence_onload n.
Proof. intros H1 H2 k v Hk Hv. destruct k; [done|by rewrite H1, <-H2, Hv|by rewrite H1, Hv]. Qed.

Lemma convergence_governs : governs convergence_onload sample_key convergence_start.
Proof.
  split_and!; [done|split; [repeat constructor; set_solver|by repeat constructor|by constructor]|].
  repeat constructor; [by apply coherent_labelled..|].
  intros k v Hk. destruct k; by vm_compute.
Qed.

Lemma convergence_apart : selector_apart convergence_onload.
Proof. apply sample_apart. Qed.

Lemma convergence_laws : library_laws convergence_onload.
Proof. apply sample_laws. Qed.

(** Seven reconciliations bring the objects and the labels of the other nodes in
    order, and take the operator's label off [n1]; one waits for the pod; the rest
    move [n1] to the new version. *)
Definition result_at (w : cluster) (i : nat) : option Result :=
  match (denote serve (Reconcile sample_image sample_key) (prompt_run w i)).1 with
  | Done (res, None) => Some res
  | _ => None
  end.

Example convergence_results :
  map (result_at convergence_start) (seq 0 13) =
  map Some (replicate 7 requeue ++ [requeue_after_default] ++ replicate 3 requeue ++ replicate 2 no_result).
Proof. vm_compute. reflexivity. Qed.

Lemma reconcile_converges_witness :
  servable convergence_onload ∧
  ∃ N, ∀ i, N ≤ i →
    denote serve (Reconcile sample_image sample_key) (prompt_run convergence_start i) =
      (Done (no_result, None), prompt_run convergence_start i) ∧
    desired convergence_onload (prompt_run convergence_start i).
Proof.
  split; [exact convergence_servable|].
  exact (reconcile_converges convergence_onload convergence_apart convergence_laws
           sample_image sample_key (prompt_run convergence_start)
           convergence_servable convergence_governs (prompt_run_reconciles convergence_start)
           (prompt_run_fair convergence_start)).
Defined.

(** The run above, before it has come to rest and after. *)
Lemma prompt_run_governs i : governs convergence_onload sample_key (prompt_run convergence_start i).
Proof.
  apply (run_governs convergence_onload convergence_apart convergence_laws sample_image);
    [apply convergence_servable|apply prompt_run_reconciles|apply convergence_governs].
Qed.

Lemma result_at_Some w i res :
  result_at w i = Some res →
  (denote serve (Reconcile sample_image sample_key) (prompt_run w i)).1 = Done (res, None).
Proof. unfold result_at. destruct (denote _ _ _).1 as [[r []]|]; congruence. Qed.

Lemma convergence_at_rest : result_at convergence_start 11 = Some no_result.
Proof. vm_compute. reflexivity. Qed.

Lemma reconcile_rests_iff_witness :
  servable convergence_onload ∧ desired convergence_onload (prompt_run convergence_start 11).
Proof.
  split; [exact convergence_servable|].
  apply (reconcile_rests_iff convergence_onload convergence_apart convergence_laws sample_image sample_key);
    [exact convergence_servable|exact (prompt_run_governs 11)|].
  exact (result_at_Some convergence_start 11 no_result convergence_at_rest).
Defined.

Lemma reconcile_moves_nodes_witness :
  Forall (coherent convergence_onload) (cl_nodes convergence_start) ∧
  Forall2 (rtc (node_step convergence_onload)) (cl_nodes convergence_start)
    (cl_nodes (denote serve (Reconcile sample_image sample_key) convergence_start).2) ∧
  Forall (coherent convergence_onload)
    (cl_nodes (denote serve (Reconcile sample_image sample_key) convergence_start).2).
Proof.
  destruct convergence_governs as (Ho & Hw & Hc). split; [exact Hc|].
  destruct (reconcile_moves_nodes convergence_onload convergence_apart convergence_laws sample_image
    sample_key convergence_start convergence_servable Ho Hw) as [Hm Hk].
  split; [exact Hm|exact (Hk Hc)].
Defined.
