(* ===== verification/StaleLabel.v ===== *)
(** * A label that outlives its module

    [coherent] holds of the nodes as long as the operator alone changes what a node
    is to be.  When a node is taken out of the selection and put back between two
    reconciliations, the module's label is gone and the operator's is still there,
    at the old version: nothing in a reconciliation compares the two.  Here is what
    follows: the reconciler rests with labels of two versions on the node, and an
    upgrade back to the version of the stale label waits for ever. *)

From S2P Require Import Prelude GoStd Effects ApiTypes Client ApiServer MemServer Labels Modules NodeLabels DevicePluginDS Upgrade Reconcile Samples ClusterSpec RefineLabels Refinement NodeMachine Progress Convergence.
From stdpp Require Import options.

Local Open Scope list_scope.

Section blocked.
Context `{ApiErrors}.
Context (onload : Onload) (laws : library_laws onload).

(** All of a reconciliation but the upgrade of the next node. *)
Definition before_upgrade (image : string) : transform :=
  then_do (spec_addKmm onload)
    (then_do (spec_createModules onload)
       (then_do (spec_addOnload onload)
          (then_do (spec_createDaemonSet image onload)
             (then_do (spec_updateDaemonSet onload)
                (then_do (spec_updateModule onload KmmOnload true onloadKernelMapper)
                   (spec_updateModule onload KmmSFC (onloadUsesSFC onload) sfcKernelMapper)))))).

Lemma then_do_assoc f g h w : then_do (then_do f g) h w = then_do f (then_do g h) w.
Proof. unfold then_do. by destruct (f w) as [[] w1]. Qed.

Lemma then_do_ext f g g' w : (∀ w, g w = g' w) → then_do f g w = then_do f g' w.
Proof. intros Hg. unfold then_do. destruct (f w) as [[] w1]; [apply Hg|done|done]. Qed.

Lemma spec_live_split image w :
  spec_live image onload w = then_do (before_upgrade image) (spec_upgradeNext onload) w.
Proof.
  unfold before_upgrade, spec_live, spec_update. symmetry.
  repeat (rewrite then_do_assoc; apply then_do_ext; intros).
  reflexivity.
Qed.

(** C30. A node is stuck in an upgrade when it has the operator's label at the target
    version and the module's at another, and the device plugin is on it: every
    reconciliation then asks to be called again and does nothing, and the device
    plugin, which runs wherever the label is, stays. *)
Theorem stale_label_blocks_upgrade image req w n :
  servable onload → named onload_meta req (cl_onloads w) = Some onload → wf w →
  before_upgrade image w = (Nothing, w) →
  MinFunc compare_names (outdated onload w) = Some n →
  label onload n Operator = Some (onload_Version onload) → plugin_on onload w n = true →
  denote serve (Reconcile image req) w = (Done (requeue_after_default, None), w).
Proof using laws.
  intros Hs Ho Hw Hb Hm Hl Hp.
  rewrite Reconcile_denote, Ho, reconcile_onload_denote by (done || apply Hs).
  rewrite spec_live_split. unfold then_do at 1. rewrite Hb. unfold spec_upgradeNext. rewrite Hm.
  unfold spec_upgradeNode. rewrite Hl, bool_decide_eq_false_2 by tauto.
  unfold spec_drain. by rewrite Hp.
Qed.

Lemma before_upgrade_progressive image :
  selector_apart onload → progressive onload (before_upgrade image).
Proof using laws.
  intros apart. apply progressive_then; [by apply spec_addKmm_progressive|].
  apply progressive_then; [by apply spec_createModules_progressive|].
  apply progressive_then; [by apply spec_addOnload_progressive|].
  apply progressive_then; [by apply spec_createDaemonSet_progressive|].
  apply progressive_then; [apply spec_updateDaemonSet_progressive|].
  apply progressive_then; [by apply (spec_updateModule_progressive onload KmmOnload)|].
  by apply (spec_updateModule_progressive onload KmmSFC).
Qed.

Lemma before_upgrade_nothing image w :
  selector_apart onload → wf w → (before_upgrade image w).1 = Nothing → before_upgrade image w = (Nothing, w).
Proof using laws.
  intros apart Hw Hv. destruct (before_upgrade_progressive image apart w Hw) as (_ & Heq & _).
  destruct (before_upgrade image w) as [v w']. simpl in *. subst v. by rewrite Heq.
Qed.
End blocked.

(** ** How it comes about *)

(** What an administrator may do between two reconciliations. *)
Inductive edit :=
  | EditVersion (version : string)
  | EditNodeLabel (node x v : string).

Definition edited (e : edit) (w : cluster) : cluster :=
  match e with
  | EditVersion v =>
      MkCluster [sample_onload v None] (cl_nodes w) (cl_pods w) (cl_modules w) (cl_daemonsets w)
  | EditNodeLabel name x v =>
      with_nodes w (map (λ n, if bool_decide (node_Name n = name)
        then node_with_Labels n (Some (<[x := v]> (default ∅ (node_Labels n)))) else n) (cl_nodes w))
  end.

Definition reconciled (w : cluster) : cluster := (denote serve (Reconcile sample_image sample_key) w).2.

(** A settled node at [v2], with the device plugin. *)
Definition edits_start : cluster :=
  let onload := sample_onload "v2" None in
  MkCluster [onload]
    [sample_node "n1" {[ "key" := "value"; kmmOnloadLabelName "onload" "ns" := "v2";
                         onloadLabelName "onload" "ns" := "v2" ]}]
    [MkPod (sample_meta "plugin" "ns" (Some (dsPodLabels onload))) "n1" []]
    [createModule onload "onload-module" "onload" "" onloadKernelMapper]
    [devicePluginDaemonSet sample_image onload].

(** The node is deselected and selected again, one reconciliation in between, and
    the resource goes to [v1] and, once that has settled, back to [v2]. *)
Definition edits_mixed : cluster :=
  Nat.iter 4 reconciled
    (edited (EditVersion "v1")
       (edited (EditNodeLabel "n1" "key" "value")
          (reconciled (edited (EditNodeLabel "n1" "key" "other") edits_start)))).
Definition edits_end : cluster := Nat.iter 2 reconciled (edited (EditVersion "v2") edits_mixed).

Definition labels_of (w : cluster) : list (option string * option string) :=
  map (λ n, (label (sample_onload "v2" None) n KmmOnload, label (sample_onload "v2" None) n Operator)) (cl_nodes w).
Definition rests (w : cluster) : bool :=
  returned no_result (denote serve (Reconcile sample_image sample_key) w).1.
Definition stuck_node : Node := default (sample_node "" ∅) (head (cl_nodes edits_end)).

(** The reconciler rests with the module at [v1] and the operator's label at [v2];
    and then it does not get anywhere. *)
Example edits_mixed_rests : rests edits_mixed = true ∧ labels_of edits_mixed = [(Some "v1", Some "v2")].
Proof. vm_compute. split; reflexivity. Qed.

Lemma edits_end_onload : named onload_meta sample_key (cl_onloads edits_end) = Some (sample_onload "v2" None).
Proof. vm_compute. reflexivity. Qed.

Lemma edits_end_wf : wf edits_end.
Proof.
  assert (bool_decide (NoDup (map node_Name (cl_nodes edits_end))) &&
          forallb (λ n, non_nil (node_Labels n)) (cl_nodes edits_end) &&
          forallb daemonset_ok (cl_daemonsets edits_end) = true) as Hb by (vm_compute; reflexivity).
  apply andb_true_iff in Hb as [[Hn%bool_decide_eq_true Hl]%andb_true_iff Hd].
  rewrite forallb_forall in Hl, Hd. split; [exact Hn| |]; apply Forall_forall; intros a Ha%list_elem_of_In; auto.
Qed.

Lemma edits_end_before_upgrade :
  before_upgrade (sample_onload "v2" None) sample_image edits_end = (Nothing, edits_end).
Proof.
  apply before_upgrade_nothing; [apply sample_laws|apply sample_apart|apply edits_end_wf|].
  vm_compute. reflexivity.
Qed.

Lemma stale_label_blocks_upgrade_witness :
  labels_of edits_end = [(Some "v1", Some "v2")] ∧
  denote serve (Reconcile sample_image sample_key) edits_end = (Done (requeue_after_default, None), edits_end).
Proof.
  split; [vm_compute; reflexivity|].
  apply (stale_label_blocks_upgrade (sample_onload "v2" None) (sample_laws "v2" None)
           sample_image sample_key edits_end stuck_node).
  - by split.
  - exact edits_end_onload.
  - exact edits_end_wf.
  - exact edits_end_before_upgrade.
  - vm_compute. reflexivity.
  - vm_compute. reflexivity.
  - vm_compute. reflexivity.
Defined.
