(* ===== verification/Heap.v ===== *)
(** * A heap of Go objects, and what it is to copy one deeply

    Objects live at locations; a struct value is what the memory of a struct
    holds, with pointers in it.  [Layout] says of a type of such values which
    (pure) value one stands for and which locations that takes; [copies] is what a
    deep copy promises: the same value, in new locations only.  The combinators are
    the statements that the generated copying code consists of. *)

From S2P Require Import Prelude.
From stdpp Require Import gmap.
From stdpp Require Import options.

Local Open Scope list_scope.

Notation loc := positive.

Section heap.
Context {cell : Type}.

Notation heap := (gmap loc cell).

(** ** Programs on the heap; [None] is a nil or ill-typed dereference *)

Definition mem (A : Type) : Type := heap → option (A * heap).
#[export] Instance mem_ret : MRet mem := λ A a h, Some (a, h).
#[export] Instance mem_bind : MBind mem := λ A B f p h,
  match p h with Some (a, h') => f a h' | None => None end.

(** The types of the objects. *)
Class Boxed (A : Type) := {
  box : A → cell;
  unbox : cell → option A;
  unbox_box a : unbox (box a) = Some a;
}.

Definition load `{Boxed A} (l : loc) : mem A := λ h,
  match h !! l ≫= unbox with Some a => Some (a, h) | None => None end.
Definition alloc `{Boxed A} (a : A) : mem loc := λ h,
  let l := fresh (dom h) in Some (l, <[l := box a]> h).
Definition store `{Boxed A} (l : loc) (a : A) : mem () := λ h,
  if decide (is_Some (h !! l)) then Some ((), <[l := box a]> h) else None.

(** ** Layouts *)

Class Layout (A : Type) := {
  value : Type;
  read : heap → A → option value;
  locs : heap → A → gset loc;
  zero : A;
  read_frame h h' a v :
    read h a = Some v → (∀ l, l ∈ locs h a → h' !! l = h !! l) →
    read h' a = Some v ∧ locs h' a = locs h a;
  locs_dom h a v : read h a = Some v → locs h a ⊆ dom h;
}.

Lemma read_mono `{Layout A} h h' (a : A) v :
  read h a = Some v → h ⊆ h' → read h' a = Some v ∧ locs h' a = locs h a.
Proof.
  intros Hr Hs. apply read_frame; [done|]. intros l Hl.
  pose proof (locs_dom _ _ _ Hr l Hl) as [c Hc]%elem_of_dom. rewrite Hc. by eapply lookup_weaken.
Qed.

(** What [copies] promises. *)
Definition copies `{Layout A} (f : A → mem A) : Prop :=
  ∀ h a v, read h a = Some v →
    ∃ a' h', f a h = Some (a', h') ∧ h ⊆ h' ∧ read h' a' = Some v ∧ locs h' a' ## dom h.

(** ** Values without pointers: [*out = *in] *)

Definition plain (A : Type) (a : A) : Layout A.
Proof.
  refine {| value := A; read := λ _ a, Some a; locs := λ _ _, ∅; zero := a |}.
  - done.
  - intros. apply empty_subseteq.
Defined.

(** ** Fields *)

#[export] Instance pair_layout `{Layout A, Layout B} : Layout (A * B).
Proof.
  refine {| value := value (A:=A) * value (A:=B);
            read h p := v ← read h p.1; u ← read h p.2; Some (v, u);
            locs h p := locs h p.1 ∪ locs h p.2;
            zero := (zero, zero) |}.
  - intros h h' [a b] [v u] Hr Hl. simpl in *.
    destruct (read h a) as [v'|] eqn:Ha; [|done]. destruct (read h b) as [u'|] eqn:Hb; [|done].
    simplify_option_eq.
    destruct (read_frame h h' a v Ha) as [-> ->]; [intros l Hin; apply Hl; set_solver|].
    destruct (read_frame h h' b u Hb) as [-> ->]; [intros l Hin; apply Hl; set_solver|]. done.
  - intros h [a b] [v u] Hr. simpl in *.
    destruct (read h a) as [v'|] eqn:Ha; [|done]. destruct (read h b) as [u'|] eqn:Hb; [|done].
    apply union_subseteq. split; by eapply locs_dom.
Defined.

(** A struct is the tuple of its fields. *)
Definition struct_layout `{Layout B} {A} (fields : A → B) (struct : B → A) : Layout A.
Proof.
  refine {| value := value (A:=B); read h a := read h (fields a); locs h a := locs h (fields a);
            zero := struct zero |}.
  - intros h h' a v. apply read_frame.
  - intros h a v. apply locs_dom.
Defined.

Definition copy_pair {A B} (f : A → mem A) (g : B → mem B) (p : A * B) : mem (A * B) :=
  a ← f p.1; b ← g p.2; mret (a, b).

Lemma copies_pair `{Layout A, Layout B} (f : A → mem A) (g : B → mem B) :
  copies f → copies g → copies (copy_pair f g).
Proof.
  intros Hf Hg h [a b] [v u] Hr. simpl in *.
  destruct (read h a) as [v'|] eqn:Ha; [|done]. destruct (read h b) as [u'|] eqn:Hb; [|done].
  simplify_option_eq.
  destruct (Hf h a v Ha) as (a' & h1 & Hfa & Hs1 & Ha' & Hd1).
  destruct (read_mono h h1 b u Hb Hs1) as [Hb1 _].
  destruct (Hg h1 b u Hb1) as (b' & h2 & Hgb & Hs2 & Hb' & Hd2).
  destruct (read_mono h1 h2 a' v Ha' Hs2) as [Ha2 Hl2].
  exists (a', b'), h2. split_and!.
  - unfold copy_pair, mbind, mem_bind, mret, mem_ret. simpl. by rewrite Hfa, Hgb.
  - by transitivity h1.
  - simpl. by rewrite Ha2, Hb'.
  - simpl. rewrite Hl2. apply disjoint_union_l. split; [done|].
    apply subseteq_dom in Hs1. set_solver.
Qed.

(** ** Arrays *)

#[export] Instance list_layout `{Layout A} : Layout (list A).
Proof.
  refine {| value := list (value (A:=A)); read h xs := mapM (read h) xs;
            locs h xs := ⋃ (locs h <$> xs); zero := [] |}.
  - intros h h' xs. induction xs as [|x xs IH]; intros vs Hr Hl; [done|].
    apply mapM_Some in Hr. apply Forall2_cons_inv_l in Hr as (v & us & Hx & Hxs & ->).
    apply mapM_Some in Hxs. simpl in Hl.
    destruct (read_frame h h' x v Hx) as [Hx' Hl1]; [intros l Hin; apply Hl; set_solver|].
    destruct (IH us Hxs) as [Hxs' Hl2]; [intros l Hin; apply Hl; set_solver|].
    split; [simpl; by rewrite Hx', Hxs'|].
    change (locs h' x ∪ ⋃ (locs h' <$> xs) = locs h x ∪ ⋃ (locs h <$> xs)). by rewrite Hl1, Hl2.
  - intros h xs. induction xs as [|x xs IH]; intros vs Hr; [set_solver|].
    apply mapM_Some in Hr. apply Forall2_cons_inv_l in Hr as (v & us & Hx & Hxs & ->).
    apply mapM_Some in Hxs. simpl. apply union_subseteq. split; [by eapply locs_dom|by eapply IH].
Defined.

Lemma read_app `{Layout A} h (xs ys : list A) us vs :
  read h xs = Some us → read h ys = Some vs → read h (xs ++ ys) = Some (us ++ vs).
Proof.
  simpl. rewrite !mapM_Some. intros. by apply Forall2_app.
Qed.

Lemma read_cons_inv `{Layout A} h (x : A) xs vs :
  read h (x :: xs) = Some vs → ∃ v ws, vs = v :: ws ∧ read h x = Some v ∧ read h xs = Some ws.
Proof.
  intros Hr. apply mapM_Some in Hr. apply Forall2_cons_inv_l in Hr as (v & ws & Hx & Hxs & ->).
  apply mapM_Some in Hxs. eauto.
Qed.

Lemma locs_app `{Layout A} h (xs ys : list A) : locs h (xs ++ ys) = locs h xs ∪ locs h ys.
Proof. simpl. by rewrite fmap_app, union_list_app_L. Qed.

(** ** Pointers, slices and maps

    A slice is a pointer to its array, a map a pointer to its table. *)

Record ptr (A : Type) := Ptr { addr : option loc }.
#[local] Arguments addr {A} p : rename.
#[local] Arguments Ptr {A} addr.

Section ptr.
Context {A : Type} {BA : Boxed A} {LA : Layout A}.

Definition pointee (h : heap) (l : loc) : option A := h !! l ≫= unbox.
Definition read_ptr (h : heap) (p : ptr A) : option (option (value (A:=A))) :=
  match addr p with
  | None => Some None
  | Some l => Some <$> (pointee h l ≫= read h)
  end.
Definition locs_ptr (h : heap) (p : ptr A) : gset loc :=
  match addr p with
  | None => ∅
  | Some l => {[ l ]} ∪ match pointee h l with Some a => locs h a | None => ∅ end
  end.

#[export] Instance ptr_layout : Layout (ptr A).
Proof using BA LA.
  refine (Build_Layout (ptr A) _ read_ptr locs_ptr (Ptr None) _ _); unfold read_ptr, locs_ptr, pointee.
  - intros h h' [[l|]] v Hr Hl; simpl in *; [|done].
    rewrite (Hl l) by set_solver. destruct (h !! l ≫= unbox) as [a|]; [|done]. simpl in *.
    destruct (read h a) as [u|] eqn:Ha; [|done].
    destruct (read_frame h h' a u Ha) as [-> ->]; [intros l' Hin; apply Hl; set_solver|done].
  - intros h [[l|]] v Hr; simpl in *; [|set_solver].
    destruct (h !! l) as [c|] eqn:Hc; [|done]. simpl in *. destruct (unbox c) as [a|]; [|done]. simpl in *.
    destruct (read h a) as [u|] eqn:Ha; [|done]. apply union_subseteq. split; [|by eapply locs_dom].
    apply singleton_subseteq_l, elem_of_dom. by exists c.
Defined.
End ptr.

(** [if in.P != nil]: [*out = new(T)], then the object behind the pointer. *)
Definition copy_ptr `{Boxed A, Layout A} (f : A → mem A) (p : ptr A) : mem (ptr A) :=
  match addr p with
  | None => mret (Ptr None)
  | Some l =>
      out ← alloc (zero (A:=A));
      a ← load (A:=A) l;
      a' ← f a;
      _ ← store out a';
      mret (Ptr (Some out))
  end.

(** [if in.S != nil]: [make], and a loop over the elements. *)
Fixpoint copy_elems `{Boxed (list A)} (f : A → mem A) (out : loc) (i : nat) (xs : list A) : mem () :=
  match xs with
  | [] => mret ()
  | x :: xs =>
      x' ← f x;
      arr ← load (A:=list A) out;
      _ ← store out (<[i := x']> arr);
      copy_elems f out (S i) xs
  end.
Definition copy_slice `{Boxed (list A), Layout A} (f : A → mem A) (p : ptr (list A)) : mem (ptr (list A)) :=
  match addr p with
  | None => mret (Ptr None)
  | Some l =>
      xs ← load (A:=list A) l;
      out ← alloc (replicate (length xs) (zero (A:=A)));
      _ ← copy_elems f out 0 xs;
      mret (Ptr (Some out))
  end.

(** The same with [copy], for elements without pointers. *)
Definition copy_array `{Boxed (list A), Layout A} (p : ptr (list A)) : mem (ptr (list A)) :=
  match addr p with
  | None => mret (Ptr None)
  | Some l =>
      xs ← load (A:=list A) l;
      out ← alloc (replicate (length xs) (zero (A:=A)));
      _ ← store out xs;
      mret (Ptr (Some out))
  end.

(** [make], and a loop over the entries in some order. *)
Fixpoint copy_entries `{Boxed (gmap string string)} (out : loc) (kvs : list (string * string)) : mem () :=
  match kvs with
  | [] => mret ()
  | (key, val) :: kvs =>
      m ← load (A:=gmap string string) out;
      _ ← store out (<[key := val]> m);
      copy_entries out kvs
  end.
Definition copy_map `{Boxed (gmap string string)} (p : ptr (gmap string string)) : mem (ptr (gmap string string)) :=
  match addr p with
  | None => mret (Ptr None)
  | Some l =>
      m ← load (A:=gmap string string) l;
      out ← alloc (A:=gmap string string) ∅;
      _ ← copy_entries out (map_to_list m);
      mret (Ptr (Some out))
  end.

(** ** What the statements do *)

Lemma alloc_eq `{Boxed A} (a : A) h :
  ∃ l, (l ∉ dom h) ∧ alloc a h = Some (l, <[l := box a]> h).
Proof. exists (fresh (dom h)). split; [apply is_fresh|done]. Qed.

Lemma load_eq `{Boxed A} l (a : A) h : h !! l = Some (box a) → load l h = Some (a, h).
Proof. intros Hl. unfold load. rewrite Hl. simpl. by rewrite unbox_box. Qed.

Lemma store_eq `{Boxed A} l (a : A) h : l ∈ dom h → store l a h = Some ((), <[l := box a]> h).
Proof. intros Hl%elem_of_dom. unfold store. by rewrite decide_True. Qed.

Lemma bind_eq {A B} (p : mem A) (f : A → mem B) h a h' :
  p h = Some (a, h') → (p ≫= f) h = f a h'.
Proof. intros Hp. unfold mbind, mem_bind. by rewrite Hp. Qed.

(** An object written to a new location. *)
Lemma read_new `{Boxed A, Layout A} base h out (a : A) v :
  base ⊆ h → out ∉ dom base → out ∈ dom h →
  read h a = Some v → locs h a ## dom base ∪ {[ out ]} →
  base ⊆ <[out := box a]> h ∧
  read (<[out := box a]> h) (Ptr (Some out)) = Some (Some v) ∧
  locs (<[out := box a]> h) (Ptr (Some out) : ptr A) ## dom base.
Proof.
  intros Hs Hout Hin Hr Hl.
  assert (base ⊆ <[out := box a]> h) as Hs'.
  { apply insert_subseteq_r; [by apply not_elem_of_dom|done]. }
  split; [done|]. simpl. unfold read_ptr, locs_ptr, pointee. simpl.
  rewrite lookup_insert_eq. simpl. rewrite unbox_box. simpl.
  destruct (read_frame h (<[out := box a]> h) a v Hr) as [-> ->].
  { intros l Hla. rewrite lookup_insert_ne; [done|]. intros <-. set_solver. }
  split; [done|]. set_solver.
Qed.

Lemma copies_ptr `{Boxed A, Layout A} (f : A → mem A) : copies f → copies (copy_ptr f).
Proof.
  intros Hf h [[l|]] v Hr; [|by exists (Ptr None), h].
  simpl in Hr. unfold read_ptr, pointee in Hr. simpl in Hr.
  unfold copy_ptr. simpl. destruct (alloc_eq (zero (A:=A)) h) as (out & Hout & Halloc).
  set (h0 := <[out := box zero]> h) in *.
  assert (h ⊆ h0) as Hs0 by (apply insert_subseteq; by apply not_elem_of_dom).
  destruct (h !! l) as [c|] eqn:Hc; [|done]. simpl in Hr.
  destruct (unbox c) as [a|] eqn:Hu; [|done]. simpl in Hr.
  destruct (read h a) as [u|] eqn:Ha; [|done]. injection Hr as <-.
  destruct (read_mono h h0 a u Ha Hs0) as [Ha0 _].
  destruct (Hf h0 a u Ha0) as (a' & h1 & Hfa & Hs1 & Ha' & Hd).
  assert (dom h0 ⊆ dom h1) as Hdom by by apply subseteq_dom.
  assert (dom h0 = {[ out ]} ∪ dom h) as Hd0 by apply dom_insert_L.
  destruct (read_new h h1 out a' u) as (Hs & Hr' & Hl'); [by transitivity h0|done|set_solver|done|set_solver|].
  exists (Ptr (Some out)), (<[out := box a']> h1). split_and!; [|done..].
  rewrite (bind_eq _ _ _ _ _ Halloc).
  assert (load l h0 = Some (a, h0)) as Hload.
  { unfold load. rewrite (lookup_weaken _ _ _ _ Hc Hs0). simpl. by rewrite Hu. }
  rewrite (bind_eq _ _ _ _ _ Hload), (bind_eq _ _ _ _ _ Hfa).
  rewrite (bind_eq _ _ _ _ _ (store_eq out a' h1 ltac:(set_solver))). done.
Qed.

(** The loop over the elements of a slice: the elements before [i] are done. *)
Lemma copy_elems_eq `{Boxed (list A), Layout A} (f : A → mem A) base out xs vs ys us h :
  copies f →
  base ⊆ h → out ∉ dom base → h !! out = Some (box (ys ++ replicate (length xs) zero)) →
  read base xs = Some vs → read h ys = Some us → locs h ys ## dom base ∪ {[ out ]} →
  ∃ zs h', copy_elems f out (length ys) xs h = Some ((), <[out := box zs]> h') ∧
    base ⊆ h' ∧ out ∈ dom h' ∧ read h' zs = Some (us ++ vs) ∧ locs h' zs ## dom base ∪ {[ out ]}.
Proof.
  intros Hf. revert vs ys us h. induction xs as [|x xs IH]; intros vs ys us h Hs Hout Ho Hxs Hys Hl.
  - simpl in Hxs. injection Hxs as <-. change (replicate (length []) zero) with (@nil A) in Ho.
    rewrite app_nil_r in *. exists ys, h. simpl.
    rewrite insert_id by done. split_and!; try done. by eapply elem_of_dom_2.
  - apply read_cons_inv in Hxs as (v & ws & -> & Hx & Hxs).
    destruct (read_mono base h x v Hx Hs) as [Hx0 _].
    destruct (Hf h x v Hx0) as (x' & h1 & Hfx & Hs1 & Hx' & Hd).
    assert (base ⊆ h1) as Hb1 by by transitivity h.
    assert (dom h ⊆ dom h1) as Hdom by by apply subseteq_dom.
    assert (dom base ⊆ dom h) as Hdomb by by apply subseteq_dom.
    assert (out ∈ dom h) as Hoh by by eapply elem_of_dom_2.
    set (arr := ys ++ replicate (length (x :: xs)) zero) in *.
    set (h2 := <[out := box (<[length ys := x']> arr)]> h1).
    destruct (read_mono h h1 ys us Hys Hs1) as [Hys1 Hlys1].
    destruct (read_frame h1 h2 ys us Hys1) as [Hys2 Hlys2].
    { intros l Hin. unfold h2. rewrite lookup_insert_ne; [done|]. intros <-. rewrite Hlys1 in Hin. set_solver. }
    destruct (read_frame h1 h2 x' v Hx') as [Hx2 Hlx2].
    { intros l Hin. unfold h2. rewrite lookup_insert_ne; [done|]. intros <-. set_solver. }
    destruct (IH ws (ys ++ [x']) (us ++ [v]) h2) as (zs & h3 & Hc & Hs3 & Ho3 & Hr3 & Hl3).
    + unfold h2. apply insert_subseteq_r; [by apply not_elem_of_dom|done].
    + done.
    + unfold h2. rewrite lookup_insert_eq. unfold arr. simpl.
      rewrite insert_app_r_alt by lia. rewrite Nat.sub_diag. simpl. by rewrite <-(assoc_L app).
    + done.
    + apply read_app; [done|]. simpl. by rewrite Hx2.
    + rewrite locs_app, Hlys2, Hlys1. simpl. rewrite Hlx2. set_solver.
    + rewrite <-(assoc_L app) in Hr3. exists zs, h3. split_and!; try done. simpl.
      rewrite (bind_eq _ _ _ _ _ Hfx).
      rewrite (bind_eq _ _ _ _ _ (load_eq out arr h1 (lookup_weaken _ _ _ _ Ho Hs1))).
      rewrite (bind_eq _ _ _ _ _ (store_eq out _ h1 (Hdom _ Hoh))). fold h2.
      rewrite length_app, Nat.add_comm in Hc. exact Hc.
Qed.

(** The array or the table behind a pointer. *)
Lemma read_ptr_inv `{Boxed A, Layout A} h l (v : option (value (A:=A))) :
  read h (Ptr (Some l) : ptr A) = Some v →
  ∃ a u, v = Some u ∧ load l h = Some (a, h) ∧ read h a = Some u.
Proof.
  simpl. unfold read_ptr, pointee, load. simpl. destruct (h !! l ≫= unbox (A:=A)) as [a|]; [|done]. simpl.
  destruct (read h a) as [u|] eqn:Ha; [|done]. intros [= <-]. eauto.
Qed.

Lemma copies_slice `{Boxed (list A), Layout A} (f : A → mem A) : copies f → copies (copy_slice f).
Proof.
  intros Hf h [[l|]] v Hr; [|by exists (Ptr None), h].
  apply read_ptr_inv in Hr as (xs & vs & -> & Hload & Hxs).
  unfold copy_slice. cbn [addr]. rewrite (bind_eq _ _ _ _ _ Hload).
  destruct (alloc_eq (replicate (length xs) (zero (A:=A))) h) as (out & Hout & Halloc).
  rewrite (bind_eq _ _ _ _ _ Halloc).
  set (h0 := <[out := box (replicate (length xs) zero)]> h).
  destruct (copy_elems_eq f h out xs vs [] [] h0) as (zs & h1 & Hc & Hs & Hin & Hzs & Hd); [done| |done| |done|done| |].
  - apply insert_subseteq. by apply not_elem_of_dom.
  - apply lookup_insert_eq.
  - simpl. set_solver.
  - destruct (read_new h h1 out zs vs) as (Hs' & Hr' & Hl'); [done..|].
    exists (Ptr (Some out)), (<[out := box zs]> h1). split_and!; [|done..].
    by rewrite (bind_eq _ _ _ _ _ Hc).
Qed.

Definition pointerless `{Layout A} : Prop := ∀ h (a : A), locs h a = ∅.

Lemma copies_array `{Boxed (list A), Layout A} : pointerless (A:=A) → copies (copy_array (A:=A)).
Proof.
  intros Hp h [[l|]] v Hr; [|by exists (Ptr None), h].
  apply read_ptr_inv in Hr as (xs & vs & -> & Hload & Hxs).
  assert (∀ h', locs h' xs = ∅) as Hl.
  { intros h'. simpl. clear Hload Hxs. induction xs as [|x xs IH]; [done|]. simpl.
    rewrite Hp. change (∅ ∪ ⋃ (locs h' <$> xs) = ∅). by rewrite IH, (left_id_L ∅ _). }
  unfold copy_array. cbn [addr]. rewrite (bind_eq _ _ _ _ _ Hload).
  destruct (alloc_eq (replicate (length xs) (zero (A:=A))) h) as (out & Hout & Halloc).
  rewrite (bind_eq _ _ _ _ _ Halloc).
  set (h0 := <[out := box (replicate (length xs) zero)]> h).
  assert (h ⊆ h0) as Hs by (apply insert_subseteq; by apply not_elem_of_dom).
  assert (out ∈ dom h0) as Hin by (apply dom_insert; set_solver).
  destruct (read_mono h h0 xs vs Hxs Hs) as [Hxs0 _].
  destruct (read_new h h0 out xs vs) as (Hs' & Hr' & Hl'); [done..|rewrite Hl; set_solver|].
  exists (Ptr (Some out)), (<[out := box xs]> h0). split_and!; [|done..].
  by rewrite (bind_eq _ _ _ _ _ (store_eq out xs h0 Hin)).
Qed.

#[export] Instance table_layout : Layout (gmap string string) := plain _ ∅.

Lemma copy_entries_eq `{Boxed (gmap string string)} out kvs (m : gmap string string) h :
  h !! out = Some (box m) → NoDup kvs.*1 → (∀ k v, (k, v) ∈ kvs → m !! k = None) →
  copy_entries out kvs h = Some ((), <[out := box (list_to_map kvs ∪ m)]> h).
Proof.
  revert m h. induction kvs as [|[k v] kvs IH]; intros m h Ho Hnd Hm.
  - simpl. rewrite (left_id_L ∅ _). by rewrite insert_id.
  - apply NoDup_cons in Hnd as [Hk Hnd]. simpl.
    rewrite (bind_eq _ _ _ _ _ (load_eq out m h Ho)).
    rewrite (bind_eq _ _ _ _ _ (store_eq out _ h (elem_of_dom_2 _ _ _ Ho))).
    rewrite (IH (<[k := v]> m)); [|by rewrite lookup_insert_eq|done|].
    + rewrite insert_insert_eq. do 4 f_equal.
      rewrite <-insert_union_r; [by rewrite insert_union_l|]. by apply not_elem_of_list_to_map.
    + intros k' v' Hin. rewrite lookup_insert_ne.
      * apply (Hm k' v'). by right.
      * intros ->. apply Hk. apply list_elem_of_fmap. by exists (k', v').
Qed.

Lemma copies_map `{Boxed (gmap string string)} : copies copy_map.
Proof.
  intros h [[l|]] v Hr; [|by exists (Ptr None), h].
  apply read_ptr_inv in Hr as (m & vs & -> & Hload & Hm). simpl in Hm. injection Hm as <-.
  unfold copy_map. cbn [addr]. rewrite (bind_eq _ _ _ _ _ Hload).
  destruct (alloc_eq (∅ : gmap string string) h) as (out & Hout & Halloc).
  rewrite (bind_eq _ _ _ _ _ Halloc). set (h0 := <[out := box (∅ : gmap string string)]> h).
  assert (h ⊆ h0) as Hs by (apply insert_subseteq; by apply not_elem_of_dom).
  assert (out ∈ dom h0) as Hin by (apply dom_insert; set_solver).
  destruct (@read_new _ _ table_layout h h0 out m m) as (Hs' & Hr' & Hl'); [done..|set_solver|].
  exists (Ptr (Some out)), (<[out := box m]> h0). split_and!; [|done..].
  rewrite (bind_eq _ _ _ () (<[out := box m]> h0)); [done|].
  rewrite (copy_entries_eq out _ ∅).
  - by rewrite (right_id_L ∅ _), list_to_map_to_list.
  - apply lookup_insert_eq.
  - apply NoDup_fst_map_to_list.
  - intros k u _. apply lookup_empty.
Qed.

(** A struct is copied field by field. *)
Lemma copies_struct `{Layout B} {A} (fields : A → B) (struct : B → A) (f : A → mem A) (g : B → mem B) :
  copies g → (∀ b, fields (struct b) = b) →
  (∀ a h, f a h = (b ← g (fields a); mret (struct b)) h) →
  copies (H := struct_layout fields struct) f.
Proof.
  intros Hg Hfs Hf h a v Hr. simpl in *. destruct (Hg h (fields a) v Hr) as (b & h' & Hb & Hs & Hr' & Hd).
  exists (struct b), h'. rewrite Hfs. split_and!; try done. by rewrite Hf, (bind_eq _ _ _ _ _ Hb).
Qed.

(** Whoever changes the copy does not change the original, and the other way
    round. *)
Lemma copies_independent `{Layout A} (f : A → mem A) h a v a' h' :
  copies f → read h a = Some v → f a h = Some (a', h') →
  (∀ h'', (∀ l, l ∉ locs h' a' → h'' !! l = h' !! l) → read h'' a = Some v) ∧
  (∀ h'', (∀ l, l ∉ dom h → h'' !! l = h' !! l) → read h'' a' = Some v).
Proof.
  intros Hf Hr Hfa. destruct (Hf h a v Hr) as (a1 & h1 & Heq & Hs & Hr' & Hd).
  rewrite Hfa in Heq. injection Heq as <- <-. pose proof (locs_dom _ _ _ Hr) as Hdom.
  destruct (read_mono h h' a v Hr Hs) as [Hr1 Hl1]. split; intros h'' Hh.
  - apply (read_frame h' h''); [done|]. intros l Hl. apply Hh. rewrite Hl1 in Hl. set_solver.
  - apply (read_frame h' h''); [done|]. intros l Hl. apply Hh. set_solver.
Qed.
End heap.
#[global] Arguments addr {A} p : rename.
#[global] Arguments Ptr {A} addr.
