(* ===== verification/DeepCopy.v ===== *)
(** * The generated deep copies (src/api/v1alpha1/zz_generated.deepcopy.go)

    The structs as memory holds them, with pointers, and the copying functions,
    statement by statement: a method [DeepCopyInto] takes the struct behind the
    receiver and gives the one it writes behind [out].  A slice is a pointer to an
    array of just its elements, since the capacity is never looked at; two pointers
    to the empty struct [SFCSpec] are taken to differ.  The types of
    k8s.io/apimachinery and their copies are parameters. *)

From S2P Require Import Prelude GoStd ApiTypes Heap.
From stdpp Require Import gmap.
From stdpp Require Import options.

Local Open Scope list_scope.

(** ** The structs in memory *)

(** The types of other projects, and what their objects on the heap are. *)
Class Metav1 := {
  lib_cell : Type;
  mTypeMeta : Type;
  mObjectMeta : Type;
  mListMeta : Type;
  mCondition : Type;
}.

Record OnloadStatus := MkOnloadStatus {}.
Record DevicePluginStatus := MkDevicePluginStatus {}.

Record mOnloadKernelBuild := MkmOnloadKernelBuild {
  mokb_BuildArgs : ptr (list BuildArg);
  mokb_DockerfileConfigMap : ptr LocalObjectReference;
}.
Record mOnloadKernelMapping := MkmOnloadKernelMapping {
  mokm_Regexp : string;
  mokm_KernelModuleImage : string;
  mokm_SFC : ptr SFCSpec;
  mokm_Build : ptr mOnloadKernelBuild;
}.
Record mControlPlaneSpec := MkmControlPlaneSpec { mcps_Parameters : ptr (list string) }.
Record mOnloadSpec := MkmOnloadSpec {
  mos_KernelMappings : ptr (list mOnloadKernelMapping);
  mos_UserImage : string;
  mos_Version : string;
  mos_ImagePullPolicy : string;
  mos_ControlPlane : ptr mControlPlaneSpec;
}.
Record mDevicePluginSpec := MkmDevicePluginSpec {
  mdps_ImagePullPolicy : string;
  mdps_MaxPodsPerNode : ptr Z;
  mdps_SetPreload : ptr bool;
  mdps_MountOnload : ptr bool;
  mdps_HostOnloadPath : ptr string;
  mdps_BaseMountPath : ptr string;
  mdps_BinMountPath : ptr string;
  mdps_LibMountPath : ptr string;
}.
Record mSpec := MkmSpec {
  mspec_Onload : mOnloadSpec;
  mspec_DevicePlugin : mDevicePluginSpec;
  mspec_Selector : ptr (gmap string string);
  mspec_ServiceAccountName : string;
}.

Section structs.
Context `{Metav1}.

Record mStatus := MkmStatus {
  mstatus_Conditions : ptr (list mCondition);
  mstatus_Onload : OnloadStatus;
  mstatus_DevicePlugin : DevicePluginStatus;
}.
Record mOnload := MkmOnload {
  monload_TypeMeta : mTypeMeta;
  monload_ObjectMeta : mObjectMeta;
  monload_Spec : mSpec;
  monload_Status : mStatus;
}.
Record mOnloadList := MkmOnloadList {
  mlist_TypeMeta : mTypeMeta;
  mlist_ListMeta : mListMeta;
  mlist_Items : ptr (list mOnload);
}.

(** An object on the heap. *)
Inductive cell :=
  | CInt (z : Z)
  | CBool (b : bool)
  | CString (s : string)
  | CStrings (xs : list string)
  | CMap (m : gmap string string)
  | CBuildArg (a : BuildArg)
  | CBuildArgs (xs : list BuildArg)
  | CLocalObjectReference (r : LocalObjectReference)
  | CSFCSpec (s : SFCSpec)
  | CBuild (b : mOnloadKernelBuild)
  | CMapping (m : mOnloadKernelMapping)
  | CMappings (ms : list mOnloadKernelMapping)
  | CControlPlane (c : mControlPlaneSpec)
  | COnloadSpec (s : mOnloadSpec)
  | CDevicePluginSpec (s : mDevicePluginSpec)
  | CSpec (s : mSpec)
  | COnloadStatus (s : OnloadStatus)
  | CDevicePluginStatus (s : DevicePluginStatus)
  | CConditions (cs : list mCondition)
  | CStatus (s : mStatus)
  | COnload (o : mOnload)
  | COnloads (os : list mOnload)
  | COnloadList (l : mOnloadList)
  | CLib (c : lib_cell).
End structs.


Section boxes.
Context `{Metav1}.
#[export] Instance box_int : Boxed (cell:=cell) Z :=
  {| box := CInt; unbox c := match c with CInt a => Some a | _ => None end; unbox_box _ := eq_refl |}.
#[export] Instance box_bool : Boxed (cell:=cell) bool :=
  {| box := CBool; unbox c := match c with CBool a => Some a | _ => None end; unbox_box _ := eq_refl |}.
#[export] Instance box_string : Boxed (cell:=cell) string :=
  {| box := CString; unbox c := match c with CString a => Some a | _ => None end; unbox_box _ := eq_refl |}.
#[export] Instance box_strings : Boxed (cell:=cell) (list string) :=
  {| box := CStrings; unbox c := match c with CStrings a => Some a | _ => None end; unbox_box _ := eq_refl |}.
#[export] Instance box_map : Boxed (cell:=cell) (gmap string string) :=
  {| box := CMap; unbox c := match c with CMap a => Some a | _ => None end; unbox_box _ := eq_refl |}.
#[export] Instance box_build_arg : Boxed (cell:=cell) BuildArg :=
  {| box := CBuildArg; unbox c := match c with CBuildArg a => Some a | _ => None end; unbox_box _ := eq_refl |}.
#[export] Instance box_build_args : Boxed (cell:=cell) (list BuildArg) :=
  {| box := CBuildArgs; unbox c := match c with CBuildArgs a => Some a | _ => None end; unbox_box _ := eq_refl |}.
#[export] Instance box_reference : Boxed (cell:=cell) LocalObjectReference :=
  {| box := CLocalObjectReference; unbox c := match c with CLocalObjectReference a => Some a | _ => None end; unbox_box _ := eq_refl |}.
#[export] Instance box_sfc : Boxed (cell:=cell) SFCSpec :=
  {| box := CSFCSpec; unbox c := match c with CSFCSpec a => Some a | _ => None end; unbox_box _ := eq_refl |}.
#[export] Instance box_build : Boxed (cell:=cell) mOnloadKernelBuild :=
  {| box := CBuild; unbox c := match c with CBuild a => Some a | _ => None end; unbox_box _ := eq_refl |}.
#[export] Instance box_mapping : Boxed (cell:=cell) mOnloadKernelMapping :=
  {| box := CMapping; unbox c := match c with CMapping a => Some a | _ => None end; unbox_box _ := eq_refl |}.
#[export] Instance box_mappings : Boxed (cell:=cell) (list mOnloadKernelMapping) :=
  {| box := CMappings; unbox c := match c with CMappings a => Some a | _ => None end; unbox_box _ := eq_refl |}.
#[export] Instance box_control_plane : Boxed (cell:=cell) mControlPlaneSpec :=
  {| box := CControlPlane; unbox c := match c with CControlPlane a => Some a | _ => None end; unbox_box _ := eq_refl |}.
#[export] Instance box_onload_spec : Boxed (cell:=cell) mOnloadSpec :=
  {| box := COnloadSpec; unbox c := match c with COnloadSpec a => Some a | _ => None end; unbox_box _ := eq_refl |}.
#[export] Instance box_device_plugin : Boxed (cell:=cell) mDevicePluginSpec :=
  {| box := CDevicePluginSpec; unbox c := match c with CDevicePluginSpec a => Some a | _ => None end; unbox_box _ := eq_refl |}.
#[export] Instance box_spec : Boxed (cell:=cell) mSpec :=
  {| box := CSpec; unbox c := match c with CSpec a => Some a | _ => None end; unbox_box _ := eq_refl |}.
#[export] Instance box_onload_status : Boxed (cell:=cell) OnloadStatus :=
  {| box := COnloadStatus; unbox c := match c with COnloadStatus a => Some a | _ => None end; unbox_box _ := eq_refl |}.
#[export] Instance box_plugin_status : Boxed (cell:=cell) DevicePluginStatus :=
  {| box := CDevicePluginStatus; unbox c := match c with CDevicePluginStatus a => Some a | _ => None end; unbox_box _ := eq_refl |}.
#[export] Instance box_conditions : Boxed (cell:=cell) (list mCondition) :=
  {| box := CConditions; unbox c := match c with CConditions a => Some a | _ => None end; unbox_box _ := eq_refl |}.
#[export] Instance box_status : Boxed (cell:=cell) mStatus :=
  {| box := CStatus; unbox c := match c with CStatus a => Some a | _ => None end; unbox_box _ := eq_refl |}.
#[export] Instance box_onload : Boxed (cell:=cell) mOnload :=
  {| box := COnload; unbox c := match c with COnload a => Some a | _ => None end; unbox_box _ := eq_refl |}.
#[export] Instance box_onloads : Boxed (cell:=cell) (list mOnload) :=
  {| box := COnloads; unbox c := match c with COnloads a => Some a | _ => None end; unbox_box _ := eq_refl |}.
#[export] Instance box_onload_list : Boxed (cell:=cell) mOnloadList :=
  {| box := COnloadList; unbox c := match c with COnloadList a => Some a | _ => None end; unbox_box _ := eq_refl |}.
End boxes.

(** The copies of the types of other projects. *)
Class Metav1Copy `{Metav1} := {
  typemeta_zero : mTypeMeta;
  objectmeta_layout :: Layout (cell:=cell) mObjectMeta;
  listmeta_layout :: Layout (cell:=cell) mListMeta;
  condition_layout :: Layout (cell:=cell) mCondition;
  ObjectMeta_DeepCopyInto : mObjectMeta → mem (cell:=cell) mObjectMeta;
  ListMeta_DeepCopyInto : mListMeta → mem (cell:=cell) mListMeta;
  Condition_DeepCopyInto : mCondition → mem (cell:=cell) mCondition;
  ObjectMeta_copies : copies ObjectMeta_DeepCopyInto;
  ListMeta_copies : copies ListMeta_DeepCopyInto;
  Condition_copies : copies Condition_DeepCopyInto;
}.

(** ** The layouts of the structs *)

Section layouts.
Context `{Metav1Copy}.
Notation Layout := (Layout (cell:=cell)).

#[export] Instance layout_int : Layout Z := plain _ 0%Z.
#[export] Instance layout_bool : Layout bool := plain _ false.
#[export] Instance layout_string : Layout string := plain _ "".
#[export] Instance layout_build_arg : Layout BuildArg := plain _ (MkBuildArg "" "").
#[export] Instance layout_reference : Layout LocalObjectReference := plain _ (MkLocalObjectReference "").
#[export] Instance layout_sfc : Layout SFCSpec := plain _ MkSFCSpec.
#[export] Instance layout_onload_status : Layout OnloadStatus := plain _ MkOnloadStatus.
#[export] Instance layout_plugin_status : Layout DevicePluginStatus := plain _ MkDevicePluginStatus.
#[export] Instance layout_typemeta : Layout mTypeMeta := plain _ typemeta_zero.

#[export] Instance layout_build : Layout mOnloadKernelBuild :=
  struct_layout (λ b, (mokb_BuildArgs b, mokb_DockerfileConfigMap b))
    (λ '(args, ref), MkmOnloadKernelBuild args ref).
#[export] Instance layout_mapping : Layout mOnloadKernelMapping :=
  struct_layout (λ m, (mokm_Regexp m, (mokm_KernelModuleImage m, (mokm_SFC m, mokm_Build m))))
    (λ '(regexp, (image, (sfc, build))), MkmOnloadKernelMapping regexp image sfc build).
#[export] Instance layout_control_plane : Layout mControlPlaneSpec :=
  struct_layout mcps_Parameters MkmControlPlaneSpec.
#[export] Instance layout_onload_spec : Layout mOnloadSpec :=
  struct_layout (λ s, (mos_KernelMappings s, (mos_UserImage s, (mos_Version s,
                        (mos_ImagePullPolicy s, mos_ControlPlane s)))))
    (λ '(ms, (image, (version, (policy, cp)))), MkmOnloadSpec ms image version policy cp).
#[export] Instance layout_device_plugin : Layout mDevicePluginSpec :=
  struct_layout (λ s, (mdps_ImagePullPolicy s, (mdps_MaxPodsPerNode s, (mdps_SetPreload s,
                        (mdps_MountOnload s, (mdps_HostOnloadPath s, (mdps_BaseMountPath s,
                        (mdps_BinMountPath s, mdps_LibMountPath s))))))))
    (λ '(policy, (max, (pre, (mount, (host, (base, (bin, lib))))))),
       MkmDevicePluginSpec policy max pre mount host base bin lib).
#[export] Instance layout_spec : Layout mSpec :=
  struct_layout (λ s, (mspec_Onload s, (mspec_DevicePlugin s, (mspec_Selector s, mspec_ServiceAccountName s))))
    (λ '(o, (dp, (sel, sa))), MkmSpec o dp sel sa).
#[export] Instance layout_status : Layout mStatus :=
  struct_layout (λ s, (mstatus_Conditions s, (mstatus_Onload s, mstatus_DevicePlugin s)))
    (λ '(cs, (o, dp)), MkmStatus cs o dp).
#[export] Instance layout_onload : Layout mOnload :=
  struct_layout (λ o, (monload_TypeMeta o, (monload_ObjectMeta o, (monload_Spec o, monload_Status o))))
    (λ '(t, (m, (spec, status))), MkmOnload t m spec status).
#[export] Instance layout_onload_list : Layout mOnloadList :=
  struct_layout (λ l, (mlist_TypeMeta l, (mlist_ListMeta l, mlist_Items l)))
    (λ '(t, (m, items)), MkmOnloadList t m items).
End layouts.

(** ** The functions *)

Section functions.
Context `{Metav1Copy}.
Notation mem := (mem (cell:=cell)).

(** [*out = *in] *)
Definition assign {A} (a : A) : mem A := mret a.

Definition BuildArg_DeepCopyInto (in_ : BuildArg) : mem BuildArg := assign in_.
Definition SFCSpec_DeepCopyInto (in_ : SFCSpec) : mem SFCSpec := assign in_.
Definition OnloadStatus_DeepCopyInto (in_ : OnloadStatus) : mem OnloadStatus := assign in_.
Definition DevicePluginStatus_DeepCopyInto (in_ : DevicePluginStatus) : mem DevicePluginStatus := assign in_.

Definition ControlPlaneSpec_DeepCopyInto (in_ : mControlPlaneSpec) : mem mControlPlaneSpec :=
  params ← copy_array (mcps_Parameters in_);
  mret (MkmControlPlaneSpec params).

Definition DevicePluginSpec_DeepCopyInto (in_ : mDevicePluginSpec) : mem mDevicePluginSpec :=
  max ← copy_ptr assign (mdps_MaxPodsPerNode in_);
  pre ← copy_ptr assign (mdps_SetPreload in_);
  mount ← copy_ptr assign (mdps_MountOnload in_);
  host ← copy_ptr assign (mdps_HostOnloadPath in_);
  base ← copy_ptr assign (mdps_BaseMountPath in_);
  bin ← copy_ptr assign (mdps_BinMountPath in_);
  lib ← copy_ptr assign (mdps_LibMountPath in_);
  mret (MkmDevicePluginSpec (mdps_ImagePullPolicy in_) max pre mount host base bin lib).

Definition OnloadKernelBuild_DeepCopyInto (in_ : mOnloadKernelBuild) : mem mOnloadKernelBuild :=
  args ← copy_array (mokb_BuildArgs in_);
  ref ← copy_ptr assign (mokb_DockerfileConfigMap in_);
  mret (MkmOnloadKernelBuild args ref).

Definition OnloadKernelMapping_DeepCopyInto (in_ : mOnloadKernelMapping) : mem mOnloadKernelMapping :=
  sfc ← copy_ptr assign (mokm_SFC in_);
  build ← copy_ptr OnloadKernelBuild_DeepCopyInto (mokm_Build in_);
  mret (MkmOnloadKernelMapping (mokm_Regexp in_) (mokm_KernelModuleImage in_) sfc build).

Definition OnloadSpec_DeepCopyInto (in_ : mOnloadSpec) : mem mOnloadSpec :=
  ms ← copy_slice OnloadKernelMapping_DeepCopyInto (mos_KernelMappings in_);
  cp ← copy_ptr ControlPlaneSpec_DeepCopyInto (mos_ControlPlane in_);
  mret (MkmOnloadSpec ms (mos_UserImage in_) (mos_Version in_) (mos_ImagePullPolicy in_) cp).

Definition Spec_DeepCopyInto (in_ : mSpec) : mem mSpec :=
  o ← OnloadSpec_DeepCopyInto (mspec_Onload in_);
  dp ← DevicePluginSpec_DeepCopyInto (mspec_DevicePlugin in_);
  sel ← copy_map (mspec_Selector in_);
  mret (MkmSpec o dp sel (mspec_ServiceAccountName in_)).

Definition Status_DeepCopyInto (in_ : mStatus) : mem mStatus :=
  cs ← copy_slice Condition_DeepCopyInto (mstatus_Conditions in_);
  mret (MkmStatus cs (mstatus_Onload in_) (mstatus_DevicePlugin in_)).

Definition Onload_DeepCopyInto (in_ : mOnload) : mem mOnload :=
  m ← ObjectMeta_DeepCopyInto (monload_ObjectMeta in_);
  spec ← Spec_DeepCopyInto (monload_Spec in_);
  status ← Status_DeepCopyInto (monload_Status in_);
  mret (MkmOnload (monload_TypeMeta in_) m spec status).

Definition OnloadList_DeepCopyInto (in_ : mOnloadList) : mem mOnloadList :=
  m ← ListMeta_DeepCopyInto (mlist_ListMeta in_);
  items ← copy_slice Onload_DeepCopyInto (mlist_Items in_);
  mret (MkmOnloadList (mlist_TypeMeta in_) m items).

(** [DeepCopy]: nil for nil, and else [out := new(T)], [in.DeepCopyInto(out)]. *)
Definition BuildArg_DeepCopy : ptr BuildArg → mem (ptr BuildArg) := copy_ptr BuildArg_DeepCopyInto.
Definition ControlPlaneSpec_DeepCopy : ptr mControlPlaneSpec → mem (ptr mControlPlaneSpec) :=
  copy_ptr ControlPlaneSpec_DeepCopyInto.
Definition DevicePluginSpec_DeepCopy : ptr mDevicePluginSpec → mem (ptr mDevicePluginSpec) :=
  copy_ptr DevicePluginSpec_DeepCopyInto.
Definition DevicePluginStatus_DeepCopy : ptr DevicePluginStatus → mem (ptr DevicePluginStatus) :=
  copy_ptr DevicePluginStatus_DeepCopyInto.
Definition Onload_DeepCopy : ptr mOnload → mem (ptr mOnload) := copy_ptr Onload_DeepCopyInto.
Definition OnloadKernelBuild_DeepCopy : ptr mOnloadKernelBuild → mem (ptr mOnloadKernelBuild) :=
  copy_ptr OnloadKernelBuild_DeepCopyInto.
Definition OnloadKernelMapping_DeepCopy : ptr mOnloadKernelMapping → mem (ptr mOnloadKernelMapping) :=
  copy_ptr OnloadKernelMapping_DeepCopyInto.
Definition OnloadList_DeepCopy : ptr mOnloadList → mem (ptr mOnloadList) := copy_ptr OnloadList_DeepCopyInto.
Definition OnloadSpec_DeepCopy : ptr mOnloadSpec → mem (ptr mOnloadSpec) := copy_ptr OnloadSpec_DeepCopyInto.
Definition OnloadStatus_DeepCopy : ptr OnloadStatus → mem (ptr OnloadStatus) := copy_ptr OnloadStatus_DeepCopyInto.
Definition SFCSpec_DeepCopy : ptr SFCSpec → mem (ptr SFCSpec) := copy_ptr SFCSpec_DeepCopyInto.
Definition Spec_DeepCopy : ptr mSpec → mem (ptr mSpec) := copy_ptr Spec_DeepCopyInto.
Definition Status_DeepCopy : ptr mStatus → mem (ptr mStatus) := copy_ptr Status_DeepCopyInto.

(** A value of the interface [runtime.Object]: nil, or a pointer in it, which may
    itself be nil. *)
Inductive Object := NilObject | OnloadObject (p : ptr mOnload) | OnloadListObject (p : ptr mOnloadList).

Definition Onload_DeepCopyObject (in_ : ptr mOnload) : mem Object :=
  c ← Onload_DeepCopy in_;
  match addr c with Some _ => mret (OnloadObject c) | None => mret NilObject end.
Definition OnloadList_DeepCopyObject (in_ : ptr mOnloadList) : mem Object :=
  c ← OnloadList_DeepCopy in_;
  match addr c with Some _ => mret (OnloadListObject c) | None => mret NilObject end.

(** ** They copy *)

Lemma copies_assign {A} (a : A) : copies (cell:=cell) (H:=plain A a) assign.
Proof. intros h b v Hr. exists b, h. split_and!; [done|done|done|]. simpl. set_solver. Qed.

(** Reduces the copy of a struct to those of its fields, which [tac] finds. *)
Ltac struct_copies f tac :=
  eapply copies_struct;
    [repeat apply copies_pair; tac|by intros; repeat match goal with b : _ * _ |- _ => destruct b end|
     intros [] h; unfold f, copy_pair, assign, mbind, mem_bind, mret, mem_ret; cbn;
     repeat match goal with |- context [match ?x with _ => _ end] => destruct x as [[? ?]|]; cbn end;
     reflexivity].

Lemma ControlPlaneSpec_copies : copies ControlPlaneSpec_DeepCopyInto.
Proof.
  struct_copies ControlPlaneSpec_DeepCopyInto
    ltac:(by apply copies_array).
Qed.

Lemma DevicePluginSpec_copies : copies DevicePluginSpec_DeepCopyInto.
Proof.
  struct_copies DevicePluginSpec_DeepCopyInto
    ltac:(first [apply copies_assign|apply copies_ptr, copies_assign]).
Qed.

Lemma OnloadKernelBuild_copies : copies OnloadKernelBuild_DeepCopyInto.
Proof.
  struct_copies OnloadKernelBuild_DeepCopyInto
    ltac:(first [by apply copies_array|apply copies_ptr, copies_assign]).
Qed.

Lemma OnloadKernelMapping_copies : copies OnloadKernelMapping_DeepCopyInto.
Proof.
  struct_copies OnloadKernelMapping_DeepCopyInto
    ltac:(first [apply copies_assign|apply copies_ptr, copies_assign|apply copies_ptr, OnloadKernelBuild_copies]).
Qed.

Lemma OnloadSpec_copies : copies OnloadSpec_DeepCopyInto.
Proof.
  struct_copies OnloadSpec_DeepCopyInto
    ltac:(first [apply copies_assign|apply copies_slice, OnloadKernelMapping_copies|apply copies_ptr, ControlPlaneSpec_copies]).
Qed.

Lemma Spec_copies : copies Spec_DeepCopyInto.
Proof.
  struct_copies Spec_DeepCopyInto
    ltac:(first [apply copies_assign|apply OnloadSpec_copies|apply DevicePluginSpec_copies|apply copies_map]).
Qed.

Lemma Status_copies : copies Status_DeepCopyInto.
Proof.
  struct_copies Status_DeepCopyInto
    ltac:(first [apply copies_assign|apply copies_slice, Condition_copies]).
Qed.

Lemma Onload_copies : copies Onload_DeepCopyInto.
Proof.
  struct_copies Onload_DeepCopyInto
    ltac:(first [apply copies_assign|apply ObjectMeta_copies|apply Spec_copies|apply Status_copies]).
Qed.

Lemma OnloadList_copies : copies OnloadList_DeepCopyInto.
Proof.
  struct_copies OnloadList_DeepCopyInto
    ltac:(first [apply copies_assign|apply ListMeta_copies|apply copies_slice, Onload_copies]).
Qed.

(** What a caller of [DeepCopy] relies on, for a pointer to a struct that is all
    there: the copy is the same value in objects that are all new; nothing that was
    there has changed; and from then on, whatever is done to the objects of the
    copy leaves the original as it is, and whatever is done to objects that were
    there before leaves the copy. *)
Definition independent_copy {A} `{Layout cell A, Boxed cell A} (f : ptr A → mem (ptr A))
    (h : gmap loc cell) (p : ptr A) (v : option (value (A:=A))) : Prop :=
  ∃ p' h', f p h = Some (p', h') ∧ h ⊆ h' ∧ read h' p' = Some v ∧
    locs h' p' ## dom h ∧
    (∀ h'', (∀ l, l ∉ locs h' p' → h'' !! l = h' !! l) → read h'' p = Some v) ∧
    (∀ h'', (∀ l, l ∉ dom h → h'' !! l = h' !! l) → read h'' p' = Some v).

Lemma copy_ptr_independent {A} `{Layout cell A, Boxed cell A} (f : A → mem A) h p v :
  copies f → read h p = Some v → independent_copy (copy_ptr f) h p v.
Proof.
  intros Hf Hr. pose proof (copies_ptr f Hf) as Hc.
  destruct (Hc h p v Hr) as (p' & h' & Heq & Hs & Hr' & Hd).
  destruct (copies_independent _ h p v p' h' Hc Hr Heq) as [H1' H2'].
  exists p', h'. done.
Qed.

Lemma copy_ptr_not_nil {A} `{Layout cell A, Boxed cell A} (f : A → mem A) l h p' h' :
  copy_ptr f (Ptr (Some l)) h = Some (p', h') → is_Some (addr p').
Proof.
  unfold copy_ptr, mbind, mem_bind, mret, mem_ret. cbn [addr].
  destruct (alloc zero h) as [[out h1]|]; [|done]. destruct (load l h1) as [[a h2]|]; [|done].
  destruct (f a h2) as [[a' h3]|]; [|done]. destruct (store out a' h3) as [[u h4]|]; [|done].
  intros [= <- _]. by exists out.
Qed.

(** C19. The deep copies of the resource and of its list give an independent copy of
    every resource, of every list of them, however their slices, maps and optional
    parts are nil, empty or set; the versions behind the interface of Kubernetes
    return the nil interface for a nil pointer, not a typed nil in it. *)
Theorem DeepCopy_independent h :
  (∀ p v, read h p = Some v → independent_copy Onload_DeepCopy h p v) ∧
  (∀ p v, read h p = Some v → independent_copy OnloadList_DeepCopy h p v) ∧
  Onload_DeepCopyObject (Ptr None) h = Some (NilObject, h) ∧
  OnloadList_DeepCopyObject (Ptr None) h = Some (NilObject, h) ∧
  (∀ l p' h', Onload_DeepCopy (Ptr (Some l)) h = Some (p', h') →
     addr p' ≠ None ∧ Onload_DeepCopyObject (Ptr (Some l)) h = Some (OnloadObject p', h')) ∧
  (∀ l p' h', OnloadList_DeepCopy (Ptr (Some l)) h = Some (p', h') →
     addr p' ≠ None ∧ OnloadList_DeepCopyObject (Ptr (Some l)) h = Some (OnloadListObject p', h')).
Proof.
  split_and!.
  - intros p v. apply copy_ptr_independent, Onload_copies.
  - intros p v. apply copy_ptr_independent, OnloadList_copies.
  - reflexivity.
  - reflexivity.
  - intros l p' h' Heq. pose proof (copy_ptr_not_nil _ _ _ _ _ Heq) as [out Hout].
    unfold Onload_DeepCopyObject. by rewrite (bind_eq _ _ _ _ _ Heq), Hout.
  - intros l p' h' Heq. pose proof (copy_ptr_not_nil _ _ _ _ _ Heq) as [out Hout].
    unfold OnloadList_DeepCopyObject. by rewrite (bind_eq _ _ _ _ _ Heq), Hout.
Qed.
End functions.

(** ** A copy *)

(** Metadata with a name and a map of labels. *)
#[local] Instance sample_metav1 : Metav1 := {|
  lib_cell := unit; mTypeMeta := string; mObjectMeta := string * ptr (gmap string string);
  mListMeta := string; mCondition := string |}.
#[local] Instance sample_copy : Metav1Copy.
Proof.
  refine {| typemeta_zero := ("" : mTypeMeta);
            objectmeta_layout := pair_layout (H:=plain string "") (H0:=ptr_layout (BA:=box_map) (LA:=table_layout));
            listmeta_layout := plain string ""; condition_layout := plain string "";
            ObjectMeta_DeepCopyInto := copy_pair mret copy_map;
            ListMeta_DeepCopyInto := mret; Condition_DeepCopyInto := mret |}.
  - apply copies_pair; [apply (copies_assign "")|apply copies_map].
  - apply (copies_assign "").
  - apply (copies_assign "").
Defined.

(** A resource with labels, two kernel mappings, one with a build, an empty list of
    parameters, a selector, and some of the optional fields. *)
Definition sample_mappings : list mOnloadKernelMapping :=
  [MkmOnloadKernelMapping "^.*$" "image:v1" (Ptr (Some 3%positive)) (Ptr (Some 4%positive));
   MkmOnloadKernelMapping "^5" "image:v1" (Ptr None) (Ptr None)].
Definition sample_struct : mOnload :=
  MkmOnload ("Onload" : mTypeMeta) (("onload", Ptr (Some 9%positive)) : mObjectMeta)
    (MkmSpec
       (MkmOnloadSpec (Ptr (Some 2%positive)) "user:v1" "v1" "Always" (Ptr (Some 7%positive)))
       (MkmDevicePluginSpec "Always" (Ptr (Some 10%positive)) (Ptr None) (Ptr (Some 11%positive)) (Ptr None)
          (Ptr None) (Ptr None) (Ptr None))
       (Ptr (Some 12%positive)) "sa")
    (MkmStatus (Ptr None) MkOnloadStatus MkDevicePluginStatus).
Definition sample_heap : gmap positive cell := list_to_map [
  (1%positive, COnload sample_struct); (2%positive, CMappings sample_mappings);
  (3%positive, CSFCSpec MkSFCSpec);
  (4%positive, CBuild (MkmOnloadKernelBuild (Ptr (Some 5%positive)) (Ptr (Some 6%positive))));
  (5%positive, CBuildArgs [MkBuildArg "A" "1"]);
  (6%positive, CLocalObjectReference (MkLocalObjectReference "dockerfile"));
  (7%positive, CControlPlane (MkmControlPlaneSpec (Ptr (Some 8%positive)))); (8%positive, CStrings []);
  (9%positive, CMap {[ "app" := "onload" ]}); (10%positive, CInt 10); (11%positive, CBool true);
  (12%positive, CMap {[ "key" := "value" ]})].

(** The copy takes as many objects as the original, and ends with the same value. *)
Example sample_copied :
  match Onload_DeepCopy (Ptr (Some 1%positive)) sample_heap with
  | Some (p', h') => size h' = 24 ∧ is_Some (read h' p')
  | None => False
  end.
Proof. vm_compute. split; [reflexivity|by eexists]. Qed.

Lemma DeepCopy_independent_witness :
  ∃ v, read sample_heap (Ptr (Some 1%positive) : ptr mOnload) = Some (Some v) ∧
    independent_copy Onload_DeepCopy sample_heap (Ptr (Some 1%positive)) (Some v).
Proof.
  destruct (read sample_heap (Ptr (Some 1%positive) : ptr mOnload)) as [[v|]|] eqn:Hv;
    [|vm_compute in Hv; discriminate Hv..].
  exists v. split; [reflexivity|]. exact (proj1 (DeepCopy_independent sample_heap) _ _ Hv).
Defined.
