(* ===== verification/Quiescence.v ===== *)
(** * Reconcile reports every change it makes *)

From S2P Require Import Prelude GoStd Effects ApiTypes Client Labels Modules NodeLabels DevicePluginDS Upgrade Reconcile ApiServer MemServer Samples.
From stdpp Require Import options.

Local Open Scope list_scope.

Section quiescence.
Context `{Apimachinery}.
Implicit Types (onload : Onload) (tr : list (event clientS)).

Definition no_writes tr : Prop := calls_all (S:=clientS) (λ o, is_write o = false) tr.

Lemma no_writes_app tr tr' : no_writes tr → no_writes tr' → no_writes (tr ++ tr').
Proof. apply Forall_app_2. Qed.

(** A phase ends with nothing to report and no write, or with a result or an
    error that makes the controller run again. *)
Definition reports tr (out : outcome phase_result) : Prop :=
  match out with
  | Done r => (r = phase_nothing ∧ no_writes tr) ∨ reconcile_return r ≠ (no_result, None)
  | Crashed _ => True
  end.
Definition loop_reports (changesMade : bool) tr (out : outcome (phase_result + bool)) : Prop :=
  match out with
  | Done (inl r) => reconcile_return r ≠ (no_result, None)
  | Done (inr false) => changesMade = false ∧ no_writes tr
  | _ => True
  end.

Ltac finish :=
  intros; unfold reports, loop_reports, no_writes, calls_all in *; simpl in *;
  repeat match goal with
         | H : Forall _ (_ ++ _) |- _ => apply Forall_app in H as [? ?]
         | H : returns_early _ = false |- _ => apply returns_early_false in H; subst
         | H : _ || _ = false |- _ => apply orb_false_iff in H as [? ?]
         | H : _ ∧ _ |- _ => destruct H
         | H : _ ∨ _ |- _ => destruct H
         | |- context [match ?x with _ => _ end] => destruct x
         end;
  simplify_eq/=; first
    [ done
    | left; split; [done|repeat first [constructor|apply Forall_app_2]; done]
    | right; done
    | repeat first [split|constructor|apply Forall_app_2]; done
    | idtac ].

Lemma listNodes_wp label :
  wp (listNodesWithLabels label) (λ tr _, no_writes tr).
Proof. unfold listNodesWithLabels. wp_go; finish. Qed.
Lemma getPods_wp set name :
  wp (getPodsOnNode set name) (λ tr _, no_writes tr).
Proof. unfold getPodsOnNode. wp_go; finish. Qed.
Local Hint Resolve listNodes_wp getPods_wp : wp.

Lemma removeStaleLabels_loop_wp sel key nodes c :
  wp (removeStaleLabels_loop sel key nodes c) (loop_reports c).
Proof.
  revert c. induction nodes as [|n nodes IH]; intros c; wp_go; finish.
Qed.
Local Hint Resolve removeStaleLabels_loop_wp : wp.

Lemma removeStaleLabels_wp onload key : wp (removeStaleLabels onload key) reports.
Proof. unfold removeStaleLabels. wp_go; finish. Qed.
Local Hint Resolve removeStaleLabels_wp : wp.

(** The closure [addKmmLabelToNode]: no change, or [changesMade] is set. *)
Lemma addKmmLabelToNode_wp onload node key set :
  wp (addKmmLabelToNode onload node key set)
    (λ tr out, match out with
               | Done (r, changed, _) =>
                   reconcile_return r ≠ (no_result, None) ∨
                   r = phase_nothing ∧ (changed = true ∨ no_writes tr)
               | Crashed _ => True
               end).
Proof. unfold addKmmLabelToNode. wp_go; finish. Qed.
Local Hint Resolve addKmmLabelToNode_wp : wp.

Lemma addKmmLabels_loop_wp onload nodes c :
  wp (addKmmLabels_loop onload nodes c) (loop_reports c).
Proof. revert c. induction nodes as [|n nodes IH]; intros c; wp_go; finish. Qed.
Local Hint Resolve addKmmLabels_loop_wp : wp.

Lemma addKmmLabelsToNodes_wp onload : wp (addKmmLabelsToNodes onload) reports.
Proof. unfold addKmmLabelsToNodes. wp_go; finish. Qed.

Lemma addOnloadLabels_loop_wp onload nodes c :
  wp (addOnloadLabels_loop onload nodes c) (loop_reports c).
Proof. revert c. induction nodes as [|n nodes IH]; intros c; wp_go; finish. Qed.
Local Hint Resolve addOnloadLabels_loop_wp : wp.

Lemma addOnloadLabelsToNodes_wp onload : wp (addOnloadLabelsToNodes onload) reports.
Proof. unfold addOnloadLabelsToNodes. wp_go; finish. Qed.

Lemma createAndAddModules_wp onload : wp (createAndAddModules onload) reports.
Proof.
  assert (∀ n m i f, wp (createAndAddModule onload n m i f) reports) as Hone.
  { intros. unfold createAndAddModule. wp_go; finish. }
  unfold createAndAddModules. wp_go; finish.
Qed.

Lemma createDevicePluginDaemonSet_wp image onload :
  wp (createDevicePluginDaemonSet image onload) reports.
Proof. unfold createDevicePluginDaemonSet. wp_go; finish. Qed.

Lemma handleDevicePluginUpdate_wp onload : wp (handleDevicePluginUpdate onload) reports.
Proof. unfold handleDevicePluginUpdate. wp_go; finish. Qed.

Lemma handleModuleUpdate_wp onload : wp (handleModuleUpdate onload) reports.
Proof.
  assert (∀ u n f, wp (patchOrDeleteModule onload u n f) reports) as Hone.
  { intros. unfold patchOrDeleteModule, patchModule. wp_go; finish. }
  unfold handleModuleUpdate. wp_go; finish.
Qed.

Lemma evictOnloadedPods_wp node : wp (evictOnloadedPods node) reports.
Proof.
  assert (∀ pods, wp (evict_loop pods) (λ _ _, True)) as Hloop.
  { induction pods; wp_go; finish. }
  unfold evictOnloadedPods. wp_go; finish.
Qed.
Local Hint Resolve evictOnloadedPods_wp : wp.

Lemma handleNodeUpdate_wp onload node : wp (handleNodeUpdate onload node) reports.
Proof. unfold handleNodeUpdate. wp_go; finish. Qed.
Local Hint Resolve handleNodeUpdate_wp handleDevicePluginUpdate_wp handleModuleUpdate_wp : wp.

Lemma handleUpdate_wp onload : wp (handleUpdate onload) reports.
Proof. unfold handleUpdate, getNodesToUpgrade. wp_go; finish. Qed.
Local Hint Resolve addKmmLabelsToNodes_wp createAndAddModules_wp addOnloadLabelsToNodes_wp
  createDevicePluginDaemonSet_wp handleUpdate_wp : wp.

(** A phase of [Reconcile]: it reports, and it goes on only after a quiet end. *)
Lemma then_phase_wp phase k (P : list (event clientS) → Prop) Q :
  wp phase reports →
  wp phase (λ tr out, out = Done phase_nothing → P tr) →
  (∀ tr r, reconcile_return r ≠ (no_result, None) → Q tr (Done (reconcile_return r))) →
  (∀ tr c, Q tr (Crashed c)) →
  (∀ tr, no_writes tr → P tr → wp k (λ tr' out, Q (tr ++ tr') out)) →
  wp (then_phase phase k) Q.
Proof.
  intros Hp HP Hwake Hcrash Hk. unfold then_phase.
  eapply wp_then; [exact (wp_and _ _ _ Hp HP)|].
  intros tr [r|c] [Hr HPr]; [|done]. simpl in Hr. destruct (returns_early r) eqn:He.
  - destruct Hr as [[-> _]|Hr]; [done|]. by apply Hwake.
  - apply returns_early_false in He as ->. destruct Hr as [[_ Hr]|Hr]; [by apply Hk; auto|done].
Qed.

(** C5. As long as the Onload resource exists, [Reconcile] returns an empty
    result and no error only when it asked for no change of the cluster: every
    change is reported by a requeue or an error, so the controller always runs
    again after it. *)
Theorem reconcile_quiescent image req onload tr :
  runs (Reconcile image req) (Ev (S:=clientS) (GetOnload req) (inr onload) :: tr)
    (Done (no_result, None)) →
  no_writes tr.
Proof.
  intros Hr%reconcile_found.
  cut (wp (reconcile_onload image onload)
         (λ tr out, out = Done (no_result, None) → no_writes tr)).
  { rewrite wp_runs. eauto. }
  clear. unfold reconcile_onload. wp_step; [wp_go; finish|]. wp_step; [wp_go; finish|].
  repeat (apply (then_phase_wp _ _ (λ _, True));
    [solve [eauto with wp nocore] | by apply wp_runs | intros ? r Hr [=]; by destruct Hr | done
    |intros ? ? _]).
  wp_go. repeat apply no_writes_app; [done..|constructor].
Qed.
End quiescence.

(** A settled cluster: [Reconcile] looks at everything and changes nothing. *)
Definition quiet_cluster : cluster :=
  settled_cluster (sample_onload "v1" (Some MkSFCSpec)) [labelled_node "a" "v1"] [].

Lemma quiet_run : out_of (sample_run quiet_cluster) = Done (no_result, None).
Proof. apply returned_spec. vm_compute. reflexivity. Qed.

Lemma quiet_run_length : length (tail (trace_of (sample_run quiet_cluster))) = 12.
Proof. vm_compute. reflexivity. Qed.

Lemma reconcile_quiescent_witness :
  let tr := tail (trace_of (sample_run quiet_cluster)) in
  length tr = 12 ∧ no_writes tr.
Proof.
  pose proof (sample_run_found quiet_cluster (sample_onload "v1" (Some MkSFCSpec)) eq_refl) as Hrun.
  rewrite quiet_run in Hrun. split; [exact quiet_run_length|].
  exact (reconcile_quiescent _ _ _ _ Hrun).
Defined.
