(* ===== verification/UpgradeSafety.v ===== *)
(** * Kernel modules are only pulled from under nothing

    Removing the KMM labels of a node makes KMM unload the kernel modules there.
    The theorems say when the operator does so, for any answers of the API
    server. *)

From S2P Require Import Prelude GoStd Effects ApiTypes Client Labels Modules NodeLabels DevicePluginDS Upgrade Reconcile ApiServer MemServer Samples Quiescence.
From stdpp Require Import options.

Local Open Scope list_scope.

Section safety.
Context `{Apimachinery}.
Implicit Types (onload : Onload) (node : Node) (h tr : list (event clientS)).

(** ** What a history shows *)

(** The device plugin DaemonSet was read, at the version of the resource. *)
Definition plugin_current onload h : Prop :=
  ∃ d : DaemonSet,
    In (Ev (S:=clientS)
          (GetDaemonSet (MkNamespacedName (onload_Name onload +:+ devicePluginNameSuffix)
                           (onload_Namespace onload))) (inr d)) h ∧
    gomap_index (meta_Labels (ds_meta d)) onloadVersionLabel = onload_Version onload.

(** The KMM Module of [onload] was read, at the version of the resource. *)
Definition module_current onload h : Prop :=
  ∃ m : kmm_Module,
    In (Ev (S:=clientS)
          (GetModule (MkNamespacedName (onload_Name onload +:+ onloadModuleNameSuffix)
                        (onload_Namespace onload))) (inr m)) h ∧
    mlc_Version (module_Container m) = onload_Version onload.

(** The node was seen without a device plugin pod. *)
Definition no_plugin_pod onload (name : string) h : Prop :=
  In (Ev (S:=clientS) (ListPods (devicePluginPodSet onload) name) (inr [])) h.

(** The pods of the node were listed, and none uses Onload; a failed listing
    also counts. *)
Definition no_onload_pod (name : string) h : Prop :=
  ∃ r : ext_error + list Pod,
    In (Ev (S:=clientS) (ListPods ∅ name) r) h ∧
    match r with
    | inl _ => True
    | inr pods => Forall (λ p, pod_uses_onload p = false) pods
    end.

(** The node does not match the selector of the resource. *)
Definition unselected onload node : Prop :=
  ∃ sel, labels_Parse (FormatLabels (onload_Selector onload)) = inr sel ∧
         Matches sel (node_Labels node) = false.

Definition drained onload (name : string) h : Prop :=
  plugin_current onload h ∧ module_current onload h ∧
  no_plugin_pod onload name h ∧ no_onload_pod name h.

(** A patch that takes a KMM label of the resource off a node. *)
Definition removes_kmm_label onload (o : client_op) : option Node :=
  match o with
  | PatchNode old new =>
      let gone key := non_nil (gomap_get (node_Labels old) key) &&
                      negb (non_nil (gomap_get (node_Labels new) key)) in
      if gone (kmmOnloadLabelName (onload_Name onload) (onload_Namespace onload)) ||
         gone (kmmSFCLabelName (onload_Name onload) (onload_Namespace onload))
      then Some old else None
  | _ => None
  end.

Definition guarded onload h (o : client_op) : Prop :=
  match removes_kmm_label onload o with
  | Some node => unselected onload node ∨ drained onload (node_Name node) h
  | None => True
  end.

(** ** The phases *)

Lemma guarded_set onload h node key v labels :
  gomap_set (node_Labels node) key v = Some labels →
  guarded onload h (PatchNode node (node_with_Labels node labels)).
Proof.
  intros Hset. unfold guarded, removes_kmm_label. simpl.
  change (node_Labels (node_with_Labels node labels)) with labels.
  assert (∀ k, non_nil (gomap_get (node_Labels node) k) && negb (non_nil (gomap_get labels k))
               = false) as Hk.
  { intros k. destruct (gomap_get (node_Labels node) k) eqn:Hg; [|done].
    assert (is_Some (gomap_get labels k)) as [? ->]; [|done].
    eapply gomap_get_set_is_Some; [done|by rewrite Hg]. }
  by rewrite !Hk.
Qed.

Lemma guarded_delete_other onload h node key :
  key ≠ kmmOnloadLabelName (onload_Name onload) (onload_Namespace onload) →
  key ≠ kmmSFCLabelName (onload_Name onload) (onload_Namespace onload) →
  guarded onload h
    (PatchNode node (node_with_Labels node (gomap_delete (node_Labels node) key))).
Proof.
  intros H1 H2. unfold guarded, removes_kmm_label. simpl.
  change (node_Labels (node_with_Labels node ?l)) with l.
  rewrite !gomap_get_delete_ne by done.
  by repeat destruct (gomap_get _ _).
Qed.

Lemma guarded_intro onload h old new :
  unselected onload old ∨ drained onload (node_Name old) h →
  guarded onload h (PatchNode old new).
Proof. intros Hd. unfold guarded. simpl. by case_match; simplify_eq; case_match; simplify_eq. Qed.
Local Hint Resolve guarded_set : hsafe.

Lemma guarded_other onload h o : patches_node o = false → guarded onload h o.
Proof. by destruct o. Qed.
Local Hint Resolve guarded_other : hsafe.

Lemma removeStaleLabels_guarded onload h key :
  hsafe (guarded onload) h (removeStaleLabels onload key).
Proof.
  unfold removeStaleLabels. destruct (labels_Parse _) as [|sel] eqn:Hsel; [by hsafe_go|].
  assert (∀ nodes c h, hsafe (guarded onload) h (removeStaleLabels_loop sel key nodes c)) as Hloop.
  { intros nodes. induction nodes as [|n nodes IH]; intros c h'; hsafe_go.
    apply guarded_intro. left. exists sel. split; [done|]. by apply negb_true_iff. }
  hsafe_go.
Qed.
Local Hint Resolve removeStaleLabels_guarded : hsafe.

Lemma addKmmLabelsToNodes_guarded onload h :
  hsafe (guarded onload) h (addKmmLabelsToNodes onload).
Proof.
  assert (∀ node key set h, hsafe (guarded onload) h (addKmmLabelToNode onload node key set)) as Hone.
  { intros. unfold addKmmLabelToNode, getPodsOnNode. hsafe_go; [done|by eapply guarded_set]. }
  assert (∀ nodes c h, hsafe (guarded onload) h (addKmmLabels_loop onload nodes c)) as Hloop.
  { intros nodes. induction nodes as [|n nodes IH]; intros c h'; hsafe_go. }
  unfold addKmmLabelsToNodes. hsafe_go.
Qed.

Lemma addOnloadLabelsToNodes_guarded onload h :
  hsafe (guarded onload) h (addOnloadLabelsToNodes onload).
Proof.
  assert (∀ nodes c h, hsafe (guarded onload) h (addOnloadLabels_loop onload nodes c)) as Hloop.
  { intros nodes. induction nodes as [|n nodes IH]; intros c h'; hsafe_go. by eapply guarded_set. }
  unfold addOnloadLabelsToNodes. hsafe_go.
Qed.

(** What the earlier steps of an upgrade establish when they let it go on. *)

Lemma handleDevicePluginUpdate_current onload :
  wp (handleDevicePluginUpdate onload) (λ tr out,
    ∀ r, out = Done r → returns_early r = false → plugin_current onload tr).
Proof.
  unfold handleDevicePluginUpdate. wp_go; simplify_eq/=.
  eexists. split; [by left|]. by apply bool_decide_eq_true in Heqb.
Qed.

Lemma patchOrDeleteModule_current onload n f :
  wp (patchOrDeleteModule onload true n f) (λ tr out,
    ∀ r, out = Done r → returns_early r = false →
    ∃ m : kmm_Module,
      In (Ev (S:=clientS) (GetModule (MkNamespacedName n (onload_Namespace onload))) (inr m)) tr ∧
      mlc_Version (module_Container m) = onload_Version onload).
Proof.
  unfold patchOrDeleteModule, patchModule. wp_go; simplify_eq/=.
  eexists. split; [by left|]. by apply bool_decide_eq_true in Heqb.
Qed.
Local Hint Resolve handleDevicePluginUpdate_current patchOrDeleteModule_current : wp.

Lemma handleModuleUpdate_current onload :
  wp (handleModuleUpdate onload) (λ tr out,
    ∀ r, out = Done r → returns_early r = false → module_current onload tr).
Proof.
  unfold handleModuleUpdate.
  eapply wp_then; [apply patchOrDeleteModule_current|].
  intros tr [a|c] Ha; [|done]. destruct (returns_early a) eqn:He; [wp_go; congruence|].
  eapply wp_mono; [|apply wp_True]. intros tr' out _ r -> Hr.
  destruct (Ha a) as (m & Hm & Hv); [done..|]. exists m. split; [|done].
  apply in_app_iff. by left.
Qed.
Lemma evictOnloadedPods_drained node :
  wp (evictOnloadedPods node) (λ tr out,
    ∀ r, out = Done r → returns_early r = false → no_onload_pod (node_Name node) tr).
Proof.
  unfold evictOnloadedPods, getPodsUsingOnload, getPodsOnNode. wp_go; intros; simplify_eq/=.
  - eexists. split; [by left|done].
  - eexists. split; [by left|]. apply bool_decide_eq_true, nil_length_inv in Heqb.
    apply Forall_forall. intros p Hp. apply not_true_is_false. intros Hu.
    assert (In p (List.filter pod_uses_onload l)) as Hin.
    { apply filter_In. split; [by apply list_elem_of_In|done]. }
    by rewrite Heqb in Hin.
  - eapply wp_then; [apply wp_True|]. intros tr [[]|c] _; wp_go; simplify_eq.
Qed.
Local Hint Resolve handleDevicePluginUpdate_current handleModuleUpdate_current
  evictOnloadedPods_drained : wp.

Lemma plugin_current_app onload h h' : plugin_current onload h → plugin_current onload (h ++ h').
Proof. intros (d & Hd & ?). exists d. split; [|done]. apply in_app_iff. by left. Qed.

Lemma module_current_app onload h h' : module_current onload h → module_current onload (h ++ h').
Proof. intros (m & Hm & ?). exists m. split; [|done]. apply in_app_iff. by left. Qed.

Lemma no_onload_pod_app name h h' : no_onload_pod name h' → no_onload_pod name (h ++ h').
Proof. intros (r & Hr & ?). exists r. split; [|done]. apply in_app_iff. by right. Qed.

Lemma drained_app onload name h h' : drained onload name h → drained onload name (h ++ h').
Proof.
  intros (H1 & H2 & H3 & r & Hr & H4). unfold drained.
  split_and!; [by apply plugin_current_app|by apply module_current_app|..].
  - apply in_app_iff. by left.
  - exists r. split; [|done]. apply in_app_iff. by left.
Qed.

Lemma handleNodeUpdate_guarded onload h node :
  plugin_current onload h → module_current onload h →
  hsafe (guarded onload) h (handleNodeUpdate onload node).
Proof.
  intros Hp Hm. unfold handleNodeUpdate.
  destruct (match gomap_get _ _ with Some _ => _ | None => _ end).
  { unfold deleteLabelFromNode. hsafe_go. apply guarded_delete_other; auto with labels. }
  unfold getPodsOnNode, deleteLabelFromNode. hsafe_go; [done|..].
  all: match goal with Hd : ∀ r, Done _ = Done r → _ |- _ => specialize (Hd _ eq_refl) end.
  all: apply guarded_intro; right.
  2: apply drained_app.
  all: unfold drained; split_and!;
    [by repeat apply plugin_current_app|by repeat apply module_current_app|..|
     apply no_onload_pod_app; auto].
  all: unfold no_plugin_pod; rewrite !in_app_iff; left; right; by left.
Qed.

Lemma plugin_current_app_r onload h h' : plugin_current onload h' → plugin_current onload (h ++ h').
Proof. intros (d & Hd & ?). exists d. split; [|done]. apply in_app_iff. by right. Qed.

Lemma module_current_app_r onload h h' : module_current onload h' → module_current onload (h ++ h').
Proof. intros (m & Hm & ?). exists m. split; [|done]. apply in_app_iff. by right. Qed.

Local Opaque handleNodeUpdate.
Lemma handleUpdate_guarded onload h : hsafe (guarded onload) h (handleUpdate onload).
Proof.
  unfold handleUpdate, getNodesToUpgrade. hsafe_go.
  apply handleNodeUpdate_guarded.
  - do 2 apply plugin_current_app. apply plugin_current_app_r. eauto.
  - apply module_current_app, module_current_app_r. eauto.
Qed.
Local Transparent handleNodeUpdate.
Local Hint Resolve addKmmLabelsToNodes_guarded addOnloadLabelsToNodes_guarded
  handleUpdate_guarded : hsafe.

(** C3. While an Onload resource exists, the operator removes a KMM label of the
    resource from a node only if the node no longer matches the resource's
    selector, or if, earlier in the same reconciliation, it saw the device
    plugin DaemonSet and the KMM Module at the resource's version, no device
    plugin pod on the node, and listed the node's pods and found none that
    requests Onload (or the listing failed). *)
Theorem reconcile_drains_before_unload image req onload tr out tr1 e tr2 node :
  runs (Reconcile image req) (Ev (S:=clientS) (GetOnload req) (inr onload) :: tr) out →
  tr = tr1 ++ e :: tr2 →
  removes_kmm_label onload (ev_op e) = Some node →
  unselected onload node ∨ drained onload (node_Name node) tr1.
Proof.
  intros Hr%reconcile_found -> Hrm.
  assert (hsafe (guarded onload) [] (reconcile_onload image onload)) as Hs.
  { unfold reconcile_onload, then_phase. hsafe_go. }
  pose proof (hsafe_runs _ _ _ _ _ _ _ _ Hs Hr eq_refl) as Hg. simpl in Hg.
  unfold guarded in Hg. by rewrite Hrm in Hg.
Qed.
End safety.

(** An upgrade from v1 to v2: the device plugin and the Modules are at v2, node
    "a" still carries the KMM labels of v1, and its pods are gone. *)
Definition drained_node : Node :=
  sample_node "a" {[ "key" := "value"; kmmOnloadLabelName "onload" "ns" := "v1";
                     kmmSFCLabelName "onload" "ns" := "v1" ]}.
Definition drained_cluster : cluster :=
  settled_cluster (sample_onload "v2" (Some MkSFCSpec)) [drained_node] [].

Lemma reconcile_drains_before_unload_witness :
  let onload := sample_onload "v2" (Some MkSFCSpec) in
  let tr := tail (trace_of (sample_run drained_cluster)) in
  removes_kmm_label onload (ev_op (event_at 14 tr)) = Some drained_node ∧
  (unselected onload drained_node ∨ drained onload "a" (take 14 tr)).
Proof.
  intros onload tr.
  assert (removes_kmm_label onload (ev_op (event_at 14 tr)) = Some drained_node) as He
    by (vm_compute; reflexivity).
  split; [exact He|].
  refine (reconcile_drains_before_unload _ _ _ _ _ _ _ _ drained_node
            (sample_run_found drained_cluster onload eq_refl) _ He).
  apply list_split_nth. vm_compute. lia.
Defined.
