(* ===== verification/UpgradeOrder.v ===== *)
(** * The order of an upgrade

    Which node [handleUpdate] works on, in which order [handleNodeUpdate] removes
    the labels of that node, and which pods [evictOnloadedPods] evicts.  The
    theorems are weakest preconditions, so they hold for every run. *)

From S2P Require Import Prelude GoStd Effects ApiTypes Client Labels Modules NodeLabels DevicePluginDS Upgrade Reconcile ApiServer MemServer Samples.
From stdpp Require Import options.

Local Open Scope list_scope.

Section order.
Context `{Apimachinery}.
Implicit Types (onload : Onload) (node : Node) (tr : list (event clientS)).

(** ** One node at a time *)

(** Calls about a node, and those that stay on the node of this name. *)
Definition about_node (o : client_op) : bool :=
  match o with PatchNode _ _ | ListPods _ _ | CreateEviction _ => true | _ => false end.
Definition stays_on (name : string) (o : client_op) : bool :=
  match o with
  | PatchNode old new => bool_decide (node_Name old = name) && bool_decide (node_Name new = name)
  | ListPods _ name' => bool_decide (name' = name)
  | _ => true
  end.

(** The node is the alphabetically first of those that are not at the version. *)
Definition next_node onload (nodes : list Node) node : Prop :=
  In node nodes ∧ needs_upgrade onload node = true ∧
  ∀ n, In n nodes → needs_upgrade onload n = true →
    String.compare (node_Name n) (node_Name node) ≠ Lt.

Lemma next_node_MinFunc onload nodes node :
  MinFunc compare_names (List.filter (needs_upgrade onload) nodes) = Some node →
  next_node onload nodes node.
Proof.
  intros Hmin. destruct (MinFunc_spec node_Name _ _ Hmin) as [[Hin Hn]%filter_In Hle].
  split_and!; [done..|]. intros n Hn1 Hn2. by apply Hle, filter_In.
Qed.

Lemma handleDevicePluginUpdate_about onload :
  wp (handleDevicePluginUpdate onload) (λ tr _, calls (λ o, about_node o = false) tr).
Proof. unfold handleDevicePluginUpdate. wp_go; by solve_calls. Qed.

Lemma handleModuleUpdate_about onload :
  wp (handleModuleUpdate onload) (λ tr _, calls (λ o, about_node o = false) tr).
Proof.
  assert (∀ u n f, wp (patchOrDeleteModule onload u n f)
                     (λ tr _, calls (λ o, about_node o = false) tr)) as Hone.
  { intros. unfold patchOrDeleteModule, patchModule. wp_go; by solve_calls. }
  unfold handleModuleUpdate. wp_go; by solve_calls.
Qed.

Lemma handleNodeUpdate_stays onload node :
  wp (handleNodeUpdate onload node) (λ tr _, calls (λ o, stays_on (node_Name node) o = true) tr).
Proof.
  set (P := λ o, stays_on (node_Name node) o = true).
  assert (∀ pods, wp (evict_loop pods) (λ tr _, calls P tr)) as Hloop.
  { intros pods. induction pods as [|p pods IH]; wp_go; by solve_calls. }
  assert (wp (evictOnloadedPods node) (λ tr _, calls P tr)) as Hevict.
  { unfold evictOnloadedPods, getPodsUsingOnload, getPodsOnNode.
    wp_go; solve_calls; by apply bool_decide_eq_true. }
  unfold handleNodeUpdate, deleteLabelFromNode, getPodsOnNode.
  wp_go; solve_calls; unfold P; simpl; by rewrite ?bool_decide_eq_true_2.
Qed.
Local Hint Resolve handleDevicePluginUpdate_about handleModuleUpdate_about handleNodeUpdate_stays : wp.

Lemma about_stays name tr :
  calls (λ o, about_node o = false) tr → calls (λ o, stays_on name o = true) tr.
Proof. apply calls_impl. by intros []. Qed.
Local Opaque handleNodeUpdate.

(** C10. In one run, [handleUpdate] patches, drains and waits for at most one
    node: the alphabetically first of the listed nodes whose KMM label is not at
    the version of the resource. *)
Theorem handleUpdate_one_node onload :
  wp (handleUpdate onload) (λ tr _,
    calls (λ o, about_node o = false) tr ∨
    ∃ sel nodes node,
      labels_Parse (kmmOnloadLabelName (onload_Name onload) (onload_Namespace onload)) = inr sel ∧
      In (Ev (S:=clientS) (ListNodes sel) (inr nodes)) tr ∧
      next_node onload nodes node ∧
      calls (λ o, stays_on (node_Name node) o = true) tr).
Proof.
  unfold handleUpdate, getNodesToUpgrade, listNodesWithLabels.
  wp_go; try (by left; solve_calls).
  right. exists s, l, n. split; [done|]. split; [rewrite !in_app_iff; right; right; by left|].
  split; [by apply next_node_MinFunc|].
  solve_calls; by first [apply about_stays | done].
Qed.
Local Transparent handleNodeUpdate.

(** ** The SFC module before the Onload module *)

(** A patch that takes a label off a node. *)
Definition removes (key : string) (o : client_op) : bool :=
  match o with
  | PatchNode old new =>
      non_nil (gomap_get (node_Labels old) key) && negb (non_nil (gomap_get (node_Labels new) key))
  | _ => false
  end.

(** [o] may remove the Onload module's label only directly after a successful
    removal of the SFC module's label from the same node, and it starts from the
    labels the API server answered. *)
Definition sfc_removed_first onload (h : list (event clientS)) (o : client_op) : Prop :=
  removes (kmmOnloadLabelName (onload_Name onload) (onload_Namespace onload)) o = true →
  ∃ h' node labels,
    h = h' ++ [Ev (S:=clientS) (PatchNode node (node_with_Labels node
            (gomap_delete (node_Labels node)
              (kmmSFCLabelName (onload_Name onload) (onload_Namespace onload))))) (inr labels)] ∧
    o = PatchNode (node_with_Labels node labels) (node_with_Labels node
            (gomap_delete labels
              (kmmOnloadLabelName (onload_Name onload) (onload_Namespace onload)))).

Lemma removes_other key key' node :
  key ≠ key' →
  removes key' (PatchNode node (node_with_Labels node (gomap_delete (node_Labels node) key))) = false.
Proof.
  intros Hne. unfold removes. change (node_Labels (node_with_Labels node ?l)) with l.
  rewrite gomap_get_delete_ne by done. by destruct (gomap_get _ _).
Qed.

Lemma sfc_removed_first_other onload h node key :
  key ≠ kmmOnloadLabelName (onload_Name onload) (onload_Namespace onload) →
  sfc_removed_first onload h
    (PatchNode node (node_with_Labels node (gomap_delete (node_Labels node) key))).
Proof. intros Hne Hr. by rewrite removes_other in Hr. Qed.

Lemma sfc_removed_first_no_patch onload h o : patches_node o = false → sfc_removed_first onload h o.
Proof. by destruct o. Qed.
Local Hint Resolve sfc_removed_first_no_patch : hsafe.

Lemma handleNodeUpdate_sfc_first onload h node :
  hsafe (sfc_removed_first onload) h (handleNodeUpdate onload node).
Proof.
  unfold handleNodeUpdate, deleteLabelFromNode, getPodsOnNode. hsafe_go.
  - apply sfc_removed_first_other; auto with labels.
  - by intros ?.
  - apply sfc_removed_first_other; auto with labels.
  - intros _. by eexists _, node, _.
Qed.
Local Hint Resolve handleNodeUpdate_sfc_first : hsafe.

(** C11. An upgrade unloads the SFC module of a node first: whenever [handleUpdate]
    removes the label of the Onload module from a node, its previous call removed
    the label of the SFC module from that node and succeeded. *)
Theorem handleUpdate_sfc_first onload :
  hsafe (sfc_removed_first onload) [] (handleUpdate onload).
Proof.
  unfold handleUpdate, getNodesToUpgrade. hsafe_go.
Qed.

(** ** Evictions *)

(** The evictions requested for a list of pods: in order, up to the first that
    fails. *)
Definition evictions : list Pod → list (event clientS) → option ext_error → Prop :=
  in_turn CreateEviction eviction_error.

(** The pods of the listing that an upgrade has to evict. *)
Definition in_use (pods : list Pod) : list Pod := List.filter pod_uses_onload pods.
Definition to_evict (pods : list Pod) : list Pod :=
  List.filter (λ p, negb (pod_terminating p)) (in_use pods).

Lemma evict_loop_spec pods :
  wp (evict_loop pods) (λ tr out, ∃ e,
    out = Done (ExtError <$> e) ∧
    evictions (List.filter (λ p, negb (pod_terminating p)) pods) tr e).
Proof.
  induction pods as [|p pods IH]; wp_go; simpl; rewrite ?Heqb; simpl.
  - exists None. by repeat constructor.
  - done.
  - eexists (Some _). by repeat constructor.
  - destruct H0 as (e & -> & He). exists e. by repeat constructor.
Qed.
Local Hint Resolve evict_loop_spec : wp.

(** What [evictOnloadedPods] does with the listed pods. *)
Definition eviction_result (pods : list Pod) (e : option ext_error) : phase_result :=
  match e with
  | Some err => phase_error (ExtError err)
  | None => if decide (in_use pods = []) then phase_nothing else phase_stop requeue_after_default
  end.

Lemma evict_listed pods Q :
  (∀ tr e, evictions (to_evict pods) tr e → Q tr (Done (eviction_result pods e))) →
  wp (if bool_decide (length (in_use pods) = 0) then mret phase_nothing else
      err ← evict_loop (in_use pods);
      match err with
      | Some err => mret (phase_error err)
      | None => mret (phase_stop requeue_after_default)
      end) Q.
Proof.
  intros HQ. case_bool_decide as Hp.
  - apply nil_length_inv in Hp. specialize (HQ [] None).
    assert (to_evict pods = []) as Ht by (unfold to_evict; by rewrite Hp).
    unfold eviction_result in HQ. rewrite Ht, decide_True in HQ by done. apply HQ. constructor.
  - assert (in_use pods ≠ []) as Hne by (intros Hn; by rewrite Hn in Hp).
    eapply wp_then; [apply evict_loop_spec|]. intros tr out (e & -> & He). specialize (HQ tr e He).
    unfold eviction_result in HQ. destruct e as [err|]; simpl; wp_go; rewrite ?app_nil_r; [done|].
    by rewrite decide_False in HQ.
Qed.

(** C23. [evictOnloadedPods] lists the pods of the node once and asks for the
    eviction of exactly those that request Onload and are not already
    terminating, in order, up to the first failure, which it returns.  It lets the
    upgrade go on only when no listed pod requests Onload; otherwise it waits. *)
Theorem evictOnloadedPods_spec node :
  wp (evictOnloadedPods node) (λ tr out, ∃ r tr' e,
    let pods := match r with inl _ => [] | inr pods => pods end in
    tr = Ev (S:=clientS) (ListPods ∅ (node_Name node)) r :: tr' ∧
    evictions (to_evict pods) tr' e ∧ out = Done (eviction_result pods e)).
Proof.
  unfold evictOnloadedPods, getPodsUsingOnload, getPodsOnNode. intros [err|pods].
  - apply (evict_listed []). intros tr e He. by exists (inl err), tr, e.
  - apply (evict_listed pods). intros tr e He. by exists (inr pods), tr, e.
Qed.

(** C29. When listing the pods of a node fails, [handleNodeUpdate] does not stop:
    it logs the error and removes both KMM labels, although Onload may still be
    in use on the node. *)
Theorem handleNodeUpdate_ignores_failed_listing onload node err labels labels' :
  gomap_get (node_Labels node) (onloadLabelName (onload_Name onload) (onload_Namespace onload)) = None →
  runs (handleNodeUpdate onload node)
    [ Ev (S:=clientS) (ListPods (devicePluginPodSet onload) (node_Name node)) (inr []);
      Ev (S:=clientS) (ListPods ∅ (node_Name node)) (inl err);
      Ev (S:=clientS) (PatchNode node (node_with_Labels node
            (gomap_delete (node_Labels node)
              (kmmSFCLabelName (onload_Name onload) (onload_Namespace onload))))) (inr labels);
      Ev (S:=clientS) (PatchNode (node_with_Labels node labels) (node_with_Labels node
            (gomap_delete labels
              (kmmOnloadLabelName (onload_Name onload) (onload_Namespace onload))))) (inr labels') ]
    (Done (phase_stop requeue)).
Proof. intros Hl. unfold handleNodeUpdate. rewrite Hl. simpl. repeat constructor. Qed.
End order.

Lemma handleNodeUpdate_ignores_failed_listing_witness :
  let onload := sample_onload "v2" None in
  let node := sample_node "a" {[ kmmOnloadLabelName "onload" "ns" := "v1" ]} in
  ∃ tr, runs (handleNodeUpdate onload node) tr (Done (phase_stop requeue)) ∧ length tr = 4.
Proof.
  intros onload node. eexists. split.
  - exact (handleNodeUpdate_ignores_failed_listing onload node (false, "timeout")
             (node_Labels node) (Some ∅) eq_refl).
  - reflexivity.
Defined.
