(* ===== verification/NodeLabelsSpec.v ===== *)
(** * What the labelling phases do, exactly

    Each phase is a listing and a loop that patches the nodes that need it, in
    order, up to the first failure. *)

From S2P Require Import Prelude GoStd Effects ApiTypes Client Labels Modules NodeLabels ApiServer MemServer Samples.
From stdpp Require Import options.

Local Open Scope list_scope.

Section spec.
Context `{Apimachinery}.
Implicit Types (onload : Onload) (node : Node) (tr : list (event clientS)).

(** ** Stale labels *)

Definition unlabelled (key : string) node : Node :=
  node_with_Labels node (gomap_delete (node_Labels node) key).

(** The result of a phase whose loop ended with [e] after patching the nodes [todo]. *)
Definition loop_result (todo : list Node) (e : option ext_error) (otherwise : phase_result) : phase_result :=
  match e with
  | Some err => phase_error (ExtError err)
  | None => if decide (todo = []) then otherwise else phase_stop requeue
  end.

Definition stale (sel : Selector) (nodes : list Node) : list Node :=
  List.filter (λ n, negb (Matches sel (node_Labels n))) nodes.

(** [removeStaleLabels]: the nodes that have the label and do not match the
    selector of the resource lose the label. *)
Definition stale_removed onload key tr (out : outcome phase_result) : Prop :=
  match labels_Parse (FormatLabels (onload_Selector onload)), labels_Parse key with
  | inl err, _ | inr _, inl err => tr = [] ∧ out = Done (phase_error (ExtError err))
  | inr sel, inr by_key =>
      ∃ r tr', tr = Ev (S:=clientS) (ListNodes by_key) r :: tr' ∧
      match r with
      | inl err => tr' = [] ∧ out = Done (phase_error (ExtError err))
      | inr nodes =>
          ∃ e, patched (unlabelled key) (stale sel nodes) tr' e ∧
               out = Done (loop_result (stale sel nodes) e phase_nothing)
      end
  end.

(** The result of a loop that patches [todo]. *)
Definition loop_done (c : bool) (todo : list Node) (e : option ext_error) : phase_result + bool :=
  match e with
  | Some err => inl (phase_error (ExtError err))
  | None => inr (c || bool_decide (todo ≠ []))
  end.

Lemma loop_done_cons todo n e : loop_done true todo e = loop_done false (n :: todo) e.
Proof. by destruct e. Qed.

Lemma loop_done_any c todo n e : loop_done c (n :: todo) e = loop_done true todo e.
Proof. destruct e; [done|]. by destruct c. Qed.

Lemma patched_nil f : patched f [] [] None.
Proof. constructor. Qed.

Lemma patched_ok f n l labels tr e :
  patched f l tr e → patched f (n :: l) (Ev (S:=clientS) (PatchNode n (f n)) (inr labels) :: tr) e.
Proof. by apply (in_turn_ok (λ n, PatchNode n (f n)) _ n l (inr labels)). Qed.

Lemma patched_fail f n l err :
  patched f (n :: l) [Ev (S:=clientS) (PatchNode n (f n)) (inl err)] (Some err).
Proof. by apply (in_turn_fail (λ n, PatchNode n (f n)) _ n l (inl err)). Qed.
Local Hint Resolve patched_nil patched_ok patched_fail : core.

Lemma removeStaleLabels_loop_spec sel key nodes c :
  wp (removeStaleLabels_loop sel key nodes c) (λ tr out, ∃ e,
    patched (unlabelled key) (stale sel nodes) tr e ∧
    out = Done (loop_done c (stale sel nodes) e)).
Proof.
  revert c. induction nodes as [|n nodes IH]; intros c.
  { wp_go. exists None. simpl. rewrite orb_false_r. eauto. }
  unfold stale in *. simpl. unfold deleteLabelFromNode.
  wp_go; simplify_eq; simpl in *; [..|done].
  - eexists (Some _). split; [apply (patched_fail (unlabelled key))|done].
  - destruct H0 as (e & ? & ->). exists e. rewrite loop_done_any.
    split; [by apply (patched_ok (unlabelled key))|done].
Qed.
Local Hint Resolve removeStaleLabels_loop_spec : wp.

(** A phase made of such a loop. *)
Lemma loop_phase f todo (p : prog clientS (phase_result + bool)) (k : prog clientS phase_result) Q :
  wp p (λ tr out, ∃ e, patched f todo tr e ∧ out = Done (loop_done false todo e)) →
  (∀ tr e, patched f todo tr e → e ≠ None ∨ todo ≠ [] →
    Q tr (Done (loop_result todo e phase_nothing))) →
  (todo = [] → wp k Q) →
  wp (res ← p; match res with
               | inl r => mret r
               | inr true => mret (phase_stop requeue)
               | inr false => k
               end) Q.
Proof.
  intros Hp Hstop Hk. eapply wp_then; [exact Hp|]. intros tr out (e & He & ->).
  specialize (Hstop tr e He). destruct e as [err|]; simpl in *.
  { wp_go. rewrite app_nil_r. auto. }
  destruct (decide (todo = [])) as [->|Hne].
  - inversion He; subst. simpl. auto.
  - rewrite bool_decide_eq_true_2 by done. wp_go. rewrite app_nil_r. auto.
Qed.

(** [removeStaleLabels] lists the nodes that carry the label and takes the
    label, and nothing else, off exactly those that do not match the selector of
    the resource; it reports a requeue when there was one, and the first error. *)
Theorem removeStaleLabels_spec onload key :
  wp (removeStaleLabels onload key) (stale_removed onload key).
Proof.
  unfold removeStaleLabels, stale_removed, listNodesWithLabels.
  destruct (labels_Parse (FormatLabels _)) as [|sel]; [wp_go; done|].
  destruct (labels_Parse key) as [|by_key]; [wp_go; done|]. do 3 wp_step. intros [err|nodes].
  { wp_go. by exists (inl err), []. }
  apply (loop_phase (unlabelled key) (stale sel nodes)); [apply removeStaleLabels_loop_spec|..].
  - intros tr e He _. exists (inr nodes), tr. eauto.
  - intros Hs. wp_go. exists (inr nodes), []. split; [done|]. exists None. simpl. rewrite Hs. eauto.
Qed.
Local Hint Resolve removeStaleLabels_spec : wp.

(** ** The operator's label *)

(** Nodes whose KMM label is at the version, and that have no operator label yet. *)
Definition eligible onload node : bool :=
  bool_decide (gomap_index (node_Labels node)
    (kmmOnloadLabelName (onload_Name onload) (onload_Namespace onload)) = onload_Version onload) &&
  negb (non_nil (gomap_get (node_Labels node)
    (onloadLabelName (onload_Name onload) (onload_Namespace onload)))).

(** The node with the label; a node without labels has none to write to, but it
    is not eligible, unless the version is empty. *)
Definition labelled onload node : Node :=
  node_with_Labels node (Some (<[onloadLabelName (onload_Name onload) (onload_Namespace onload)
                                 := onload_Version onload]> (default ∅ (node_Labels node)))).

Lemma eligible_has_labels onload node :
  onload_Version onload ≠ "" → eligible onload node = true →
  gomap_set (node_Labels node) (onloadLabelName (onload_Name onload) (onload_Namespace onload))
    (onload_Version onload) = Some (node_Labels (labelled onload node)).
Proof.
  intros Hv [Hk%bool_decide_eq_true _]%andb_true_iff. unfold labelled.
  change (node_Labels (node_with_Labels node ?l)) with l.
  destruct (node_Labels node); [done|]. by destruct Hv.
Qed.

(** An iteration on an eligible node. *)
Definition label_eligible onload n nodes : prog clientS (phase_result + bool) :=
  match gomap_set (node_Labels n) (onloadLabelName (onload_Name onload) (onload_Namespace onload))
          (onload_Version onload) with
  | None => Halt nil_map_panic
  | Some labels =>
      got ← patch_node n (node_with_Labels n labels);
      match got with
      | inl err => mret (inl (phase_error (ExtError err)))
      | inr _ => addOnloadLabels_loop onload nodes true
      end
  end.

Lemma addOnloadLabels_loop_cons onload n nodes c :
  addOnloadLabels_loop onload (n :: nodes) c =
  if eligible onload n then label_eligible onload n nodes else addOnloadLabels_loop onload nodes c.
Proof.
  simpl. unfold eligible.
  destruct (decide (gomap_index (node_Labels n)
    (kmmOnloadLabelName (onload_Name onload) (onload_Namespace onload)) = onload_Version onload)).
  - rewrite bool_decide_eq_false_2, bool_decide_eq_true_2 by tauto. by destruct (gomap_get _ _).
  - by rewrite bool_decide_eq_true_2, bool_decide_eq_false_2.
Qed.

Lemma addOnloadLabels_loop_spec onload nodes c :
  onload_Version onload ≠ "" →
  wp (addOnloadLabels_loop onload nodes c) (λ tr out, ∃ e,
    patched (labelled onload) (List.filter (eligible onload) nodes) tr e ∧
    out = Done (loop_done c (List.filter (eligible onload) nodes) e)).
Proof.
  intros Hv. revert c. induction nodes as [|n nodes IH]; intros c.
  { wp_go. exists None. simpl. rewrite orb_false_r. eauto. }
  rewrite addOnloadLabels_loop_cons. simpl.
  destruct (eligible onload n) eqn:He; [|apply IH].
  unfold label_eligible. rewrite (eligible_has_labels onload n Hv He). do 2 wp_step. intros [err|labels].
  - wp_go. eexists (Some _). split; [apply (patched_fail (labelled onload))|done].
  - eapply wp_mono; [|apply IH]. intros tr out (e & ? & ->). exists e. rewrite loop_done_any.
    split; [by apply (patched_ok (labelled onload))|done].
Qed.

(** [addOnloadLabelsToNodes]: the nodes the resource selects are listed, and the
    eligible ones are labelled; the stale labels come when there is none. *)
Definition labels_added onload tr (out : outcome phase_result) : Prop :=
  match labels_Parse (FormatLabels (onload_Selector onload)) with
  | inl err => tr = [] ∧ out = Done (phase_error (ExtError err))
  | inr sel =>
      ∃ r tr', tr = Ev (S:=clientS) (ListNodes sel) r :: tr' ∧
      match r with
      | inl err => tr' = [] ∧ out = Done (phase_error (ExtError err))
      | inr nodes =>
          let todo := List.filter (eligible onload) nodes in
          if decide (todo = [])
          then stale_removed onload
                 (onloadLabelName (onload_Name onload) (onload_Namespace onload)) tr' out
          else ∃ e, patched (labelled onload) todo tr' e ∧
                    out = Done (loop_result todo e phase_nothing)
      end
  end.

(** [addOnloadLabelsToNodes] lists the nodes the resource selects and puts
    the operator's label, with the version, on exactly those whose KMM label is at
    that version and that lack it, in order, up to the first failure.  Only when
    there is none does it go on to the stale labels. *)
Theorem addOnloadLabelsToNodes_spec onload :
  onload_Version onload ≠ "" → wp (addOnloadLabelsToNodes onload) (labels_added onload).
Proof.
  intros Hv. unfold addOnloadLabelsToNodes, labels_added, listNodesWithLabels.
  destruct (labels_Parse (FormatLabels _)) as [|sel]; [wp_go; done|]. do 3 wp_step. intros [err|nodes].
  { wp_go. by exists (inl err), []. }
  apply (loop_phase (labelled onload) (List.filter (eligible onload) nodes));
    [by apply addOnloadLabels_loop_spec|..].
  - intros tr e He Hne. exists (inr nodes), tr. split; [done|]. destruct (decide _) as [Ht|Ht]; [|eauto].
    rewrite Ht in He. inversion He; subst. by destruct Hne.
  - intros Ht. wp_go. exists (inr nodes), tr. split; [done|]. by rewrite decide_True.
Qed.

(** ** Labels of a deleted resource *)

(** One round per label: the nodes that carry it are listed, and each is patched
    once, whatever the replies.  A failed listing ends the rounds. *)
Inductive delete_rounds : list string → list (event clientS) → option error → Prop :=
  | rounds_done : delete_rounds [] [] None
  | rounds_parse key keys err :
      labels_Parse key = inl err → delete_rounds (key :: keys) [] (Some (ExtError err))
  | rounds_list key keys sel err :
      labels_Parse key = inr sel →
      delete_rounds (key :: keys) [Ev (S:=clientS) (ListNodes sel) (inl err)] (Some (ExtError err))
  | rounds_round key keys sel nodes tr tr' e :
      labels_Parse key = inr sel →
      map (λ ev : event clientS, ev_op ev) tr = map (λ n, PatchNode n (unlabelled key n)) nodes →
      delete_rounds keys tr' e →
      delete_rounds (key :: keys) (Ev (S:=clientS) (ListNodes sel) (inr nodes) :: tr ++ tr') e.

Lemma deleteLabel_loop_spec nodes key :
  wp (deleteLabel_loop nodes key) (λ tr out,
    map (λ ev : event clientS, ev_op ev) tr = map (λ n, PatchNode n (unlabelled key n)) nodes ∧
    out = Done ()).
Proof.
  induction nodes as [|n nodes IH]; unfold deleteLabel_loop, deleteLabelFromNode; fold deleteLabel_loop;
    wp_go; simpl; [done|..]; destruct H0 as [Hm ->];
    (split; [|done]); f_equal; exact Hm.
Qed.
Local Hint Resolve deleteLabel_loop_spec : wp.

Lemma deleteLabel_rounds key keys (k : option error → prog clientS (option error)) :
  wp (k None) (λ tr out, ∃ e, out = Done e ∧ delete_rounds keys tr e) →
  (∀ err, k (Some err) = mret (Some err)) →
  wp (err ← deleteLabel key; k err) (λ tr out, ∃ e, out = Done e ∧ delete_rounds (key :: keys) tr e).
Proof.
  intros Hk Herr. unfold deleteLabel, listNodesWithLabels.
  destruct (labels_Parse key) as [err|sel] eqn:Hp.
  { wp_go. rewrite Herr. wp_go. eexists. split; [done|]. by constructor. }
  do 5 wp_step. intros [err|nodes]; simpl.
  { rewrite Herr. wp_go. eexists. split; [done|]. by constructor. }
  wp_step. eapply wp_then; [apply deleteLabel_loop_spec|]. intros tr out [Hm ->].
  eapply wp_mono; [|exact Hk]. intros tr' out (e & -> & He). exists e. split; [done|].
  by constructor.
Qed.

(** C24. Once a resource is gone, [deleteLabels] takes its three labels off every
    node that carries them, one label after the other.  A patch that fails is not
    reported: the function returns an error only if a label cannot be listed. *)
Theorem deleteLabels_spec name :
  wp (deleteLabels name) (λ tr out, ∃ e, out = Done e ∧
    delete_rounds [kmmOnloadLabelName (nn_Name name) (nn_Namespace name);
                   kmmSFCLabelName (nn_Name name) (nn_Namespace name);
                   onloadLabelName (nn_Name name) (nn_Namespace name)] tr e).
Proof.
  unfold deleteLabels. repeat (apply deleteLabel_rounds; [|done]). wp_go. exists None.
  by repeat constructor.
Qed.
End spec.

(** Two nodes are at the version; one has the operator's label already. *)
Definition sample_label_node : Node :=
  sample_node "b" {[ "key" := "value"; kmmOnloadLabelName "onload" "ns" := "v1" ]}.

Definition label_run :=
  let onload := sample_onload "v1" None in
  exec serve (addOnloadLabelsToNodes onload)
    (settled_cluster onload [labelled_node "a" "v1"; sample_label_node] []).

Lemma addOnloadLabelsToNodes_spec_witness :
  length (trace_of label_run) = 2 ∧
  labels_added (sample_onload "v1" None) (trace_of label_run) (out_of label_run).
Proof.
  split; [vm_compute; reflexivity|].
  assert (onload_Version (sample_onload "v1" None) ≠ "") as Hv by done.
  apply (proj1 (wp_runs _ _) (addOnloadLabelsToNodes_spec _ Hv)).
  exact (exec_runs serve _ _).
Defined.
