(* ===== verification/LabelSafety.v ===== *)
(** * Labels: isolation, guards and limits

    What a reconciliation may do to the labels of a node, for any answers of the
    API server. *)

From S2P Require Import Prelude GoStd Effects ApiTypes Client Labels Modules NodeLabels DevicePluginDS Upgrade Reconcile ApiServer MemServer Samples.
From Stdlib Require Import Ascii.
From stdpp Require Import options.

Local Open Scope list_scope.

Section isolation.
Context `{Apimachinery}.
Implicit Types (onload : Onload) (node : Node) (h tr : list (event clientS)).

(** ** Isolation *)

(** A patch of a node changes no label but those of this resource. *)
Definition own_patch (name namespace : string) (o : client_op) : Prop :=
  match o with
  | PatchNode old new =>
      ∀ key, (∀ k, key ≠ label_of k name namespace) →
        gomap_get (node_Labels new) key = gomap_get (node_Labels old) key
  | _ => True
  end.
Definition own (name namespace : string) (h : list (event clientS)) (o : client_op) : Prop :=
  own_patch name namespace o.

Lemma own_delete name namespace h node k :
  own name namespace h (PatchNode node (node_with_Labels node
    (gomap_delete (node_Labels node) (label_of k name namespace)))).
Proof. intros key Hkey. by apply gomap_get_delete_ne. Qed.

Lemma own_set name namespace h node k v labels :
  gomap_set (node_Labels node) (label_of k name namespace) v = Some labels →
  own name namespace h (PatchNode node (node_with_Labels node labels)).
Proof. intros Hset key Hkey. by eapply gomap_get_set_ne. Qed.

Lemma own_deleteLabelFromNode name namespace h node k :
  hsafe (own name namespace) h (deleteLabelFromNode node (label_of k name namespace)).
Proof. unfold deleteLabelFromNode. hsafe_go. apply own_delete. Qed.

Lemma own_other name namespace h o : patches_node o = false → own name namespace h o.
Proof. by destruct o. Qed.
Local Hint Resolve own_deleteLabelFromNode own_other : hsafe.
Local Opaque deleteLabelFromNode.

Lemma own_removeStaleLabels onload name namespace h k :
  hsafe (own name namespace) h (removeStaleLabels onload (label_of k name namespace)).
Proof.
  assert (∀ sel nodes c h, hsafe (own name namespace) h
            (removeStaleLabels_loop sel (label_of k name namespace) nodes c)) as Hloop.
  { intros sel nodes. induction nodes as [|n nodes IH]; intros c h'; hsafe_go. }
  unfold removeStaleLabels. hsafe_go.
Qed.

Lemma own_deleteLabels name h :
  hsafe (own (nn_Name name) (nn_Namespace name)) h (deleteLabels name).
Proof.
  assert (∀ nodes k h, hsafe (own (nn_Name name) (nn_Namespace name)) h
            (deleteLabel_loop nodes (label_of k (nn_Name name) (nn_Namespace name)))) as Hloop.
  { intros nodes. induction nodes as [|n nodes IH]; intros k h'; hsafe_go. }
  assert (∀ k h, hsafe (own (nn_Name name) (nn_Namespace name)) h
            (deleteLabel (label_of k (nn_Name name) (nn_Namespace name)))) as Hone.
  { intros k h'. unfold deleteLabel. hsafe_go. }
  pose proof (Hone KmmOnload) as H1. pose proof (Hone KmmSFC) as H2. pose proof (Hone Operator) as H3.
  simpl in H1, H2, H3. unfold deleteLabels. hsafe_go.
Qed.

Definition own_of onload := own (onload_Name onload) (onload_Namespace onload).
Lemma own_of_other onload h o : patches_node o = false → own_of onload h o.
Proof. apply own_other. Qed.
Local Hint Resolve own_of_other : hsafe.

Lemma own_addKmmLabelToNode onload h node k set :
  hsafe (own_of onload) h
    (addKmmLabelToNode onload node (label_of k (onload_Name onload) (onload_Namespace onload)) set).
Proof. unfold addKmmLabelToNode, getPodsOnNode. hsafe_go; [done|by eapply own_set]. Qed.

Lemma own_addKmmLabelsToNodes onload h :
  hsafe (own_of onload) h (addKmmLabelsToNodes onload).
Proof.
  pose proof (λ h n, own_addKmmLabelToNode onload h n KmmOnload) as H1.
  pose proof (λ h n, own_addKmmLabelToNode onload h n KmmSFC) as H2.
  pose proof (λ h, own_removeStaleLabels onload (onload_Name onload) (onload_Namespace onload) h KmmOnload) as H3.
  pose proof (λ h, own_removeStaleLabels onload (onload_Name onload) (onload_Namespace onload) h KmmSFC) as H4.
  simpl in H1, H2, H3, H4.
  assert (∀ nodes c h, hsafe (own_of onload) h
            (addKmmLabels_loop onload nodes c)) as Hloop.
  { intros nodes. induction nodes as [|n nodes IH]; intros c h'; hsafe_go. }
  unfold addKmmLabelsToNodes. hsafe_go.
Qed.

Lemma own_addOnloadLabelsToNodes onload h : hsafe (own_of onload) h (addOnloadLabelsToNodes onload).
Proof.
  pose proof (λ h, own_removeStaleLabels onload (onload_Name onload) (onload_Namespace onload) h Operator) as H1.
  simpl in H1.
  assert (∀ nodes c h, hsafe (own_of onload) h (addOnloadLabels_loop onload nodes c)) as Hloop.
  { intros nodes. induction nodes as [|n nodes IH]; intros c h'; hsafe_go.
    by eapply (own_set _ _ _ _ Operator). }
  unfold addOnloadLabelsToNodes. hsafe_go.
Qed.

Lemma own_handleNodeUpdate onload h node : hsafe (own_of onload) h (handleNodeUpdate onload node).
Proof.
  pose proof (λ h n, own_deleteLabelFromNode (onload_Name onload) (onload_Namespace onload) h n KmmOnload) as H1.
  pose proof (λ h n, own_deleteLabelFromNode (onload_Name onload) (onload_Namespace onload) h n KmmSFC) as H2.
  pose proof (λ h n, own_deleteLabelFromNode (onload_Name onload) (onload_Namespace onload) h n Operator) as H3.
  simpl in H1, H2, H3. fold (own_of onload) in *.
  unfold handleNodeUpdate, getPodsOnNode. by hsafe_go.
Qed.
Local Hint Resolve own_deleteLabels own_addKmmLabelsToNodes own_addOnloadLabelsToNodes
  own_handleNodeUpdate : hsafe.
Local Opaque handleNodeUpdate.

Lemma own_reconcile_onload image onload h : hsafe (own_of onload) h (reconcile_onload image onload).
Proof. apply reconcile_onload_hsafe; auto with hsafe. Qed.

Definition found_as_requested (req : NamespacedName) tr : Prop :=
  ∀ onload, In (Ev (S:=clientS) (GetOnload req) (inr onload)) tr →
    onload_Name onload = nn_Name req ∧ onload_Namespace onload = nn_Namespace req.

Lemma reconcile_own image req tr out tr1 e tr2 :
  runs (Reconcile image req) tr out → found_as_requested req tr →
  tr = tr1 ++ e :: tr2 → own_patch (nn_Name req) (nn_Namespace req) (ev_op e).
Proof.
  intros Hr Hname ->. destruct (reconcile_runs_inv _ _ _ _ Hr) as ([err|onload] & tr' & Htr).
  - assert (hsafe (own (nn_Name req) (nn_Namespace req)) []
              (reconcile_unread req err)) as Hs.
    { unfold reconcile_unread. hsafe_go. }
    rewrite Htr in Hr. apply reconcile_not_found in Hr.
    destruct tr1 as [|e1 tr1]; simpl in Htr; injection Htr as -> Htr; [done|].
    exact (hsafe_runs _ _ _ _ _ _ _ _ Hs Hr (eq_sym Htr)).
  - destruct (Hname onload) as [Hn Hns]; [rewrite Htr; by left|].
    rewrite Htr in Hr. apply reconcile_found in Hr.
    destruct tr1 as [|e1 tr1]; simpl in Htr; injection Htr as -> Htr; [done|].
    rewrite <-Hn, <-Hns.
    exact (hsafe_runs _ _ _ _ _ _ _ _ (own_reconcile_onload image onload []) Hr (eq_sym Htr)).
Qed.

(** C8. Reconciling a resource never changes a node label of another resource:
    in every node patch of a run for [req], the three labels of any other resource
    (of another name, or in another namespace) keep the values they had in the
    node as it was read.  The hypothesis on the replies is that the API server
    returns the resource it was asked for. *)
Theorem reconcile_isolated image req tr out old new r k name namespace :
  runs (Reconcile image req) tr out → found_as_requested req tr →
  In (Ev (S:=clientS) (PatchNode old new) r) tr →
  char_free "."%char (nn_Namespace req) = true → char_free "."%char namespace = true →
  (name, namespace) ≠ (nn_Name req, nn_Namespace req) →
  gomap_get (node_Labels new) (label_of k name namespace) =
  gomap_get (node_Labels old) (label_of k name namespace).
Proof.
  intros Hr Hname (tr1 & tr2 & Htr)%in_split Hns Hns' Hne.
  apply (reconcile_own _ _ _ _ _ _ _ Hr Hname Htr). intros k' Heq.
  apply label_of_inj in Heq as (_ & -> & ->); done.
Qed.
End isolation.

Section guard.
Context `{Apimachinery}.
Implicit Types (onload : Onload) (node : Node) (h tr : list (event clientS)).

(** ** When a module may be loaded on a node

    Adding a KMM label to a node makes KMM load the module there.  [o] may add one
    if the previous call listed the pods of that module on the node and found
    none; the SFC label also needs that the resource asks for the SFC module and
    that the node already has the Onload module at the same version. *)
Definition module_of onload (k : label_kind) : string :=
  onload_Name onload +:+
  match k with KmmSFC => sfcModuleNameSuffix | _ => onloadModuleNameSuffix end.

Definition kmm_guard onload h (o : client_op) : Prop :=
  match o with
  | PatchNode old new =>
      ∀ k v, k ≠ Operator →
        gomap_get (node_Labels old) (label_of k (onload_Name onload) (onload_Namespace onload)) = None →
        gomap_get (node_Labels new) (label_of k (onload_Name onload) (onload_Namespace onload)) = Some v →
        v = onload_Version onload ∧
        (∃ h', h = h' ++ [Ev (S:=clientS)
           (ListPods {[ kmmModuleNameLabel := module_of onload k ]} (node_Name old)) (inr [])]) ∧
        (k = KmmSFC →
           onloadUsesSFC onload = true ∧
           gomap_index (node_Labels old)
             (kmmOnloadLabelName (onload_Name onload) (onload_Namespace onload)) = onload_Version onload)
  | _ => True
  end.

Lemma kmm_guard_delete onload h node key :
  kmm_guard onload h (PatchNode node (node_with_Labels node (gomap_delete (node_Labels node) key))).
Proof.
  intros k v _ Hold Hnew. change (node_Labels (node_with_Labels node ?l)) with l in Hnew.
  destruct (decide (key = label_of k (onload_Name onload) (onload_Namespace onload))) as [->|Hne].
  - by rewrite gomap_get_delete_eq in Hnew.
  - rewrite gomap_get_delete_ne in Hnew by done. congruence.
Qed.

Lemma kmm_guard_set_operator onload h node v labels :
  gomap_set (node_Labels node) (onloadLabelName (onload_Name onload) (onload_Namespace onload)) v
    = Some labels →
  kmm_guard onload h (PatchNode node (node_with_Labels node labels)).
Proof.
  intros Hset k v' Hk Hold Hnew. change (node_Labels (node_with_Labels node ?l)) with l in Hnew.
  rewrite (gomap_get_set_ne _ _ _ _ _ ltac:(by intros Heq%(label_of_kind_inj Operator k)) Hset) in Hnew.
  congruence.
Qed.

Lemma kmm_guard_set onload h node k labels :
  k ≠ Operator →
  (k = KmmSFC → onloadUsesSFC onload = true ∧
     gomap_index (node_Labels node)
       (kmmOnloadLabelName (onload_Name onload) (onload_Namespace onload)) = onload_Version onload) →
  gomap_set (node_Labels node) (label_of k (onload_Name onload) (onload_Namespace onload))
    (onload_Version onload) = Some labels →
  kmm_guard onload (h ++ [Ev (S:=clientS)
      (ListPods {[ kmmModuleNameLabel := module_of onload k ]} (node_Name node)) (inr [])])
    (PatchNode node (node_with_Labels node labels)).
Proof.
  intros Hk Hsfc Hset k' v Hk' Hold Hnew. change (node_Labels (node_with_Labels node ?l)) with l in Hnew.
  destruct (decide (label_of k (onload_Name onload) (onload_Namespace onload) =
                    label_of k' (onload_Name onload) (onload_Namespace onload))) as [Heq|Hne].
  - pose proof (label_of_kind_inj _ _ _ _ _ _ Heq) as <-.
    rewrite (gomap_get_set_eq _ _ _ _ Hset) in Hnew. injection Hnew as <-. eauto.
  - rewrite (gomap_get_set_ne _ _ _ _ _ Hne Hset) in Hnew. congruence.
Qed.

Lemma deleteLabelFromNode_kmm onload h node key :
  hsafe (kmm_guard onload) h (deleteLabelFromNode node key).
Proof. unfold deleteLabelFromNode. hsafe_go. apply kmm_guard_delete. Qed.

Lemma kmm_guard_other onload h o : patches_node o = false → kmm_guard onload h o.
Proof. by destruct o. Qed.
Local Hint Resolve deleteLabelFromNode_kmm kmm_guard_other : hsafe.
Local Opaque deleteLabelFromNode.

Lemma removeStaleLabels_kmm onload h key : hsafe (kmm_guard onload) h (removeStaleLabels onload key).
Proof.
  assert (∀ sel nodes c h, hsafe (kmm_guard onload) h (removeStaleLabels_loop sel key nodes c)) as Hloop.
  { intros sel nodes. induction nodes as [|n nodes IH]; intros c h'; hsafe_go. }
  unfold removeStaleLabels. hsafe_go.
Qed.
Local Hint Resolve removeStaleLabels_kmm : hsafe.

Lemma addKmmLabelToNode_kmm onload h node k :
  k ≠ Operator → (k = KmmSFC → onloadUsesSFC onload = true) →
  hsafe (kmm_guard onload) h
    (addKmmLabelToNode onload node (label_of k (onload_Name onload) (onload_Namespace onload))
       {[ kmmModuleNameLabel := module_of onload k ]}).
Proof.
  intros Hk Hsfc. unfold addKmmLabelToNode, getPodsOnNode. hsafe_go; [done|].
  apply kmm_guard_set; [done| |done]. intros ->. split; [by apply Hsfc|].
  apply andb_false_iff in Heqb0 as [Hb%bool_decide_eq_false|Hb%bool_decide_eq_false].
  - exfalso. by apply Hb, kmm_labels_ne'.
  - by apply dec_stable in Hb.
Qed.

Lemma addKmmLabelsToNodes_kmm onload h : hsafe (kmm_guard onload) h (addKmmLabelsToNodes onload).
Proof.
  assert (∀ nodes c h, hsafe (kmm_guard onload) h (addKmmLabels_loop onload nodes c)) as Hloop.
  { intros nodes. induction nodes as [|n nodes IH]; intros c h'; [by hsafe_go|].
    assert (∀ h, hsafe (kmm_guard onload) h (addKmmLabelToNode onload n
              (kmmOnloadLabelName (onload_Name onload) (onload_Namespace onload))
              {[ kmmModuleNameLabel := onload_Name onload +:+ onloadModuleNameSuffix ]})) as H1.
    { intros h1. by apply (addKmmLabelToNode_kmm onload h1 n KmmOnload). }
    assert (∀ h n, onloadUsesSFC onload = true →
              hsafe (kmm_guard onload) h (addKmmLabelToNode onload n
                (kmmSFCLabelName (onload_Name onload) (onload_Namespace onload))
                {[ kmmModuleNameLabel := onload_Name onload +:+ sfcModuleNameSuffix ]})) as H2.
    { intros h2 n2 Hs. by apply (addKmmLabelToNode_kmm onload h2 n2 KmmSFC). }
    hsafe_go. pose proof (λ h n, H2 h n eq_refl) as H2'. hsafe_go. }
  unfold addKmmLabelsToNodes. hsafe_go.
Qed.

Lemma addOnloadLabelsToNodes_kmm onload h : hsafe (kmm_guard onload) h (addOnloadLabelsToNodes onload).
Proof.
  assert (∀ nodes c h, hsafe (kmm_guard onload) h (addOnloadLabels_loop onload nodes c)) as Hloop.
  { intros nodes. induction nodes as [|n nodes IH]; intros c h'; hsafe_go.
    by eapply kmm_guard_set_operator. }
  unfold addOnloadLabelsToNodes. hsafe_go.
Qed.

Lemma handleNodeUpdate_kmm onload h node : hsafe (kmm_guard onload) h (handleNodeUpdate onload node).
Proof.
  unfold handleNodeUpdate, getPodsOnNode. by hsafe_go.
Qed.
Local Hint Resolve addKmmLabelsToNodes_kmm addOnloadLabelsToNodes_kmm handleNodeUpdate_kmm : hsafe.
Local Opaque handleNodeUpdate.

(** C12. A KMM label is only added to a node by a reconciliation that, in its
    previous call, found no pod of that module on the node; its value is the
    version of the resource; and the SFC label is only added when the resource
    asks for the SFC module and the node, with the changes made so far, has the
    Onload label at the version of the resource. *)
Theorem reconcile_kmm_guard image onload :
  hsafe (kmm_guard onload) [] (reconcile_onload image onload).
Proof. apply reconcile_onload_hsafe; auto with hsafe. Qed.
End guard.

(** ** Limits on names *)

(** A label key: a DNS prefix of at most 253 bytes, and a name of at most 63. *)
Definition valid_key_length (key : string) : Prop :=
  ∃ prefix name, key = prefix +:+ "/" +:+ name ∧
    String.length prefix ≤ 253 ∧ 0 < String.length name ≤ 63.

Section limits.
Context `{Apimachinery}.
Implicit Types (onload : Onload).

(** The labels of the objects that the operator makes for [onload]: the Modules,
    the DaemonSet, and its pods. *)
Definition object_labels onload : list (gmap string string) :=
  [baseLabels (onload_Name onload) (onload_Namespace onload) "module"; dsLabels onload; dsPodLabels onload].

(** The keys of the node labels and of the labels of the objects, and the names of
    the objects, respect the limits of Kubernetes, and the combined length of name
    and namespace of the Modules the limit of KMM (39).  So do the label values,
    apart from the version of the resource, which is copied as it is. *)
Definition names_in_limits onload : Prop :=
  let n := onload_Name onload in
  let ns := onload_Namespace onload in
  (∀ k, valid_key_length (label_of k n ns)) ∧
  (∀ k, String.length (module_of onload k) + String.length ns ≤ 39) ∧
  (∀ k, String.length (module_of onload k) ≤ 63) ∧
  String.length (devicePluginName onload) ≤ 63 ∧
  (∀ labels key v, In labels (object_labels onload) → labels !! key = Some v →
     valid_key_length key ∧
     (String.length v ≤ 63 ∨ key = onloadVersionLabel ∧ v = onload_Version onload)).

Lemma baseLabels_limits name namespace component key v :
  String.length name + String.length namespace ≤ 32 → String.length component ≤ 63 →
  baseLabels name namespace component !! key = Some v →
  valid_key_length key ∧ String.length v ≤ 63.
Proof.
  intros Hl Hc Hv. unfold baseLabels in Hv.
  repeat (apply lookup_insert_Some in Hv as [[<- <-]|[_ Hv]];
    [split; [exists "app.kubernetes.io"; eexists; split_and!; [reflexivity|simpl; lia..]
            |simpl; rewrite ?string_length_app; simpl; rewrite ?string_length_app; lia]|]).
  apply lookup_singleton_Some in Hv as [<- <-].
  split; [exists "app.kubernetes.io"; eexists; split_and!; [reflexivity|simpl; lia..]|done].
Qed.

Lemma name_too_long_spec onload :
  name_too_long onload = false ↔
  String.length (onload_Name onload) + String.length (onload_Namespace onload) ≤ 32.
Proof. unfold name_too_long. rewrite bool_decide_eq_false. simpl. lia. Qed.

Lemma accepted_names_in_limits onload :
  name_too_long onload = false → names_in_limits onload.
Proof.
  rewrite name_too_long_spec. intros Hl. unfold names_in_limits, module_of, devicePluginName.
  split_and!.
  - intros []; [exists "kmm.node.kubernetes.io"|exists "kmm.node.kubernetes.io"|exists "onload.amd.com"];
      eexists; (split; [reflexivity|]); rewrite ?string_length_app; simpl;
      rewrite ?string_length_app; simpl; rewrite ?string_length_app; simpl; lia.
  - intros []; rewrite string_length_app; simpl; lia.
  - intros []; rewrite string_length_app; simpl; lia.
  - rewrite string_length_app. simpl. lia.
  - intros labels key v Hin Hv.
    destruct Hin as [<-|[<-|[<-|[]]]]; [|unfold dsLabels in Hv|unfold dsPodLabels in Hv].
    + apply baseLabels_limits in Hv; [naive_solver|lia|simpl; lia].
    + apply lookup_insert_Some in Hv as [[<- <-]|[_ Hv]].
      * split; [|by right]. exists "onload.amd.com", "version". split_and!; [reflexivity|simpl; lia..].
      * apply baseLabels_limits in Hv; [naive_solver|lia|simpl; lia].
    + apply lookup_insert_Some in Hv as [[<- <-]|[_ Hv]].
      * split; [|left; unfold devicePluginName; rewrite string_length_app; simpl; lia].
        exists "onload.amd.com", "name". split_and!; [reflexivity|simpl; lia..].
      * apply baseLabels_limits in Hv; [naive_solver|lia|simpl; lia].
Qed.

(** C28. If [Reconcile] goes past reading the resource, by any call at all, then
    the resource is not being deleted; the combined length of its name and
    namespace is at most 32; and all label keys and names that the operator makes
    for it are within the limits of Kubernetes and of KMM, and so are all label
    values of the objects it makes, other than the version of the resource, which is
    copied into labels without a check of its length.  (32 itself is accepted, in line with the limit of KMM that
    the code cites, though the README asks for less than 32.) *)
Theorem reconcile_names_in_limits image req onload tr out :
  runs (Reconcile image req) (Ev (S:=clientS) (GetOnload req) (inr onload) :: tr) out →
  tr ≠ [] →
  meta_DeletionTimestamp (onload_meta onload) = None ∧
  String.length (onload_Name onload) + String.length (onload_Namespace onload) ≤ 32 ∧
  names_in_limits onload.
Proof.
  intros Hr%reconcile_found Hne. unfold reconcile_onload in Hr.
  destruct (meta_DeletionTimestamp _) eqn:Hd; [by apply runs_ret_inv in Hr as [-> _]|].
  destruct (name_too_long onload) eqn:Hl; [by apply runs_ret_inv in Hr as [-> _]|].
  split; [done|]. split; [by apply name_too_long_spec|by apply accepted_names_in_limits].
Qed.
End limits.

(** The resource "onload" is gone; its operator label is removed from a node
    that also has the label of the resource "other". *)
Definition shared_node : Node :=
  sample_node "a" {[ onloadLabelName "onload" "ns" := "v1"; onloadLabelName "other" "ns" := "v3" ]}.
Definition unshared_node : Node :=
  node_with_Labels shared_node
    (gomap_delete (node_Labels shared_node) (onloadLabelName "onload" "ns")).
Definition deletion_trace : list (event clientS) :=
  [ Ev (S:=clientS) (GetOnload sample_key) (inl (true, "not found"));
    Ev (S:=clientS) (ListNodes [(kmmOnloadLabelName "onload" "ns", None)]) (inr []);
    Ev (S:=clientS) (ListNodes [(kmmSFCLabelName "onload" "ns", None)]) (inr []);
    Ev (S:=clientS) (ListNodes [(onloadLabelName "onload" "ns", None)]) (inr [shared_node]);
    Ev (S:=clientS) (PatchNode shared_node unshared_node) (inr (node_Labels unshared_node)) ].

Lemma deletion_runs :
  runs (Reconcile sample_image sample_key) deletion_trace (Done (no_result, None)).
Proof. unfold deletion_trace. repeat constructor. Qed.

Lemma reconcile_isolated_witness :
  gomap_get (node_Labels unshared_node) (label_of Operator "onload" "ns") = None ∧
  gomap_get (node_Labels unshared_node) (label_of Operator "other" "ns") =
  gomap_get (node_Labels shared_node) (label_of Operator "other" "ns").
Proof.
  split; [vm_compute; reflexivity|].
  apply (reconcile_isolated _ _ _ _ _ _ (inr (node_Labels unshared_node)) _ _ _ deletion_runs).
  - intros onload Hin. simpl in Hin. repeat destruct Hin as [Hin|Hin]; try done.
    by apply (f_equal reply_onload) in Hin.
  - do 4 right. by left.
  - reflexivity.
  - reflexivity.
  - done.
Defined.

(** The limit of 32 is reached by "onload" in a namespace of 26 characters. *)
Definition long_onload : Onload :=
  MkOnload (sample_meta "onload" "abcdefghijklmnopqrstuvwxyz" None)
    (onload_Spec (sample_onload "v1" None)).

Lemma reconcile_names_in_limits_witness :
  String.length (onload_Name long_onload) + String.length (onload_Namespace long_onload) = 32 ∧
  names_in_limits long_onload.
Proof.
  split; [reflexivity|].
  assert (runs (Reconcile sample_image sample_key)
    [Ev (S:=clientS) (GetOnload sample_key) (inr long_onload);
     Ev (S:=clientS) (ListNodes [("key", Some "value")]) (inl (false, "timeout"))]
    (Done (no_result, Some (ExtError (false, "timeout"))))) as Hr.
  { repeat constructor. }
  destruct (reconcile_names_in_limits _ _ _ _ _ Hr ltac:(done)) as (_ & _ & Hn). exact Hn.
Defined.
