(* ===== verification/Settled.v ===== *)
(** * What a reconciliation has seen when it settles

    [Reconcile] stops asking to be run again exactly when it has nothing to
    change.  The theorem says what it then knows about the cluster. *)

From S2P Require Import Prelude GoStd Effects ApiTypes Client Labels Modules NodeLabels DevicePluginDS Upgrade Reconcile ApiServer MemServer Samples NodeLabelsSpec Quiescence UpgradeSafety.
From stdpp Require Import options.

Local Open Scope list_scope.

Section settled.
Context `{Apimachinery}.
Implicit Types (onload : Onload) (node : Node) (tr : list (event clientS)).

(** ** Observations *)

(** Some listing of the nodes selected by [label] returned nodes that all satisfy [P]. *)
Definition listed (label : string) (P : Node → Prop) tr : Prop :=
  ∃ sel nodes, labels_Parse label = inr sel ∧
    In (Ev (S:=clientS) (ListNodes sel) (inr nodes)) tr ∧ Forall P nodes.

Definition has_label (key : string) node : Prop := is_Some (gomap_get (node_Labels node) key).
Definition at_version onload node : Prop :=
  gomap_index (node_Labels node)
    (kmmOnloadLabelName (onload_Name onload) (onload_Namespace onload)) = onload_Version onload.
Definition onload_label onload (k : label_kind) : string :=
  label_of k (onload_Name onload) (onload_Namespace onload).
Definition selected onload node : Prop :=
  ∃ sel, labels_Parse (FormatLabels (onload_Selector onload)) = inr sel ∧
         Matches sel (node_Labels node) = true.

(** A module was read at the version of the resource, or is not used and absent. *)
Definition sfc_module_current onload tr : Prop :=
  let key := MkNamespacedName (onload_Name onload +:+ sfcModuleNameSuffix) (onload_Namespace onload) in
  if onloadUsesSFC onload then
    ∃ m : kmm_Module, In (Ev (S:=clientS) (GetModule key) (inr m)) tr ∧
      mlc_Version (module_Container m) = onload_Version onload
  else ∃ err, In (Ev (S:=clientS) (GetModule key) (inl err)) tr ∧ IsNotFound err = true.

(** The nodes the resource selects have the KMM labels they should have, and the
    operator's label once the module is at the version; no node with a KMM label
    is at another version; no label is on a node the resource does not select;
    and the DaemonSet and the Modules are at the version. *)
Definition settled onload tr : Prop :=
  listed (FormatLabels (onload_Selector onload)) (λ n,
    has_label (onload_label onload KmmOnload) n ∧
    (onloadUsesSFC onload = true → at_version onload n → has_label (onload_label onload KmmSFC) n)) tr ∧
  listed (FormatLabels (onload_Selector onload)) (λ n,
    at_version onload n → has_label (onload_label onload Operator) n) tr ∧
  listed (onload_label onload KmmOnload) (at_version onload) tr ∧
  (∀ k, listed (onload_label onload k) (selected onload) tr) ∧
  plugin_current onload tr ∧ module_current onload tr ∧ sfc_module_current onload tr.

Lemma listed_app_l label P tr tr' : listed label P tr → listed label P (tr ++ tr').
Proof. intros (sel & nodes & ? & ? & ?). exists sel, nodes. rewrite in_app_iff. eauto. Qed.
Lemma listed_app_r label P tr tr' : listed label P tr' → listed label P (tr ++ tr').
Proof. intros (sel & nodes & ? & ? & ?). exists sel, nodes. rewrite in_app_iff. eauto. Qed.

(** ** The phases *)

(** When the phase has nothing to report, its trace satisfies [P]. *)
#[local] Notation ends_quietly p P := (wp p (λ tr out, out = Done phase_nothing → P tr)).

Lemma stale_removed_quiet onload k tr :
  stale_removed onload (onload_label onload k) tr (Done phase_nothing) →
  listed (onload_label onload k) (selected onload) tr.
Proof.
  unfold stale_removed. destruct (labels_Parse (FormatLabels _)) as [|sel] eqn:Hs; [by intros [_ ?]|].
  destruct (labels_Parse (onload_label _ _)) as [|by_key] eqn:Hk; [by intros [_ ?]|].
  intros ([err|nodes] & tr' & -> & Hr); [by destruct Hr|]. destruct Hr as (e & _ & Ho).
  unfold loop_result in Ho. destruct e; [done|]. destruct (decide _) as [Hst|]; [|done].
  exists by_key, nodes. split; [done|]. split; [by left|]. apply Forall_forall. intros n Hn.
  exists sel. split; [done|]. apply not_false_iff_true. intros Hm.
  assert (In n (stale sel nodes)) as Hin.
  { apply filter_In. rewrite Hm. split; [by apply list_elem_of_In|done]. }
  by rewrite Hst in Hin.
Qed.

Lemma removeStaleLabels_quiet onload k :
  ends_quietly (removeStaleLabels onload (onload_label onload k))
    (listed (onload_label onload k) (selected onload)).
Proof.
  eapply wp_mono; [|apply removeStaleLabels_spec]. intros tr out Hs ->.
  by apply stale_removed_quiet.
Qed.

Lemma addKmmLabelToNode_quiet onload node key set :
  wp (addKmmLabelToNode onload node key set) (λ tr out, ∀ labels,
    out = Done (phase_nothing, false, labels) →
    labels = node_Labels node ∧
    (has_label key node ∨
     key ≠ kmmOnloadLabelName (onload_Name onload) (onload_Namespace onload) ∧ ¬ at_version onload node)).
Proof.
  unfold addKmmLabelToNode. wp_go; simplify_eq; try done.
  - split; [done|]. left. unfold has_label. by destruct (gomap_get _ _).
  - split; [done|]. right. by apply andb_true_iff in Heqb0 as [?%bool_decide_eq_true ?%bool_decide_eq_true].
Qed.
Local Hint Resolve addKmmLabelToNode_quiet : wp.

Definition kmm_labelled onload node : Prop :=
  has_label (onload_label onload KmmOnload) node ∧
  (onloadUsesSFC onload = true → at_version onload node → has_label (onload_label onload KmmSFC) node).

Lemma addKmmLabels_loop_quiet onload nodes c :
  wp (addKmmLabels_loop onload nodes c) (λ tr out,
    (out = Done (inr false) → c = false ∧ Forall (kmm_labelled onload) nodes) ∧
    out ≠ Done (inl phase_nothing)).
Proof.
  revert c. induction nodes as [|n nodes IH]; intros c; [wp_go; split; by intros; simplify_eq|].
  wp_go; simplify_eq; try (split; congruence); try (by split; [|intros [= ->]]; intros [=]).
  all: try (split; [done|by intros [= ->]]).
  all: repeat match goal with He : returns_early _ = false |- _ =>
         apply returns_early_false in He; subst end.
  - destruct H2 as [H2 Hne]. split; [intros ->|done].
    destruct (H2 eq_refl) as [[[-> ->]%orb_false_iff ->]%orb_false_iff Hn]. split; [done|].
    constructor; [|done]. destruct (H0 _ eq_refl) as [-> [Hk|[Hk _]]]; [|done].
    split; [done|]. intros _ Hv. destruct (H1 _ eq_refl) as [_ [Hs|[_ Hs]]]; [exact Hs|by destruct Hs].
  - destruct H1 as [H1 Hne]. split; [intros ->|done].
    destruct (H1 eq_refl) as [[-> ->]%orb_false_iff Hn]. split; [done|].
    constructor; [|done]. destruct (H0 _ eq_refl) as [-> [Hk|[Hk _]]]; [|done].
    split; [done|]. congruence.
Qed.
Local Hint Resolve addKmmLabels_loop_quiet : wp.

Lemma addKmmLabelsToNodes_quiet onload :
  ends_quietly (addKmmLabelsToNodes onload) (λ tr,
    listed (FormatLabels (onload_Selector onload)) (kmm_labelled onload) tr ∧
    listed (onload_label onload KmmOnload) (selected onload) tr ∧
    listed (onload_label onload KmmSFC) (selected onload) tr).
Proof.
  pose proof (removeStaleLabels_quiet onload KmmOnload) as H1.
  pose proof (removeStaleLabels_quiet onload KmmSFC) as H2.
  unfold onload_label in *. simpl in *.
  unfold addKmmLabelsToNodes, listNodesWithLabels. wp_go; simplify_eq; try done; [by destruct H0|].
  destruct H0 as [[_ Hn] _]; [done|]. split_and!.
  - exists s, l. split; [done|]. split; [by left|done].
  - apply (listed_app_r _ _ (_ :: tr)), listed_app_l.
    match goal with Hl : Done _ = Done phase_nothing → _ |- _ => apply Hl end.
    f_equal. by apply returns_early_false.
  - apply (listed_app_r _ _ (_ :: tr)), listed_app_r. auto.
Qed.

Lemma addOnloadLabelsToNodes_quiet onload :
  onload_Version onload ≠ "" →
  ends_quietly (addOnloadLabelsToNodes onload) (λ tr,
    listed (FormatLabels (onload_Selector onload)) (λ n,
      at_version onload n → has_label (onload_label onload Operator) n) tr ∧
    listed (onload_label onload Operator) (selected onload) tr).
Proof.
  intros Hv. eapply wp_mono; [|by apply addOnloadLabelsToNodes_spec]. intros tr out Hs ->.
  unfold labels_added in Hs. destruct (labels_Parse (FormatLabels _)) as [|sel] eqn:Hp; [by destruct Hs|].
  destruct Hs as ([err|nodes] & tr' & -> & Hs); [by destruct Hs|]. simpl in Hs.
  destruct (decide _) as [Hf|Hf].
  - apply (stale_removed_quiet onload Operator) in Hs. split; [|by apply (listed_app_r _ _ [_])].
    exists sel, nodes. split; [done|]. split; [by left|]. apply Forall_forall. intros n Hn Hver.
    unfold has_label. destruct (gomap_get _ _) eqn:Hg; [by eexists|exfalso].
    assert (In n (List.filter (eligible onload) nodes)) as Hin.
    { apply filter_In. split; [by apply list_elem_of_In|]. unfold eligible.
      rewrite bool_decide_eq_true_2 by done. unfold onload_label in Hg. simpl in Hg. by rewrite Hg. }
    by rewrite Hf in Hin.
  - destruct Hs as (e & _ & Ho). unfold loop_result in Ho. destruct e; [done|].
    by rewrite decide_False in Ho.
Qed.

Lemma handleModuleUpdate_quiet onload :
  ends_quietly (handleModuleUpdate onload) (λ tr,
    module_current onload tr ∧ sfc_module_current onload tr).
Proof.
  assert (∀ u n f, wp (patchOrDeleteModule onload u n f) (λ tr out, out = Done phase_nothing →
    let key := MkNamespacedName n (onload_Namespace onload) in
    if u then ∃ m : kmm_Module, In (Ev (S:=clientS) (GetModule key) (inr m)) tr ∧
                mlc_Version (module_Container m) = onload_Version onload
    else ∃ err, In (Ev (S:=clientS) (GetModule key) (inl err)) tr ∧ IsNotFound err = true)) as Hone.
  { intros u n f. unfold patchOrDeleteModule, patchModule. wp_go; simplify_eq; try done; simpl.
    - eauto.
    - apply bool_decide_eq_true in Heqb0. eauto. }
  unfold handleModuleUpdate.
  eapply wp_then; [apply (Hone true)|]. intros tr [a|c] Ha; [|done].
  destruct (returns_early a) eqn:He; [wp_go; simplify_eq|]. apply returns_early_false in He as ->.
  eapply wp_mono; [|apply Hone]. intros tr' out Hs ->. specialize (Ha eq_refl). specialize (Hs eq_refl). simpl in Ha, Hs.
  split; [by apply module_current_app|]. unfold sfc_module_current. case_match.
  - destruct Hs as (m & Hm & Hv). exists m. split; [apply in_app_iff; by right|done].
  - destruct Hs as (err & Hm & Hv). exists err. split; [apply in_app_iff; by right|done].
Qed.

Lemma sfc_module_current_app_r onload tr tr' :
  sfc_module_current onload tr' → sfc_module_current onload (tr ++ tr').
Proof.
  unfold sfc_module_current. case_match; intros (x & Hx & ?); exists x;
    (split; [apply in_app_iff; by right|done]).
Qed.
Lemma sfc_module_current_app_l onload tr tr' :
  sfc_module_current onload tr → sfc_module_current onload (tr ++ tr').
Proof.
  unfold sfc_module_current. case_match; intros (x & Hx & ?); exists x;
    (split; [apply in_app_iff; by left|done]).
Qed.

Lemma handleDevicePluginUpdate_quiet onload :
  ends_quietly (handleDevicePluginUpdate onload) (plugin_current onload).
Proof.
  unfold handleDevicePluginUpdate. wp_go; simplify_eq; try done.
  eexists. split; [by left|]. by apply bool_decide_eq_true in Heqb.
Qed.

(** The node part of [handleUpdate] never ends quietly. *)
Lemma handleNodeUpdate_loud onload node :
  wp (handleNodeUpdate onload node) (λ _ out, out ≠ Done phase_nothing).
Proof.
  assert (wp (evictOnloadedPods node) (λ _ _, True)) as Hevict by apply wp_True.
  unfold handleNodeUpdate, getPodsOnNode, deleteLabelFromNode. wp_go.
  all: by intros [= ->].
Qed.
Local Hint Resolve handleModuleUpdate_quiet handleDevicePluginUpdate_quiet handleNodeUpdate_loud : wp.
Local Opaque handleNodeUpdate.

Lemma handleUpdate_quiet onload :
  ends_quietly (handleUpdate onload) (λ tr,
    listed (onload_label onload KmmOnload) (at_version onload) tr ∧
    plugin_current onload tr ∧ module_current onload tr ∧ sfc_module_current onload tr).
Proof.
  unfold handleUpdate, getNodesToUpgrade, listNodesWithLabels.
  wp_go; simplify_eq; try done.
  apply returns_early_false in Heqb as ->, Heqb0 as ->. destruct (H1 eq_refl) as [Hm Hs].
  split_and!.
  - do 2 apply listed_app_r. exists s, l. split; [done|]. split; [by left|].
    apply bool_decide_eq_true, nil_length_inv in Heqb1. apply Forall_forall. intros n Hn.
    unfold at_version. apply dec_stable. intros Hne.
    assert (In n (List.filter (needs_upgrade onload) l)) as Hin.
    { apply filter_In. split; [by apply list_elem_of_In|]. by apply bool_decide_eq_true. }
    by rewrite Heqb1 in Hin.
  - apply plugin_current_app. auto.
  - by apply module_current_app_r, module_current_app.
  - by apply sfc_module_current_app_r, sfc_module_current_app_l.
Qed.

(** C7. When [Reconcile] of a live resource returns an empty result and no
    error, so that nothing makes it run again, it has just seen the cluster in
    the state the resource asks for ([settled]). *)
Theorem reconcile_settled image req onload tr :
  onload_Version onload ≠ "" → meta_DeletionTimestamp (onload_meta onload) = None →
  runs (Reconcile image req) (Ev (S:=clientS) (GetOnload req) (inr onload) :: tr)
    (Done (no_result, None)) →
  settled onload tr.
Proof.
  intros Hv Hd Hr%reconcile_found.
  cut (wp (reconcile_onload image onload)
         (λ tr out, out = Done (no_result, None) → settled onload tr)).
  { rewrite wp_runs. eauto. }
  clear Hr tr. unfold reconcile_onload. rewrite Hd. simpl. wp_step; [wp_go; by intros|].
  eapply then_phase_wp; [apply addKmmLabelsToNodes_wp|apply addKmmLabelsToNodes_quiet
    |by intros ? r Hr [=]|done|]. intros tr1 _ (H1 & H2 & H3).
  eapply (then_phase_wp _ _ (λ _, True)); [apply createAndAddModules_wp|by apply wp_runs
    |by intros ? r Hr [=]|done|]. intros tr2 _ _.
  eapply then_phase_wp; [apply addOnloadLabelsToNodes_wp|by apply addOnloadLabelsToNodes_quiet
    |by intros ? r Hr [=]|done|]. intros tr3 _ (H4 & H5).
  eapply (then_phase_wp _ _ (λ _, True)); [apply createDevicePluginDaemonSet_wp|by apply wp_runs
    |by intros ? r Hr [=]|done|]. intros tr4 _ _.
  eapply then_phase_wp; [apply handleUpdate_wp|apply handleUpdate_quiet
    |by intros ? r Hr [=]|done|]. intros tr5 _ (H6 & H7 & H8 & H9).
  wp_go. rewrite app_nil_r. unfold settled. split_and!.
  - by apply listed_app_l.
  - by do 2 apply listed_app_r; apply listed_app_l.
  - by do 4 apply listed_app_r.
  - intros []; [by apply listed_app_l..|]. by do 2 apply listed_app_r; apply listed_app_l.
  - by do 4 apply plugin_current_app_r.
  - by do 4 apply module_current_app_r.
  - by do 4 apply sfc_module_current_app_r.
Qed.
End settled.

Lemma reconcile_settled_witness :
  length (tail (trace_of (sample_run quiet_cluster))) = 12 ∧
  settled (sample_onload "v1" (Some MkSFCSpec)) (tail (trace_of (sample_run quiet_cluster))).
Proof.
  pose proof (sample_run_found quiet_cluster (sample_onload "v1" (Some MkSFCSpec)) eq_refl) as Hrun.
  rewrite quiet_run in Hrun. split; [exact quiet_run_length|].
  assert (onload_Version (sample_onload "v1" (Some MkSFCSpec)) ≠ "") as Hv by done.
  exact (reconcile_settled _ _ _ _ Hv eq_refl Hrun).
Defined.
