(* ===== verification/ObjectsSpec.v ===== *)
(** * The Modules and the DaemonSet

    When the operator creates, patches and deletes them, and what they contain. *)

From S2P Require Import Prelude GoStd Effects ApiTypes Client Labels Modules NodeLabels DevicePluginDS Upgrade Reconcile ApiServer MemServer Samples.
From stdpp Require Import options.

Local Open Scope list_scope.

Section objects.
Context `{Apimachinery}.
Implicit Types (onload : Onload) (h tr : list (event clientS)).

(** ** When objects change *)

Inductive module_kind := OnloadModule | SFCModule.

Definition module_name onload (k : module_kind) : string :=
  onload_Name onload +:+ match k with OnloadModule => onloadModuleNameSuffix | SFCModule => sfcModuleNameSuffix end.
Definition module_mapper (k : module_kind) : OnloadKernelMapping → option kmm_KernelMapping :=
  match k with OnloadModule => onloadKernelMapper | SFCModule => sfcKernelMapper end.
Definition module_key onload k : NamespacedName :=
  MkNamespacedName (module_name onload k) (onload_Namespace onload).
Definition desired_module onload (k : module_kind) : kmm_Module :=
  match k with
  | OnloadModule => createModule onload (module_name onload k) "onload" "" onloadKernelMapper
  | SFCModule => createModule onload (module_name onload k) "sfc" "sfc" sfcKernelMapper
  end.
Definition module_used onload (k : module_kind) : bool :=
  match k with OnloadModule => true | SFCModule => onloadUsesSFC onload end.
Definition daemonset_key onload : NamespacedName :=
  MkNamespacedName (devicePluginName onload) (onload_Namespace onload).

(** The last call of the history. *)
Definition just (o : client_op) (r : client_reply o) h : Prop :=
  ∃ h', h = h' ++ [Ev (S:=clientS) o r].

(** Each change of a Module or of the DaemonSet answers what the operator has
    just read. *)
Definition object_guard (image : string) onload h (o : client_op) : Prop :=
  match o with
  | CreateModule m => ∃ k err meta,
      just (GetModule (module_key onload k)) (inl err) h ∧ IsNotFound err = true ∧
      module_used onload k = true ∧
      SetControllerReference onload (module_meta (desired_module onload k)) = inr meta ∧
      m = module_with_meta (desired_module onload k) meta
  | PatchModule old new => ∃ k,
      just (GetModule (module_key onload k)) (inr old) h ∧ module_used onload k = true ∧
      mlc_Version (module_Container old) ≠ onload_Version onload ∧
      new = module_upgraded onload (module_mapper k) old
  | DeleteModule m =>
      just (GetModule (module_key onload SFCModule)) (inr m) h ∧ onloadUsesSFC onload = false
  | CreateDaemonSet d => ∃ err meta,
      just (GetDaemonSet (daemonset_key onload)) (inl err) h ∧ IsNotFound err = true ∧
      SetControllerReference onload (ds_meta (devicePluginDaemonSet image onload)) = inr meta ∧
      d = daemonset_with_meta (devicePluginDaemonSet image onload) meta
  | PatchDaemonSet old new =>
      just (GetDaemonSet (daemonset_key onload)) (inr old) h ∧
      gomap_index (meta_Labels (ds_meta old)) onloadVersionLabel ≠ onload_Version onload ∧
      daemonset_upgraded onload old = inr new
  | _ => True
  end.

Lemma createAndAddModule_guard image onload h k modprobe intree :
  module_used onload k = true →
  desired_module onload k = createModule onload (module_name onload k) modprobe intree (module_mapper k) →
  hsafe (object_guard image onload) h
    (createAndAddModule onload (module_name onload k) modprobe intree (module_mapper k)).
Proof.
  intros Hu Hd. unfold createAndAddModule. rewrite <-Hd. hsafe_go; [done|].
  exists k, e, o. unfold just. apply negb_false_iff in Heqb. eauto 7.
Qed.

Lemma patchOrDeleteModule_guard image onload h k used :
  used = module_used onload k →
  hsafe (object_guard image onload) h
    (patchOrDeleteModule onload used (module_name onload k) (module_mapper k)).
Proof.
  intros ->. unfold patchOrDeleteModule, patchModule. hsafe_go; [done|..].
  - apply bool_decide_eq_false in Heqb0. exists k. unfold just. eauto.
  - destruct k; [done|]. split; [by eexists|done].
Qed.

Lemma object_guard_other image onload h o : changes_object o = false → object_guard image onload h o.
Proof. by destruct o. Qed.

Local Opaque createAndAddModule patchOrDeleteModule.

(** C13. Every change of a Module or of the DaemonSet by a reconciliation is
    justified by the call just before it, which read that object: it is created,
    as desired and owned by the resource, when it was not found; patched when its
    version differs, to carry the new version; and only the SFC Module is deleted,
    when no kernel mapping asks for it. *)
Theorem reconcile_object_guard image onload :
  hsafe (object_guard image onload) [] (reconcile_onload image onload).
Proof.
  assert (∀ h, hsafe (object_guard image onload) h (createAndAddModules onload)) as H1.
  { intros h. unfold createAndAddModules.
    pose proof (λ h, createAndAddModule_guard image onload h OnloadModule "onload" "" eq_refl eq_refl) as Ho.
    assert (onloadUsesSFC onload = true → ∀ h, hsafe (object_guard image onload) h
      (createAndAddModule onload (onload_Name onload +:+ sfcModuleNameSuffix) "sfc" "sfc" sfcKernelMapper)) as Hs.
    { intros Hu h'. by apply (createAndAddModule_guard image onload h' SFCModule). }
    unfold module_name in *. simpl in *.
    destruct (onloadUsesSFC onload); [specialize (Hs eq_refl)|]; hsafe_go. }
  assert (∀ h, hsafe (object_guard image onload) h (handleModuleUpdate onload)) as H2.
  { intros h. unfold handleModuleUpdate.
    pose proof (λ h, patchOrDeleteModule_guard image onload h OnloadModule true eq_refl) as Ho.
    pose proof (λ h, patchOrDeleteModule_guard image onload h SFCModule _ eq_refl) as Hs.
    unfold module_name in *. simpl in *. hsafe_go. }
  assert (∀ h, hsafe (object_guard image onload) h (createDevicePluginDaemonSet image onload)) as H3.
  { intros h. unfold createDevicePluginDaemonSet. hsafe_go; [done|].
    apply negb_false_iff in Heqb. exists e, o. unfold just. eauto 7. }
  assert (∀ h, hsafe (object_guard image onload) h (handleDevicePluginUpdate onload)) as H4.
  { intros h. unfold handleDevicePluginUpdate. hsafe_go; [done|].
    apply bool_decide_eq_false in Heqb. split; [by eexists|done]. }
  apply reconcile_objects_hsafe; auto using object_guard_other.
Qed.
End objects.

(** ** What the objects contain *)

(** The resource with a new release: the fields an upgrade propagates. *)
Definition with_release (o : Onload) (version userImage : string)
    (mappings : list OnloadKernelMapping) : Onload :=
  let s := onload_Spec o in
  MkOnload (onload_meta o)
    (MkSpec
       (MkOnloadSpec mappings userImage version
          (os_ImagePullPolicy (spec_Onload s)) (os_ControlPlane (spec_Onload s)))
       (spec_DevicePlugin s) (spec_Selector s) (spec_ServiceAccountName s)).

(** C14. An upgrade to a new version, user image and kernel mappings turns the
    Modules and the DaemonSet of the old release into exactly those that a fresh
    installation of the new release creates. *)
Theorem upgrade_reaches_fresh o version userImage mappings image name modprobe intree f :
  let new := with_release o version userImage mappings in
  module_upgraded new f (createModule o name modprobe intree f) =
    createModule new name modprobe intree f ∧
  daemonset_upgraded new (devicePluginDaemonSet image o) = inr (devicePluginDaemonSet image new).
Proof.
  split; [done|].
  unfold daemonset_upgraded. simpl. unfold devicePluginDaemonSet, with_Labels, dsLabels. simpl.
  rewrite insert_insert_eq. reflexivity.
Qed.

(** A mapping of the SFC Module: the same image, which has been built already for
    the Onload module. *)
Definition sfc_mapping (m : OnloadKernelMapping) : kmm_KernelMapping :=
  MkKmmKernelMapping (okm_Regexp m) (okm_KernelModuleImage m) None.

Lemma kernelMappings_omap f specs : kernelMappings f specs = omap f specs.
Proof. induction specs as [|s specs IH]; [done|]. simpl. destruct (f s); by rewrite IH. Qed.

Lemma kernelMappings_sfc specs :
  kernelMappings sfcKernelMapper specs =
  map sfc_mapping (List.filter (λ m, non_nil (okm_SFC m)) specs).
Proof.
  induction specs as [|s specs IH]; [done|]. simpl. unfold sfcKernelMapper at 1.
  destruct (okm_SFC s); simpl; by rewrite IH.
Qed.

(** What a build says: its arguments, in order, each a name with its value, and the
    config map of its Dockerfile. *)
Definition build_said (b : OnloadKernelBuild) : list (string * string) * option LocalObjectReference :=
  (map (λ a, (BuildArg_Name a, BuildArg_Value a)) (okb_BuildArgs b), okb_DockerfileConfigMap b).
Definition kmm_build_said (b : kmm_Build) : list (string * string) * option LocalObjectReference :=
  (map (λ a, (kba_Name a, kba_Value a)) (kb_BuildArgs b), kb_DockerfileConfigMap b).

(** C26. The Module of [onload] has one mapping per kernel mapping of the
    resource, in order, for the same kernels and images, and with a build exactly
    when that has one: with the same arguments, in the same order, each with its
    value, and with the same config map for the Dockerfile.  The SFC Module has those
    of the mappings that ask for SFC, without a build; it has at least one exactly
    when the operator uses the SFC module. *)
Theorem module_mappings_spec onload :
  let specs := onload_Mappings onload in
  let of_onload := mlc_KernelMappings (module_Container (desired_module onload OnloadModule)) in
  let of_sfc := mlc_KernelMappings (module_Container (desired_module onload SFCModule)) in
  map km_Regexp of_onload = map okm_Regexp specs ∧
  map km_ContainerImage of_onload = map okm_KernelModuleImage specs ∧
  map (λ m, option_map kmm_build_said (km_Build m)) of_onload =
    map (λ m, option_map build_said (okm_Build m)) specs ∧
  of_sfc = map sfc_mapping (List.filter (λ m, non_nil (okm_SFC m)) specs) ∧
  (of_sfc ≠ [] ↔ onloadUsesSFC onload = true).
Proof.
  simpl. rewrite kernelMappings_sfc. unfold onloadUsesSFC.
  assert (kernelMappings onloadKernelMapper (onload_Mappings onload) =
          map (λ m, default (MkKmmKernelMapping "" "" None) (onloadKernelMapper m)) (onload_Mappings onload)) as ->.
  { induction (onload_Mappings onload) as [|s l IH]; [done|]. simpl. by rewrite IH. }
  rewrite !map_map. split_and!; [done|done| |done|].
  - apply map_ext. intros m. simpl. destruct (okm_Build m) as [b|]; [|done].
    unfold build_said, kmm_build_said. simpl. by rewrite map_map.
  - rewrite existsb_exists. split.
    + intros Hne. destruct (List.filter _ _) as [|m l] eqn:Hf; [done|].
      exists m. apply (proj1 (filter_In (λ m, non_nil (okm_SFC m)) _ _)). rewrite Hf. by left.
    + intros (m & Hm) Hnil%map_eq_nil. apply (proj2 (filter_In (λ m, non_nil (okm_SFC m)) _ _)) in Hm.
      by rewrite Hnil in Hm.
Qed.

(** ** The DaemonSet is consistent with itself and with the operator *)

Definition declared (volumes : list Volume) (c : Container) : bool :=
  forallb (λ m, existsb (λ v, String.eqb (vm_Name m) (v_Name v)) volumes) (c_VolumeMounts c).

(** C25. The DaemonSet of a resource: its selector selects its own pods and those
    of no other resource; the labels by which an upgrade looks for device plugin
    pods select them too; it is scheduled by the operator's label of the resource;
    it is at the version of the resource, so a fresh one needs no upgrade; its
    volumes have different names, and each mount has a volume. *)
Theorem daemonset_consistent image onload :
  let d := devicePluginDaemonSet image onload in
  ds_MatchLabels d = ds_TemplateLabels d ∧
  (∀ onload', dsPodLabels onload' = dsPodLabels onload →
     onload_Name onload' = onload_Name onload ∧ onload_Namespace onload' = onload_Namespace onload) ∧
  (∀ k v, devicePluginPodSet onload !! k = Some v → gomap_get (ds_TemplateLabels d) k = Some v) ∧
  ps_NodeAffinity (ds_PodSpec d) =
    [MkNodeSelectorRequirement (onloadLabelName (onload_Name onload) (onload_Namespace onload)) "Exists" []] ∧
  gomap_index (meta_Labels (ds_meta d)) onloadVersionLabel = onload_Version onload ∧
  NoDup (map v_Name (ps_Volumes (ds_PodSpec d))) ∧
  forallb (declared (ps_Volumes (ds_PodSpec d)))
    (ps_InitContainers (ds_PodSpec d) ++ ps_Containers (ds_PodSpec d)) = true.
Proof.
  simpl. split_and!; [done| | |done| | |done].
  - intros onload' Heq.
    assert (∀ o, dsPodLabels o !! "onload.amd.com/name" = Some (devicePluginName o)) as H1.
    { intros o. apply lookup_insert_eq. }
    assert (∀ o, dsPodLabels o !! "app.kubernetes.io/instance" =
                 Some ("onload-" +:+ onload_Namespace o +:+ "-" +:+ onload_Name o)) as H2.
    { intros o. unfold dsPodLabels, baseLabels. by rewrite lookup_insert_ne by done. }
    pose proof (H1 onload') as Hn. rewrite Heq, H1 in Hn. injection Hn as Hn.
    apply string_app_inj_r in Hn. pose proof (H2 onload') as Hi. rewrite Heq, H2, Hn in Hi.
    injection Hi as Hi. by apply string_app_inj_r in Hi.
  - unfold devicePluginPodSet. intros k v [<- <-]%lookup_singleton_Some. apply lookup_insert_eq.
  - unfold gomap_index. simpl. unfold dsLabels. by rewrite lookup_insert_eq.
  - repeat constructor; set_solver.
Qed.
