(* ===== verification/Crashes.v ===== *)
(** * When a reconciliation panics

    Writing to a nil label map and indexing an empty list of init containers are
    the operator's only run-time panics.  They need an object the operator would
    not have made itself. *)

From S2P Require Import Prelude GoStd Effects ApiTypes Client Labels Modules NodeLabels DevicePluginDS Upgrade Reconcile ApiServer MemServer Samples.
From stdpp Require Import options.

Local Open Scope list_scope.

Section crashes.
Context `{Apimachinery}.
Implicit Types (onload : Onload) (node : Node) (tr : list (event clientS)).

Definition node_without_labels node : Prop := node_Labels node = None.

(** A reply that the code cannot handle. *)
Definition bad_reply (e : event clientS) : Prop :=
  match e with
  | Ev o r =>
      match o return client_reply o → Prop with
      | ListNodes _ => λ r, match r with inr nodes => Exists node_without_labels nodes | inl _ => False end
      | PatchNode _ _ => λ r, r = inr None
      | GetDaemonSet _ => λ r, match r with
                               | inr d => meta_Labels (ds_meta d) = None ∨
                                          ps_InitContainers (ds_PodSpec d) = []
                               | inl _ => False
                               end
      | _ => λ _, False
      end r
  end.

(** A crash needs [P], or a bad reply in the trace. *)
Definition crash_needs {A} (P : Prop) tr (out : outcome A) : Prop :=
  match out with Crashed _ => P ∨ Exists bad_reply tr | Done _ => True end.

Lemma crash_needs_app {A} P tr tr' (out : outcome A) :
  crash_needs P tr' out → crash_needs P (tr ++ tr') out.
Proof. destruct out; [done|]. intros [?|?]; [by left|right]. apply Exists_app. by right. Qed.

Lemma crash_needs_cons {A} (P : Prop) e tr (out : outcome A) :
  crash_needs (P ∨ bad_reply e) tr out → crash_needs P (e :: tr) out.
Proof.
  destruct out; [done|]. intros [[?|?]|?]; [by left|right; by left|right; by right].
Qed.

Lemma crash_needs_impl {A} (P Q : Prop) tr (out : outcome A) :
  (P → Q) → crash_needs P tr out → crash_needs Q tr out.
Proof. destruct out; [done|]. intros HPQ [?|?]; [left|right]; auto. Qed.

(** Finishes the goals of a phase: returns need nothing, a crash comes from its
    last call. *)
Ltac crash_go :=
  wp_go; try done;
  repeat match goal with
         | |- crash_needs _ (_ ++ _) _ => apply crash_needs_app
         | |- crash_needs False (_ :: _) _ => apply (crash_needs_app _ [_])
         end; try done.

Lemma removeStaleLabels_crash onload key : wp (removeStaleLabels onload key) (crash_needs False).
Proof.
  assert (∀ sel nodes c, wp (removeStaleLabels_loop sel key nodes c) (crash_needs False)) as Hloop.
  { intros sel nodes. induction nodes as [|n nodes IH]; intros c; crash_go. }
  unfold removeStaleLabels, listNodesWithLabels. crash_go.
Qed.
Local Hint Resolve removeStaleLabels_crash : wp.

Lemma addKmmLabelToNode_crash onload node key set :
  wp (addKmmLabelToNode onload node key set) (λ tr out,
    crash_needs (node_without_labels node) tr out ∧
    ∀ r c, out = Done (r, c, None) → node_without_labels node ∨ Exists bad_reply tr).
Proof.
  unfold addKmmLabelToNode. wp_go; simplify_eq; split; try done; intros; simplify_eq; auto.
  - unfold gomap_set in *. by destruct (node_Labels node).
  - right. apply Exists_cons. right. by left.
  - left. by apply gomap_set_nil in Heqo.
Qed.
Local Hint Resolve addKmmLabelToNode_crash : wp.

Lemma addKmmLabels_loop_crash onload nodes c :
  wp (addKmmLabels_loop onload nodes c) (crash_needs (Exists node_without_labels nodes)).
Proof.
  revert c. induction nodes as [|n nodes IH]; intros c; [by wp_go|].
  wp_go; repeat match goal with Hc : _ ∧ _ |- _ => destruct Hc as [? ?] end; try done.
  - do 2 apply crash_needs_app. eapply crash_needs_impl; [|exact H2]. by right.
  - destruct H1 as [Hg|Hb]; [|right; apply Exists_app; by right].
    change (g = None) in Hg. subst g.
    match goal with Hg : ∀ r c, _ = _ → node_without_labels n ∨ _ |- _ => destruct (Hg _ _ eq_refl) as [Hn|Hn] end;
      [left; by left|right; apply Exists_app; by left].
  - apply crash_needs_app. eapply crash_needs_impl; [|done]. by right.
  - eapply crash_needs_impl; [|done]. by left.
Qed.
Local Hint Resolve addKmmLabels_loop_crash : wp.

(** Crashes about the nodes of a listing. *)
Lemma crash_needs_listed {A} sel nodes tr (out : outcome A) :
  crash_needs (Exists node_without_labels nodes) tr out →
  crash_needs False (Ev (S:=clientS) (ListNodes sel) (inr nodes) :: tr) out.
Proof. intros Hc. apply crash_needs_cons. eapply crash_needs_impl; [|exact Hc]. by right. Qed.

Lemma addKmmLabelsToNodes_crash onload : wp (addKmmLabelsToNodes onload) (crash_needs False).
Proof.
  unfold addKmmLabelsToNodes, listNodesWithLabels. wp_go; try done.
  - apply (crash_needs_app _ [_]), crash_needs_app, crash_needs_app. done.
  - apply (crash_needs_app _ [_]), crash_needs_app. done.
  - by apply crash_needs_listed.
Qed.

Lemma addOnloadLabelsToNodes_crash onload : wp (addOnloadLabelsToNodes onload) (crash_needs False).
Proof.
  assert (∀ nodes c, wp (addOnloadLabels_loop onload nodes c)
                       (crash_needs (Exists node_without_labels nodes))) as Hloop.
  { intros nodes. induction nodes as [|n nodes IH]; intros c; [by wp_go|]. wp_go; try done.
    1, 2: eapply crash_needs_impl; [|done]; by right.
    - apply (crash_needs_app _ [_]). eapply crash_needs_impl; [|done]. by right.
    - left. left. by apply gomap_set_nil in Heqo. }
  unfold addOnloadLabelsToNodes, listNodesWithLabels. wp_go; try done.
  - apply (crash_needs_app _ [_]), crash_needs_app. done.
  - by apply crash_needs_listed.
Qed.

Lemma createAndAddModules_crash onload : wp (createAndAddModules onload) (crash_needs False).
Proof. unfold createAndAddModules, createAndAddModule. crash_go. Qed.

Lemma createDevicePluginDaemonSet_crash image onload :
  wp (createDevicePluginDaemonSet image onload) (crash_needs False).
Proof. unfold createDevicePluginDaemonSet. crash_go. Qed.

Lemma daemonset_upgrade_panics onload d :
  (∃ c, daemonset_upgraded onload d = inl c) ↔
  meta_Labels (ds_meta d) = None ∨ ps_InitContainers (ds_PodSpec d) = [].
Proof.
  unfold daemonset_upgraded. destruct (meta_Labels _); simpl.
  - destruct (ps_InitContainers _); [split; eauto|]. split; [by intros [? ?]|by intros [|]].
  - split; eauto.
Qed.

Lemma handleDevicePluginUpdate_crash onload : wp (handleDevicePluginUpdate onload) (crash_needs False).
Proof.
  unfold handleDevicePluginUpdate. wp_go; try done. right. left. simpl.
  apply (daemonset_upgrade_panics onload). eauto.
Qed.

Lemma handleModuleUpdate_crash onload : wp (handleModuleUpdate onload) (crash_needs False).
Proof. unfold handleModuleUpdate, patchOrDeleteModule, patchModule. crash_go. Qed.

Lemma handleNodeUpdate_crash onload node : wp (handleNodeUpdate onload node) (crash_needs False).
Proof.
  assert (∀ pods, wp (evict_loop pods) (crash_needs False)) as Hloop.
  { intros pods. induction pods as [|p pods IH]; crash_go. }
  unfold handleNodeUpdate, evictOnloadedPods, getPodsUsingOnload, getPodsOnNode, deleteLabelFromNode.
  crash_go.
Qed.
Local Hint Resolve handleDevicePluginUpdate_crash handleModuleUpdate_crash handleNodeUpdate_crash : wp.
Local Opaque handleNodeUpdate.

Lemma handleUpdate_crash onload : wp (handleUpdate onload) (crash_needs False).
Proof.
  unfold handleUpdate, getNodesToUpgrade, listNodesWithLabels. crash_go.
  apply bool_decide_eq_false in Heqb1.
  destruct (MinFunc_nonempty node_Name (List.filter (needs_upgrade onload) l)) as [n Hn].
  { intros Hnil. by rewrite Hnil in Heqb1. }
  unfold compare_names in Heqo. congruence.
Qed.
Local Hint Resolve addKmmLabelsToNodes_crash addOnloadLabelsToNodes_crash createAndAddModules_crash
  createDevicePluginDaemonSet_crash handleUpdate_crash : wp.

(** C27. [Reconcile] of a resource never panics unless the API server returned
    a node without labels, or a DaemonSet without labels or init containers. *)
Theorem reconcile_no_panic image onload :
  wp (reconcile_onload image onload) (λ tr out, ∀ c, out = Crashed c → Exists bad_reply tr).
Proof.
  cut (wp (reconcile_onload image onload) (crash_needs False)).
  { apply wp_mono. intros tr out Hc c ->. by destruct Hc. }
  unfold reconcile_onload, then_phase. crash_go.
Qed.
End crashes.
