(* ===== verification/System.v ===== *)
(** * The programs together

    What the operator writes into the DaemonSet is what the device plugin and the
    worker, which run in its pods, read: the arguments, the environment, the mounts,
    and the name of the resource that the operator looks for in pods.  The kubelet
    is taken to pass arguments and environment values as they are. *)

From S2P Require Import Prelude GoStd GoFmt GoPath GoFlag Effects Nic Host Manager ManagerSpec Rpc PluginMain Worker WorkerSpec ApiTypes Client Labels DevicePluginDS Upgrade.
From Stdlib Require Import Ascii.
From stdpp Require Import options.

Local Open Scope list_scope.

(** ** The arguments of the device plugin *)

(** The configuration that a resource asks for: the defaults for what it leaves
    out. *)
Definition config_of (dp : DevicePluginSpec) : NicManagerConfig := {|
  MaxPodsPerNode := default (MaxPodsPerNode DefaultConfig) (dps_MaxPodsPerNode dp);
  SetPreload := default (SetPreload DefaultConfig) (dps_SetPreload dp);
  MountOnload := default (MountOnload DefaultConfig) (dps_MountOnload dp);
  HostPathPrefix := default (HostPathPrefix DefaultConfig) (dps_HostOnloadPath dp);
  BaseMountPath := default (BaseMountPath DefaultConfig) (dps_BaseMountPath dp);
  BinMountPath := default (BinMountPath DefaultConfig) (dps_BinMountPath dp);
  LibMountPath := default (LibMountPath DefaultConfig) (dps_LibMountPath dp);
  NeedNic := NeedNic DefaultConfig |}.

(** The range of [int] in Go on 64-bit platforms. *)
Definition int_range (z : Z) : Prop := (- 2 ^ 63 ≤ z < 2 ^ 63)%Z.

Lemma split_eq_flag name value :
  char_free "="%char name = true → split_eq (name +:+ "=" +:+ value) = (name, Some value).
Proof.
  induction name as [|c name IH]; intros Hf; [done|].
  apply andb_true_iff in Hf as [Hc%bool_decide_eq_true Hf].
  rewrite string_app_cons. simpl. rewrite bool_decide_eq_false_2 by congruence. simpl in IH. by rewrite IH.
Qed.

Lemma classify_flag c name value :
  bool_decide (c = "-"%char) = false → bool_decide (c = "="%char) = false →
  char_free "="%char name = true →
  classify_arg ("-" +:+ String c name +:+ "=" +:+ value) = ArgFlag (String c name) (Some value).
Proof.
  intros Hd He Hf. rewrite string_app_cons. unfold classify_arg. simpl. rewrite Hd. simpl.
  unfold split_name. rewrite Hd, He. pose proof (split_eq_flag name value Hf) as Hs. simpl in *. by rewrite Hs.
Qed.

(** One optional argument, in front of others. *)
Lemma parse_flag_arg {A} lf (c : ascii) name (show : A → string) (o : option A) f
    (set : A → NicManagerConfig → NicManagerConfig) args config :
  bool_decide (c = "-"%char) = false → bool_decide (c = "="%char) = false →
  char_free "="%char name = true →
  lookup_flag plugin_flags lf (String c name) = Some f →
  (∀ a, o = Some a → flag_Set f (show a) config = Some (set a config)) →
  parse_flags plugin_flags lf (flag_arg (String c name) show o ++ args) config =
  parse_flags plugin_flags lf args (match o with Some a => set a config | None => config end).
Proof.
  intros Hd He Hf Hl Hset. destruct o as [a|]; [|done]. unfold flag_arg.
  change ([?x] ++ args) with (x :: args). unfold parse_flags; fold (parse_flags plugin_flags lf).
  rewrite classify_flag by done. rewrite Hl. by rewrite (Hset a eq_refl).
Qed.

Lemma IntVar_Set (set : Z → NicManagerConfig → NicManagerConfig) z config :
  int_range z → flag_Set (IntVar set) (Itoa z) config = Some (set z config).
Proof. intros Hz. unfold IntVar, flag_Set. by rewrite (ParseInt_Itoa z Hz). Qed.

Lemma BoolVar_Set (set : bool → NicManagerConfig → NicManagerConfig) b config :
  flag_Set (BoolVar set) (FormatBool b) config = Some (set b config).
Proof. unfold BoolVar, flag_Set. by rewrite ParseBool_FormatBool. Qed.

Lemma parse_devicePluginArgs lf dp :
  (∀ z, dps_MaxPodsPerNode dp = Some z → int_range z) →
  parse_flags plugin_flags lf (devicePluginArgs dp) DefaultConfig = Some (config_of dp).
Proof.
  intros Hz. unfold devicePluginArgs. rewrite <-(app_nil_r (flag_arg "libMountPath" _ _)).
  erewrite (parse_flag_arg lf "m" "axPods" Itoa _ (IntVar set_MaxPodsPerNode)) by eauto using IntVar_Set.
  erewrite (parse_flag_arg lf "s" "etPreload" _ _ (BoolVar set_SetPreload)) by eauto using BoolVar_Set.
  erewrite (parse_flag_arg lf "m" "ountOnload" _ _ (BoolVar set_MountOnload)) by eauto using BoolVar_Set.
  erewrite (parse_flag_arg lf "h" "ostOnloadPath" _ _ (StringVar set_HostPathPrefix)) by done.
  erewrite (parse_flag_arg lf "b" "aseMountPath" _ _ (StringVar set_BaseMountPath)) by done.
  erewrite (parse_flag_arg lf "b" "inMountPath" _ _ (StringVar set_BinMountPath)) by done.
  erewrite (parse_flag_arg lf "l" "ibMountPath" _ _ (StringVar set_LibMountPath)) by done.
  by destruct dp as [? [] [] [] [] [] [] []].
Qed.

(** C16. The device plugin reads back from its arguments the configuration that the
    resource asks for, with its own defaults for what the resource leaves out,
    whatever flags glog adds; and the directory of the host that it mounts the
    libraries from is the one that the operator gave to the init container to fill,
    and that is deleted when the pod stops. *)
Theorem devicePluginArgs_roundtrip lf image onload :
  let dp := spec_DevicePlugin (onload_Spec onload) in
  let c := devicePluginContainer image onload in
  (∀ z, dps_MaxPodsPerNode dp = Some z → int_range z) →
  parse_flags plugin_flags lf (c_Args c) DefaultConfig = Some (config_of dp) ∧
  HostPathPrefix (config_of dp) = hostOnloadPath onload ∧
  In (MkVolume "host-onload" (HostPath (HostPathPrefix (config_of dp)) "DirectoryOrCreate"))
     (dsVolumes onload) ∧
  In (MkVolumeMount "/host/onload" "host-onload") (c_VolumeMounts (initContainer onload)) ∧
  In (MkVolumeMount (HostPathPrefix (config_of dp)) "host-onload") (c_VolumeMounts c) ∧
  c_PreStop c = Some (preStopCommand (HostPathPrefix (config_of dp))).
Proof.
  intros dp c Hz. split_and!; [by apply parse_devicePluginArgs|done| | | |done].
  - right. by left.
  - by left.
  - right. by left.
Qed.

(** ** The resource *)

Section plugin.
Context {PA : PluginApi}.

Lemma unanswered_registers path n tr : unanswered path n tr → Forall not_register tr.
Proof. intros Hu. induction Hu; [constructor|]. by repeat constructor. Qed.

(** If the call registers, then with the request of [rpc]. *)
Definition registers_as (rpc : RPCServer) (e : event hostS) : Prop :=
  ∀ req, ev_op e = Register req → req = expected_request rpc.

Lemma Run_registers fuel rpc : wp (Run fuel rpc) (λ tr out, Forall (registers_as rpc) tr).
Proof.
  assert (∀ tr, Forall not_register tr → Forall (registers_as rpc) tr) as Hn.
  { intros tr H. eapply Forall_impl; [exact H|]. intros e He req Hr. by destruct (He req). }
  unfold Run. eapply wp_then; [apply WaitUntilUp_spec|]. intros tr out Hw.
  assert (Forall (registers_as rpc) tr) as Htr.
  { destruct Hw as [(n & tr' & _ & Hu & _ & ->)|[Hu _]]; apply Hn.
    - apply Forall_app. split; [by eapply unanswered_registers|by repeat constructor].
    - by eapply unanswered_registers. }
  destruct out as [[[]|]|c]; [|wp_go; by rewrite app_nil_r|done].
  unfold RegisterPlugin, or_fatal. wp_go; (apply Forall_app; split; [done|]).
  all: repeat first [apply Forall_nil_2 | apply Forall_cons_2; [by intros req [= <-]|]].
Qed.
Local Hint Resolve NewNicManager_started Run_registers : wp.

Definition plugin_args (image : string) (onload : Onload) : list string :=
  c_Args (devicePluginContainer image onload).

(** What [main] does: it fails before it registers, or it starts a manager and then
    only registers that manager's server. *)
Definition plugin_run (config : NicManagerConfig) (tr : list (event hostS)) : Prop :=
  Forall not_register tr ∨
  ∃ start rest m, tr = start ++ rest ∧ started config start m ∧ Forall not_register start ∧
    Forall (registers_as (NewRPCServer m)) rest.

Lemma deviceplugin_main_run lf fuel args logtostderr config :
  parse_flags plugin_flags lf args DefaultConfig = Some config →
  wp (deviceplugin_main lf fuel args logtostderr) (λ tr out, plugin_run config tr).
Proof.
  intros Hp. unfold deviceplugin_main, or_fatal. rewrite Hp. wp_go.
  - left. constructor.
  - left. rewrite app_nil_r. apply H.
  - right. destruct H as [Hn Hs]. by exists tr, tr0, n; auto.
  - left. apply H.
Qed.

Lemma started_manager config tr m :
  started config tr m →
  nm_config m = config ∧
  Z.of_nat (length (nm_devices m)) = Z.max 0 (MaxPodsPerNode config).
Proof.
  intros (_ & _ & output & euid & r1 & r2 & _ & _ & ->). split; [done|].
  simpl. rewrite length_map, length_seq. lia.
Qed.

(** C15. The device plugin of a DaemonSet that the operator made registers, if at
    all, the resource that the operator looks for in pods before it unloads a
    module, on a socket in the directory of the host that the DaemonSet mounts; it
    does so only after it found an interface; and the server behind the socket has
    the configuration of the resource, does not both preload and mount the script,
    and offers as many devices as the resource asks for. *)
Theorem deviceplugin_registers lf fuel image onload logtostderr :
  let config := config_of (spec_DevicePlugin (onload_Spec onload)) in
  (∀ z, dps_MaxPodsPerNode (spec_DevicePlugin (onload_Spec onload)) = Some z → int_range z) →
  DevicePluginPath = "/var/lib/kubelet/device-plugins/" →
  wp (deviceplugin_main lf fuel (plugin_args image onload) logtostderr) (λ tr out,
    ∀ (e : event hostS) req, In e tr → ev_op e = Register req →
      rr_ResourceName req = onloadResource ∧
      (∃ dir, In (MkVolumeMount dir "kubelet-socket")
                 (c_VolumeMounts (devicePluginContainer image onload)) ∧
              In (MkVolume "kubelet-socket" (HostPath dir "Directory")) (dsVolumes onload) ∧
              getRPCSockPath = path_Join [dir; rr_Endpoint req]) ∧
      ∃ start rest m, tr = start ++ rest ∧ started config start m ∧
        Forall not_register start ∧
        nm_config m = config ∧ nm_interfaces m ≠ [] ∧
        SetPreload config && MountOnload config = false ∧
        Z.of_nat (length (nm_devices m)) = Z.max 0 (MaxPodsPerNode config) ∧
        req = expected_request (NewRPCServer m)).
Proof.
  intros config Hz Hp. eapply wp_mono; [|by apply deviceplugin_main_run, parse_devicePluginArgs].
  intros tr out Hrun e req He%list_elem_of_In Hreq.
  destruct Hrun as [Hn|(start & rest & m & -> & Hs & Hn & Hr)].
  { rewrite Forall_forall in Hn. by destruct (Hn e He req). }
  rewrite Forall_forall in Hn, Hr.
  apply elem_of_app in He as [He|He]; [by destruct (Hn e He req)|].
  pose proof (Hr e He req Hreq) as ->. split_and!.
  - done.
  - exists "/var/lib/kubelet/device-plugins". split; [by left|]. split; [by left|].
    unfold getRPCSockPath. simpl. unfold getRPCSockPath. rewrite Hp. by vm_compute.
  - exists start, rest, m. destruct (started_manager _ _ _ Hs) as [Hc Hl].
    assert (nm_interfaces m ≠ [] ∧ SetPreload config && MountOnload config = false) as [Hi Hb]
      by (destruct Hs as (Hboth & Hnic & _); split; [by apply Hnic|done]).
    rewrite <-Forall_forall in Hn. done.
Qed.
End plugin.

(** ** The environment of the worker *)

(** The value of a variable in a container of the pod [pod_name] of [ns]. *)
Definition env_value (ns pod_name : string) (env : list EnvVar) (key : string) : string :=
  match List.find (λ v, String.eqb (env_Name v) key) env with
  | None => ""
  | Some v =>
      match env_Source v with
      | EnvValue value => value
      | EnvFieldPath path =>
          if String.eqb path "metadata.name" then pod_name
          else if String.eqb path "metadata.namespace" then ns
          else ""
      end
  end.

(** Every read of a variable gives its value in [env]. *)
Definition getenv_in (env : string → string) (e : event hostS) : Prop :=
  match e with
  | Ev o r =>
      match o return host_reply o → Prop with
      | Getenv key => λ value, value = env key
      | _ => λ _, True
      end r
  end.
Definition in_env (env : string → string) (tr : list (event hostS)) : Prop :=
  Forall (getenv_in env) tr.

Lemma in_env_start env ns pod_name name path params tr :
  in_env env (worker_start ns pod_name name path params ++ tr) →
  ns = env "POD_NAMESPACE" ∧ pod_name = env "POD_NAME" ∧ name = env "CONTAINER_NAME" ∧
  path = env "ONLOAD_CP_SERVER_PATH" ∧ params = env "ONLOAD_CP_SERVER_PARAMS".
Proof.
  unfold in_env, worker_start. rewrite Forall_app, !Forall_cons. intros H.
  destruct H as [(H1 & H2 & H3 & H4 & H5 & _) _]. by split_and!.
Qed.

(** What the worker of a resource does in a pod that runs. *)
Definition worker_done `{BackOff} (onload : Onload) (ns pod_name : string)
    (tr : list (event hostS)) (out : outcome (option unit)) : Prop :=
  ∃ n polls pod runtime id writes result,
    tr = worker_start ns pod_name workerContainerName workerCPServerPath (cplaneParams onload) ++
         polls ++ [Ev (S:=hostS) (GetPod ns pod_name) (inr pod)] ++ writes ∧
    polled ns pod_name workerContainerName (NewBackOff backOffInitial backOffMax) n polls ∧
    status_ContainerID workerContainerName pod = inr (Some (runtime +:+ "://" +:+ id)) ∧
    configured id workerCPServerPath (cplaneParams onload) writes result ∧
    out = match result with
          | None => Done (Some ())
          | Some _ => Crashed (Fatal "Failed to configure Onload control plane")
          end.

(** C17. In a pod that the operator made, the worker asks for its own pod, until it
    sees its own container up; only then it tells the kernel module to run, in that
    container, the control plane server from the volume that the init container
    filled, with the parameters of the resource, or [-K] if it gives none.  It goes
    to sleep only after both writes; in every other case it ends without a write
    or with a failed one. *)
Theorem worker_configures `{BackOff} fuel logtostderr image onload ns pod_name :
  let c := workerContainer image onload in
  wp (worker_main fuel logtostderr) (λ tr out,
    in_env (env_value ns pod_name (c_Env c)) tr →
    (writes_nothing tr ∧ out ≠ Done (Some ())) ∨ worker_done onload ns pod_name tr out).
Proof.
  intros c. eapply wp_mono; [|apply worker_main_run]. intros tr out Hrun He.
  destruct Hrun as [Hn|(ns' & pod' & name & path & params & n & polls & pod & runtime & id &
    writes & result & -> & Hp & Hs & Hc & ->)]; [by left|right].
  apply in_env_start in He as (-> & -> & -> & -> & ->).
  by exists n, polls, pod, runtime, id, writes, result.
Qed.

(** ** Samples *)

Definition sample_dp : DevicePluginSpec :=
  MkDevicePluginSpec "Always" (Some 12%Z) (Some false) (Some true) None (Some "/a=b") None
    (Some "-x").
Definition sample_system : Onload :=
  MkOnload (MkObjectMeta "sample" "default" "uid" None [] None)
    (MkSpec (MkOnloadSpec [] "user-image" "1.0" "Always" (Some (MkControlPlaneSpec (Some ["-a"; "-b"]))))
       sample_dp ∅ "").

Lemma sample_int_range z : dps_MaxPodsPerNode sample_dp = Some z → int_range z.
Proof. intros [= <-]. unfold int_range. lia. Qed.

Lemma devicePluginArgs_roundtrip_witness :
  devicePluginArgs sample_dp =
    ["-maxPods=12"; "-setPreload=false"; "-mountOnload=true"; "-baseMountPath=/a=b"; "-libMountPath=-x"] ∧
  parse_flags plugin_flags (λ _, None) (c_Args (devicePluginContainer "image" sample_system)) DefaultConfig =
    Some (config_of sample_dp).
Proof.
  split; [reflexivity|].
  exact (proj1 (devicePluginArgs_roundtrip (λ _, None) "image" sample_system sample_int_range)).
Defined.

(** A host with one interface, where the kubelet answers. *)
Definition sample_lshw : string :=
  "H/W path   Device   Class   Description" +:+ newline +:+ "=======" +:+ newline +:+
  "/0/100/1b/0  enp2s0f0  network  XtremeScale SFC9250" +:+ newline.
Definition system_host (o : op hostS) (now : Z) : reply o * Z :=
  match o return host_reply o * Z with
  | Lshw => ((sample_lshw, None), now)
  | Getenv key =>
      (env_value "ns" "pod" (workerContainerEnv sample_system) key, now)
  | GetPod _ _ => (inr [MkContainerStatus "onload-worker" true (Some true) true "cri-o://0123"], now)
  | o => sample_host o now
  end.

Definition sample_plugin_run : outcome (option unit) * list (event hostS) * Z :=
  exec system_host (deviceplugin_main (λ _, None) 3 (plugin_args "image" sample_system) None) 0%Z.

Definition sample_request : RegisterRequest :=
  MkRegisterRequest "v1beta1" "sfc-deviceplugin.sock" "amd.com/onload"
    (Some (MkDevicePluginOptions false false)).

Lemma sample_plugin_registers :
  nth_error sample_plugin_run.1.2 6 = Some (Ev (S:=hostS) (Register sample_request) None).
Proof. vm_compute. reflexivity. Qed.

Lemma deviceplugin_registers_witness :
  In (Ev (S:=hostS) (Register sample_request) None) sample_plugin_run.1.2 ∧
  rr_ResourceName sample_request = onloadResource.
Proof.
  pose proof (nth_error_In _ _ sample_plugin_registers) as Hin. split; [exact Hin|].
  pose proof (proj1 (wp_runs _ _)
    (deviceplugin_registers (λ _, None) 3 "image" sample_system None sample_int_range eq_refl)
    _ _ (exec_runs system_host _ 0%Z)) as H.
  exact (proj1 (H _ sample_request Hin eq_refl)).
Defined.

Definition sample_worker_run : outcome (option unit) * list (event hostS) * Z :=
  exec system_host (worker_main 3 None) 0%Z.

Lemma sample_worker_env :
  in_env (env_value "ns" "pod" (workerContainerEnv sample_system)) sample_worker_run.1.2.
Proof. unfold in_env. vm_compute. repeat constructor. Qed.

Lemma sample_worker_out : sample_worker_run.1.1 = Done (Some ()).
Proof. vm_compute. reflexivity. Qed.

Lemma worker_configures_witness :
  in_env (env_value "ns" "pod" (workerContainerEnv sample_system)) sample_worker_run.1.2 ∧
  worker_done sample_system "ns" "pod" sample_worker_run.1.2 (Done (Some ())).
Proof.
  split; [exact sample_worker_env|].
  pose proof (proj1 (wp_runs _ _) (worker_configures 3 None "image" sample_system "ns" "pod")
    _ _ (exec_runs system_host _ 0%Z) sample_worker_env) as H.
  destruct H as [[_ H]|H]; [destruct (H sample_worker_out)|].
  pose proof sample_worker_out as Hout. unfold sample_worker_run in *. rewrite Hout in H. exact H.
Defined.
